(* ===== verification/_CoqProject ===== *)
-Q . S2P
Prelude.v
Machine.v
Inet.v
Posix.v
Wrap.v
Heap.v
Stream.v
Frame.v
Cksum.v
Sockaddr.v
Rtt.v
Nonblock.v
Servers.v
Gai.v
NetLib.v
Mcast.v
Daemon.v
Web.v
FdPass.v
Child.v
Rounds.v
Prefork.v
Pool.v
Packet.v
Trace.v
Ping.v
UdpCksum.v
Icmpd.v
Sigio.v
Threads.v
Ifi.v
Srcrt.v
SockIo.v
SockOpen.v
Tellwait.v
Key.v
Readers.v
Lockserv.v
Heartbeat.v
Myopen.v
