(* ===== verification/Prelude.v ===== *)
(** * A verified model of the network library and programs of src/unpv13e

    The repository holds the source code of UNIX Network Programming: a library
    (src/unpv13e/lib, libfree, libgai) and the programs built on it.  This
    development translates their logic to Rocq functions, component by component,
    and proves what makes each correct.  All file names are relative to
    src/unpv13e.

    ** How C is modelled

    - [Machine.v]: integers are [Z] with their wrap-around written out ([u8],
      [u16], [i32], ...), bytes are integers in [0,256), C strings are strings without NUL, [char]
      arrays lists of characters; byte order, [printf] conversions and
      the functions of the C library that the sources call.  The
      configuration is that of config.h: x86_64 Linux, little-endian, IPv4, IPv6 and
      Unix domain sockets.
    - [Posix.v]: a program is a computation of the monad [M] over the state
      [proc] of the process; it ends in an [outcome]: a value, [exit], [abort],
      undefined behaviour ([UB]) or the end of the fuel ([NoFuel]).  A system call is an
      [event] in the trace; its answer is the [Kernel]'s, an arbitrary
      function of the history.  What a call is documented to promise is a class
      ([ReadWriteOk], [SocketOk], [AcceptOk], [SelectOk], ...) that a theorem assumes
      by name; each such theorem has a witness on a concrete kernel.
      [post m p Q] is the post-condition of a computation.
    - [Frame.v] and [Packet.v] hold the shared reasoning: frame rules
      ([framed], [unmoved]), what a computation shows of itself in the trace
      ([runs]), computations that cannot go wrong ([fine_run]),
      sequences of observations ([follows]), loads and stores in packets.
    - Loops take fuel.  A loop bounded by its data has enough when the theorem says
      so (the length of the data plus the interrupted calls); an endless
      server loop takes its number of turns, and its theorem holds for all of
      them.  No theorem is vacuous on [NoFuel]: it says when the fuel can run out.

    ** The library

    - [Inet.v] (libfree/inet_pton.c, inet_ntop.c, inet_aton.c,
      inet_pton_ipv4.c, inet_ntop_ipv4.c): parsing accepts exactly the
      dotted-decimal addresses; printing then parsing an IPv6 address is the identity; no
      store leaves the arrays.
    - [Cksum.v] (libfree/in_cksum.c): the checksum is the complement of
      the one's complement sum, detects any change of one word, and
      verifies where it is stored.
    - [Wrap.v] (lib/error.c, wrapsock.c, wrapunix.c, wrapstdio.c, wrappthread.c,
      signal.c, wraplib.c): reports and the wrapper functions, which return the
      call's value or end the process after a report.
    - [Stream.v] (lib/readn.c, writen.c, readline.c, str_echo.c, str_cli.c,
      dg_echo.c, dg_cli.c): full reads and writes under partial
      transfers and interruptions; a line is a prefix of the stream, none of
      which is lost.
    - [Sockaddr.v] (lib/sock_*.c and others): text, ports, comparison of addresses.
    - [Rtt.v] (lib/rtt.c, rtt/dg_send_recv.c): the estimator in IEEE 754
      arithmetic, and the request-reply protocol over datagrams.
    - [Heap.v]: blocks of memory given and released; [holds] says which a structure owns.
    - [Gai.v] (libgai): getaddrinfo, its list and its heap; getnameinfo.  [NetLib.v]
      (lib/tcp_connect.c, tcp_listen.c, udp_*.c, connect_*.c, *_timeo.c) is
      proved against the interface [Resolver], which Gai.v implements.
    - [Mcast.v] (lib/mcast_*.c), [Daemon.v] (lib/daemon_init.c, daemon_inetd.c,
      gf_time.c, my_addrs.c), [FdPass.v] (lib/read_fd.c, write_fd.c).

    ** The programs

    - [Nonblock.v] (nonblock/strclinonb.c, select/strcliselect02.c): the buffers
      of a non-blocking client; what is sent is a prefix of what was typed, in order.
    - [Servers.v] (tcpcliserv/tcpservselect01.c, tcpservpoll01.c): the set given
      to [select] is the open descriptors, over any run; [table] is the
      invariant of an array of clients, which [Icmpd.v] shares.
    - [Web.v] (nonblock/web.c and its files): a turn of the client refines an
      abstract machine on the phases of its files; it terminates.
    - [Child.v], [Rounds.v] and [Prefork.v] (server/web_child.c, child05.c, serv05.c): the two sides
      of a pipe.  Rounds.v has the acts of a child ([act1]: what it accepts or receives, reads,
      writes, closes, reports) and the rounds they make, for the child of serv05 and for those
      of Lockserv.v, with the class [Service] of web_child; Prefork.v the parent, of whose children
      nothing is supposed: a byte for which no request is out, like those of a report, is told apart.
    - [Readers.v] (server/readline.c, readline_r.c, web_child_r.c, threads/readline.c): the
      other versions of readline, compared with that of lib.
    - [Lockserv.v] (server/serv00.c to serv04.c, serv06.c, serv07.c, serv09.c with their children
      and threads, lock_fcntl.c, lock_pthread.c, client.c): the class [Lock], which both locks
      implement; what each child shows, act by act, from which
      mutual exclusion follows in any interleaving of their histories; Control-C reaps every child.  [fuel] bounds the retries of a lock or of
      [accept] and the requests of a connection, [turns] the connections of a child.
    - [Pool.v] (server/serv08.c, pthread08.c): threads as an interleaving step
      relation; the ring neither loses nor repeats a connection, and is drained.
    - [Trace.v] (traceroute), [Ping.v] (ping), [UdpCksum.v] (udpcksum): the
      packets sent, byte for byte, and the classification of what comes back; the hops of
      traceroute in the trace ([hop1]), the last of which is the first that answers for the destination.
    - [Icmpd.v] (icmpd): the daemon's table of clients and descriptors, with those that it loses
      ([strays]: of a message without data or with two descriptors); an ICMP error
      reaches exactly the entries it concerns, and is read there as it was sent.
    - [Sigio.v] (sigio/dgecho01.c): the ring of datagrams between the SIGIO handler and
      the main loop, as a step relation; the replies are the datagrams, in order.
    - [Threads.v] (threads/web03.c): the threads of the web client, their mutex and
      condition variable, as an interleaving step relation; the counts agree with the
      states of the files and every run ends, or is the deadlock it exhibits.  What a
      thread writes to and reads from its server is not part of the state.
    - [Ifi.v] (lib/get_ifi_info.c): the buffer of SIOCGIFCONF grown until two answers
      agree, and the list built from it on the heap; fuel (n - 80) / 10 and at least 2
      is enough for a reply of n bytes.
    - [Srcrt.v] (ipopts/sourceroute.c, tcpcli01.c): an IPv4 source route built from host
      names, set on the socket and printed back; the IPv6 side and the server are not.
    - [SockIo.v], [SockOpen.v] and [Tellwait.v] (sock): the sock tool.  SockIo.v has its
      reports, the conversion of line ends, writes, sleeps and buffers, and the
      loops that copy, send and receive; SockOpen.v the options, from the list that getopt
      finds to the calls on the socket, cliopen, servopen and main; Tellwait.v the parent
      and the child of the concurrent server, as a step relation.  The loops send and show
      the streams with nothing lost or added, and print what [note1] sees; a client's socket is given what its
      options ask for, in order; a wake-up of the server can be lost, and a child that fails leaves it asleep.  The [steps] are the
      turns of a sleep or of an interrupted write.
    - [Heartbeat.v] (oob): the two ends of a heartbeat as handlers of signals, over any sequence of
      alarms and urgent data.
    - [Myopen.v] (unixdomain/myopen.c, openfile.c, mycat.c): a file opened by a child that
      becomes another program; what the parent gets is proved from what the child shows.
    - [Key.v] (key): the messages of RFC 2367, as add.c, dump.c and register.c build them and
      printsadbmsg.c prints them: a message laid out as the RFC says is printed part by
      part, and the printing ends unless an extension gives its length as zero.  The fuel
      is one turn per eight bytes, the least an extension takes.

    ** Groups of theorems

    Invariants of servers and clients over any number of turns (select, poll-free
    non-blocking client, prefork, daemon); safety and liveness of the thread
    pool and of the threaded client; rounds of the children and mutual exclusion of those that share a lock; refinement and termination of the web client; functional
    correctness of the stream, name and packet functions; round trips (addresses,
    options, descriptors, echo replies, error records); bounds of buffers; errors of
    the wrappers.  Where the code has a defect the theorem states what it does,
    and names the input.

    ** Not modelled

    Signal handlers run between two statements, at the points where the program waits,
    not between two machine instructions.  Parsing of options with getopt
    (a parameter of the sock tool, left out elsewhere) and the main programs that only connect a socket to a loop are left
    out, as are the parts that the configuration does not compile: XTI and
    STREAMS, SCTP, routing sockets, kqueue.  What a kernel does with the PF_KEY
    messages it gets is not modelled.  The fields that count connections in a thread ([long] in pthread08.c)
    are integers without bound, as is [n] in readline_r.c.  The resolver, the
    services database and the packet library are the system's. *)
From stdpp Require Export prelude list gmap strings.
From Stdlib Require Export ZArith Lia Ascii String.
#[export] Set Default Goal Selector "!".
#[global] Open Scope Z_scope.

(** ** Tactics of the development *)

(** Splits every conjunction and existential of the context. *)
Ltac split_hyps :=
  repeat match goal with
    | H : _ ∧ _ |- _ => destruct H
    | H : ∃ _, _ |- _ => destruct H
    end.

(** Turns boolean tests on integers in the context and the goal into the
    propositions they decide. *)
Ltac zbool :=
  repeat match goal with
    | H : (_ =? _) = true |- _ => apply Z.eqb_eq in H
    | H : (_ =? _) = false |- _ => apply Z.eqb_neq in H
    | H : (_ <? _) = true |- _ => apply Z.ltb_lt in H
    | H : (_ <? _) = false |- _ => apply Z.ltb_ge in H
    | H : (_ <=? _) = true |- _ => apply Z.leb_le in H
    | H : (_ <=? _) = false |- _ => apply Z.leb_gt in H
    | H : _ && _ = true |- _ => apply andb_true_iff in H as [? ?]
    | H : _ || _ = false |- _ => apply orb_false_iff in H as [? ?]
    end.

(** Case analysis on an integer test occurring in the goal. *)
Ltac ztest :=
  match goal with
  | |- context [?a =? ?b] => destruct (Z.eqb_spec a b)
  | |- context [?a <? ?b] => destruct (Z.ltb_spec a b)
  | |- context [?a <=? ?b] => destruct (Z.leb_spec a b)
  | |- context [?a >? ?b] => rewrite (Z.gtb_ltb a b); destruct (Z.ltb_spec b a)
  | |- context [?a >=? ?b] => rewrite (Z.geb_leb a b); destruct (Z.leb_spec b a)
  end.

(** Linear arithmetic with division and remainder by constants. *)
Ltac zdiv := Z.to_euclidean_division_equations; lia.

(** Bounds on every element of a closed list. *)
Ltac bytes := repeat (apply Forall_cons_2; [lia|]); apply Forall_nil_2.

(** ** Finite case analysis by computation *)

(** The [n] integers from [z] on, and the integers [0 .. n-1]. *)
Fixpoint zseq (z : Z) (n : nat) : list Z :=
  match n with O => [] | S n' => z :: zseq (z + 1) n' end.
Definition zrange (n : Z) : list Z := zseq 0 (Z.to_nat n).

Lemma elem_of_zseq z n x : x ∈ zseq z n ↔ z ≤ x < z + Z.of_nat n.
Proof.
  revert z. induction n as [|n IH]; intros z; simpl.
  - split; [by intros ?%not_elem_of_nil|lia].
  - rewrite elem_of_cons, IH. lia.
Qed.

Lemma length_zseq z n : List.length (zseq z n) = n.
Proof. revert z. induction n as [|n IH]; intros z; simpl; [done|]. by rewrite IH. Qed.

Lemma elem_of_zrange n x : x ∈ zrange n ↔ 0 ≤ x < n.
Proof. unfold zrange. rewrite elem_of_zseq. lia. Qed.

(** A decidable statement about a bounded integer holds when it is computed
    to hold on every value. *)
Lemma zrange_forall (f : Z → bool) (n : Z) :
  forallb f (zrange n) = true → ∀ z, 0 ≤ z < n → f z = true.
Proof.
  intros H z Hz. rewrite forallb_forall in H. apply H.
  apply list_elem_of_In, elem_of_zrange. done.
Qed.

(** ** Counting the elements of a list that pass a test *)

Fixpoint countb {A} (P : A → bool) (l : list A) : Z :=
  match l with [] => 0 | x :: l' => Z.b2z (P x) + countb P l' end.

Section countb.
Context {A : Type} (P : A → bool).
Implicit Types l : list A.

Lemma countb_nonneg l : 0 ≤ countb P l.
Proof. induction l as [|x l IH]; simpl; [lia|]. destruct (P x); simpl; lia. Qed.
Lemma countb_le_length l : countb P l ≤ Z.of_nat (List.length l).
Proof. induction l as [|x l IH]; simpl; [lia|]. destruct (P x); simpl; lia. Qed.
Lemma countb_negb l : countb (λ x, negb (P x)) l = Z.of_nat (List.length l) - countb P l.
Proof. induction l as [|x l IH]; cbn [countb List.length]; [lia|]. destruct (P x); cbn; lia. Qed.
Lemma countb_app l k : countb P (l ++ k) = countb P l + countb P k.
Proof. induction l as [|x l IH]; simpl; lia. Qed.
Lemma countb_alter f l i x :
  l !! i = Some x → countb P (alter f i l) = countb P l - Z.b2z (P x) + Z.b2z (P (f x)).
Proof.
  revert i. induction l as [|y l IH]; intros [|i] H; simplify_eq/=; [lia|]. rewrite (IH i) by done. lia.
Qed.
Lemma countb_pos l : 0 < countb P l → ∃ i x, l !! i = Some x ∧ P x = true.
Proof.
  induction l as [|x l IH]; simpl; [lia|]. intros H. destruct (P x) eqn:E; [by exists 0%nat, x|].
  destruct IH as (i & y & ? & ?); [simpl in H; lia|]. by exists (S i), y.
Qed.
Lemma countb_in l i x : l !! i = Some x → P x = true → 0 < countb P l.
Proof.
  revert i. induction l as [|y l IH]; intros [|i] H Hx; simplify_eq/=; pose proof (countb_nonneg l).
  - rewrite Hx. simpl. lia.
  - pose proof (IH i H Hx). destruct (P y); simpl; lia.
Qed.
Lemma countb_zero l i x : countb P l = 0 → l !! i = Some x → P x = false.
Proof. intros H0 Hi. destruct (P x) eqn:E; [|done]. pose proof (countb_in l i x Hi E). lia. Qed.
Lemma countb_none l : (∀ i x, l !! i = Some x → P x = false) → countb P l = 0.
Proof.
  intros H. destruct (Z.eq_dec (countb P l) 0) as [|Hne]; [done|]. pose proof (countb_nonneg l).
  destruct (countb_pos l) as (i & x & Hi & Hx); [lia|]. by rewrite (H i x Hi) in Hx.
Qed.
Lemma countb_unique l :
  (∀ i j x y, l !! i = Some x → l !! j = Some y → P x = true → P y = true → i = j) → countb P l ≤ 1.
Proof.
  induction l as [|x l IH]; intros H; simpl; [lia|].
  destruct (P x) eqn:E; simpl.
  - rewrite countb_none; [lia|]. intros i y Hi. destruct (P y) eqn:Hy; [|done].
    by specialize (H 0%nat (S i) x y eq_refl Hi E Hy).
  - apply IH. intros i j y z Hi Hj Hy Hz. by specialize (H (S i) (S j) y z Hi Hj Hy Hz) as [= ->].
Qed.
Lemma countb_all l : countb P l = Z.of_nat (List.length l) → ∀ i x, l !! i = Some x → P x = true.
Proof.
  induction l as [|y l IH]; intros H [|i] x Hi; simplify_eq/=; pose proof (countb_le_length l); destruct (P _) eqn:E in H;
    simpl in H; try lia; [done|]. eapply (IH ltac:(lia)). exact Hi.
Qed.
End countb.

(** When [P] at an index of one list goes with [Q] at the same index of
    another, there are no more [P] than [Q]. *)
Lemma countb_le {A B} (P : A → bool) (Q : B → bool) l k :
  (∀ i x, l !! i = Some x → P x = true → ∃ y, k !! i = Some y ∧ Q y = true) → countb P l ≤ countb Q k.
Proof.
  revert k. induction l as [|x l IH]; intros k H; simpl; [apply countb_nonneg|].
  assert (Htl : countb P l ≤ countb Q (tail k)).
  { apply IH. intros i y Hi Hy. destruct (H (S i) y Hi Hy) as (z & Hz & Hq). exists z. by destruct k. }
  destruct (P x) eqn:E; simpl; [|destruct k; simpl in *; [lia|destruct (Q b); simpl; lia]].
  destruct (H 0%nat x eq_refl E) as (y & Hy & Hq). destruct k as [|z k]; simplify_eq/=. rewrite Hq. simpl. lia.
Qed.

(** The sum of a weight over a list. *)
Fixpoint sumz {A} (f : A → Z) (l : list A) : Z :=
  match l with [] => 0 | x :: l' => f x + sumz f l' end.
Lemma sumz_alter {A} (f : A → Z) g l i x :
  l !! i = Some x → sumz f (alter g i l) = sumz f l - f x + f (g x).
Proof.
  revert i. induction l as [|y l IH]; intros [|i] H; simplify_eq/=; [lia|]. rewrite (IH i) by done. lia.
Qed.
Lemma sumz_app {A} (f : A → Z) l k : sumz f (l ++ k) = sumz f l + sumz f k.
Proof. induction l as [|x l IH]; simpl; lia. Qed.
Lemma sumz_nonneg {A} (f : A → Z) l : (∀ x, 0 ≤ f x) → 0 ≤ sumz f l.
Proof. intros H. induction l as [|x l IH]; simpl; [lia|]. specialize (H x). lia. Qed.
Lemma sumz_ext {A} (f g : A → Z) l : (∀ x, x ∈ l → f x = g x) → sumz f l = sumz g l.
Proof. induction l as [|x l IH]; intros H; [done|]. cbn. rewrite IH; [by rewrite H by left|]. intros y Hy. apply H. by right. Qed.
Lemma sumz_pos {A} (f : A → Z) l : 0 < sumz f l → ∃ x, x ∈ l ∧ 0 < f x.
Proof.
  induction l as [|x l IH]; cbn; [lia|]. intros H. destruct (Z.ltb_spec 0 (f x)); [exists x; by split; [left|]|].
  destruct IH as (y & Hy & ?); [lia|]. exists y. by split; [right|].
Qed.
(** Where the functions differ at one element only. *)
Lemma sumz_update {A} (f g : A → Z) l x :
  NoDup l → x ∈ l → (∀ y, y ≠ x → g y = f y) → sumz g l = sumz f l + (g x - f x).
Proof.
  intros Hnd Hx Hne. induction l as [|y l IH]; [by apply not_elem_of_nil in Hx|]. apply NoDup_cons in Hnd as [Hy Hnd]. cbn.
  apply elem_of_cons in Hx as [->|Hx].
  - rewrite (sumz_ext g f l); [lia|]. intros z Hz. apply Hne. by intros ->.
  - rewrite (IH Hnd Hx), (Hne y) by (by intros ->). lia.
Qed.

(** An element of a list in which the one at [i] was changed. *)
Lemma lookup_alter_inv {A} (f : A → A) (l : list A) i j v :
  alter f i l !! j = Some v → (i = j ∧ ∃ w, l !! i = Some w ∧ v = f w) ∨ (i ≠ j ∧ l !! j = Some v).
Proof.
  intros H. destruct (decide (i = j)) as [->|Hne].
  - left. rewrite list_lookup_alter_eq in H. apply fmap_Some in H as (w & H & ->). eauto.
  - right. by rewrite list_lookup_alter_ne in H.
Qed.
