(* ===== verification/Machine.v ===== *)
(** The C machine the sources run on: fixed-width integers, byte order,
    decimal and hexadecimal conversion, C strings and character arrays, and
    the functions of <string.h>, <ctype.h> and <stdio.h> that the modelled
    sources call.

    The configuration is the one of src/unpv13e/config.h
    (x86_64-unknown-linux-gnu): [int] has 32 bits, [long] and [size_t] 64,
    and the host is little-endian.

    A C string is a [string]: the characters before the terminating NUL, so no
    character of it is NUL.  A [char] array is a list of characters of the
    array's length, and [cstr] reads the C string it holds, if a NUL ends it.
    Binary buffers are lists of bytes, each byte an integer in [0,256). *)
From S2P Require Import Prelude.

(** ** Integers *)

Definition u8 (z : Z) : Z := z mod 2 ^ 8.
Definition u16 (z : Z) : Z := z mod 2 ^ 16.
Definition u32 (z : Z) : Z := z mod 2 ^ 32.
Definition u64 (z : Z) : Z := z mod 2 ^ 64.
Definition i16 (z : Z) : Z := (z + 2 ^ 15) mod 2 ^ 16 - 2 ^ 15.
Definition i32 (z : Z) : Z := (z + 2 ^ 31) mod 2 ^ 32 - 2 ^ 31.

(** Network byte order on a little-endian host: the two bytes of a
    [uint16_t] swapped, the four bytes of a [uint32_t] reversed. *)
Definition htons (p : Z) : Z :=
  Z.lor (Z.shiftl (Z.land p 255) 8) (Z.land (Z.shiftr p 8) 255).
Definition ntohs (p : Z) : Z := htons p.

(** The bytes of a 32-bit integer as they lie in memory after [htonl]. *)
Definition be32 (z : Z) : list Z :=
  [Z.land (Z.shiftr z 24) 255; Z.land (Z.shiftr z 16) 255;
   Z.land (Z.shiftr z 8) 255; Z.land z 255].

(** The same as a little-endian [int] or [uint32_t] lies in memory. *)
Definition le32_bytes (z : Z) : list Z := rev (be32 z).

Definition is_byte (b : Z) : bool := (0 <=? b) && (b <? 256).
Definition bytes_ok : list Z → Prop := Forall (λ b : Z, 0 ≤ b < 256).

(** Bit tests of flag words: [flags & bit]. *)
Definition has (flags bit : Z) : bool := negb (Z.land flags bit =? 0).

(** *** Constants of the system headers *)
Definition AF_UNSPEC : Z := 0.
Definition AF_UNIX : Z := 1.
Definition AF_LOCAL : Z := AF_UNIX.
Definition AF_INET : Z := 2.
Definition AF_INET6 : Z := 10.
Definition SOCK_STREAM : Z := 1.
Definition SOCK_DGRAM : Z := 2.
Definition SOCK_RAW : Z := 3.
Definition EINTR : Z := 4.
Definition ENXIO : Z := 6.
Definition EWOULDBLOCK : Z := 11.
Definition EINVAL : Z := 22.
Definition ENOSPC : Z := 28.
Definition EAFNOSUPPORT : Z := 97.
Definition ECONNRESET : Z := 104.
Definition ETIMEDOUT : Z := 110.
Definition EINPROGRESS : Z := 115.

(** ** Characters *)

Definition ord (c : ascii) : Z := Z.of_N (N_of_ascii c).
Definition chr (z : Z) : ascii := ascii_of_N (Z.to_N z).
Definition NUL : ascii := "000".
#[global] Instance ascii_inhabited : Inhabited ascii := populate NUL.

Definition isdigit (c : ascii) : bool := (48 <=? ord c) && (ord c <=? 57).
Definition isxdigit (c : ascii) : bool :=
  isdigit c || ((97 <=? ord c) && (ord c <=? 102)) || ((65 <=? ord c) && (ord c <=? 70)).
Definition isspace (c : ascii) : bool := (ord c =? 32) || ((9 <=? ord c) && (ord c <=? 13)).

(** [s\[0\]] of a C string, the terminator when it is empty. *)
Definition head_char (s : string) : ascii :=
  match s with EmptyString => NUL | String c _ => c end.

(** ** Numbers to text: [%u], [%d], [%x] *)

Definition digit_char (d : Z) : ascii := if d <? 10 then chr (48 + d) else chr (87 + d).

Fixpoint fmt_digits (fuel : nat) (base n : Z) (acc : string) : string :=
  match fuel with
  | O => acc
  | S f =>
      let acc' := String (digit_char (n mod base)) acc in
      if n <? base then acc' else fmt_digits f base (n / base) acc'
  end.

(** 64 digits are enough for a 64-bit number in any base from 2. *)
Definition fmt_u (n : Z) : string := fmt_digits 64 10 n "".
Definition fmt_x (n : Z) : string := fmt_digits 64 16 n "".
Definition fmt_d (n : Z) : string := if n <? 0 then String "-" (fmt_u (- n)) else fmt_u n.

(** ** Text to numbers *)

Fixpoint skip_space (s : string) : string :=
  match s with
  | String c s' => if isspace c then skip_space s' else s
  | EmptyString => EmptyString
  end.

Fixpoint digits_value (acc : Z) (s : string) : Z :=
  match s with
  | String c s' => if isdigit c then digits_value (acc * 10 + (ord c - 48)) s' else acc
  | EmptyString => acc
  end.

(** [strtol(s, NULL, 10)], clamped to [long], and [atoi], its conversion to
    [int] (what the C library of the configured system computes; ISO C leaves
    an out-of-range [atoi] undefined). *)
Definition strtol10 (s : string) : Z :=
  let s := skip_space s in
  let z := match s with
    | String "-" s' => - digits_value 0 s'
    | String "+" s' => digits_value 0 s'
    | _ => digits_value 0 s
    end in
  Z.max (- 2 ^ 63) (Z.min (2 ^ 63 - 1) z).
Definition atoi (s : string) : Z := i32 (strtol10 s).

(** ** <string.h> and <stdio.h> *)

Definition strlen (s : string) : Z := Z.of_nat (String.length s).
Definition streq (s t : string) : bool := bool_decide (s = t).

(** [strchr(s, c)] for a character that is not NUL: the index of its first
    occurrence. *)
Fixpoint strchr (s : string) (c : ascii) : option Z :=
  match s with
  | EmptyString => None
  | String c' s' => if Ascii.eqb c' c then Some 0 else Z.succ <$> strchr s' c
  end.

(** The first [n] characters of a string. *)
Fixpoint str_take (n : nat) (s : string) : string :=
  match n, s with
  | S n', String c s' => String c (str_take n' s')
  | _, _ => EmptyString
  end.
(** What follows the first [n] characters. *)
Fixpoint str_drop (n : nat) (s : string) : string :=
  match n, s with S n', String _ s' => str_drop n' s' | _, _ => s end.

(** [memcmp] and [strcmp], whose sign alone is specified. *)
Fixpoint memcmp (a b : list Z) : Z :=
  match a, b with
  | x :: a', y :: b' => if x <? y then -1 else if y <? x then 1 else memcmp a' b'
  | _, _ => 0
  end.
Fixpoint strcmp (s t : string) : Z :=
  match s, t with
  | EmptyString, EmptyString => 0
  | EmptyString, _ => -1
  | _, EmptyString => 1
  | String c s', String d t' =>
      if ord c <? ord d then -1 else if ord d <? ord c then 1 else strcmp s' t'
  end.

(** *** Character arrays *)

Fixpoint chars (s : string) : list ascii :=
  match s with EmptyString => [] | String c s' => c :: chars s' end.
Fixpoint of_chars (l : list ascii) : string :=
  match l with [] => EmptyString | c :: l' => String c (of_chars l') end.

(** The C string an array holds; [None] when no NUL ends it, and reading it as
    a string would run past the array. *)
Fixpoint cstr (a : list ascii) : option string :=
  match a with
  | [] => None
  | c :: a' => if Ascii.eqb c NUL then Some EmptyString else String c <$> cstr a'
  end.

(** A zeroed array of [n] characters into which [s] is copied ([strcpy] into
    [calloc]ed memory); [s] must fit. *)
Definition char_array (n : Z) (s : string) : list ascii :=
  chars s ++ replicate (Z.to_nat n - String.length s) NUL.

(** What [strncpy(dst, s, n)] leaves in the first [n] characters of [dst]:
    at most [n] characters of [s], padded with NULs, and no terminator when
    [s] has [n] characters or more. *)
Definition strncpy (s : string) (n : Z) : list ascii :=
  take (Z.to_nat n) (chars s ++ replicate (Z.to_nat n) NUL).

(** [snprintf(buf, size, ...)] of a text [s]: the C string left in [buf], which
    holds at most [size-1] characters ([size > 0]). *)
Definition snprintf (size : Z) (s : string) : string := str_take (Z.to_nat (size - 1)) s.

(** ** Facts used by the components *)

#[global] Arguments strchr : simpl never.
#[global] Arguments fmt_u : simpl never.
#[global] Arguments fmt_x : simpl never.
#[global] Arguments fmt_d : simpl never.
#[global] Arguments snprintf : simpl never.
#[global] Arguments chr : simpl never.
#[global] Arguments ord : simpl never.

Lemma u8_byte z : 0 ≤ u8 z < 256.
Proof. apply (Z.mod_pos_bound z 256). lia. Qed.
Lemma u32_bound z : 0 ≤ u32 z < 2 ^ 32.
Proof. apply Z.mod_pos_bound. lia. Qed.

Lemma ord_chr z : 0 ≤ z < 256 → ord (chr z) = z.
Proof.
  intros H. unfold ord, chr. rewrite N_ascii_embedding by lia. lia.
Qed.
Lemma ord_bound c : 0 ≤ ord c < 256.
Proof. unfold ord. pose proof (N_ascii_bounded c). lia. Qed.
Lemma chr_ord c : chr (ord c) = c.
Proof. unfold ord, chr. rewrite N2Z.id. apply ascii_N_embedding. Qed.

Lemma htons_involutive p : 0 ≤ p < 2 ^ 16 → htons (htons p) = p.
Proof.
  intros H. apply Z.eqb_eq.
  apply (zrange_forall (λ p, htons (htons p) =? p) 65536); [by vm_compute|lia].
Qed.
Lemma htons_bound p : 0 ≤ htons p < 2 ^ 16.
Proof.
  assert (H1 : htons p = htons (p mod 2 ^ 16)).
  { unfold htons. f_equal.
    - f_equal. rewrite <- (Z.land_ones p 16), <- Z.land_assoc by lia. done.
    - apply Z.bits_inj'. intros n Hn. rewrite !Z.land_spec, !Z.shiftr_spec by lia.
      change 255 with (Z.ones 8). destruct (Z.ltb_spec n 8).
      + rewrite Z.mod_pow2_bits_low by lia. done.
      + rewrite Z.ones_spec_high by lia. by rewrite !andb_false_r. }
  rewrite H1. assert (Hp : 0 ≤ p mod 2 ^ 16 < 65536) by (apply Z.mod_pos_bound; lia).
  revert Hp. generalize (p mod 2 ^ 16). clear H1 p. intros p Hp.
  assert (H2 : is_byte (htons p / 256) = true).
  { apply (zrange_forall (λ p, is_byte (htons p / 256)) 65536); [by vm_compute|done]. }
  unfold is_byte in H2. zbool. zdiv.
Qed.

Lemma strlen_nonneg s : 0 ≤ strlen s.
Proof. unfold strlen. lia. Qed.
Lemma length_chars s : List.length (chars s) = String.length s.
Proof. induction s; simpl; congruence. Qed.
Lemma of_chars_chars s : of_chars (chars s) = s.
Proof. induction s; simpl; congruence. Qed.
Lemma str_take_length n s : String.length (str_take n s) = (n `min` String.length s)%nat.
Proof. revert s. induction n; intros [|c s]; simpl; auto. Qed.
Lemma str_take_all n s : (String.length s ≤ n)%nat → str_take n s = s.
Proof. revert s. induction n; intros [|c s] H; simpl in *; auto with lia. f_equal. apply IHn. lia. Qed.
Lemma str_length_app s t : String.length (s +:+ t) = (String.length s + String.length t)%nat.
Proof. induction s; simpl; auto. Qed.
Lemma strlen_app s t : strlen (s +:+ t) = strlen s + strlen t.
Proof. unfold strlen. rewrite str_length_app. lia. Qed.

Lemma str_app_assoc s t u : (s +:+ t) +:+ u = s +:+ (t +:+ u).
Proof. induction s as [|c s IH]; [done|]. change (String c ((s +:+ t) +:+ u) = String c (s +:+ (t +:+ u))). by rewrite IH. Qed.
Lemma str_app_nil_r s : s +:+ "" = s.
Proof. induction s as [|c s IH]; [done|]. change (String c (s +:+ "") = String c s). by rewrite IH. Qed.

Lemma snprintf_length size s : 0 < size → strlen (snprintf size s) < size.
Proof. intros H. unfold strlen, snprintf. rewrite str_take_length. lia. Qed.
Lemma snprintf_fits size s : strlen s < size → snprintf size s = s.
Proof. intros H. apply str_take_all. unfold strlen in H. lia. Qed.
