(* ===== verification/Inet.v ===== *)
(** Internet addresses as text: src/unpv13e/libfree/inet_pton.c, inet_ntop.c,
    inet_aton.c, inet_pton_ipv4.c and inet_ntop_ipv4.c.

    The arrays [tmp] and the pointers into them are lists and indices: in
    [inet_pton4] the bytes before [tp] and the byte at [tp] ([tmp] is written
    from left to right), in [inet_pton6] the whole zeroed array with the
    offsets of [tp] and [colonp]. *)
From S2P Require Import Prelude Machine.

(** ** inet_pton.c *)

(** Return values 1 (with the bytes stored in [dst]), 0 and -1 (with [errno]);
    [dst] is untouched in the last two cases. *)
Inductive pton_result :=
| PtonOk (dst : list Z)
| PtonInvalid
| PtonErr (errno : Z).

Fixpoint pton4_loop (src : string) (saw_digit : bool) (octets : Z)
    (before : list Z) (tp : Z) : option (list Z) :=
  match src with
  | EmptyString => if octets <? 4 then None else Some (before ++ [tp])
  | String ch src' =>
      match strchr "0123456789" ch with
      | Some d =>
          let new := tp * 10 + d in
          if 255 <? new then None
          else if negb saw_digit then
            if 4 <? octets + 1 then None
            else pton4_loop src' true (octets + 1) before new
          else pton4_loop src' saw_digit octets before new
      | None =>
          if Ascii.eqb ch "." && saw_digit then
            if octets =? 4 then None
            else pton4_loop src' false octets (before ++ [tp]) 0
          else None
      end
  end.

Definition inet_pton4 (src : string) : option (list Z) :=
  pton4_loop src false 0 [] 0.

Definition IN6ADDRSZ : nat := 16.
Definition INT16SZ : nat := 2.
Definition INADDRSZ : nat := 4.

Definition xdigit_index (ch : ascii) : option Z :=
  match strchr "0123456789abcdef" ch with
  | Some d => Some d
  | None => strchr "0123456789ABCDEF" ch
  end.

(** [*tp++ = (u_char) (val >> 8) & 0xff; *tp++ = (u_char) val & 0xff;] *)
Definition store16 (tmp : list Z) (tp : nat) (val : Z) : list Z :=
  <[S tp := Z.land val 255]> (<[tp := Z.land (Z.shiftr val 8) 255]> tmp).

Record pton6_state := Pton6 {
  p6_saw_xdigit : bool;
  p6_val : Z;
  p6_tmp : list Z;
  p6_tp : nat;
  p6_colonp : option nat
}.

Fixpoint pton6_loop (src curtok : string) (st : pton6_state) : option pton6_state :=
  match src with
  | EmptyString => Some st
  | String ch src' =>
      let '(Pton6 saw val tmp tp colonp) := st in
      match xdigit_index ch with
      | Some d =>
          let val := Z.lor (u32 (Z.shiftl val 4)) d in
          if 65535 <? val then None
          else pton6_loop src' curtok (Pton6 true val tmp tp colonp)
      | None =>
          if Ascii.eqb ch ":" then
            if negb saw then
              match colonp with
              | Some _ => None
              | None => pton6_loop src' src' (Pton6 saw val tmp tp (Some tp))
              end
            else if (IN6ADDRSZ <? tp + INT16SZ)%nat then None
            else pton6_loop src' src'
                   (Pton6 false 0 (store16 tmp tp val) (tp + INT16SZ) colonp)
          else if Ascii.eqb ch "." && (tp + INADDRSZ <=? IN6ADDRSZ)%nat then
            match inet_pton4 curtok with
            | Some quad =>
                Some (Pton6 false val (list_inserts tp quad tmp) (tp + INADDRSZ) colonp)
            | None => None
            end
          else None
      end
  end.

(** The shift by hand of the bytes that follow "::" to the end of the array:
    [for (i = 1; i <= n; i++) { endp\[-i\] = colonp\[n-i\]; colonp\[n-i\] = 0; }] *)
Definition shift_step (colonp n : nat) (tmp : list Z) (i : nat) : list Z :=
  let tmp := <[(IN6ADDRSZ - i)%nat := tmp !!! (colonp + (n - i))%nat]> tmp in
  <[(colonp + (n - i))%nat := 0]> tmp.
Definition shift_tail (colonp n : nat) (tmp : list Z) : list Z :=
  fold_left (shift_step colonp n) (seq 1 n) tmp.

Definition pton6_finish (st : pton6_state) : option (list Z) :=
  let '(Pton6 saw val tmp tp colonp) := st in
  if saw && (IN6ADDRSZ <? tp + INT16SZ)%nat then None
  else
    let '(tmp, tp) := if saw then (store16 tmp tp val, tp + INT16SZ)%nat else (tmp, tp) in
    let '(tmp, tp) :=
      match colonp with
      | Some c => (shift_tail c (tp - c) tmp, IN6ADDRSZ)
      | None => (tmp, tp)
      end in
    if negb (tp =? IN6ADDRSZ)%nat then None else Some tmp.

(** Lines 159-223, from [curtok = src] on. *)
Definition pton6_run (s : string) : option (list Z) :=
  st ← pton6_loop s s (Pton6 false 0 (replicate IN6ADDRSZ 0) 0 None);
  pton6_finish st.

Definition inet_pton6 (src : string) : option (list Z) :=
  match src with
  | String ":" src' => if Ascii.eqb (head_char src') ":" then pton6_run src' else None
  | _ => pton6_run src
  end.

Definition inet_pton (af : Z) (src : string) : pton_result :=
  let ret r := match r with Some dst => PtonOk dst | None => PtonInvalid end in
  if af =? AF_INET then ret (inet_pton4 src)
  else if af =? AF_INET6 then ret (inet_pton6 src)
  else PtonErr EAFNOSUPPORT.

(** ** inet_ntop.c *)

(** The C string stored in [dst], or [NULL] with [errno]. *)
Inductive ntop_result :=
| NtopOk (dst : string)
| NtopErr (errno : Z).

Definition dotted (src : list Z) : string :=
  fmt_u (src !!! 0%nat) +:+ "." +:+ fmt_u (src !!! 1%nat) +:+ "."
    +:+ fmt_u (src !!! 2%nat) +:+ "." +:+ fmt_u (src !!! 3%nat).

Definition inet_ntop4 (src : list Z) (size : Z) : ntop_result :=
  let tmp := dotted src in
  if size <? strlen tmp then NtopErr ENOSPC else NtopOk tmp.

(** [for (i = 0; i < IN6ADDRSZ; i++) words\[i/2\] |= (src\[i\] << ((1-(i%2))<<3));] *)
Definition words_step (src words : list Z) (i : nat) : list Z :=
  <[(i / 2)%nat := Z.lor (words !!! (i / 2)%nat)
      (Z.shiftl (src !!! i) (Z.shiftl (1 - Z.of_nat i mod 2) 3))]> words.
Definition words_of (src : list Z) : list Z :=
  fold_left (words_step src) (seq 0 16) (replicate 8 0).

(** [struct { int base, len; }]; a base of -1 is "no run", whose length is
    never read. *)
Record run6 := Run { base : Z; len : Z }.
Definition no_run : run6 := Run (-1) 0.
Definition better (cur best : run6) : bool := (base best =? -1) || (len best <? len cur).

Definition best_step (words : list Z) (s : run6 * run6) (i : nat) : run6 * run6 :=
  let '(best, cur) := s in
  if words !!! i =? 0 then
    if base cur =? -1 then (best, Run (Z.of_nat i) 1) else (best, Run (base cur) (len cur + 1))
  else if negb (base cur =? -1) then
    (if better cur best then cur else best, Run (-1) (len cur))
  else (best, cur).

Definition best_run (words : list Z) : run6 :=
  let '(best, cur) := fold_left (best_step words) (seq 0 8) (no_run, no_run) in
  let best := if negb (base cur =? -1) && better cur best then cur else best in
  if negb (base best =? -1) && (len best <? 2) then Run (-1) (len best) else best.

(** [sizeof "ffff:ffff:ffff:ffff:ffff:ffff:255.255.255.255"] *)
Definition TMP6SZ : Z := 46.

(** The formatting loop from word [i] on, [n] words left; [tp] is the text
    written so far.  The embedded IPv4 address ends the loop. *)
Fixpoint format6 (src words : list Z) (best : run6) (n i : nat) (tp : string) : ntop_result :=
  match n with
  | O => NtopOk tp
  | S n' =>
      let zi := Z.of_nat i in
      if negb (base best =? -1) && (base best <=? zi) && (zi <? base best + len best) then
        format6 src words best n' (S i) (if zi =? base best then tp +:+ ":" else tp)
      else
        let tp := if (i =? 0)%nat then tp else tp +:+ ":" in
        if (i =? 6)%nat && (base best =? 0) &&
           ((len best =? 6) || ((len best =? 5) && (words !!! 5%nat =? 65535))) then
          match inet_ntop4 (drop 12 src) (TMP6SZ - strlen tp) with
          | NtopOk quad => NtopOk (tp +:+ quad)
          | NtopErr e => NtopErr e
          end
        else format6 src words best n' (S i) (tp +:+ fmt_x (words !!! i))
  end.

Definition inet_ntop6 (src : list Z) (size : Z) : ntop_result :=
  let words := words_of src in
  let best := best_run words in
  match format6 src words best 8 0 "" with
  | NtopErr e => NtopErr e
  | NtopOk tp =>
      let tp := if negb (base best =? -1) && (base best + len best =? 8)
                then tp +:+ ":" else tp in
      if size <? strlen tp + 1 then NtopErr ENOSPC else NtopOk tp
  end.

Definition inet_ntop (af : Z) (src : list Z) (size : Z) : ntop_result :=
  if af =? AF_INET then inet_ntop4 src size
  else if af =? AF_INET6 then inet_ntop6 src size
  else NtopErr EAFNOSUPPORT.

(** ** inet_aton.c *)

(** The [do ... while] loop over the characters, the terminator included;
    [acc] and [addr] are [u_long]s. *)
Fixpoint aton_loop (cp : string) (dots acc addr : Z) : option (Z * Z) :=
  match cp with
  | EmptyString =>
      if 255 <? acc then None else Some (dots, u64 (Z.lor (Z.shiftl addr 8) acc))
  | String cc cp' =>
      if isdigit cc then aton_loop cp' dots (u64 (acc * 10 + (ord cc - 48))) addr
      else if Ascii.eqb cc "." then
        if 3 <? dots + 1 then None
        else if 255 <? acc then None
        else aton_loop cp' (dots + 1) 0 (u64 (Z.lor (Z.shiftl addr 8) acc))
      else None
  end.

(** [Some bytes]: returns 1, [bytes] being [ap->s_addr] as it lies in memory. *)
Definition inet_aton (cp : string) : option (list Z) :=
  '(dots, addr) ← aton_loop cp 0 0 0;
  let addr := if dots <? 3 then u64 (Z.shiftl addr (8 * (3 - dots))) else addr in
  Some (be32 addr).

(** ** inet_pton_ipv4.c and inet_ntop_ipv4.c *)

Module Ipv4.
Definition inet_pton (family : Z) (strptr : string) : pton_result :=
  if family =? AF_INET then
    match inet_aton strptr with
    | Some in_val => PtonOk in_val
    | None => PtonInvalid
    end
  else PtonErr EAFNOSUPPORT.

Definition INET_ADDRSTRLEN : Z := 16.

Definition inet_ntop (family : Z) (p : list Z) (size : Z) : ntop_result :=
  if family =? AF_INET then
    let temp := snprintf INET_ADDRSTRLEN
      (fmt_d (p !!! 0%nat) +:+ "." +:+ fmt_d (p !!! 1%nat) +:+ "."
         +:+ fmt_d (p !!! 2%nat) +:+ "." +:+ fmt_d (p !!! 3%nat)) in
    if size <=? strlen temp then NtopErr ENOSPC else NtopOk temp
  else NtopErr EAFNOSUPPORT.
End Ipv4.

(** ** Specification of the dotted-decimal notation *)

Fixpoint all_digits (s : string) : bool :=
  match s with EmptyString => true | String c s' => isdigit c && all_digits s' end.

(** [t] is a nonempty decimal numeral of value [v], at most 255. *)
Definition octet_text (t : string) (v : Z) : Prop :=
  t ≠ "" ∧ all_digits t = true ∧ digits_value 0 t = v ∧ v ≤ 255.

Definition dotted_quad (s : string) (dst : list Z) : Prop :=
  ∃ t1 t2 t3 t4 v1 v2 v3 v4,
    octet_text t1 v1 ∧ octet_text t2 v2 ∧ octet_text t3 v3 ∧ octet_text t4 v4 ∧
    s = t1 +:+ "." +:+ t2 +:+ "." +:+ t3 +:+ "." +:+ t4 ∧ dst = [v1; v2; v3; v4].

(** ** Lemmas on [inet_pton4] *)

Lemma strchr_digits ch :
  strchr "0123456789" ch = if isdigit ch then Some (ord ch - 48) else None.
Proof. by destruct ch as [[] [] [] [] [] [] [] []]. Qed.

Lemma isdigit_ord ch : isdigit ch = true → 48 ≤ ord ch ≤ 57.
Proof. unfold isdigit. intros. zbool. lia. Qed.

Lemma digits_value_ge t acc : 0 ≤ acc → acc ≤ digits_value acc t.
Proof.
  revert acc. induction t as [|c t IH]; intros acc H; simpl; [lia|].
  destruct (isdigit c) eqn:E; [|lia]. apply isdigit_ord in E.
  specialize (IH (acc * 10 + (ord c - 48))). lia.
Qed.

Lemma split_digits s :
  ∃ t rest, s = t +:+ rest ∧ all_digits t = true ∧ isdigit (head_char rest) = false.
Proof.
  induction s as [|c s (t & rest & -> & Ht & Hr)]; [by exists "", ""|].
  destruct (isdigit c) eqn:E.
  - exists (String c t), rest. simpl. by rewrite E.
  - by exists "", (String c (t +:+ rest)).
Qed.

Lemma pton4_digits t rest octets before cur :
  all_digits t = true → 0 ≤ cur ≤ 255 →
  pton4_loop (t +:+ rest) true octets before cur =
    if 255 <? digits_value cur t then None
    else pton4_loop rest true octets before (digits_value cur t).
Proof.
  revert cur. induction t as [|c t IH]; intros cur Ht Hc; simpl.
  - destruct (Z.ltb_spec 255 cur); [lia|done].
  - simpl in Ht. zbool. rewrite strchr_digits. rewrite H. apply isdigit_ord in H.
    pose proof (digits_value_ge t (cur * 10 + (ord c - 48))).
    destruct (Z.ltb_spec 255 (cur * 10 + (ord c - 48))).
    + destruct (Z.ltb_spec 255 (digits_value (cur * 10 + (ord c - 48)) t)); [done|lia].
    + apply IH; [done|lia].
Qed.

(** From the start of an octet, over a nonempty numeral. *)
Lemma pton4_numeral t rest octets before :
  t ≠ "" → all_digits t = true → octets ≤ 3 →
  pton4_loop (t +:+ rest) false octets before 0 =
    if 255 <? digits_value 0 t then None
    else pton4_loop rest true (octets + 1) before (digits_value 0 t).
Proof.
  intros Hne Ht Ho. destruct t as [|c t]; [done|]. simpl in Ht. zbool. simpl.
  rewrite strchr_digits, H. apply isdigit_ord in H.
  change (0 * 10 + (ord c - 48)) with (ord c - 48).
  destruct (Z.ltb_spec 255 (ord c - 48)); [lia|].
  destruct (Z.ltb_spec 4 (octets + 1)); [lia|]. apply pton4_digits; [done|lia].
Qed.

Lemma pton4_octet_inv s octets before dst :
  octets ≤ 3 → pton4_loop s false octets before 0 = Some dst →
  ∃ t v rest, octet_text t v ∧ s = t +:+ rest ∧
    ((rest = "" ∧ octets = 3 ∧ dst = before ++ [v]) ∨
     (∃ s', rest = String "." s' ∧ octets < 3 ∧
        pton4_loop s' false (octets + 1) (before ++ [v]) 0 = Some dst)).
Proof.
  intros Ho H. destruct (split_digits s) as (t & rest & -> & Ht & Hr).
  destruct (decide (t = "")) as [->|Hne].
  { destruct rest as [|c rest]; simpl in H, Hr.
    - destruct (Z.ltb_spec octets 4); [done|lia].
    - rewrite strchr_digits, Hr, andb_false_r in H. done. }
  rewrite pton4_numeral in H by done.
  destruct (Z.ltb_spec 255 (digits_value 0 t)); [done|].
  exists t, (digits_value 0 t), rest. split; [done|]. split; [done|].
  destruct rest as [|c rest]; simpl in H.
  - left. destruct (Z.ltb_spec (octets + 1) 4); simplify_eq. split_and!; [done|lia|done].
  - right. simpl in Hr. rewrite strchr_digits, Hr, andb_true_r in H.
    destruct (Ascii.eqb_spec c "."); [|done].
    destruct (Z.eqb_spec (octets + 1) 4); [done|]. subst. exists rest. split_and!; [done|lia|].
    exact H.
Qed.

Lemma pton4_dot s octets before tp :
  pton4_loop (String "." s) true octets before tp =
    if octets =? 4 then None else pton4_loop s false octets (before ++ [tp]) 0.
Proof. done. Qed.

Lemma pton4_octet_dot t v s octets before :
  octet_text t v → octets < 3 →
  pton4_loop (t +:+ "." +:+ s) false octets before 0 =
    pton4_loop s false (octets + 1) (before ++ [v]) 0.
Proof.
  intros (Hne & Ht & Hv & Hle) Ho. rewrite pton4_numeral by (done || lia). rewrite Hv.
  destruct (Z.ltb_spec 255 v); [lia|].
  change ("." +:+ s) with (String "." s). rewrite pton4_dot.
  destruct (Z.eqb_spec (octets + 1) 4); [lia|done].
Qed.

Lemma pton4_octet_end t v before :
  octet_text t v → pton4_loop t false 3 before 0 = Some (before ++ [v]).
Proof.
  intros (Hne & Ht & Hv & Hle). rewrite <- (str_app_nil_r t).
  rewrite pton4_numeral by done. rewrite Hv. destruct (Z.ltb_spec 255 v); [lia|done].
Qed.

Lemma pton4_complete s dst : dotted_quad s dst → inet_pton4 s = Some dst.
Proof.
  intros (t1 & t2 & t3 & t4 & v1 & v2 & v3 & v4 & H1 & H2 & H3 & H4 & -> & ->).
  unfold inet_pton4.
  rewrite (pton4_octet_dot _ v1), (pton4_octet_dot _ v2), (pton4_octet_dot _ v3) by (done || lia).
  by rewrite (pton4_octet_end _ v4).
Qed.

Lemma pton4_sound s dst : inet_pton4 s = Some dst → dotted_quad s dst.
Proof.
  intros H.
  apply pton4_octet_inv in H as (t1 & v1 & ? & O1 & -> & [(_ & ? & _)|(s1 & -> & _ & H)]); try lia.
  apply pton4_octet_inv in H as (t2 & v2 & ? & O2 & -> & [(_ & ? & _)|(s2 & -> & _ & H)]); try lia.
  apply pton4_octet_inv in H as (t3 & v3 & ? & O3 & -> & [(_ & ? & _)|(s3 & -> & _ & H)]); try lia.
  apply pton4_octet_inv in H as (t4 & v4 & ? & O4 & -> & [(-> & _ & ->)|(s4 & -> & ? & _)]); try lia.
  exists t1, t2, t3, t4, v1, v2, v3, v4. rewrite str_app_nil_r. done.
Qed.

Lemma octet_text_byte t v : octet_text t v → 0 ≤ v < 256.
Proof.
  intros (_ & _ & <- & H). pose proof (digits_value_ge t 0). lia.
Qed.

(** The numeral [%u] prints for a byte. *)
Lemma octet_text_fmt_u b : 0 ≤ b < 256 → octet_text (fmt_u b) b.
Proof.
  intros Hb.
  assert (H : (negb (streq (fmt_u b) "") && all_digits (fmt_u b)
                && (digits_value 0 (fmt_u b) =? b)) = true).
  { apply (zrange_forall (λ b, negb (streq (fmt_u b) "") && all_digits (fmt_u b)
                && (digits_value 0 (fmt_u b) =? b)) 256); [by vm_compute|lia]. }
  zbool. unfold streq in *. repeat split; [|done|done|lia].
  intros E. rewrite E in H. done.
Qed.

Lemma dotted_dotted_quad b1 b2 b3 b4 :
  bytes_ok [b1; b2; b3; b4] → dotted_quad (dotted [b1; b2; b3; b4]) [b1; b2; b3; b4].
Proof.
  unfold bytes_ok. rewrite !Forall_cons. intros H. split_hyps.
  exists (fmt_u b1), (fmt_u b2), (fmt_u b3), (fmt_u b4), b1, b2, b3, b4.
  do 4 (split; [apply octet_text_fmt_u; lia|]). done.
Qed.

(** ** Lemmas on [inet_pton6] and [inet_ntop6] *)

(** The value a string of hexadecimal digits adds to [acc]; [None] when it has
    another character or the value leaves 16 bits. *)
Fixpoint xfold (acc : Z) (s : string) : option Z :=
  match s with
  | EmptyString => Some acc
  | String c s' =>
      match xdigit_index c with
      | Some d =>
          let acc := Z.lor (u32 (Z.shiftl acc 4)) d in
          if 65535 <? acc then None else xfold acc s'
      | None => None
      end
  end.

#[local] Arguments xdigit_index : simpl never.
#[local] Arguments Z.land : simpl never.
#[local] Arguments Z.lor : simpl never.
#[local] Arguments Z.shiftl : simpl never.
#[local] Arguments Z.shiftr : simpl never.
#[local] Arguments u32 : simpl never.

Lemma pton6_xfold t rest cur saw val tmp tp colonp v :
  xfold val t = Some v → t ≠ "" →
  pton6_loop (t +:+ rest) cur (Pton6 saw val tmp tp colonp) =
  pton6_loop rest cur (Pton6 true v tmp tp colonp).
Proof.
  revert saw val. induction t as [|c t IH]; intros saw val Hx Ht; [done|]. simpl in *.
  destruct (xdigit_index c) as [d|]; [|done].
  destruct (65535 <? _); [done|].
  destruct t as [|c' t]; [by simplify_eq/=|]. by apply IH.
Qed.

(** What [%x] prints for a 16-bit word is read back as that word. *)
Lemma xfold_fmt_x w : 0 ≤ w < 65536 → xfold 0 (fmt_x w) = Some w ∧ fmt_x w ≠ "".
Proof.
  intros Hw.
  assert (H : match xfold 0 (fmt_x w) with Some v => v =? w | None => false end
              && negb (streq (fmt_x w) "") = true).
  { apply (zrange_forall (λ w, match xfold 0 (fmt_x w) with Some v => v =? w | None => false end
             && negb (streq (fmt_x w) "")) 65536); [by vm_compute|lia]. }
  destruct (xfold 0 (fmt_x w)) as [v|]; [|done]. zbool. subst v.
  split; [done|]. intros E. by rewrite E in H0.
Qed.

Lemma pton6_word w rest cur saw tmp tp colonp :
  0 ≤ w < 65536 →
  pton6_loop (fmt_x w +:+ rest) cur (Pton6 saw 0 tmp tp colonp) =
  pton6_loop rest cur (Pton6 true w tmp tp colonp).
Proof. intros [? ?]%xfold_fmt_x. by apply pton6_xfold. Qed.

Lemma pton6_last_word w cur saw tmp tp colonp :
  0 ≤ w < 65536 →
  pton6_loop (fmt_x w) cur (Pton6 saw 0 tmp tp colonp) = Some (Pton6 true w tmp tp colonp).
Proof. intros Hw. rewrite <- (str_app_nil_r (fmt_x w)). by rewrite pton6_word. Qed.

(** A word and the ":" after it: two bytes are stored. *)
Lemma pton6_word_colon w rest cur saw tmp tp colonp :
  0 ≤ w < 65536 → (tp ≤ 14)%nat →
  pton6_loop (fmt_x w +:+ ":" +:+ rest) cur (Pton6 saw 0 tmp tp colonp) =
  pton6_loop rest rest (Pton6 false 0 (store16 tmp tp w) (tp + 2) colonp).
Proof.
  intros Hw Htp. rewrite pton6_word by done. simpl. unfold INT16SZ, IN6ADDRSZ.
  destruct (Nat.ltb_spec 16 (tp + 2)); [lia|done].
Qed.

(** A ":" not preceded by a digit records the place of "::". *)
Lemma pton6_colon_colon rest cur val tmp tp :
  pton6_loop (":" +:+ rest) cur (Pton6 false val tmp tp None) =
  pton6_loop rest rest (Pton6 false val tmp tp (Some tp)).
Proof. done. Qed.

(** The tail "a.b.c.d": the digits of [a] are first taken for hexadecimal
    ones, the first "." hands the current token to [inet_pton4]. *)
Lemma pton6_quad b1 b2 b3 b4 saw tmp tp colonp :
  bytes_ok [b1; b2; b3; b4] → (tp ≤ 12)%nat →
  let text := dotted [b1; b2; b3; b4] in
  ∃ v, pton6_loop text text (Pton6 saw 0 tmp tp colonp) =
    Some (Pton6 false v (list_inserts tp [b1; b2; b3; b4] tmp) (tp + 4) colonp).
Proof.
  intros Hb Htp text. pose proof (dotted_dotted_quad _ _ _ _ Hb) as Hq.
  apply pton4_complete in Hq.
  assert (0 ≤ b1 < 256) as Hb1 by by apply Forall_cons in Hb as [? _].
  assert (Hx : (match xfold 0 (fmt_u b1) with Some _ => negb (streq (fmt_u b1) "") | None => false end) = true).
  { apply (zrange_forall (λ b, match xfold 0 (fmt_u b) with
       Some _ => negb (streq (fmt_u b) "") | None => false end) 256); [by vm_compute|lia]. }
  destruct (xfold 0 (fmt_u b1)) as [v|] eqn:E; [|done]. exists v.
  assert (fmt_u b1 ≠ "") as Hne by (intros E'; by rewrite E' in Hx).
  subst text. unfold dotted at 1. simpl.
  rewrite (pton6_xfold _ _ _ _ _ _ _ _ v) by done. simpl.
  unfold INADDRSZ, IN6ADDRSZ. destruct (Nat.leb_spec (tp + 4) 16); [|lia].
  by rewrite Hq.
Qed.

Definition word (hi lo : Z) : Z := Z.lor (Z.shiftl hi 8) lo.

Lemma word_facts hi lo :
  0 ≤ hi < 256 → 0 ≤ lo < 256 →
  0 ≤ word hi lo < 65536 ∧ Z.land (Z.shiftr (word hi lo) 8) 255 = hi ∧
  Z.land (word hi lo) 255 = lo ∧ (word hi lo = 0 → hi = 0 ∧ lo = 0).
Proof.
  intros Hh Hl.
  assert (E : word hi lo = hi * 256 + lo).
  { unfold word. change 256 with (2 ^ 8). rewrite <- Z.shiftl_mul_pow2 by lia.
    rewrite <- Z.add_lor_land. cut (Z.land (Z.shiftl hi 8) lo = 0); [lia|].
    apply Z.bits_inj'. intros n Hn.
    rewrite Z.land_spec, Z.bits_0. destruct (Z.ltb_spec n 8).
    - rewrite Z.shiftl_spec_low by lia. done.
    - rewrite <- (Z.mod_small lo (2 ^ 8)) by lia.
      rewrite Z.mod_pow2_bits_high by lia. apply andb_false_r. }
  change 255 with (Z.ones 8). rewrite !Z.land_ones, Z.shiftr_div_pow2, E by lia.
  repeat split; zdiv.
Qed.

Lemma words_of_bytes b0 b1 b2 b3 b4 b5 b6 b7 b8 b9 b10 b11 b12 b13 b14 b15 :
  words_of [b0; b1; b2; b3; b4; b5; b6; b7; b8; b9; b10; b11; b12; b13; b14; b15] =
  [word b0 b1; word b2 b3; word b4 b5; word b6 b7;
   word b8 b9; word b10 b11; word b12 b13; word b14 b15].
Proof.
  unfold words_of, word. cbn -[Z.lor Z.shiftl].
  change (Z.shiftl 1 3) with 8. change (Z.shiftl 0 3) with 0.
  by rewrite !Z.lor_0_l, !Z.shiftl_0_r.
Qed.

(** The choice of the run depends only on which words are zero. *)
Lemma best_run_ext ws ws' :
  (∀ i, (i < 8)%nat → (ws !!! i =? 0) = (ws' !!! i =? 0)) → best_run ws = best_run ws'.
Proof.
  intros H. unfold best_run.
  assert (Hf : ∀ l s, Forall (λ i, i < 8)%nat l →
    fold_left (best_step ws) l s = fold_left (best_step ws') l s).
  { induction l as [|i l IH]; intros s Hl; [done|]. apply Forall_cons in Hl as [Hi Hl].
    simpl. rewrite IH by done. f_equal. unfold best_step. by rewrite H. }
  rewrite Hf; [done|]. repeat constructor; lia.
Qed.

Fixpoint patterns (n : nat) : list (list Z) :=
  match n with
  | O => [[]]
  | S n' => (cons 0 <$> patterns n') ++ (cons 1 <$> patterns n')
  end.

Lemma elem_of_patterns ws : ((λ w, if w =? 0 then 0 else 1) <$> ws) ∈ patterns (List.length ws).
Proof.
  induction ws as [|w ws IH]; simpl; [by apply list_elem_of_singleton|].
  apply elem_of_app. rewrite !list_elem_of_fmap. destruct (w =? 0); eauto.
Qed.

Definition run_ok (p : list Z) : bool :=
  let r := best_run p in
  (base r =? -1) ||
  ((0 <=? base r) && (2 <=? len r) && (base r + len r <=? 8) &&
   forallb (λ i, p !!! (Z.to_nat (base r) + i)%nat =? 0) (seq 0 (Z.to_nat (len r)))).

(** A run, when there is one, has at least two words, all of them zero. *)
Lemma best_run_spec ws :
  List.length ws = 8%nat →
  base (best_run ws) = -1 ∨
  ∃ b l : nat, best_run ws = Run (Z.of_nat b) (Z.of_nat l) ∧ (2 ≤ l)%nat ∧ (b + l ≤ 8)%nat ∧
    ∀ i, (b ≤ i < b + l)%nat → ws !!! i = 0.
Proof.
  intros Hlen. set (p := (λ w, if w =? 0 then 0 else 1) <$> ws).
  assert (Hp : ∀ i, (i < 8)%nat → (ws !!! i =? 0) = (p !!! i =? 0)).
  { intros i Hi. subst p. destruct (lookup_lt_is_Some_2 ws i) as [w Hw]; [lia|].
    rewrite (list_lookup_total_correct ws i w Hw).
    rewrite (list_lookup_total_correct _ i (if w =? 0 then 0 else 1)).
    - by destruct (w =? 0) eqn:E; rewrite ?E.
    - by rewrite list_lookup_fmap, Hw. }
  rewrite (best_run_ext _ _ Hp).
  assert (Hok : run_ok p = true).
  { assert (Hall : forallb run_ok (patterns 8) = true) by by vm_compute.
    rewrite forallb_forall in Hall. apply Hall, list_elem_of_In.
    subst p. rewrite <- Hlen. apply elem_of_patterns. }
  unfold run_ok in Hok. destruct (best_run p) as [b l]. simpl in *.
  apply orb_true_iff in Hok as [?|Hok]; [left; by zbool|right]. zbool.
  exists (Z.to_nat b), (Z.to_nat l). rewrite !Z2Nat.id by lia.
  split_and!; [done|lia|lia|]. intros i Hi.
  rewrite forallb_forall in H0. specialize (H0 (i - Z.to_nat b)%nat).
  rewrite <- Hp in H0 by (rewrite in_seq in *; lia).
  replace (Z.to_nat b + (i - Z.to_nat b))%nat with i in H0 by lia.
  apply Z.eqb_eq, H0, in_seq. lia.
Qed.

Lemma fmt_x_text w :
  0 ≤ w < 65536 →
  strlen (fmt_x w) ≤ 4 ∧ (∀ rest, inet_pton6 (fmt_x w +:+ rest) = pton6_run (fmt_x w +:+ rest)).
Proof.
  intros Hw.
  assert (H : (strlen (fmt_x w) <=? 4) && negb (Ascii.eqb (head_char (fmt_x w)) ":")
              && negb (streq (fmt_x w) "") = true).
  { apply (zrange_forall (λ w, (strlen (fmt_x w) <=? 4) &&
       negb (Ascii.eqb (head_char (fmt_x w)) ":") && negb (streq (fmt_x w) "")) 65536);
      [by vm_compute|lia]. }
  zbool. split; [done|]. intros rest.
  destruct (fmt_x w) as [|c t]; [done|]. simpl in *.
  by destruct c as [[] [] [] [] [] [] [] []].
Qed.

Lemma fmt_u_length b : 0 ≤ b < 256 → strlen (fmt_u b) ≤ 3.
Proof.
  intros Hb. apply Z.leb_le.
  apply (zrange_forall (λ b, strlen (fmt_u b) <=? 3) 256); [by vm_compute|lia].
Qed.

(** At most "255.255.255.255". *)
Lemma dotted_length b1 b2 b3 b4 :
  bytes_ok [b1; b2; b3; b4] → strlen (dotted [b1; b2; b3; b4]) ≤ 15.
Proof.
  unfold bytes_ok. rewrite !Forall_cons. intros (H1 & H2 & H3 & H4 & _).
  apply fmt_u_length in H1, H2, H3, H4.
  unfold dotted. simpl. rewrite !strlen_app. change (strlen ".") with 1. lia.
Qed.

Lemma pton6_double_colon rest : inet_pton6 (":" +:+ ":" +:+ rest) = pton6_run (":" +:+ rest).
Proof. done. Qed.

#[local] Arguments word : simpl never.

(** Reads back a text made of words and colons. *)
Ltac pton6_read :=
  repeat first
    [ rewrite pton6_word_colon by first [assumption | simpl; lia]
    | rewrite pton6_colon_colon
    | rewrite pton6_last_word by assumption ].

Ltac pton6_start :=
  match goal with
  | |- context [inet_pton6 ("" +:+ ":" +:+ ":" +:+ ?r)] =>
      change (inet_pton6 ("" +:+ ":" +:+ ":" +:+ r)) with (pton6_run (":" +:+ r))
  | |- context [inet_pton6 ("" +:+ ":" +:+ ":")] =>
      change (inet_pton6 ("" +:+ ":" +:+ ":")) with (pton6_run (":" +:+ ""))
  | H : 0 ≤ ?w < 65536 |- context [inet_pton6 ("" +:+ fmt_x ?w +:+ ?r)] =>
      change ("" +:+ fmt_x w +:+ r) with (fmt_x w +:+ r);
      rewrite (proj2 (fmt_x_text w H) r)
  end.

(** A text of at most 8 words and 8 colons. *)
Ltac text_length :=
  rewrite ?strlen_app;
  repeat match goal with
    | H : 0 ≤ ?w < 65536 |- _ => apply fmt_x_text, proj1 in H
    end;
  change (strlen "") with 0; change (strlen ":") with 1; lia.

Ltac ntop6_case :=
  simpl; rewrite ?str_app_assoc; eexists; split; [reflexivity|];
  split; [unfold TMP6SZ; text_length|];
  pton6_start; unfold pton6_run; pton6_read; reflexivity.

(** The word at an index of the run is zero. *)
Ltac zero_word Hz i :=
  first [ let H := fresh in
          assert (H := Hz i ltac:(clear; lia)); simpl in H; subst | idtac ].

(** The two bytes of a word, in network byte order. *)
Definition word_bytes (w : Z) : list Z := [Z.land (Z.shiftr w 8) 255; Z.land w 255].

(** What is printed for eight words with the run [best], when the text does
    not end in dotted decimal, is read back as the bytes of the words. *)
Definition reads_back (src ws : list Z) (best : run6) : Prop :=
  ∃ s, match format6 src ws best 8 0 "" with
       | NtopErr _ => None
       | NtopOk tp => Some (if negb (base best =? -1) && (base best + len best =? 8)
                            then tp +:+ ":" else tp)
       end = Some s ∧ strlen s < TMP6SZ ∧ inet_pton6 s = Some (ws ≫= word_bytes).

Lemma words_8 (ws : list Z) :
  List.length ws = 8%nat → ∃ w0 w1 w2 w3 w4 w5 w6 w7, ws = [w0; w1; w2; w3; w4; w5; w6; w7].
Proof. intros Hlen. do 8 (destruct ws as [|? ws]; [done|]). destruct ws; [|done]. eauto 20. Qed.

Lemma reads_back_no_run src ws l :
  List.length ws = 8%nat → Forall (λ w, 0 ≤ w < 65536) ws → reads_back src ws (Run (-1) l).
Proof.
  intros (w0 & w1 & w2 & w3 & w4 & w5 & w6 & w7 & ->)%words_8 H.
  rewrite !Forall_cons in H. destruct H as (? & ? & ? & ? & ? & ? & ? & ? & _).
  unfold reads_back. ntop6_case.
Qed.

Lemma reads_back_run b l src ws :
  (2 ≤ l)%nat → (b + l ≤ 8)%nat → (b = 0 → l ≠ 5 ∧ l ≠ 6)%nat →
  List.length ws = 8%nat → Forall (λ w, 0 ≤ w < 65536) ws →
  (∀ i, (b ≤ i < b + l)%nat → ws !!! i = 0) →
  reads_back src ws (Run (Z.of_nat b) (Z.of_nat l)).
Proof.
  intros Hl Hbl Hq (w0 & w1 & w2 & w3 & w4 & w5 & w6 & w7 & ->)%words_8 H.
  rewrite !Forall_cons in H. destruct H as (? & ? & ? & ? & ? & ? & ? & ? & _).
  revert Hl Hbl Hq.
  destruct b as [|[|[|[|[|[|[|b]]]]]]];
    destruct l as [|[|[|[|[|[|[|[|[|l]]]]]]]]]; intros Hl Hbl Hq Hz;
    try (exfalso; clear -Hl Hbl Hq; lia); clear Hl Hbl Hq;
    zero_word Hz 0%nat; zero_word Hz 1%nat; zero_word Hz 2%nat; zero_word Hz 3%nat;
    zero_word Hz 4%nat; zero_word Hz 5%nat; zero_word Hz 6%nat; zero_word Hz 7%nat; clear Hz;
    unfold reads_back; ntop6_case.
Qed.

(** The same where the run could have announced a dotted-decimal tail. *)
Lemma reads_back_run_0_5 src w5 w6 w7 :
  0 ≤ w5 < 65536 → 0 ≤ w6 < 65536 → 0 ≤ w7 < 65536 → w5 ≠ 65535 →
  reads_back src [0; 0; 0; 0; 0; w5; w6; w7] (Run 0 5).
Proof.
  intros ? ? ? Hne. unfold reads_back. simpl. rewrite (proj2 (Z.eqb_neq _ _) Hne). ntop6_case.
Qed.

(** The dotted-decimal tails: IPv4-compatible and IPv4-mapped addresses. *)
Lemma reads_back_quad src b1 b2 b3 b4 l w5 w6 w7 :
  bytes_ok [b1; b2; b3; b4] → drop 12 src = [b1; b2; b3; b4] →
  w6 = word b1 b2 → w7 = word b3 b4 →
  (l = 6 ∧ w5 = 0) ∨ (l = 5 ∧ w5 = 65535) →
  reads_back src [0; 0; 0; 0; 0; w5; w6; w7] (Run 0 l).
Proof.
  intros Hb Hsrc Hw6 Hw7 Hl. pose proof (dotted_length _ _ _ _ Hb) as Hlen.
  unfold bytes_ok in Hb. pose proof Hb as Hb'. rewrite !Forall_cons in Hb'.
  destruct Hb' as (? & ? & ? & ? & _).
  destruct (word_facts b1 b2) as (_ & E1 & E2 & _); [done..|].
  destruct (word_facts b3 b4) as (_ & E3 & E4 & _); [done..|].
  rewrite <- Hw6 in E1, E2. rewrite <- Hw7 in E3, E4.
  unfold reads_back. destruct Hl as [[-> ->]|[-> ->]]; simpl; rewrite Hsrc; unfold inet_ntop4.
  - destruct (Z.ltb_spec (TMP6SZ - strlen (("" +:+ ":") +:+ ":")) (strlen (dotted [b1; b2; b3; b4]))).
    { exfalso. change (strlen (("" +:+ ":") +:+ ":")) with 2 in *. unfold TMP6SZ in *. lia. }
    eexists. split; [reflexivity|]. split; [rewrite strlen_app; unfold TMP6SZ; change (strlen (("" +:+ ":") +:+ ":")) with 2; lia|].
    rewrite !str_app_assoc. pton6_start. unfold pton6_run.
    rewrite pton6_colon_colon.
    destruct (pton6_quad b1 b2 b3 b4 false (replicate 16 0) 0 (Some 0%nat)) as [v Hv]; [done|lia|].
    unfold IN6ADDRSZ. rewrite Hv. simpl. by rewrite E1, E2, E3, E4.
  - destruct (Z.ltb_spec (TMP6SZ - strlen (((("" +:+ ":") +:+ ":") +:+ fmt_x 65535) +:+ ":"))
                (strlen (dotted [b1; b2; b3; b4]))).
    { exfalso. change (strlen (((("" +:+ ":") +:+ ":") +:+ fmt_x 65535) +:+ ":")) with 7 in *.
      unfold TMP6SZ in *. lia. }
    eexists. split; [reflexivity|].
    split; [rewrite strlen_app; unfold TMP6SZ; change (strlen (((("" +:+ ":") +:+ ":") +:+ fmt_x 65535) +:+ ":")) with 7; lia|].
    rewrite !str_app_assoc. pton6_start. unfold pton6_run.
    rewrite pton6_colon_colon, pton6_word_colon by (simpl; lia).
    destruct (pton6_quad b1 b2 b3 b4 false (store16 (replicate 16 0) 0 65535) 2 (Some 0%nat)) as [v Hv]; [done|lia|].
    unfold IN6ADDRSZ. change (0 + 2)%nat with 2%nat. rewrite Hv. simpl. by rewrite E1, E2, E3, E4.
Qed.

(** The words of a 16-byte address: 16-bit values whose bytes are the address;
    the last two hold its last four bytes. *)
Lemma words_of_spec bs :
  List.length bs = 16%nat → bytes_ok bs →
  List.length (words_of bs) = 8%nat ∧ Forall (λ w, 0 ≤ w < 65536) (words_of bs) ∧
  words_of bs ≫= word_bytes = bs ∧
  ∃ b1 b2 b3 b4, drop 12 bs = [b1; b2; b3; b4] ∧ bytes_ok [b1; b2; b3; b4] ∧
    words_of bs !!! 6%nat = word b1 b2 ∧ words_of bs !!! 7%nat = word b3 b4.
Proof.
  intros Hlen Hb. do 16 (destruct bs as [|? bs]; [done|]). destruct bs; [|done].
  rewrite words_of_bytes. unfold bytes_ok in *. rewrite !Forall_cons in Hb.
  destruct Hb as (?&?&?&?&?&?&?&?&?&?&?&?&?&?&?&?&_).
  split; [done|]. split.
  { repeat apply Forall_cons_2; [..|by apply Forall_nil_2]; by apply word_facts. }
  split.
  { simpl. unfold word_bytes.
    by repeat match goal with
      | |- context [Z.land (Z.shiftr (word ?a ?b) 8) 255] =>
          destruct (word_facts a b) as (_ & -> & -> & _); [done..|]
      end. }
  eexists _, _, _, _. split; [reflexivity|]. split; [by repeat apply Forall_cons_2|done].
Qed.

Lemma reads_back_any src ws b1 b2 b3 b4 :
  List.length ws = 8%nat → Forall (λ w, 0 ≤ w < 65536) ws →
  drop 12 src = [b1; b2; b3; b4] → bytes_ok [b1; b2; b3; b4] →
  ws !!! 6%nat = word b1 b2 → ws !!! 7%nat = word b3 b4 →
  reads_back src ws (best_run ws).
Proof.
  intros Hlen Hws Hsrc Hb H6 H7.
  destruct (best_run_spec ws Hlen) as [Hr|(b & l & -> & Hl & Hbl & Hz)].
  { destruct (best_run ws) as [b l]. simpl in Hr. subst b. by apply reads_back_no_run. }
  destruct (decide (b = 0 ∧ (l = 5 ∨ l = 6))%nat) as [[-> H56]|Hn].
  2: { apply reads_back_run; try done. intros ->. split; intros ->; apply Hn; auto. }
  destruct (words_8 ws Hlen) as (w0 & w1 & w2 & w3 & w4 & w5 & w6 & w7 & ->). simpl in *.
  rewrite !Forall_cons in Hws. destruct Hws as (_ & _ & _ & _ & _ & ? & ? & ? & _).
  pose proof (Hz 0%nat ltac:(lia)); pose proof (Hz 1%nat ltac:(lia)); pose proof (Hz 2%nat ltac:(lia));
  pose proof (Hz 3%nat ltac:(lia)); pose proof (Hz 4%nat ltac:(lia)). simpl in *. subst.
  destruct H56 as [->| ->].
  - destruct (decide (w5 = 65535)) as [->|]; [|by apply reads_back_run_0_5].
    by eapply (reads_back_quad src b1 b2 b3 b4); auto.
  - pose proof (Hz 5%nat ltac:(lia)). simpl in *. subst.
    by eapply (reads_back_quad src b1 b2 b3 b4); auto.
Qed.

Lemma ntop6_pton6 bs :
  List.length bs = 16%nat → bytes_ok bs →
  ∃ s, (∀ size, inet_ntop6 bs size = if size <? strlen s + 1 then NtopErr ENOSPC else NtopOk s) ∧
       strlen s < TMP6SZ ∧ inet_pton6 s = Some bs.
Proof.
  intros Hlen Hb.
  destruct (words_of_spec bs Hlen Hb) as (H8 & Hws & Hbytes & b1 & b2 & b3 & b4 & Hd & Hq & H6 & H7).
  destruct (reads_back_any bs (words_of bs) b1 b2 b3 b4) as (s & Hs & Hl & Hp); [done..|].
  exists s. rewrite Hbytes in Hp. split; [|done]. intros size. unfold inet_ntop6.
  destruct (format6 _ _ _ _ _ _); [|done]. by simplify_eq.
Qed.

(** ** Lemmas on [inet_aton] *)

Lemma u64_small z : 0 ≤ z < 2 ^ 64 → u64 z = z.
Proof. apply Z.mod_small. Qed.

Lemma aton_digits t rest dots acc addr :
  all_digits t = true → 0 ≤ acc → digits_value acc t ≤ 255 →
  aton_loop (t +:+ rest) dots acc addr = aton_loop rest dots (digits_value acc t) addr.
Proof.
  revert acc. induction t as [|c t IH]; intros acc Ht Ha Hd; simpl in *; [done|].
  zbool. rewrite H in *. apply isdigit_ord in H.
  pose proof (digits_value_ge t (acc * 10 + (ord c - 48)) ltac:(lia)).
  rewrite u64_small by lia. apply IH; [done|lia|done].
Qed.

Lemma aton_octet_dot t v rest dots addr :
  octet_text t v → 0 ≤ dots < 3 →
  aton_loop (t +:+ "." +:+ rest) dots 0 addr =
  aton_loop rest (dots + 1) 0 (u64 (Z.lor (Z.shiftl addr 8) v)).
Proof.
  intros (_ & Ht & Hv & Hle) Hd. rewrite aton_digits by (done || lia). rewrite Hv.
  change ("." +:+ rest) with (String "." rest). simpl.
  destruct (Z.ltb_spec 3 (dots + 1)); [lia|]. destruct (Z.ltb_spec 255 v); [lia|done].
Qed.

Lemma aton_octet_end t v dots addr :
  octet_text t v → aton_loop t dots 0 addr = Some (dots, u64 (Z.lor (Z.shiftl addr 8) v)).
Proof.
  intros (_ & Ht & Hv & Hle). rewrite <- (str_app_nil_r t), aton_digits by (done || lia).
  rewrite Hv. simpl. destruct (Z.ltb_spec 255 v); [lia|done].
Qed.

Lemma shiftl_lor_byte a b : 0 ≤ a → 0 ≤ b < 256 → Z.lor (Z.shiftl a 8) b = a * 256 + b.
Proof.
  intros Ha Hb. change 256 with (2 ^ 8). rewrite <- Z.shiftl_mul_pow2 by lia.
  rewrite <- Z.add_lor_land. cut (Z.land (Z.shiftl a 8) b = 0); [lia|].
  apply Z.bits_inj'. intros n Hn. rewrite Z.land_spec, Z.bits_0. destruct (Z.ltb_spec n 8).
  - by rewrite Z.shiftl_spec_low by lia.
  - rewrite <- (Z.mod_small b (2 ^ 8)) by lia.
    rewrite Z.mod_pow2_bits_high by lia. apply andb_false_r.
Qed.

Lemma be32_bytes b1 b2 b3 b4 :
  bytes_ok [b1; b2; b3; b4] →
  be32 (((b1 * 256 + b2) * 256 + b3) * 256 + b4) = [b1; b2; b3; b4].
Proof.
  unfold bytes_ok. rewrite !Forall_cons. intros (? & ? & ? & ? & _).
  unfold be32. change 255 with (Z.ones 8).
  rewrite !Z.land_ones, !Z.shiftr_div_pow2 by lia.
  f_equal; [|f_equal; [|f_equal; [|f_equal]]]; zdiv.
Qed.

Lemma aton_dotted_quad s dst : dotted_quad s dst → inet_aton s = Some dst.
Proof.
  intros (t1 & t2 & t3 & t4 & v1 & v2 & v3 & v4 & H1 & H2 & H3 & H4 & -> & ->).
  unfold inet_aton.
  rewrite (aton_octet_dot _ v1), (aton_octet_dot _ v2), (aton_octet_dot _ v3) by (done || lia).
  rewrite (aton_octet_end _ v4) by done. simpl.
  apply octet_text_byte in H1, H2, H3, H4.
  rewrite Z.shiftl_0_l, Z.lor_0_l, (u64_small v1) by lia.
  rewrite (shiftl_lor_byte v1 v2), (u64_small (v1 * 256 + v2)) by lia.
  rewrite (shiftl_lor_byte (v1 * 256 + v2) v3), (u64_small ((v1 * 256 + v2) * 256 + v3)) by lia.
  rewrite shiftl_lor_byte, u64_small by lia.
  rewrite be32_bytes; [done|]. by repeat apply Forall_cons_2.
Qed.

(** ** Well-formedness of [inet_pton6]'s working state *)

Definition pton6_wf (st : pton6_state) : Prop :=
  List.length (p6_tmp st) = 16%nat ∧ bytes_ok (p6_tmp st) ∧ (p6_tp st ≤ 16)%nat ∧
  0 ≤ p6_val st < 65536 ∧ match p6_colonp st with Some c => (c ≤ p6_tp st)%nat | None => True end.

Lemma land_255_byte z : 0 ≤ Z.land z 255 < 256.
Proof. change 255 with (Z.ones 8). rewrite Z.land_ones by lia. apply Z.mod_pos_bound. lia. Qed.

Lemma bytes_ok_insert l i b : bytes_ok l → 0 ≤ b < 256 → bytes_ok (<[i:=b]> l).
Proof. unfold bytes_ok. intros. by apply Forall_insert. Qed.

Lemma store16_wf tmp tp val :
  List.length tmp = 16%nat → bytes_ok tmp →
  List.length (store16 tmp tp val) = 16%nat ∧ bytes_ok (store16 tmp tp val).
Proof.
  intros Hl Hb. unfold store16. rewrite !length_insert. split; [done|].
  auto using bytes_ok_insert, land_255_byte.
Qed.

Lemma pton4_bytes s dst : inet_pton4 s = Some dst → List.length dst = 4%nat ∧ bytes_ok dst.
Proof.
  intros (t1 & t2 & t3 & t4 & v1 & v2 & v3 & v4 & H1 & H2 & H3 & H4 & _ & ->)%pton4_sound.
  apply octet_text_byte in H1, H2, H3, H4. split; [done|by repeat apply Forall_cons_2].
Qed.

Lemma bytes_ok_inserts l i k : bytes_ok l → bytes_ok k → bytes_ok (list_inserts i k l).
Proof.
  intros Hl Hk. revert i. induction Hk as [|b k Hb Hk IH]; intros i; simpl; [done|].
  auto using bytes_ok_insert.
Qed.

Lemma xdigit_index_bound c d : xdigit_index c = Some d → 0 ≤ d < 16.
Proof.
  intros H. enough (match xdigit_index c with Some d => (0 <=? d) && (d <? 16) | None => true end = true) as E.
  { rewrite H in E. zbool. lia. }
  by destruct c as [[] [] [] [] [] [] [] []].
Qed.

Lemma pton6_loop_wf src cur st st' :
  pton6_wf st → pton6_loop src cur st = Some st' → pton6_wf st'.
Proof.
  revert cur st. induction src as [|c src IH]; intros cur st Hwf; simpl; [by intros [= <-]|].
  destruct st as [saw val tmp tp colonp]. destruct Hwf as (Hl & Hb & Htp & Hv & Hc). simpl in *.
  destruct (xdigit_index c) as [d|] eqn:Hd.
  { destruct (Z.ltb_spec 65535 (Z.lor (u32 (Z.shiftl val 4)) d)); [done|]. apply IH.
    repeat split; simpl; try done; try lia. apply Z.lor_nonneg.
    apply xdigit_index_bound in Hd. split; [apply u32_bound|lia]. }
  destruct (Ascii.eqb c ":").
  { destruct saw; simpl.
    - unfold IN6ADDRSZ, INT16SZ. destruct (Nat.ltb_spec 16 (tp + 2)); [done|]. apply IH.
      destruct (store16_wf tmp tp val) as [? ?]; [done..|].
      repeat split; simpl; try done; try lia. destruct colonp; lia.
    - destruct colonp; [done|]. apply IH. repeat split; simpl; try done; lia. }
  destruct (Ascii.eqb c "."); simpl; [|done].
  destruct (Nat.leb_spec (tp + INADDRSZ) IN6ADDRSZ) as [Hle|]; [|done].
  destruct (inet_pton4 cur) as [quad|] eqn:Hq; [|done]. intros [= <-].
  apply pton4_bytes in Hq as [_ Hq]. unfold INADDRSZ, IN6ADDRSZ in *.
  repeat split; simpl; try done; try lia.
  - by rewrite length_inserts.
  - by apply bytes_ok_inserts.
  - destruct colonp; lia.
Qed.

Lemma shift_tail_wf c n tmp :
  List.length tmp = 16%nat → bytes_ok tmp →
  List.length (shift_tail c n tmp) = 16%nat ∧ bytes_ok (shift_tail c n tmp).
Proof.
  unfold shift_tail. generalize (seq 1 n). intros l. revert tmp.
  induction l as [|i l IH]; intros tmp Hl Hb; [done|]. simpl. apply IH.
  - unfold shift_step. by rewrite !length_insert.
  - unfold shift_step. apply bytes_ok_insert; [|lia]. apply bytes_ok_insert; [done|].
    destruct (tmp !! (c + (n - i))%nat) as [b|] eqn:E.
    + rewrite (list_lookup_total_correct _ _ _ E). by apply (Forall_lookup_1 _ tmp _ _ Hb E).
    + rewrite list_lookup_total_alt, E. simpl. lia.
Qed.

Lemma pton6_run_wf s dst : pton6_run s = Some dst → List.length dst = 16%nat ∧ bytes_ok dst.
Proof.
  unfold pton6_run. destruct (pton6_loop _ _ _) as [st|] eqn:E; [|done]. simpl. intros H.
  apply pton6_loop_wf in E.
  2: { repeat split; simpl; try done; try lia. by repeat apply Forall_cons_2. }
  destruct st as [saw val tmp tp colonp]. destruct E as (Hl & Hb & Htp & Hv & Hc). simpl in *.
  destruct (store16_wf tmp tp val) as [? ?]; [done..|].
  destruct (saw && _); [done|].
  destruct saw, colonp; repeat case_match; simplify_eq; try done; by apply shift_tail_wf.
Qed.

Lemma inet_pton6_wf s dst :
  inet_pton6 s = Some dst → List.length dst = 16%nat ∧ bytes_ok dst.
Proof.
  unfold inet_pton6. destruct s as [|c s]; [apply pton6_run_wf|].
  destruct (decide (c = ":"%char)) as [->|Hc].
  - destruct (Ascii.eqb (head_char s) ":"); [apply pton6_run_wf|done].
  - intros H. apply (pton6_run_wf (String c s)).
    destruct c as [[] [] [] [] [] [] [] []]; done.
Qed.

(** [inet_pton] of either family stores an address of its family. *)
Lemma inet_pton_wf af s dst :
  inet_pton af s = PtonOk dst →
  bytes_ok dst ∧ (af = AF_INET ∧ List.length dst = 4%nat ∨ af = AF_INET6 ∧ List.length dst = 16%nat).
Proof.
  unfold inet_pton. destruct (Z.eqb_spec af AF_INET); [|destruct (Z.eqb_spec af AF_INET6); [|done]].
  - destruct (inet_pton4 s) eqn:E; [|done]. intros [= <-]. apply pton4_bytes in E as [? ?]. auto.
  - destruct (inet_pton6 s) eqn:E; [|done]. intros [= <-]. apply inet_pton6_wf in E as [? ?]. auto.
Qed.


(** ** Properties *)

(** C37: [inet_pton4] accepts exactly the dotted-decimal notation (four nonempty
    decimal numerals of value at most 255 separated by dots) and stores the
    four values. *)
Theorem inet_pton4_correct s dst : inet_pton4 s = Some dst ↔ dotted_quad s dst.
Proof. split; [apply pton4_sound|apply pton4_complete]. Qed.

(** C34: every 16-byte address is printed by [inet_ntop] as a text of fewer than
    46 characters, which [inet_pton] reads back as the same address; the text is
    returned exactly when it fits with its terminator in the caller's buffer. *)
Theorem inet_ntop6_inet_pton6 bs :
  List.length bs = 16%nat → bytes_ok bs →
  ∃ s, inet_pton AF_INET6 s = PtonOk bs ∧ strlen s < TMP6SZ ∧
    ∀ size, inet_ntop AF_INET6 bs size = if size <? strlen s + 1 then NtopErr ENOSPC else NtopOk s.
Proof.
  intros Hlen Hb. destruct (ntop6_pton6 bs Hlen Hb) as (s & Hs & Hl & Hp).
  exists s. unfold inet_pton, inet_ntop. simpl. by rewrite Hp.
Qed.

Lemma inet_ntop6_inet_pton6_witness :
  ∃ s, inet_pton AF_INET6 s = PtonOk [32; 1; 13; 184; 0; 0; 0; 0; 0; 1; 0; 0; 0; 0; 0; 1] ∧ strlen s < TMP6SZ ∧
    ∀ size, inet_ntop AF_INET6 [32; 1; 13; 184; 0; 0; 0; 0; 0; 1; 0; 0; 0; 0; 0; 1] size =
      if size <? strlen s + 1 then NtopErr ENOSPC else NtopOk s.
Proof. apply inet_ntop6_inet_pton6; [reflexivity|]. repeat constructor; lia. Defined.

(** [inet_pton6] never leaves its 16-byte array: whatever the text, a
    result has 16 bytes. *)
Theorem inet_pton6_bytes s dst :
  inet_pton6 s = Some dst → List.length dst = 16%nat ∧ bytes_ok dst.
Proof. apply inet_pton6_wf. Qed.

Lemma inet_pton6_bytes_witness :
  inet_pton6 "fe80::1" = Some [254; 128; 0; 0; 0; 0; 0; 0; 0; 0; 0; 0; 0; 0; 0; 1] ∧
  List.length [254; 128; 0; 0; 0; 0; 0; 0; 0; 0; 0; 0; 0; 0; 0; 1] = 16%nat ∧
  bytes_ok [254; 128; 0; 0; 0; 0; 0; 0; 0; 0; 0; 0; 0; 0; 0; 1].
Proof. split; [reflexivity|]. apply (inet_pton6_bytes "fe80::1"). reflexivity. Defined.

(** The text [inet_ntop] prints for an IPv4 address is read back by
    [inet_pton] as that address; but [inet_ntop4] compares the length of the
    text without its terminator, so that for every address there is a buffer
    size it accepts and overruns. *)
Theorem inet_ntop4_overflow bs :
  List.length bs = 4%nat → bytes_ok bs →
  ∃ s, inet_pton AF_INET s = PtonOk bs ∧
    (∀ size, strlen s < size → inet_ntop AF_INET bs size = NtopOk s) ∧
    ∃ size, inet_ntop AF_INET bs size = NtopOk s ∧ size < strlen s + 1.
Proof.
  intros Hlen Hb. do 4 (destruct bs as [|? bs]; [done|]). destruct bs; [|done].
  eexists. unfold inet_pton, inet_ntop, inet_ntop4. simpl.
  rewrite (pton4_complete _ _ (dotted_dotted_quad _ _ _ _ Hb)).
  split; [done|]. split.
  - intros size Hs. destruct (Z.ltb_spec size (strlen (dotted [z; z0; z1; z2]))); [lia|done].
  - exists (strlen (dotted [z; z0; z1; z2])). rewrite Z.ltb_irrefl. split; [done|lia].
Qed.

Lemma inet_ntop4_overflow_witness :
  ∃ s, inet_pton AF_INET s = PtonOk [192; 168; 0; 1] ∧
    (∀ size, strlen s < size → inet_ntop AF_INET [192; 168; 0; 1] size = NtopOk s) ∧
    ∃ size, inet_ntop AF_INET [192; 168; 0; 1] size = NtopOk s ∧ size < strlen s + 1.
Proof. apply inet_ntop4_overflow; [reflexivity|]. repeat constructor; lia. Defined.

(** The text of eight words with a "::" after the first four. *)
Definition full_with_gap (w0 w1 w2 w3 w4 w5 w6 w7 : Z) : string :=
  fmt_x w0 +:+ ":" +:+ fmt_x w1 +:+ ":" +:+ fmt_x w2 +:+ ":" +:+ fmt_x w3 +:+ ":" +:+ ":"
    +:+ fmt_x w4 +:+ ":" +:+ fmt_x w5 +:+ ":" +:+ fmt_x w6 +:+ ":" +:+ fmt_x w7.

(** A "::" in a full address is not "silently ignored", as the comment above
    [inet_pton6] has it: the shift by hand copies each byte onto itself and
    then clears it, so that the four words after "::" are read as zero. *)
Theorem inet_pton6_full_with_gap w0 w1 w2 w3 w4 w5 w6 w7 :
  Forall (λ w, 0 ≤ w < 65536) [w0; w1; w2; w3; w4; w5; w6; w7] →
  inet_pton6 (full_with_gap w0 w1 w2 w3 w4 w5 w6 w7) =
    Some (([w0; w1; w2; w3] ≫= word_bytes) ++ replicate 8 0).
Proof.
  intros H. rewrite !Forall_cons in H. destruct H as (? & ? & ? & ? & ? & ? & ? & ? & _).
  unfold full_with_gap.
  match goal with |- context [inet_pton6 (fmt_x w0 +:+ ?r)] =>
    rewrite (proj2 (fmt_x_text w0 ltac:(done)) r) end.
  unfold pton6_run. pton6_read. reflexivity.
Qed.

Lemma inet_pton6_full_with_gap_witness :
  inet_pton6 "1:2:3:4::5:6:7:8" = Some [0; 1; 0; 2; 0; 3; 0; 4; 0; 0; 0; 0; 0; 0; 0; 0].
Proof. apply (inet_pton6_full_with_gap 1 2 3 4 5 6 7 8). repeat constructor; lia. Defined.

(** The IPv4-only [inet_pton], which relies on [inet_aton], agrees with the
    other one wherever that one accepts, but it accepts more: an octet whose
    accumulator wraps around 64 bits, and the empty string, are addresses. *)
Theorem ipv4_inet_pton_extends s dst :
  (inet_pton AF_INET s = PtonOk dst → Ipv4.inet_pton AF_INET s = PtonOk dst) ∧
  Ipv4.inet_pton AF_INET "18446744073709551617.0.0.1" = PtonOk [1; 0; 0; 1] ∧
  Ipv4.inet_pton AF_INET "" = PtonOk [0; 0; 0; 0].
Proof.
  split; [|by vm_compute]. unfold inet_pton, Ipv4.inet_pton. simpl.
  destruct (inet_pton4 s) as [d|] eqn:E; [|done]. intros [= ->].
  by rewrite (aton_dotted_quad s dst (pton4_sound _ _ E)).
Qed.

Lemma ipv4_inet_pton_extends_witness : Ipv4.inet_pton AF_INET "10.0.0.255" = PtonOk [10; 0; 0; 255].
Proof. apply (ipv4_inet_pton_extends "10.0.0.255" [10; 0; 0; 255]). reflexivity. Defined.
