(* ===== verification/Posix.v ===== *)
(** The operating system and the C library as the sources use them.

    A program is a computation of the monad [M]: it transforms the state [proc]
    of the process and ends in an [outcome].  Every call of the system or of a
    library outside the repository is an [event] of the trace; its answer comes
    from the [Kernel], a parameter: an arbitrary function of the history of
    the process and the call.  What a call is documented to promise is stated
    as a hypothesis on the kernel where a theorem needs it, by the classes of
    the last section. *)
From S2P Require Import Prelude Machine.

(** ** Data exchanged with the system *)

(** Result of a system call: a value, or [-1] and the value put in [errno]
    (for resolver calls: [NULL] and [h_errno]). *)
Inductive res (A : Type) :=
| Ok (a : A)
| Err (e : Z).
Arguments Ok {A} _.
Arguments Err {A} _.

(** [struct sockaddr] and its variants, told apart by [sa_family]; ports are in
    network byte order, addresses are the bytes in memory. *)
Inductive sockaddr :=
| SaIn (sin_port : Z) (sin_addr : list Z)
| SaIn6 (sin6_port : Z) (sin6_addr : list Z)
| SaUn (sun_path : list ascii)
| SaOther (sa_family : Z) (sa_data : list Z).

Definition sa_family (sa : sockaddr) : Z :=
  match sa with
  | SaIn _ _ => AF_INET
  | SaIn6 _ _ => AF_INET6
  | SaUn _ => AF_UNIX
  | SaOther f _ => f
  end.

(** [sizeof] of the structures. *)
Definition SIZEOF_SOCKADDR_IN : Z := 16.
Definition SIZEOF_SOCKADDR_IN6 : Z := 28.
Definition SIZEOF_SOCKADDR_UN : Z := 110.
Definition SIZEOF_SUN_PATH : Z := 108.
Definition SIZEOF_ADDRINFO : Z := 48.

(** Identity of a heap block. *)
Definition ptr : Type := Z.

(** A node of the list [getaddrinfo] returns: the blocks it consists of and
    its fields ([ai_next] is the rest of the list). *)
Record addrinfo := AddrInfo {
  ai_self : ptr;
  ai_flags : Z;
  ai_family : Z;
  ai_socktype : Z;
  ai_protocol : Z;
  ai_addrlen : Z;
  ai_canonname : option (ptr * string);
  ai_addr : option (ptr * sockaddr)
}.
Abbreviation chain := (list addrinfo).

(** The fields of [struct addrinfo] a caller may set in its hints. *)
Record hints := Hints {
  h_flags : Z;
  h_family : Z;
  h_socktype : Z;
  h_protocol : Z
}.

(** [struct hostent]. *)
Record hostent := HostEnt {
  h_name : option string;
  h_addrtype : Z;
  h_addr_list : list (list Z)
}.

(** The control message of [sendmsg] and [recvmsg]: its header, the
    integer at [CMSG_DATA] and those behind it, descriptors when the type is SCM_RIGHTS. *)
Record cmsghdr := CMsg {
  cmsg_len : Z;
  cmsg_level : Z;
  cmsg_type : Z;
  cmsg_fd : Z;
  cmsg_more : list Z
}.
Definition SOL_SOCKET : Z := 1.
Definition SCM_RIGHTS : Z := 1.
(** unix(7): the descriptors the message carries. *)
Definition cmsg_fds (cm : cmsghdr) : list Z :=
  if (cmsg_level cm =? SOL_SOCKET) && (cmsg_type cm =? SCM_RIGHTS) then cmsg_fd cm :: cmsg_more cm else [].
(** CMSG_LEN(3) of [n] integers. *)
Definition CMSG_LEN_INTS (n : nat) : Z := 16 + 4 * Z.of_nat n.

(** ** System and library calls, with the type of their answers *)

Inductive sys : Type → Type :=
| sys_read (fd n : Z) : sys (res (list Z))
| sys_write (fd : Z) (buf : list Z) : sys (res Z)
| sys_socket (family socktype protocol : Z) : sys (res Z)
| sys_connect (fd : Z) (sa : sockaddr) (len : Z) : sys (res unit)
| sys_bind (fd : Z) (sa : sockaddr) (len : Z) : sys (res unit)
| sys_listen (fd backlog : Z) : sys (res unit)
| sys_accept (fd : Z) : sys (res (Z * sockaddr))
| sys_close (fd : Z) : sys (res unit)
| sys_shutdown (fd how : Z) : sys (res unit)
| sys_setsockopt (fd level opt : Z) (val : list Z) : sys (res unit)
| sys_getsockopt (fd level opt size : Z) : sys (res Z)
| sys_getsockname (fd : Z) : sys (res sockaddr)
| sys_fcntl (fd cmd arg : Z) : sys (res Z)
| sys_ioctl_ifaddr (fd : Z) (ifname : list ascii) : sys (res (list Z))
| sys_select (rset wset : list Z) (timeout : option Z) : sys (res (list Z * list Z))
| sys_sendto (fd : Z) (buf : list Z) (sa : sockaddr) : sys (res Z)
| sys_recvfrom (fd n : Z) : sys (res (list Z * sockaddr))
| sys_sendmsg (fd : Z) (buf : list Z) : sys (res Z)
| sys_recvmsg_jmp (fd n : Z) : sys (option (res (list Z)))
| sys_alarm (sec : Z) : sys Z
| sys_sigaction (signo handler flags : Z) : sys (res Z)
| sys_gettimeofday : sys (res (Z * Z))
| sys_malloc (n : Z) : sys bool
| sys_unlink (path : string) : sys (res unit)
| sys_uname : sys (res string)
| sys_if_nametoindex (name : string) : sys Z
| sys_if_indextoname (idx : Z) : sys (option string)
| sys_gethostbyname (options : Z) (host : string) : sys (res hostent)
| sys_gethostbyname2 (options : Z) (host : string) (family : Z) : sys (res hostent)
| sys_gethostbyaddr (addr : list Z) (family : Z) : sys (res hostent)
| sys_getservbyname (serv proto : string) : sys (option Z)
| sys_getservbyport (port : Z) (proto : option string) : sys (option string)
| sys_res_init : sys Z
| sys_fgets (n : Z) : sys (res (option string))
| sys_fputs (stream : Z) (s : string) : sys (res unit)
| sys_syslog (level : Z) (s : string) : sys unit
| sys_fflush (stream : Z) : sys unit
| sys_getenv (name : string) : sys (option string)
| sys_poll (fds : list (Z * Z)) (timeout : Z) : sys (res (Z * list Z))
| sys_strerror (e : Z) : sys string
| sys_fork : sys (res Z)
| sys_getpid : sys Z
| sys_socketpair (family socktype protocol : Z) : sys (res (Z * Z))
| sys_dup2 (fd1 fd2 : Z) : sys (res Z)
| sys_recvmsg_ctl (fd n : Z) : sys (res (list Z * option cmsghdr))
| sys_sendmsg_ctl (fd : Z) (buf : list Z) (ctl : cmsghdr) : sys (res Z)
| sys_setsockopt_group (fd level opt gr_interface : Z) (grp : sockaddr) : sys (res unit)
| sys_getsockopt_bytes (fd level opt size : Z) : sys (res (list Z))
| sys_setsockopt_source (fd level opt gsr_interface : Z) (grp src : sockaddr) : sys (res unit)
| sys_getpeername (fd : Z) : sys (res sockaddr)
| sys_recv (fd n flags : Z) : sys (res (list Z))
| sys_send (fd : Z) (buf : list Z) (flags : Z) : sys (res Z)
| sys_ioctl (fd request : Z) (arg : list Z) : sys (res (Z * list Z))
| sys_mkstemp (template : string) : sys (res (Z * string))
| sys_mmap (addr len prot flags fd offset : Z) : sys (res Z)
| sys_open (path : string) (oflag mode : Z) : sys (res Z)
| sys_pipe : sys (res (Z * Z))
| sys_sigaddset (set : gset Z) (signo : Z) : sys (res (gset Z))
| sys_sigdelset (set : gset Z) (signo : Z) : sys (res (gset Z))
| sys_sigemptyset : sys (res (gset Z))
| sys_sigfillset : sys (res (gset Z))
| sys_sigismember (set : gset Z) (signo : Z) : sys (res Z)
| sys_sigpending : sys (res (gset Z))
| sys_sigprocmask (how : Z) (set : gset Z) : sys (res (gset Z))
| sys_sysconf (name : Z) : sys (res Z)
| sys_wait : sys (res (Z * Z))
| sys_waitpid (pid options : Z) : sys (res (Z * Z))
| sys_fclose (stream : Z) : sys (res unit)
| sys_fdopen (fd : Z) (type : string) : sys (res Z)
| sys_fopen (filename mode : string) : sys (res Z)
| sys_setsid : sys (res Z)
| sys_chdir (path : string) : sys (res unit)
| sys_openlog (ident : string) (option facility : Z) : sys unit
| sys_ctime (t : Z) : sys string
| sys_pthread_create (attr func arg : Z) : sys (res Z)
| sys_pthread_join (tid : Z) : sys (res Z)
| sys_pthread_detach (tid : Z) : sys (res unit)
| sys_pthread_kill (tid signo : Z) : sys (res unit)
| sys_pthread_mutexattr_init : sys (res Z)
| sys_pthread_mutexattr_setpshared (attr flag : Z) : sys (res unit)
| sys_pthread_mutex_init (mptr attr : Z) : sys (res unit)
| sys_pthread_mutex_lock (mptr : Z) : sys (res unit)
| sys_pthread_mutex_unlock (mptr : Z) : sys (res unit)
| sys_pthread_cond_broadcast (cptr : Z) : sys (res unit)
| sys_pthread_cond_signal (cptr : Z) : sys (res unit)
| sys_pthread_cond_wait (cptr mptr : Z) : sys (res unit)
| sys_pthread_cond_timedwait (cptr mptr : Z) (tsptr : Z * Z) : sys (res unit)
| sys_pthread_once (ptr func : Z) : sys (res unit)
| sys_pthread_key_create (func : Z) : sys (res Z)
| sys_pthread_setspecific (key value : Z) : sys (res unit)
| sys_flag (signo : Z) : sys bool   (** whether the handler has set its flag *)
| sys_getuid : sys Z
| sys_setuid (uid : Z) : sys (res unit)
| sys_getnameinfo (sa : sockaddr) (hostlen : Z) : sys (option string)
| sys_execl (path : string) (args : list string) : sys (res unit)
| sys_recvmsg_from (fd n : Z) : sys (res (list Z * sockaddr * list cmsghdr))
| sys_pcap_next : sys (option (list Z))
| sys_sigsuspend (mask : gset Z) : sys (res unit)
| sys_writev (fd : Z) (iov : list (list Z)) : sys (res Z)
| sys_select_none (tv_sec tv_usec : Z) : sys (res Z)   (** [select(0, NULL, NULL, NULL, &tv)] *)
| sys_recvmsg_flags (fd n : Z) : sys (res (list Z * sockaddr * Z))   (** the datagram and [msg_flags] *)
| sys_kill (pid signo : Z) : sys (res unit)
| sys_getppid : sys Z
| sys_fcntl_lock (fd cmd l_type l_whence l_start l_len : Z) : sys (res Z)   (** [fcntl(fd, cmd, &flock)] *)
| sys_pause : sys Z   (** the signal whose handler has run *)
| sys_getrusage (who : Z) : sys (res (Z * Z * (Z * Z))).   (** [ru_utime] and [ru_stime] *)

Inductive event :=
| Event {A : Type} (c : sys A) (a : A).

(** Newest event first. *)
Abbreviation trace := (list event).

Class Kernel := answer : ∀ A, trace → sys A → A.
Arguments answer {_ A} _ _.

(** ** The process *)

Record proc := Proc {
  p_trace : trace;
  p_errno : Z;
  p_h_errno : Z;
  p_daemon_proc : bool;     (** [daemon_proc] of lib/error.c *)
  p_res_options : Z;        (** [_res.options] of the resolver *)
  p_next : ptr;             (** the next heap block *)
  p_live : gset ptr         (** the blocks allocated and not freed *)
}.

Definition proc0 : proc := Proc [] 0 0 false 0 1 ∅.

Inductive outcome (A : Type) :=
| Ret (a : A)        (** returns *)
| Exit (status : Z)  (** the process has terminated by [exit] *)
| Abort              (** by [abort] *)
| UB                 (** undefined behaviour *)
| NoFuel.            (** the bound on the iterations of the model was reached *)
Arguments Ret {A} _.
Arguments Exit {A} _.
Arguments Abort {A}.
Arguments UB {A}.
Arguments NoFuel {A}.

Definition M (A : Type) : Type := proc → outcome A * proc.

#[global] Instance M_ret : MRet M := λ A a p, (Ret a, p).
#[global] Instance M_bind : MBind M := λ A B k m p,
  match m p with
  | (Ret a, p') => k a p'
  | (Exit s, p') => (Exit s, p')
  | (Abort, p') => (Abort, p')
  | (UB, p') => (UB, p')
  | (NoFuel, p') => (NoFuel, p')
  end.

Definition stop {A} (o : outcome A) : M A := λ p, (o, p).
Definition exit {A} (status : Z) : M A := stop (Exit status).

Definition get_errno : M Z := λ p, (Ret (p_errno p), p).
Definition set_errno (e : Z) : M unit := λ p,
  (Ret tt, Proc (p_trace p) e (p_h_errno p) (p_daemon_proc p) (p_res_options p) (p_next p) (p_live p)).
Definition get_h_errno : M Z := λ p, (Ret (p_h_errno p), p).
Definition set_h_errno (e : Z) : M unit := λ p,
  (Ret tt, Proc (p_trace p) (p_errno p) e (p_daemon_proc p) (p_res_options p) (p_next p) (p_live p)).
Definition get_daemon_proc : M bool := λ p, (Ret (p_daemon_proc p), p).
Definition get_res_options : M Z := λ p, (Ret (p_res_options p), p).
Definition set_daemon_proc (b : bool) : M unit := λ p,
  (Ret tt, Proc (p_trace p) (p_errno p) (p_h_errno p) b (p_res_options p) (p_next p) (p_live p)).
Definition set_res_options (o : Z) : M unit := λ p,
  (Ret tt, Proc (p_trace p) (p_errno p) (p_h_errno p) (p_daemon_proc p) o (p_next p) (p_live p)).

Section calls.
Context {K : Kernel}.

(** A call and its answer, recorded in the trace. *)
Definition call {A} (c : sys A) : M A := λ p,
  let a := answer (p_trace p) c in
  (Ret a, Proc (Event c a :: p_trace p) (p_errno p) (p_h_errno p) (p_daemon_proc p)
            (p_res_options p) (p_next p) (p_live p)).

(** A system call: [None] is the return value -1, [errno] being set. *)
Definition syscall {A} (c : sys (res A)) : M (option A) :=
  r ← call c;
  match r with
  | Ok a => mret (Some a)
  | Err e => set_errno e ;; mret None
  end.

(** A resolver call: [None] is [NULL], [h_errno] being set. *)
Definition hostcall (c : sys (res hostent)) : M (option hostent) :=
  r ← call c;
  match r with
  | Ok a => mret (Some a)
  | Err e => set_h_errno e ;; mret None
  end.

Definition alloc : M ptr := λ p,
  (Ret (p_next p),
   Proc (p_trace p) (p_errno p) (p_h_errno p) (p_daemon_proc p) (p_res_options p)
     (p_next p + 1) ({[p_next p]} ∪ p_live p)).

(** [malloc] and [calloc]: whether memory is available is the system's answer. *)
Definition malloc (n : Z) : M (option ptr) :=
  ok ← call (sys_malloc n);
  if (ok : bool) then q ← alloc; mret (Some q) else mret None.

(** Freeing a block that is not allocated is undefined. *)
Definition free (q : ptr) : M unit := λ p,
  if decide (q ∈ p_live p) then
    (Ret tt, Proc (p_trace p) (p_errno p) (p_h_errno p) (p_daemon_proc p) (p_res_options p)
               (p_next p) (p_live p ∖ {[q]}))
  else (UB, p).
End calls.

(** [free(p)] of a pointer that may be [NULL]. *)
Definition free_opt (q : option ptr) : M unit :=
  match q with Some q => free q | None => mret tt end.

(** ** Observations on traces *)

(** The bytes the system has accepted on a descriptor, in order. *)
Definition written1 (fd : Z) (e : event) : list Z :=
  match e with
  | Event c a =>
      match c in sys A return A → list Z with
      | sys_write fd' buf => λ r, match r with
          | Ok n => if fd' =? fd then take (Z.to_nat n) buf else []
          | Err _ => [] end
      | _ => λ _, []
      end a
  end.
Fixpoint written (fd : Z) (t : trace) : list Z :=
  match t with [] => [] | e :: t' => written fd t' ++ written1 fd e end.

(** The bytes a process has read from a descriptor, in order. *)
Definition received1 (fd : Z) (e : event) : list Z :=
  match e with
  | Event c a =>
      match c in sys A return A → list Z with
      | sys_read fd' _ => λ r, match r with
          | Ok bs => if fd' =? fd then bs else []
          | Err _ => [] end
      | _ => λ _, []
      end a
  end.
Fixpoint received (fd : Z) (t : trace) : list Z :=
  match t with [] => [] | e :: t' => received fd t' ++ received1 fd e end.

(** The descriptors open after a trace: those returned by [socket], [accept],
    [open], [pipe], [mkstemp], [socketpair], [dup2] or received in a message, and not
    closed since. *)
Definition open_after (e : event) (fds : gset Z) : gset Z :=
  match e with
  | Event c a =>
      match c in sys A return A → gset Z with
      | sys_socket _ _ _ => λ r, match r with Ok fd => {[fd]} ∪ fds | Err _ => fds end
      | sys_accept _ => λ r, match r with Ok (fd, _) => {[fd]} ∪ fds | Err _ => fds end
      | sys_close fd => λ r, match r with Ok _ => fds ∖ {[fd]} | Err _ => fds end
      | sys_socketpair _ _ _ => λ r, match r with Ok (fd1, fd2) => {[fd1; fd2]} ∪ fds | Err _ => fds end
      | sys_dup2 _ fd2 => λ r, match r with Ok _ => {[fd2]} ∪ fds | Err _ => fds end
      | sys_recvmsg_ctl _ _ => λ r, match r with
          | Ok (_, Some cm) => list_to_set (cmsg_fds cm) ∪ fds
          | _ => fds end
      | sys_open _ _ _ => λ r, match r with Ok fd => {[fd]} ∪ fds | Err _ => fds end
      | sys_pipe => λ r, match r with Ok (fd1, fd2) => {[fd1; fd2]} ∪ fds | Err _ => fds end
      | sys_mkstemp _ => λ r, match r with Ok (fd, _) => {[fd]} ∪ fds | Err _ => fds end
      | _ => λ _, fds
      end a
  end.
Fixpoint open_fds (t : trace) : gset Z :=
  match t with [] => ∅ | e :: t' => open_after e (open_fds t') end.

(** ** What the documentation of the calls promises *)

(** read(2), write(2): at most the requested number of bytes. *)
Class ReadWriteOk (K : Kernel) : Prop := {
  read_at_most : ∀ t fd n bs, 0 ≤ n → answer t (sys_read fd n) = Ok bs → Z.of_nat (List.length bs) ≤ n;
  write_at_most : ∀ t fd buf n, answer t (sys_write fd buf) = Ok n →
    0 ≤ n ≤ Z.of_nat (List.length buf)
}.

(** socket(2): a new descriptor is not one of the open ones. *)
Class SocketOk (K : Kernel) : Prop := {
  socket_fresh : ∀ t f s p fd, answer t (sys_socket f s p) = Ok fd → 0 ≤ fd ∧ fd ∉ open_fds t
}.

Lemma read_count {K : Kernel} {KOk : ReadWriteOk K} t fd n bs :
  answer t (sys_read fd n) = Ok bs → 0 ≤ n → Z.of_nat (List.length bs) ≤ n.
Proof. intros H Hn. by eapply read_at_most. Qed.

(** select(2), poll(2): the descriptors reported are among those asked for. *)
Class SelectOk (K : Kernel) : Prop := {
  select_asked : ∀ t r w tm r' w', answer t (sys_select r w tm) = Ok (r', w') → r' ⊆ r ∧ w' ⊆ w
}.

(** accept(2): a new descriptor is not one of the open ones. *)
Class AcceptOk (K : Kernel) : Prop := {
  accept_fresh : ∀ t f fd sa, answer t (sys_accept f) = Ok (fd, sa) → 0 ≤ fd ∧ fd ∉ open_fds t
}.

(** unix(7), cmsg(3): the descriptors received in a message are new ones, and its length tells how many they
    are. *)
Class ReceiveOk (K : Kernel) : Prop := {
  receive_fresh : ∀ t fd n bs cm, answer t (sys_recvmsg_ctl fd n) = Ok (bs, Some cm) →
    Forall (λ fd, 0 ≤ fd ∧ fd ∉ open_fds t) (cmsg_fds cm);
  receive_len : ∀ t fd n bs cm, answer t (sys_recvmsg_ctl fd n) = Ok (bs, Some cm) → cmsg_fds cm ≠ [] →
    cmsg_len cm = CMSG_LEN_INTS (List.length (cmsg_fds cm))
}.

(** ** Reasoning about computations *)

(** The run of a sequence whose first part returns. *)
Lemma run_bind {A B} (m : M A) (k : A → M B) p a p' : m p = (Ret a, p') → (m ≫= k) p = k a p'.
Proof. intros H. unfold mbind, M_bind. by rewrite H. Qed.

(** [post m p Q]: the outcome and the final state of [m] from [p] satisfy [Q]. *)
Definition post {A} (m : M A) (p : proc) (Q : outcome A → proc → Prop) : Prop :=
  let '(o, p') := m p in Q o p'.

Lemma post_weaken {A} (m : M A) p (Q R : outcome A → proc → Prop) :
  post m p Q → (∀ o p', Q o p' → R o p') → post m p R.
Proof. unfold post. destruct (m p). auto. Qed.

Lemma post_true {A} (m : M A) p : post m p (λ _ _, True).
Proof. unfold post. by destruct (m p). Qed.

Lemma post_eq {A} (m : M A) p o p' (Q : outcome A → proc → Prop) : m p = (o, p') → Q o p' → post m p Q.
Proof. intros H. unfold post. by rewrite H. Qed.

Lemma post_and {A} (m : M A) p (Q R : outcome A → proc → Prop) :
  post m p Q → post m p R → post m p (λ o p', Q o p' ∧ R o p').
Proof. unfold post. destruct (m p). auto. Qed.

Lemma post_ret {A} (a : A) p (Q : outcome A → proc → Prop) : Q (Ret a) p → post (mret a) p Q.
Proof. done. Qed.

(** The outcomes other than a return pass through a sequence. *)
Definition through {A B} (Q : outcome B → proc → Prop) (k : A → proc → Prop)
    (o : outcome A) (p : proc) : Prop :=
  match o with
  | Ret a => k a p
  | Exit s => Q (Exit s) p
  | Abort => Q Abort p
  | UB => Q UB p
  | NoFuel => Q NoFuel p
  end.

Lemma post_bind {A B} (m : M A) (k : A → M B) p (Q : outcome B → proc → Prop) :
  post m p (through Q (λ a p', post (k a) p' Q)) → post (m ≫= k) p Q.
Proof.
  unfold post. unfold mbind, M_bind. destruct (m p) as [[] p']; simpl; done.
Qed.

Lemma post_unbind {A B} (m : M A) (k : A → M B) p (Q : outcome B → proc → Prop) :
  post (m ≫= k) p Q → post m p (through Q (λ a p', post (k a) p' Q)).
Proof.
  unfold post. unfold mbind, M_bind. destruct (m p) as [[] p']; simpl; done.
Qed.

Section post_calls.
Context {K : Kernel}.

Definition add_event {A} (c : sys A) (a : A) (p : proc) : proc :=
  Proc (Event c a :: p_trace p) (p_errno p) (p_h_errno p) (p_daemon_proc p)
    (p_res_options p) (p_next p) (p_live p).
Definition with_errno (e : Z) (p : proc) : proc :=
  Proc (p_trace p) e (p_h_errno p) (p_daemon_proc p) (p_res_options p) (p_next p) (p_live p).

Lemma post_call {A} (c : sys A) p (Q : outcome A → proc → Prop) :
  (∀ a, answer (p_trace p) c = a → Q (Ret a) (add_event c a p)) → post (call c) p Q.
Proof. intros H. by apply H. Qed.

Lemma post_syscall {A} (c : sys (res A)) p (Q : outcome (option A) → proc → Prop) :
  (∀ a, answer (p_trace p) c = Ok a → Q (Ret (Some a)) (add_event c (Ok a) p)) →
  (∀ e, answer (p_trace p) c = Err e → Q (Ret None) (with_errno e (add_event c (Err e) p))) →
  post (syscall c) p Q.
Proof.
  intros H1 H2. unfold syscall, post, mbind, M_bind. simpl.
  destruct (answer (p_trace p) c) as [a|e] eqn:E; simpl; [by apply H1|by apply H2].
Qed.
End post_calls.

Lemma post_get_errno p (Q : outcome Z → proc → Prop) : Q (Ret (p_errno p)) p → post get_errno p Q.
Proof. done. Qed.
Lemma post_get_h_errno p (Q : outcome Z → proc → Prop) : Q (Ret (p_h_errno p)) p → post get_h_errno p Q.
Proof. done. Qed.
Lemma post_get_daemon_proc p (Q : outcome bool → proc → Prop) :
  Q (Ret (p_daemon_proc p)) p → post get_daemon_proc p Q.
Proof. done. Qed.
Lemma post_set_errno e p (Q : outcome unit → proc → Prop) :
  Q (Ret tt) (with_errno e p) → post (set_errno e) p Q.
Proof. done. Qed.
Definition with_h_errno (e : Z) (p : proc) : proc :=
  Proc (p_trace p) (p_errno p) e (p_daemon_proc p) (p_res_options p) (p_next p) (p_live p).
Lemma post_set_h_errno e p (Q : outcome unit → proc → Prop) :
  Q (Ret tt) (with_h_errno e p) → post (set_h_errno e) p Q.
Proof. done. Qed.
Lemma post_stop {A} (o : outcome A) p (Q : outcome A → proc → Prop) : Q o p → post (stop o) p Q.
Proof. done. Qed.

(** A block given by [malloc] is the next one, and is then live. *)
Definition with_block (p : proc) : proc :=
  Proc (p_trace p) (p_errno p) (p_h_errno p) (p_daemon_proc p) (p_res_options p)
    (p_next p + 1) ({[p_next p]} ∪ p_live p).
Definition without_block (q : ptr) (p : proc) : proc :=
  Proc (p_trace p) (p_errno p) (p_h_errno p) (p_daemon_proc p) (p_res_options p)
    (p_next p) (p_live p ∖ {[q]}).

Lemma post_malloc {K : Kernel} n p (Q : outcome (option ptr) → proc → Prop) :
  (answer (p_trace p) (sys_malloc n) = true →
     Q (Ret (Some (p_next p))) (with_block (add_event (sys_malloc n) true p))) →
  (answer (p_trace p) (sys_malloc n) = false →
     Q (Ret None) (add_event (sys_malloc n) false p)) →
  post (malloc n) p Q.
Proof.
  intros H1 H2. unfold malloc, post, mbind, M_bind, call. simpl.
  destruct (answer (p_trace p) (sys_malloc n)); simpl; [by apply H1|by apply H2].
Qed.

Lemma post_free q p (Q : outcome unit → proc → Prop) :
  q ∈ p_live p → Q (Ret tt) (without_block q p) → post (free q) p Q.
Proof. intros Hq H. unfold free, post. by rewrite decide_True. Qed.

(** Symbolic execution: one construct of the monad. *)
Ltac post_step :=
  lazymatch goal with
  | |- post (mbind _ _) _ _ => apply post_bind
  | |- post (mret _) _ _ => apply post_ret
  | |- post (syscall _) _ _ => apply post_syscall; intros ? ?
  | |- post (call _) _ _ => apply post_call; intros ? ?
  | |- post get_errno _ _ => apply post_get_errno
  | |- post get_h_errno _ _ => apply post_get_h_errno
  | |- post get_daemon_proc _ _ => apply post_get_daemon_proc
  | |- post (set_errno _) _ _ => apply post_set_errno
  | |- post (set_h_errno _) _ _ => apply post_set_h_errno
  | |- post (stop _) _ _ => apply post_stop
  end; cbn [through].
Ltac post_steps := repeat post_step.

(** ** The events a computation adds to the trace

    [emits P m]: whatever the state, [m] only adds events that satisfy [P]. *)
Definition extends (P : event → Prop) (p p' : proc) : Prop :=
  ∃ t, p_trace p' = t ++ p_trace p ∧ Forall P t.
Definition emits {A} (P : event → Prop) (m : M A) : Prop := ∀ p, extends P p (m p).2.

Create HintDb emits.

Section emits.
Context (P : event → Prop).

Lemma extends_refl p : extends P p p.
Proof. by exists []. Qed.
Lemma extends_trans p1 p2 p3 : extends P p1 p2 → extends P p2 p3 → extends P p1 p3.
Proof.
  intros (t & Ht & H) (u & Hu & H'). exists (u ++ t). rewrite Hu, Ht, app_assoc. split; [done|].
  by apply Forall_app.
Qed.
Lemma emits_ret {A} (a : A) : emits P (mret a).
Proof. intros p. apply extends_refl. Qed.
Lemma emits_stop {A} (o : outcome A) : emits P (stop o).
Proof. intros p. apply extends_refl. Qed.
Lemma emits_bind {A B} (m : M A) (k : A → M B) : emits P m → (∀ a, emits P (k a)) → emits P (m ≫= k).
Proof.
  intros Hm Hk p. unfold mbind, M_bind. specialize (Hm p). destruct (m p) as [[] p']; try done.
  by eapply extends_trans; [|apply Hk].
Qed.
Lemma emits_call {K : Kernel} {A} (c : sys A) : (∀ a, P (Event c a)) → emits P (call c).
Proof. intros H p. eexists [_]. split; [done|]. by repeat constructor. Qed.
Lemma emits_get_errno : emits P get_errno.
Proof. intros p. apply extends_refl. Qed.
Lemma emits_set_errno e : emits P (set_errno e).
Proof. intros p. by exists []. Qed.
Lemma emits_get_h_errno : emits P get_h_errno.
Proof. intros p. apply extends_refl. Qed.
Lemma emits_set_h_errno e : emits P (set_h_errno e).
Proof. intros p. by exists []. Qed.
Lemma emits_get_res_options : emits P get_res_options.
Proof. intros p. apply extends_refl. Qed.
Lemma emits_set_res_options o : emits P (set_res_options o).
Proof. intros p. by exists []. Qed.
Lemma emits_get_daemon_proc : emits P get_daemon_proc.
Proof. intros p. apply extends_refl. Qed.
Lemma emits_alloc : emits P alloc.
Proof. intros p. by exists []. Qed.
Lemma emits_free q : emits P (free q).
Proof. intros p. unfold free. case_decide; by exists []. Qed.
Lemma emits_post {A} (m : M A) p : emits P m → post m p (λ _ p', extends P p p').
Proof. intros H. unfold post. specialize (H p). by destruct (m p). Qed.
End emits.

#[export] Hint Resolve emits_ret emits_stop emits_get_errno emits_set_errno emits_get_h_errno
  emits_set_h_errno emits_get_res_options emits_set_res_options emits_get_daemon_proc emits_alloc
  emits_free : emits.

(** Follows the structure of a computation. *)
Ltac emits_tac :=
  repeat first
    [ progress intros
    | solve [auto with emits]
    | apply emits_bind
    | apply emits_call; intros; exact I
    | progress cbn [fst snd]
    | match goal with |- emits _ (match ?x with _ => _ end) => destruct x end
    | match goal with |- emits _ (if ?x then _ else _) => destruct x end
    | progress unfold syscall, hostcall, malloc, exit ].

(** ** Concrete kernels

    [plain]: every call succeeds with the least answer. [tape]: a system where
    the bytes of [data] wait on each descriptor, at most [chunk] of them move per call, and
    the calls at the trace positions [sig] are interrupted. *)
Definition plain {A} (t : trace) (c : sys A) : A :=
  match c in sys A return A with
  | sys_read _ _ => Ok []
  | sys_write _ buf => Ok (Z.of_nat (List.length buf))
  | sys_socket _ _ _ => Ok (Z.of_nat (List.length t))
  | sys_connect _ _ _ => Ok tt
  | sys_bind _ _ _ => Ok tt
  | sys_listen _ _ => Ok tt
  | sys_accept _ => Ok (Z.of_nat (List.length t), SaOther 0 [])
  | sys_close _ => Ok tt
  | sys_shutdown _ _ => Ok tt
  | sys_setsockopt _ _ _ _ => Ok tt
  | sys_getsockopt _ _ _ _ => Ok 0
  | sys_getsockname _ => Ok (SaOther 0 [])
  | sys_fcntl _ _ _ => Ok 0
  | sys_ioctl_ifaddr _ _ => Ok [127; 0; 0; 1]
  | sys_select r w _ => Ok (r, w)
  | sys_sendto _ buf _ => Ok (Z.of_nat (List.length buf))
  | sys_recvfrom _ _ => Ok ([], SaOther 0 [])
  | sys_sendmsg _ buf => Ok (Z.of_nat (List.length buf))
  | sys_recvmsg_jmp _ _ => None
  | sys_alarm _ => 0
  | sys_sigaction _ _ _ => Ok 0
  | sys_gettimeofday => Ok (0, 0)
  | sys_malloc _ => true
  | sys_unlink _ => Ok tt
  | sys_uname => Ok "host"%string
  | sys_if_nametoindex _ => 1
  | sys_if_indextoname _ => Some "lo"%string
  | sys_gethostbyname _ _ => Err 1
  | sys_gethostbyname2 _ _ _ => Err 1
  | sys_gethostbyaddr _ _ => Err 1
  | sys_getservbyname _ _ => None
  | sys_getservbyport _ _ => None
  | sys_res_init => 0
  | sys_fgets _ => Ok None
  | sys_fputs _ _ => Ok tt
  | sys_syslog _ _ => tt
  | sys_fflush _ => tt
  | sys_getenv _ => None
  | sys_poll fds _ => Ok (Z.of_nat (List.length fds), snd <$> fds)
  | sys_strerror _ => "error"%string
  | sys_fork => Ok (1 + Z.of_nat (List.length t))
  | sys_getpid => 1
  | sys_socketpair _ _ _ => Ok (3 + 2 * Z.of_nat (List.length t), 4 + 2 * Z.of_nat (List.length t))
  | sys_dup2 _ fd2 => Ok fd2
  | sys_recvmsg_ctl _ _ => Ok ([], None)
  | sys_sendmsg_ctl _ buf _ => Ok (Z.of_nat (List.length buf))
  | sys_setsockopt_group _ _ _ _ _ => Ok tt
  | sys_getsockopt_bytes _ _ _ size => Ok (replicate (Z.to_nat size) 0)
  | sys_setsockopt_source _ _ _ _ _ _ => Ok tt
  | sys_getpeername _ => Ok (SaOther 0 [])
  | sys_recv _ _ _ => Ok []
  | sys_send _ buf _ => Ok (Z.of_nat (List.length buf))
  | sys_ioctl _ _ arg => Ok (0, arg)
  | sys_mkstemp template => Ok (Z.of_nat (List.length t), template)
  | sys_mmap _ _ _ _ _ _ => Ok 0
  | sys_open _ _ _ => Ok (Z.of_nat (List.length t))
  | sys_pipe => Ok (3 + 2 * Z.of_nat (List.length t), 4 + 2 * Z.of_nat (List.length t))
  | sys_sigaddset set signo => Ok ({[signo]} ∪ set)
  | sys_sigdelset set signo => Ok (set ∖ {[signo]})
  | sys_sigemptyset => Ok ∅
  | sys_sigfillset => Ok ∅
  | sys_sigismember set signo => Ok (Z.b2z (bool_decide (signo ∈ set)))
  | sys_sigpending => Ok ∅
  | sys_sigprocmask _ set => Ok set
  | sys_sysconf _ => Ok 1
  | sys_wait => Ok (1, 0)
  | sys_waitpid pid _ => Ok (pid, 0)
  | sys_fclose _ => Ok tt
  | sys_fdopen fd _ => Ok fd
  | sys_fopen _ _ => Ok 3
  | sys_setsid => Ok 1
  | sys_chdir _ => Ok tt
  | sys_openlog _ _ _ => tt
  | sys_ctime _ => "Thu Jan  1 00:00:00 1970"%string
  | sys_pthread_create _ _ _ => Ok 1
  | sys_pthread_join _ => Ok 0
  | sys_pthread_detach _ => Ok tt
  | sys_pthread_kill _ _ => Ok tt
  | sys_pthread_mutexattr_init => Ok 0
  | sys_pthread_mutexattr_setpshared _ _ => Ok tt
  | sys_pthread_mutex_init _ _ => Ok tt
  | sys_pthread_mutex_lock _ => Ok tt
  | sys_pthread_mutex_unlock _ => Ok tt
  | sys_pthread_cond_broadcast _ => Ok tt
  | sys_pthread_cond_signal _ => Ok tt
  | sys_pthread_cond_wait _ _ => Ok tt
  | sys_pthread_cond_timedwait _ _ _ => Ok tt
  | sys_pthread_once _ _ => Ok tt
  | sys_pthread_key_create _ => Ok 0
  | sys_pthread_setspecific _ _ => Ok tt
  | sys_flag _ => false
  | sys_getuid => 1000
  | sys_setuid _ => Ok tt
  | sys_getnameinfo _ _ => None
  | sys_execl _ _ => Ok tt
  | sys_recvmsg_from _ _ => Ok ([], SaOther 0 [], [])
  | sys_pcap_next => None
  | sys_sigsuspend _ => Err 4
  | sys_writev _ iov => Ok (Z.of_nat (List.length (mjoin iov)))
  | sys_select_none _ _ => Ok 0
  | sys_recvmsg_flags _ _ => Ok ([], SaOther 0 [], 0)
  | sys_kill _ _ => Ok tt
  | sys_getppid => 1
  | sys_fcntl_lock _ _ _ _ _ _ => Ok 0
  | sys_pause => 2
  | sys_getrusage _ => Ok (0, 0, (0, 0))
  end.
Definition plain_kernel : Kernel := @plain.

Definition tape_kernel (data : list Z) (chunk : nat) (sig : list nat) : Kernel := λ A t c,
  (match c in sys A return A → A with
   | sys_read fd n => λ _,
       if decide (List.length t ∈ sig) then Err 4
       else Ok (take (Nat.min chunk (Z.to_nat n)) (drop (List.length (received fd t)) data))
   | sys_write fd buf => λ _,
       if decide (List.length t ∈ sig) then Err 4
       else Ok (Z.of_nat (Nat.min chunk (List.length buf)))
   | _ => λ a, a
   end) (plain t c).

Lemma tape_ok data chunk sig : ReadWriteOk (tape_kernel data chunk sig).
Proof.
  split.
  - intros t fd n bs Hn. unfold answer, tape_kernel. case_decide; [done|]. intros [= <-].
    rewrite length_take. lia.
  - intros t fd buf n. unfold answer, tape_kernel. case_decide; [done|]. intros [= <-]. lia.
Qed.
