(* ===== verification/Wrap.v ===== *)
(** Error reporting and the wrapper functions: src/unpv13e/lib/error.c, and
    the wrappers of lib/wrapsock.c, lib/wrapunix.c, lib/wrapstdio.c,
    lib/wrappthread.c, lib/signal.c and lib/wraplib.c that the configured system
    compiles.  A wrapper makes its call and terminates the process by
    [err_sys] when it fails. *)
From S2P Require Import Prelude Machine Posix.

Definition MAXLINE : Z := 4096.
Definition LOG_ERR : Z := 3.
Definition LOG_INFO : Z := 6.
Definition STDIN_FILENO : Z := 0.
Definition STDOUT_FILENO : Z := 1.
Definition STDERR_FILENO : Z := 2.
Definition ECONNABORTED : Z := 103.
Definition EPROTO : Z := 71.
Definition SIGALRM : Z := 14.
Definition SA_RESTART : Z := 268435456.
Definition nl : string := String "010" "".

Section wrap.
Context {K : Kernel}.

(** ** lib/error.c *)

(** [msg] is the text of the caller's format and arguments.  [buf] has
    [MAXLINE+1] characters. *)
Definition err_doit (errnoflag : bool) (level : Z) (msg : string) : M unit :=
  errno_save ← get_errno;
  let buf := snprintf MAXLINE msg in
  let n := strlen buf in
  buf ← (if errnoflag
         then s ← call (sys_strerror errno_save);
              mret (buf +:+ snprintf (MAXLINE - n) (": " +:+ s))
         else mret buf);
  let buf := buf +:+ nl in
  daemon_proc ← get_daemon_proc;
  if (daemon_proc : bool) then call (sys_syslog level buf)
  else
    call (sys_fflush STDOUT_FILENO) ;;
    syscall (sys_fputs STDERR_FILENO buf) ;;
    call (sys_fflush STDERR_FILENO).

Definition err_ret (msg : string) : M unit := err_doit true LOG_INFO msg.
Definition err_sys {A} (msg : string) : M A := err_doit true LOG_ERR msg ;; exit 1.
Definition err_dump {A} (msg : string) : M A := err_doit true LOG_ERR msg ;; stop Abort.
Definition err_msg (msg : string) : M unit := err_doit false LOG_INFO msg.
Definition err_quit {A} (msg : string) : M A := err_doit false LOG_ERR msg ;; exit 1.

(** The common shape of the wrappers: -1 is fatal. *)
Definition or_err_sys {A} (c : sys (res A)) (msg : string) : M A :=
  r ← syscall c;
  match r with Some a => mret a | None => err_sys msg end.

(** ** lib/wrapsock.c *)

(** The call is repeated while the connection was aborted before [accept]. *)
Fixpoint Accept (fuel : nat) (fd : Z) : M (Z * sockaddr) :=
  match fuel with
  | O => stop NoFuel
  | S f =>
      r ← syscall (sys_accept fd);
      match r with
      | Some c => mret c
      | None =>
          e ← get_errno;
          if (e =? EPROTO) || (e =? ECONNABORTED) then Accept f fd else err_sys "accept error"
      end
  end.

Definition Bind (fd : Z) (sa : sockaddr) (salen : Z) : M unit :=
  or_err_sys (sys_bind fd sa salen) "bind error".
Definition Connect (fd : Z) (sa : sockaddr) (salen : Z) : M unit :=
  or_err_sys (sys_connect fd sa salen) "connect error".
Definition Getsockname (fd : Z) : M sockaddr := or_err_sys (sys_getsockname fd) "getsockname error".

Definition Getpeername (fd : Z) : M sockaddr := or_err_sys (sys_getpeername fd) "getpeername error".
Definition Getsockopt (fd level optname optlen : Z) : M (list Z) :=
  or_err_sys (sys_getsockopt_bytes fd level optname optlen) "getsockopt error".

(** The environment variable LISTENQ overrides the backlog. *)
Definition Listen (fd backlog : Z) : M unit :=
  ptr ← call (sys_getenv "LISTENQ");
  let backlog := match ptr with Some s => atoi s | None => backlog end in
  or_err_sys (sys_listen fd backlog) "listen error".

Definition Poll (fdarray : list (Z * Z)) (timeout : Z) : M (Z * list Z) :=
  or_err_sys (sys_poll fdarray timeout) "poll error".
Definition Recv (fd nbytes flags : Z) : M (list Z) :=
  or_err_sys (sys_recv fd nbytes flags) "recv error".
Definition Recvmsg (fd nbytes : Z) : M (list Z * option cmsghdr) :=
  or_err_sys (sys_recvmsg_ctl fd nbytes) "recvmsg error".
Definition Recvfrom (fd nbytes : Z) : M (list Z * sockaddr) :=
  or_err_sys (sys_recvfrom fd nbytes) "recvfrom error".
Definition Select (rset wset : list Z) (timeout : option Z) : M (list Z * list Z) :=
  or_err_sys (sys_select rset wset timeout) "select error".

(** A count other than the number of bytes given is an error. *)
Definition Send (fd : Z) (buf : list Z) (flags : Z) : M unit :=
  r ← syscall (sys_send fd buf flags);
  match r with
  | Some n => if n =? Z.of_nat (List.length buf) then mret tt else err_sys "send error"
  | None => err_sys "send error"
  end.
Definition Sendto (fd : Z) (buf : list Z) (sa : sockaddr) : M unit :=
  r ← syscall (sys_sendto fd buf sa);
  match r with
  | Some n => if n =? Z.of_nat (List.length buf) then mret tt else err_sys "sendto error"
  | None => err_sys "sendto error"
  end.
Definition Sendmsg (fd : Z) (iov : list (list Z)) : M unit :=
  let nbytes := foldr (λ v n, Z.of_nat (List.length v) + n) 0 iov in
  r ← syscall (sys_sendmsg fd (mjoin iov));
  match r with
  | Some n => if n =? nbytes then mret tt else err_sys "sendmsg error"
  | None => err_sys "sendmsg error"
  end.
Definition Setsockopt (fd level opt : Z) (val : list Z) : M unit :=
  or_err_sys (sys_setsockopt fd level opt val) "setsockopt error".
Definition Shutdown (fd how : Z) : M unit := or_err_sys (sys_shutdown fd how) "shutdown error".
Definition Socket (family type protocol : Z) : M Z :=
  or_err_sys (sys_socket family type protocol) "socket error".
Definition Socketpair (family type protocol : Z) : M (Z * Z) :=
  or_err_sys (sys_socketpair family type protocol) "socketpair error".

(** ** lib/wrapunix.c *)

Definition Calloc (size : Z) : M ptr :=
  q ← malloc size;
  match q with Some q => mret q | None => err_sys "calloc error" end.
Definition Close (fd : Z) : M unit := or_err_sys (sys_close fd) "close error".
Definition Dup2 (fd1 fd2 : Z) : M Z := or_err_sys (sys_dup2 fd1 fd2) "dup2 error".
Definition Fork : M Z := or_err_sys sys_fork "fork error".
Definition Ioctl (fd request : Z) (arg : list Z) : M (Z * list Z) :=
  or_err_sys (sys_ioctl fd request arg) "ioctl error".
(** The only wrapper of a system call that reports by [err_quit]. *)
Definition Mkstemp (template : string) : M (Z * string) :=
  r ← syscall (sys_mkstemp template);
  match r with Some a => mret a | None => err_quit "mkstemp error" end.
Definition Mmap (addr len prot flags fd offset : Z) : M Z :=
  or_err_sys (sys_mmap addr len prot flags fd offset) "mmap error".
Definition Open (pathname : string) (oflag mode : Z) : M Z :=
  or_err_sys (sys_open pathname oflag mode) ("open error for " +:+ pathname).
Definition Pipe : M (Z * Z) := or_err_sys sys_pipe "pipe error".
Definition Sigaddset (set : gset Z) (signo : Z) : M (gset Z) :=
  or_err_sys (sys_sigaddset set signo) "sigaddset error".
Definition Sigdelset (set : gset Z) (signo : Z) : M (gset Z) :=
  or_err_sys (sys_sigdelset set signo) "sigdelset error".
Definition Sigemptyset : M (gset Z) := or_err_sys sys_sigemptyset "sigemptyset error".
Definition Sigfillset : M (gset Z) := or_err_sys sys_sigfillset "sigfillset error".
Definition Sigismember (set : gset Z) (signo : Z) : M Z :=
  or_err_sys (sys_sigismember set signo) "sigismember error".
Definition Sigpending : M (gset Z) := or_err_sys sys_sigpending "sigpending error".
Definition Sigprocmask (how : Z) (set : gset Z) : M (gset Z) :=
  or_err_sys (sys_sigprocmask how set) "sigprocmask error".
(** [Err 0]: the limit is indeterminate, and [errno] is left as it was. *)
Definition Sysconf (name : Z) : M Z :=
  set_errno 0 ;;
  or_err_sys (sys_sysconf name) "sysconf error".
Definition Wait : M (Z * Z) := or_err_sys sys_wait "wait error".
Definition Waitpid (pid options : Z) : M (Z * Z) :=
  or_err_sys (sys_waitpid pid options) "waitpid error".
Definition Fcntl (fd cmd arg : Z) : M Z := or_err_sys (sys_fcntl fd cmd arg) "fcntl error".
Definition Gettimeofday : M (Z * Z) := or_err_sys sys_gettimeofday "gettimeofday error".
Definition Malloc (size : Z) : M ptr :=
  q ← malloc size;
  match q with Some q => mret q | None => err_sys "malloc error" end.
Definition Read (fd nbytes : Z) : M (list Z) := or_err_sys (sys_read fd nbytes) "read error".
Definition Unlink (path : string) : M unit :=
  or_err_sys (sys_unlink path) ("unlink error for " +:+ path).
Definition Write (fd : Z) (buf : list Z) : M unit :=
  r ← syscall (sys_write fd buf);
  match r with
  | Some n => if n =? Z.of_nat (List.length buf) then mret tt else err_sys "write error"
  | None => err_sys "write error"
  end.

(** ** lib/wrapstdio.c *)

(** [None]: end of file. *)
Definition Fgets (n : Z) : M (option string) := or_err_sys (sys_fgets n) "fgets error".
Definition Fclose (stream : Z) : M unit := or_err_sys (sys_fclose stream) "fclose error".
Definition Fdopen (fd : Z) (type : string) : M Z := or_err_sys (sys_fdopen fd type) "fdopen error".
Definition Fopen (filename mode : string) : M Z :=
  or_err_sys (sys_fopen filename mode) "fopen error".
Definition Fputs (s : string) (stream : Z) : M unit := or_err_sys (sys_fputs stream s) "fputs error".

(** ** lib/wrappthread.c

    A call returns 0 or the error number, and leaves [errno] alone. *)
Definition or_errno {A} (c : sys (res A)) (msg : string) : M A :=
  n ← call c;
  match n with
  | Ok a => mret a
  | Err n => set_errno n ;; err_sys msg
  end.

Definition Pthread_create (attr func arg : Z) : M Z :=
  or_errno (sys_pthread_create attr func arg) "pthread_create error".
Definition Pthread_join (tid : Z) : M Z := or_errno (sys_pthread_join tid) "pthread_join error".
Definition Pthread_detach (tid : Z) : M unit :=
  or_errno (sys_pthread_detach tid) "pthread_detach error".
Definition Pthread_kill (tid signo : Z) : M unit :=
  or_errno (sys_pthread_kill tid signo) "pthread_kill error".
Definition Pthread_mutexattr_init : M Z :=
  or_errno sys_pthread_mutexattr_init "pthread_mutexattr_init error".
Definition Pthread_mutexattr_setpshared (attr flag : Z) : M unit :=
  or_errno (sys_pthread_mutexattr_setpshared attr flag) "pthread_mutexattr_setpshared error".
Definition Pthread_mutex_init (mptr attr : Z) : M unit :=
  or_errno (sys_pthread_mutex_init mptr attr) "pthread_mutex_init error".
Definition Pthread_mutex_lock (mptr : Z) : M unit :=
  or_errno (sys_pthread_mutex_lock mptr) "pthread_mutex_lock error".
Definition Pthread_mutex_unlock (mptr : Z) : M unit :=
  or_errno (sys_pthread_mutex_unlock mptr) "pthread_mutex_unlock error".
Definition Pthread_cond_broadcast (cptr : Z) : M unit :=
  or_errno (sys_pthread_cond_broadcast cptr) "pthread_cond_broadcast error".
Definition Pthread_cond_signal (cptr : Z) : M unit :=
  or_errno (sys_pthread_cond_signal cptr) "pthread_cond_signal error".
Definition Pthread_cond_wait (cptr mptr : Z) : M unit :=
  or_errno (sys_pthread_cond_wait cptr mptr) "pthread_cond_wait error".
Definition Pthread_cond_timedwait (cptr mptr : Z) (tsptr : Z * Z) : M unit :=
  or_errno (sys_pthread_cond_timedwait cptr mptr tsptr) "pthread_cond_timedwait error".
Definition Pthread_once (ptr func : Z) : M unit :=
  or_errno (sys_pthread_once ptr func) "pthread_once error".
Definition Pthread_key_create (func : Z) : M Z :=
  or_errno (sys_pthread_key_create func) "pthread_key_create error".
Definition Pthread_setspecific (key value : Z) : M unit :=
  or_errno (sys_pthread_setspecific key value) "pthread_setspecific error".

(** [printf]: the text is that of its format and arguments. *)
Definition printf (s : string) : M unit := syscall (sys_fputs STDOUT_FILENO s) ;; mret tt.

(** ** lib/signal.c: restart interrupted calls, except for SIGALRM *)

Definition signal (signo func : Z) : M (option Z) :=
  let sa_flags := if signo =? SIGALRM then 0 else Z.lor 0 SA_RESTART in
  syscall (sys_sigaction signo func sa_flags).
Definition Signal (signo func : Z) : M Z :=
  r ← signal signo func;
  match r with Some h => mret h | None => err_sys "signal error" end.

(** ** Lemmas *)

(** The message of a report, whatever its length, leaves room in [buf] for the
    newline and the terminator. *)
Definition report_fits (o : event) : Prop :=
  match o with
  | Event c _ =>
      match c with
      | sys_syslog _ s => strlen s + 1 ≤ MAXLINE + 1
      | sys_fputs fd s => fd = STDERR_FILENO → strlen s + 1 ≤ MAXLINE + 1
      | _ => True
      end
  end.

Lemma report_length msg s :
  strlen (snprintf MAXLINE msg +:+ snprintf (MAXLINE - strlen (snprintf MAXLINE msg)) s) ≤ MAXLINE - 1.
Proof.
  pose proof (snprintf_length MAXLINE msg ltac:(unfold MAXLINE; lia)).
  pose proof (snprintf_length (MAXLINE - strlen (snprintf MAXLINE msg)) s ltac:(lia)).
  unfold strlen in *. rewrite str_length_app. lia.
Qed.

Definition quiet (e : event) : Prop :=
  match e with
  | Event c _ =>
      match c with
      | sys_syslog _ _ | sys_fputs _ _ | sys_fflush _ | sys_strerror _ => True
      | _ => False
      end
  end.

(** From [p] to [p'] nothing happened but reports that fit in [buf]: no memory
    and no descriptor was touched. *)
Definition reported (p p' : proc) : Prop :=
  (∃ t, p_trace p' = t ++ p_trace p ∧ Forall quiet t ∧ Forall report_fits t) ∧
  p_live p' = p_live p ∧ p_next p' = p_next p.

Lemma reported_refl p : reported p p.
Proof. split; [|done]. by exists []. Qed.

Lemma reported_event {A} (c : sys A) a p p' :
  quiet (Event c a) → report_fits (Event c a) → reported p p' → reported p (add_event c a p').
Proof.
  intros Hq Hf [(t & Ht & H1 & H2) H3]. split; [|done].
  exists (Event c a :: t). simpl. rewrite Ht. eauto using Forall_cons_2.
Qed.

Lemma reported_errno e p p' : reported p p' → reported p (with_errno e p').
Proof. done. Qed.

Lemma report_fits_nl s : strlen s ≤ MAXLINE - 1 → strlen (s +:+ nl) + 1 ≤ MAXLINE + 1.
Proof. intros H. unfold strlen in *. rewrite str_length_app. simpl. lia. Qed.

Lemma report_fits_short msg : strlen (snprintf MAXLINE msg) ≤ MAXLINE - 1.
Proof. pose proof (snprintf_length MAXLINE msg ltac:(unfold MAXLINE; lia)). lia. Qed.

Lemma err_doit_reports errnoflag level msg p :
  post (err_doit errnoflag level msg) p (λ o p', o = Ret tt ∧ reported p p').
Proof.
  assert (Hend : ∀ a : unit, Ret a = Ret tt) by by intros [].
  unfold err_doit. post_steps. destruct errnoflag; post_steps; simpl;
    destruct (p_daemon_proc p); post_steps; split; try apply Hend;
    repeat (apply reported_event || apply reported_errno || apply reported_refl); simpl; try done;
    intros; apply report_fits_nl; auto using report_length, report_fits_short.
Qed.

(** The outcome of a computation that ends by [err_sys] or [err_quit]. *)
Lemma err_sys_exits {A} msg p :
  post (err_sys (A := A) msg) p (λ o p', o = Exit 1 ∧ reported p p').
Proof.
  unfold err_sys. apply post_bind. eapply post_weaken; [apply err_doit_reports|].
  intros o p' [-> H]. done.
Qed.
Lemma err_quit_exits {A} msg p :
  post (err_quit (A := A) msg) p (λ o p', o = Exit 1 ∧ reported p p').
Proof.
  unfold err_quit. apply post_bind. eapply post_weaken; [apply err_doit_reports|].
  intros o p' [-> H]. done.
Qed.

(** A computation that makes one call and, when it fails, says why and exits:
    on the terminal or, in a daemon, in the system's log, the line holds the
    wrapper's message and the text of the call's [errno]. *)
Definition said (msg : string) (e : Z) (p' : proc) : Prop :=
  ∃ text, Event (sys_strerror e) text ∈ p_trace p' ∧
  let head := snprintf MAXLINE msg in
  let line := head +:+ snprintf (MAXLINE - strlen head) (": " +:+ text) +:+ nl in
  if p_daemon_proc p' then ∃ u, Event (sys_syslog LOG_ERR line) u ∈ p_trace p'
  else ∃ r, Event (sys_fputs STDERR_FILENO line) r ∈ p_trace p'.

Definition checked {A} (m : M A) (c : sys (res A)) (msg : string) : Prop :=
  ∀ p, match answer (p_trace p) c with
       | Ok a => m p = (Ret a, add_event c (Ok a) p)
       | Err e => post m p (λ o p', o = Exit 1 ∧ reported (add_event c (Err e) p) p' ∧ said msg e p')
       end.

Lemma err_sys_says {A} msg p : post (err_sys (A := A) msg) p (λ _ p', said msg (p_errno p) p').
Proof.
  unfold err_sys, err_doit. post_steps.
  destruct (p_daemon_proc _) eqn:Ed; post_steps; unfold exit; post_steps; rewrite str_app_assoc;
    (eexists; split; [cbn; eauto 10 using list_elem_of_here, list_elem_of_further|]);
    cbn in Ed |- *; rewrite Ed; eexists; eauto 10 using list_elem_of_here, list_elem_of_further.
Qed.

Lemma checked_exits {A B} (c : sys (res A)) msg e p :
  post (err_sys (A := B) msg) (with_errno e (add_event c (Err e) p))
    (λ o p', o = Exit 1 ∧ reported (add_event c (Err e) p) p' ∧ said msg e p').
Proof.
  eapply post_weaken; [apply post_and; [apply err_sys_exits|apply err_sys_says]|].
  intros o p' [[-> H] Hs]. done.
Qed.
Lemma or_err_sys_checked {A} (c : sys (res A)) msg : checked (or_err_sys c msg) c msg.
Proof.
  intros p. destruct (answer (p_trace p) c) as [a|e] eqn:E.
  - unfold or_err_sys, syscall, mbind, M_bind, call. by rewrite E.
  - apply post_bind. apply post_syscall; intros ? E'; rewrite E in E'; simplify_eq. apply checked_exits.
Qed.
Lemma or_errno_checked {A} (c : sys (res A)) msg : checked (or_errno c msg) c msg.
Proof.
  intros p. destruct (answer (p_trace p) c) as [a|e] eqn:E.
  - unfold or_errno, mbind, M_bind, call. by rewrite E.
  - apply post_bind. apply post_call. intros r <-. cbn [through]. rewrite E. apply post_bind, post_set_errno. apply checked_exits.
Qed.
#[local] Hint Resolve or_err_sys_checked or_errno_checked : core.

(** A call that must move [len] bytes: a short count is an error too, reported
    with whatever [errno] holds. *)
Definition checked_count (m : M unit) (c : sys (res Z)) (len : Z) (msg : string) : Prop :=
  ∀ p, match answer (p_trace p) c with
       | Ok n =>
           if n =? len then m p = (Ret tt, add_event c (Ok n) p)
           else post m p (λ o p', o = Exit 1 ∧ reported (add_event c (Ok n) p) p' ∧ said msg (p_errno p) p')
       | Err e => post m p (λ o p', o = Exit 1 ∧ reported (add_event c (Err e) p) p' ∧ said msg e p')
       end.

Lemma count_checked c len msg :
  checked_count (r ← syscall c; match r with
                                | Some n => if n =? len then mret tt else err_sys msg
                                | None => err_sys msg end) c len msg.
Proof.
  intros p. destruct (answer (p_trace p) c) as [n|e] eqn:E; [destruct (n =? len) eqn:En|].
  - unfold syscall, mbind, M_bind, call. rewrite E. cbn. by rewrite En.
  - apply post_bind, post_syscall; intros ? E'; rewrite E in E'; simplify_eq. cbn [through]. rewrite En.
    eapply post_weaken; [apply post_and; [apply err_sys_exits|apply err_sys_says]|]. intros o p' [[-> H] Hs]. done.
  - apply post_bind, post_syscall; intros ? E'; rewrite E in E'; simplify_eq. apply checked_exits.
Qed.
Lemma sendmsg_length iov :
  foldr (λ v n, Z.of_nat (List.length v) + n) 0 iov = Z.of_nat (List.length (mjoin iov : list Z)).
Proof. induction iov as [|v iov IH]; [done|]. cbn [foldr]. rewrite IH. change (mjoin (v :: iov)) with (v ++ mjoin iov). rewrite length_app. lia. Qed.
End wrap.

(** ** Properties *)

(** A report of [err_sys] is written whole: whatever the length of the
    message and of the text of [errno], the line with its newline and
    terminator fits the [MAXLINE+1] characters of [buf]; the process then exits
    with status 1, no descriptor and no memory having been touched. *)
Theorem err_sys_report {K : Kernel} (A : Type) msg p :
  post (err_sys (A := A) msg) p (λ o p',
    o = Exit 1 ∧ p_live p' = p_live p ∧
    ∃ t, p_trace p' = t ++ p_trace p ∧ Forall quiet t ∧ Forall report_fits t).
Proof.
  eapply post_weaken; [apply err_sys_exits|]. intros o p' (-> & H & ? & ?). done.
Qed.

(** Every wrapper makes exactly its call, and returns what the call
    returned when it succeeds; when the call fails the wrapper does not return:
    it reports its own message with the text of the error of that very call,
    on the standard error stream or, for a daemon, in the system's log, and
    terminates the process with status 1.  The wrappers that send also take a
    short count for an error. *)
Theorem wrappers_checked {K : Kernel} :
  (∀ fd sa salen, checked (Bind fd sa salen) (sys_bind fd sa salen) "bind error") ∧
  (∀ fd sa salen, checked (Connect fd sa salen) (sys_connect fd sa salen) "connect error") ∧
  (∀ fd, checked (Getsockname fd) (sys_getsockname fd) "getsockname error") ∧
  (∀ fd, checked (Getpeername fd) (sys_getpeername fd) "getpeername error") ∧
  (∀ fd level optname optlen, checked (Getsockopt fd level optname optlen) (sys_getsockopt_bytes fd level optname optlen) "getsockopt error") ∧
  (∀ fd nbytes flags, checked (Recv fd nbytes flags) (sys_recv fd nbytes flags) "recv error") ∧
  (∀ fd nbytes, checked (Recvmsg fd nbytes) (sys_recvmsg_ctl fd nbytes) "recvmsg error") ∧
  (∀ fd nbytes, checked (Recvfrom fd nbytes) (sys_recvfrom fd nbytes) "recvfrom error") ∧
  (∀ rset wset timeout, checked (Select rset wset timeout) (sys_select rset wset timeout) "select error") ∧
  (∀ fd level opt val, checked (Setsockopt fd level opt val) (sys_setsockopt fd level opt val) "setsockopt error") ∧
  (∀ fd how, checked (Shutdown fd how) (sys_shutdown fd how) "shutdown error") ∧
  (∀ family type protocol, checked (Socket family type protocol) (sys_socket family type protocol) "socket error") ∧
  (∀ family type protocol, checked (Socketpair family type protocol) (sys_socketpair family type protocol) "socketpair error") ∧
  (∀ fd, checked (Close fd) (sys_close fd) "close error") ∧
  (∀ fd1 fd2, checked (Dup2 fd1 fd2) (sys_dup2 fd1 fd2) "dup2 error") ∧
  checked Fork sys_fork "fork error" ∧
  (∀ fd request arg, checked (Ioctl fd request arg) (sys_ioctl fd request arg) "ioctl error") ∧
  (∀ addr len prot flags fd offset, checked (Mmap addr len prot flags fd offset) (sys_mmap addr len prot flags fd offset) "mmap error") ∧
  (∀ pathname oflag mode, checked (Open pathname oflag mode) (sys_open pathname oflag mode) ("open error for " +:+ pathname)) ∧
  checked Pipe sys_pipe "pipe error" ∧
  (∀ set signo, checked (Sigaddset set signo) (sys_sigaddset set signo) "sigaddset error") ∧
  (∀ set signo, checked (Sigdelset set signo) (sys_sigdelset set signo) "sigdelset error") ∧
  checked Sigemptyset sys_sigemptyset "sigemptyset error" ∧
  checked Sigfillset sys_sigfillset "sigfillset error" ∧
  (∀ set signo, checked (Sigismember set signo) (sys_sigismember set signo) "sigismember error") ∧
  checked Sigpending sys_sigpending "sigpending error" ∧
  (∀ how set, checked (Sigprocmask how set) (sys_sigprocmask how set) "sigprocmask error") ∧
  checked Wait sys_wait "wait error" ∧
  (∀ pid options, checked (Waitpid pid options) (sys_waitpid pid options) "waitpid error") ∧
  (∀ fd cmd arg, checked (Fcntl fd cmd arg) (sys_fcntl fd cmd arg) "fcntl error") ∧
  checked Gettimeofday sys_gettimeofday "gettimeofday error" ∧
  (∀ fd nbytes, checked (Read fd nbytes) (sys_read fd nbytes) "read error") ∧
  (∀ path, checked (Unlink path) (sys_unlink path) ("unlink error for " +:+ path)) ∧
  (∀ n, checked (Fgets n) (sys_fgets n) "fgets error") ∧
  (∀ stream, checked (Fclose stream) (sys_fclose stream) "fclose error") ∧
  (∀ fd type, checked (Fdopen fd type) (sys_fdopen fd type) "fdopen error") ∧
  (∀ filename mode, checked (Fopen filename mode) (sys_fopen filename mode) "fopen error") ∧
  (∀ s stream, checked (Fputs s stream) (sys_fputs stream s) "fputs error") ∧
  (∀ attr func arg, checked (Pthread_create attr func arg) (sys_pthread_create attr func arg) "pthread_create error") ∧
  (∀ tid, checked (Pthread_join tid) (sys_pthread_join tid) "pthread_join error") ∧
  (∀ tid, checked (Pthread_detach tid) (sys_pthread_detach tid) "pthread_detach error") ∧
  (∀ tid signo, checked (Pthread_kill tid signo) (sys_pthread_kill tid signo) "pthread_kill error") ∧
  checked Pthread_mutexattr_init sys_pthread_mutexattr_init "pthread_mutexattr_init error" ∧
  (∀ attr flag, checked (Pthread_mutexattr_setpshared attr flag) (sys_pthread_mutexattr_setpshared attr flag) "pthread_mutexattr_setpshared error") ∧
  (∀ mptr attr, checked (Pthread_mutex_init mptr attr) (sys_pthread_mutex_init mptr attr) "pthread_mutex_init error") ∧
  (∀ mptr, checked (Pthread_mutex_lock mptr) (sys_pthread_mutex_lock mptr) "pthread_mutex_lock error") ∧
  (∀ mptr, checked (Pthread_mutex_unlock mptr) (sys_pthread_mutex_unlock mptr) "pthread_mutex_unlock error") ∧
  (∀ cptr, checked (Pthread_cond_broadcast cptr) (sys_pthread_cond_broadcast cptr) "pthread_cond_broadcast error") ∧
  (∀ cptr, checked (Pthread_cond_signal cptr) (sys_pthread_cond_signal cptr) "pthread_cond_signal error") ∧
  (∀ cptr mptr, checked (Pthread_cond_wait cptr mptr) (sys_pthread_cond_wait cptr mptr) "pthread_cond_wait error") ∧
  (∀ cptr mptr tsptr, checked (Pthread_cond_timedwait cptr mptr tsptr) (sys_pthread_cond_timedwait cptr mptr tsptr) "pthread_cond_timedwait error") ∧
  (∀ ptr func, checked (Pthread_once ptr func) (sys_pthread_once ptr func) "pthread_once error") ∧
  (∀ func, checked (Pthread_key_create func) (sys_pthread_key_create func) "pthread_key_create error") ∧
  (∀ key value, checked (Pthread_setspecific key value) (sys_pthread_setspecific key value) "pthread_setspecific error") ∧
  (∀ fd buf, checked_count (Write fd buf) (sys_write fd buf) (Z.of_nat (List.length buf)) "write error") ∧
  (∀ fd buf flags, checked_count (Send fd buf flags) (sys_send fd buf flags) (Z.of_nat (List.length buf)) "send error") ∧
  (∀ fd buf sa, checked_count (Sendto fd buf sa) (sys_sendto fd buf sa) (Z.of_nat (List.length buf)) "sendto error") ∧
  (∀ fd iov, checked_count (Sendmsg fd iov) (sys_sendmsg fd (mjoin iov)) (Z.of_nat (List.length (mjoin iov))) "sendmsg error").
Proof.
  repeat (split; [intros; solve [apply or_err_sys_checked|apply or_errno_checked|apply count_checked]|]).
  intros fd iov. unfold Sendmsg. rewrite sendmsg_length. apply count_checked.
Qed.
