(* ===== verification/Heap.v ===== *)
(** Ownership of heap blocks: which blocks a computation has allocated and not
    freed. *)
From S2P Require Import Prelude Machine Posix Wrap.

(** Since [p0], exactly the blocks [own] were allocated and not freed. *)
Definition heap_ok (p : proc) : Prop := ∀ q, q ∈ p_live p → q < p_next p.
Definition holds (p0 : proc) (own : list ptr) (p : proc) : Prop :=
  heap_ok p ∧ NoDup own ∧ (∀ q, q ∈ own → q ∉ p_live p0) ∧
  (∀ q, q ∈ p_live p ↔ q ∈ p_live p0 ∨ q ∈ own).

Lemma holds_perm p0 own own' p : own ≡ₚ own' → holds p0 own p → holds p0 own' p.
Proof.
  intros He (H1 & H2 & H3 & H4). split; [done|]. split; [by rewrite <- He|].
  split; [intros q Hq; apply H3; by rewrite He|]. intros q. by rewrite H4, He.
Qed.
Lemma holds_refl p : heap_ok p → holds p [] p.
Proof.
  intros H. split; [done|]. split; [constructor|]. split; [by intros q ?%not_elem_of_nil|].
  intros q. rewrite elem_of_nil. tauto.
Qed.
(** Steps that leave the heap alone. *)
Lemma holds_same p0 own p p' : p_live p' = p_live p → p_next p' = p_next p → holds p0 own p → holds p0 own p'.
Proof.
  intros Hl Hn (H1 & H2 & H3 & H4). unfold holds, heap_ok. rewrite Hl, Hn.
  split; [done|]. split; [done|]. split; [done|exact H4].
Qed.
Lemma holds_event {A} (c : sys A) a p0 own p : holds p0 own p → holds p0 own (add_event c a p).
Proof. by apply holds_same. Qed.
Lemma holds_reported p0 own p p' : reported p p' → holds p0 own p → holds p0 own p'.
Proof. intros (_ & H1 & H2). by apply holds_same. Qed.

Lemma holds_with_block p0 own p : holds p0 own p → holds p0 (p_next p :: own) (with_block p).
Proof.
  intros (H1 & H2 & H3 & H4).
  assert (Hn : p_next p ∉ p_live p) by (intros H%H1; lia).
  split; [|split; [|split]].
  - intros q. simpl. rewrite elem_of_union, elem_of_singleton. intros [->|H%H1]; lia.
  - constructor; [|done]. intros H. apply Hn, H4. by right.
  - intros q [->|H]%elem_of_cons; [|by apply H3]. intros H. apply Hn, H4. by left.
  - intros q. simpl. rewrite elem_of_union, elem_of_singleton, H4, elem_of_cons. tauto.
Qed.
Lemma holds_without_block p0 q own p : holds p0 (q :: own) p → q ∈ p_live p ∧ holds p0 own (without_block q p).
Proof.
  intros (H1 & H2 & H3 & H4). apply NoDup_cons in H2 as [Hq H2].
  split; [apply H4; right; by left|]. split; [|split; [done|split]].
  - intros x. simpl. rewrite elem_of_difference. intros [Hx _]. by apply H1.
  - intros x Hx. apply H3. by right.
  - intros x. simpl. rewrite elem_of_difference, elem_of_singleton, H4, elem_of_cons. split.
    + intros [[?|[?|?]] ?]; [by left|done|by right].
    + intros [Hx|Hx]; (split; [tauto|]).
      * intros ->. apply (H3 q); [by left|done].
      * by intros ->.
Qed.

(** Blocks owned since an intermediate state. *)
Lemma holds_trans p0 own p1 new p2 : holds p0 own p1 → holds p1 new p2 → holds p0 (new ++ own) p2.
Proof.
  intros (H1 & H2 & H3 & H4) (G1 & G2 & G3 & G4). split; [done|]. split.
  { apply NoDup_app. split; [done|]. split; [|done]. intros q Hq Ho. apply (G3 q Hq), H4. by right. }
  split; intros q; [rewrite elem_of_app; intros [Hq|Hq] Hl; [apply (G3 q Hq), H4; by left|by apply (H3 q)]|].
  rewrite G4, H4, elem_of_app. tauto.
Qed.
Lemma holds_heap_ok p0 own p : holds p0 own p → heap_ok p.
Proof. by intros (H & _). Qed.

Lemma proc0_heap_ok : heap_ok proc0.
Proof. intros q Hq. by apply elem_of_empty in Hq. Qed.

Section memory.
Context {K : Kernel}.

(** [malloc]: a new block is owned, or nothing changed. *)
Lemma malloc_holds n p0 own p (Q : outcome (option ptr) → proc → Prop) :
  holds p0 own p →
  (∀ q p', holds p0 (q :: own) p' → Q (Ret (Some q)) p') →
  (∀ p', holds p0 own p' → Q (Ret None) p') →
  post (malloc n) p Q.
Proof.
  intros Hh H1 H2. apply post_malloc; intros _.
  - apply H1. by apply (holds_with_block p0 own (add_event (sys_malloc n) true p)), holds_event.
  - by apply H2, holds_event.
Qed.

Lemma free_holds q p0 own p (Q : outcome unit → proc → Prop) :
  holds p0 (q :: own) p → (∀ p', holds p0 own p' → Q (Ret tt) p') → post (free q) p Q.
Proof. intros Hh HQ. apply holds_without_block in Hh as [Hq Hh]. by apply post_free; [|apply HQ]. Qed.

Lemma free_opt_holds q p0 own p (Q : outcome unit → proc → Prop) :
  holds p0 (option_list q ++ own) p → (∀ p', holds p0 own p' → Q (Ret tt) p') → post (free_opt q) p Q.
Proof.
  intros Hh HQ. destruct q as [q|]; cbn [free_opt]; [by eapply free_holds; [exact Hh|]|].
  by apply post_ret, HQ.
Qed.


(** The wrappers, which end the process when there is no memory. *)
Lemma wrapped_holds (msg : string) n p0 own p (Q : outcome ptr → proc → Prop) :
  holds p0 own p →
  (∀ q p', holds p0 (q :: own) p' → Q (Ret q) p') →
  (∀ p', Q (Exit 1) p') →
  post (q ← malloc n; match q with Some q => mret q | None => err_sys msg end) p Q.
Proof.
  intros Hh H1 H2. apply post_bind, (malloc_holds _ p0 own); [done|by intros q p' Hq; apply H1|].
  intros p' _. cbn [through]. eapply post_weaken; [apply err_sys_exits|]. intros o p2 [-> _]. apply H2.
Qed.
Lemma Malloc_holds n p0 own p (Q : outcome ptr → proc → Prop) :
  holds p0 own p → (∀ q p', holds p0 (q :: own) p' → Q (Ret q) p') → (∀ p', Q (Exit 1) p') → post (Malloc n) p Q.
Proof. apply wrapped_holds. Qed.
Lemma Calloc_holds n p0 own p (Q : outcome ptr → proc → Prop) :
  holds p0 own p → (∀ q p', holds p0 (q :: own) p' → Q (Ret q) p') → (∀ p', Q (Exit 1) p') → post (Calloc n) p Q.
Proof. apply wrapped_holds. Qed.
End memory.
