(* ===== verification/Stream.v ===== *)
(** Byte streams over descriptors: readn, writen and the buffered readline of
    src/unpv13e/lib (readn.c, writen.c, readline.c), and the client and
    server loops built on them (str_echo.c, str_cli.c, dg_echo.c, dg_cli.c).

    A loop takes as fuel a bound on its iterations; the theorems say how much
    is enough. *)
From S2P Require Import Prelude Machine Posix Wrap.

Definition NEWLINE : Z := 10.

(** The C string in a buffer of bytes: the bytes before the first NUL. *)
Fixpoint cstr_bytes (bs : list Z) : list Z :=
  match bs with
  | [] => []
  | b :: bs' => if b =? 0 then [] else b :: cstr_bytes bs'
  end.
Definition to_string (bs : list Z) : string := of_chars (chr <$> bs).
Definition to_bytes (s : string) : list Z := ord <$> chars s.

(** The static variables of readline.c. *)
Record rl := RL {
  read_cnt : Z;
  read_ptr : nat;          (** offset of [read_ptr] in [read_buf] *)
  read_buf : list Z
}.
Definition rl0 : rl := RL 0 0 (replicate (Z.to_nat MAXLINE) 0).

Section stream.
Context {K : Kernel}.

(** ** readn.c *)

(** [Some bs]: the bytes stored at [vptr], [n - nleft] of them; [None]: -1. *)
Fixpoint readn_loop (fuel : nat) (fd nleft : Z) (stored : list Z) : M (option (list Z)) :=
  match fuel with
  | O => stop NoFuel
  | S f =>
      if 0 <? nleft then
        r ← syscall (sys_read fd nleft);
        match r with
        | None =>
            e ← get_errno;
            if e =? EINTR then readn_loop f fd nleft stored else mret None
        | Some bs =>
            if Z.of_nat (List.length bs) =? 0 then mret (Some stored)
            else readn_loop f fd (nleft - Z.of_nat (List.length bs)) (stored ++ bs)
        end
      else mret (Some stored)
  end.
Definition readn (fuel : nat) (fd n : Z) : M (option (list Z)) := readn_loop fuel fd n [].

Definition Readn (fuel : nat) (fd nbytes : Z) : M (list Z) :=
  r ← readn fuel fd nbytes;
  match r with Some bs => mret bs | None => err_sys "readn error" end.

(** ** writen.c *)

(** [true]: returns [n]; [false]: -1.  [rest] are the bytes from [ptr] on. *)
Fixpoint writen_loop (fuel : nat) (fd : Z) (rest : list Z) : M bool :=
  match fuel with
  | O => stop NoFuel
  | S f =>
      if 0 <? Z.of_nat (List.length rest) then
        r ← syscall (sys_write fd rest);
        match r with
        | None =>
            e ← get_errno;
            if e =? EINTR then writen_loop f fd rest else mret false
        | Some nwritten =>
            if nwritten <=? 0 then mret false
            else writen_loop f fd (drop (Z.to_nat nwritten) rest)
        end
      else mret true
  end.
Definition writen (fuel : nat) (fd : Z) (buf : list Z) : M bool := writen_loop fuel fd buf.

Definition Writen (fuel : nat) (fd : Z) (buf : list Z) : M unit :=
  r ← writen fuel fd buf;
  if (r : bool) then mret tt else err_sys "writen error".

(** ** readline.c *)

(** The fill of [read_buf] at label [again]; the first component is the
    return value -1, 0 or 1 (go on). *)
Fixpoint my_read_fill (fuel : nat) (fd : Z) (s : rl) : M (Z * rl) :=
  match fuel with
  | O => stop NoFuel
  | S f =>
      r ← syscall (sys_read fd MAXLINE);
      match r with
      | None =>
          let s := RL (-1) (read_ptr s) (read_buf s) in
          e ← get_errno;
          if e =? EINTR then my_read_fill f fd s else mret (-1, s)
      | Some bs =>
          let cnt := Z.of_nat (List.length bs) in
          let buf := bs ++ drop (List.length bs) (read_buf s) in
          if cnt =? 0 then mret (0, RL 0 (read_ptr s) buf)
          else mret (1, RL cnt 0 buf)
      end
  end.

(** Return value, the character at [ptr] when it is 1, and the statics. *)
Definition my_read (fuel : nat) (fd : Z) (s : rl) : M (Z * Z * rl) :=
  '(rc, s) ← (if read_cnt s <=? 0 then my_read_fill fuel fd s else mret (1, s));
  if rc =? 1 then
    mret (1, read_buf s !!! read_ptr s, RL (read_cnt s - 1) (S (read_ptr s)) (read_buf s))
  else mret (rc, 0, s).

(** The [for] loop from [n] on, [todo] iterations before [n] reaches [maxlen];
    result: the return value, the characters stored before the NUL, the
    statics. *)
Fixpoint readline_loop (fuel : nat) (fd n : Z) (todo : nat) (stored : list Z) (s : rl)
    : M (Z * list Z * rl) :=
  match todo with
  | O => mret (n, stored, s)
  | S todo' =>
      '(rc, c, s) ← my_read fuel fd s;
      if rc =? 1 then
        let stored := stored ++ [c] in
        if c =? NEWLINE then mret (n, stored, s)
        else readline_loop fuel fd (n + 1) todo' stored s
      else if rc =? 0 then mret (n - 1, stored, s)
      else mret (-1, stored, s)
  end.
Definition readline (fuel : nat) (fd maxlen : Z) (s : rl) : M (Z * list Z * rl) :=
  readline_loop fuel fd 1 (Z.to_nat (maxlen - 1)) [] s.

(** [*vptrptr] is set when the count is not zero. *)
Definition readlinebuf (s : rl) : Z * option nat :=
  (read_cnt s, if negb (read_cnt s =? 0) then Some (read_ptr s) else None).

Definition Readline (fuel : nat) (fd maxlen : Z) (s : rl) : M (Z * list Z * rl) :=
  '(n, line, s) ← readline fuel fd maxlen s;
  if n <? 0 then err_sys "readline error" else mret (n, line, s).

(** ** str_echo.c *)

Fixpoint str_echo (fuel : nat) (sockfd : Z) : M unit :=
  match fuel with
  | O => stop NoFuel
  | S f =>
      r ← syscall (sys_read sockfd MAXLINE);
      match r with
      | Some bs =>
          if 0 <? Z.of_nat (List.length bs) then Writen fuel sockfd bs ;; str_echo f sockfd
          else mret tt
      | None =>
          e ← get_errno;
          if e =? EINTR then str_echo f sockfd else err_sys "str_echo: read error"
      end
  end.

(** ** str_cli.c *)

Fixpoint str_cli (fuel : nat) (sockfd : Z) (s : rl) : M rl :=
  match fuel with
  | O => stop NoFuel
  | S f =>
      line ← Fgets MAXLINE;
      match line with
      | None => mret s
      | Some sendline =>
          Writen fuel sockfd (to_bytes sendline) ;;
          '(n, recvline, s) ← Readline fuel sockfd MAXLINE s;
          if n =? 0 then err_quit "str_cli: server terminated prematurely"
          else
            Fputs (to_string (cstr_bytes recvline)) STDOUT_FILENO ;;
            str_cli f sockfd s
      end
  end.

(** ** dg_echo.c and dg_cli.c *)

Fixpoint dg_echo (fuel : nat) (sockfd : Z) : M unit :=
  match fuel with
  | O => stop NoFuel
  | S f =>
      '(mesg, cliaddr) ← Recvfrom sockfd MAXLINE;
      Sendto sockfd mesg cliaddr ;;
      dg_echo f sockfd
  end.

Fixpoint dg_cli (fuel : nat) (sockfd : Z) (servaddr : sockaddr) : M unit :=
  match fuel with
  | O => stop NoFuel
  | S f =>
      line ← Fgets MAXLINE;
      match line with
      | None => mret tt
      | Some sendline =>
          Sendto sockfd (to_bytes sendline) servaddr ;;
          '(recvline, _) ← Recvfrom sockfd MAXLINE;
          Fputs (to_string (cstr_bytes recvline)) STDOUT_FILENO ;;
          dg_cli f sockfd servaddr
      end
  end.
End stream.

(** ** Lemmas on readn and writen *)

(** The calls their wrapper repeats: reads, writes and locks that a signal
    interrupted, connections aborted before [accept]. *)
Definition interrupted1 (e : event) : nat :=
  match e with
  | Event c a =>
      match c in sys A return A → nat with
      | sys_read _ _ => λ r, match r with Err e => if e =? EINTR then 1%nat else 0%nat | _ => 0%nat end
      | sys_write _ _ => λ r, match r with Err e => if e =? EINTR then 1%nat else 0%nat | _ => 0%nat end
      | sys_accept _ => λ r, match r with
          | Err e => if (e =? EPROTO) || (e =? ECONNABORTED) then 1%nat else 0%nat | _ => 0%nat end
      | sys_fcntl_lock _ _ _ _ _ _ => λ r, match r with Err e => if e =? EINTR then 1%nat else 0%nat | _ => 0%nat end
      | _ => λ _, 0%nat
      end a
  end.
Fixpoint interrupted (t : trace) : nat :=
  match t with [] => 0 | e :: t' => (interrupted t' + interrupted1 e)%nat end.

Section facts.
Context {K : Kernel} {KOk : ReadWriteOk K}.

(** The results of [readn]: the bytes stored are those received, in order; they
    are [n] unless the last read met the end of the file; a failure is not an
    interruption; and the fuel runs out only by interruptions. *)
Definition readn_post (fuel : nat) (fd n : Z) (p : proc)
    (o : outcome (option (list Z))) (p' : proc) : Prop :=
  ∃ new, received fd (p_trace p') = received fd (p_trace p) ++ new ∧ Z.of_nat (List.length new) ≤ n ∧
  match o with
  | Ret (Some bs) =>
      bs = new ∧
      (Z.of_nat (List.length bs) = n ∨
       ∃ t k, p_trace p' = Event (sys_read fd k) (Ok []) :: t)
  | Ret None => p_errno p' ≠ EINTR
  | NoFuel => (fuel ≤ Z.to_nat n + (interrupted (p_trace p') - interrupted (p_trace p)))%nat
      ∧ (interrupted (p_trace p) ≤ interrupted (p_trace p'))%nat
  | _ => False
  end.

Lemma received_add {A} fd (c : sys A) a p :
  received fd (p_trace (add_event c a p)) = received fd (p_trace p) ++ received1 fd (Event c a).
Proof. done. Qed.
Lemma received_read fd n bs p :
  received fd (p_trace (add_event (sys_read fd n) (Ok bs) p)) = received fd (p_trace p) ++ bs.
Proof. simpl. by rewrite Z.eqb_refl. Qed.
Lemma received_read_err fd n e p :
  received fd (p_trace (add_event (sys_read fd n) (Err e) p)) = received fd (p_trace p).
Proof. simpl. by rewrite app_nil_r. Qed.

Lemma readn_loop_post fuel fd n nleft stored p0 p :
  0 ≤ nleft → received fd (p_trace p) = received fd (p_trace p0) ++ stored →
  Z.of_nat (List.length stored) + nleft = n →
  (interrupted (p_trace p0) ≤ interrupted (p_trace p))%nat →
  ∀ fuel0, (fuel0 + Z.to_nat nleft ≤ fuel + Z.to_nat n + (interrupted (p_trace p) - interrupted (p_trace p0)))%nat →
  post (readn_loop fuel fd nleft stored) p (readn_post fuel0 fd n p0).
Proof.
  revert nleft stored p. induction fuel as [|f IH]; intros nleft stored p Hn Hr Hl Hi fuel0 Hf; simpl.
  { post_steps. exists stored. split; [done|]. split; [lia|]. lia. }
  destruct (Z.ltb_spec 0 nleft).
  2: { post_steps. exists stored. split; [done|]. split; [lia|]. split; [done|]. left. lia. }
  post_steps.
  - pose proof (read_at_most _ _ _ _ Hn H0) as Hlen.
    destruct (Z.eqb_spec (Z.of_nat (List.length a)) 0).
    + destruct a; [|simpl in *; lia]. post_steps. exists stored.
      rewrite received_read, app_nil_r. split; [done|]. split; [lia|]. split; [done|]. right. by eexists _, _.
    + apply IH; try done; try lia.
      * by rewrite received_read, Hr, app_assoc.
      * rewrite length_app. lia.
      * simpl. lia.
      * simpl. lia.
  - simpl. destruct (Z.eqb_spec e EINTR) as [->|].
    + apply IH; try done; try lia; simpl; try lia. by rewrite app_nil_r.
    + post_steps. exists stored. simpl. rewrite app_nil_r. split; [done|]. split; [lia|done].
Qed.

(** The results of [writen]: on success the system has accepted the whole
    buffer, in order; on failure a prefix of it. *)
Definition writen_post (fuel : nat) (fd : Z) (buf : list Z) (p : proc)
    (o : outcome bool) (p' : proc) : Prop :=
  ∃ done rest, buf = done ++ rest ∧ written fd (p_trace p') = written fd (p_trace p) ++ done ∧
  match o with
  | Ret true => rest = []
  | Ret false => rest ≠ []
  | NoFuel => (fuel ≤ List.length buf + (interrupted (p_trace p') - interrupted (p_trace p)))%nat
      ∧ (interrupted (p_trace p) ≤ interrupted (p_trace p'))%nat
  | _ => False
  end.

Lemma writen_loop_post fuel fd buf done rest p0 p :
  buf = done ++ rest → written fd (p_trace p) = written fd (p_trace p0) ++ done →
  (interrupted (p_trace p0) ≤ interrupted (p_trace p))%nat →
  ∀ fuel0, (fuel0 + List.length rest ≤ fuel + List.length buf + (interrupted (p_trace p) - interrupted (p_trace p0)))%nat →
  post (writen_loop fuel fd rest) p (writen_post fuel0 fd buf p0).
Proof.
  revert done rest p. induction fuel as [|f IH]; intros dn rest p Hb Hw Hi fuel0 Hf; simpl.
  { post_steps. exists dn, rest. split; [done|]. split; [done|]. lia. }
  destruct (Z.ltb_spec 0 (Z.of_nat (List.length rest))).
  2: { post_steps. exists dn, rest. split; [done|]. split; [done|]. destruct rest; [done|simpl in *; lia]. }
  post_steps.
  - pose proof (write_at_most _ _ _ _ H0) as Hlen.
    destruct (Z.leb_spec a 0).
    + assert (a = 0) as -> by lia. post_steps. exists dn, rest. simpl. rewrite Z.eqb_refl, app_nil_r.
      split; [done|]. split; [done|]. intros ->. simpl in *. lia.
    + apply (IH (dn ++ take (Z.to_nat a) rest)); simpl.
      * by rewrite <- app_assoc, take_drop.
      * by rewrite Z.eqb_refl, Hw, app_assoc.
      * lia.
      * rewrite length_drop. lia.
  - simpl. destruct (Z.eqb_spec e EINTR) as [->|].
    + apply (IH dn); simpl; try done; try lia. by rewrite app_nil_r.
    + post_steps. exists dn, rest. simpl. rewrite app_nil_r. split; [done|]. split; [done|].
      intros ->. simpl in *. lia.
Qed.

(** ** Lemmas on the buffered readline *)

(** The bytes received and not yet delivered, and the invariant of the static
    variables: they lie within [read_buf]. *)
Definition unread (s : rl) : list Z := take (Z.to_nat (read_cnt s)) (drop (read_ptr s) (read_buf s)).
Definition rl_ok (s : rl) : Prop :=
  Z.of_nat (List.length (read_buf s)) = MAXLINE ∧
  Z.of_nat (read_ptr s) + Z.max 0 (read_cnt s) ≤ MAXLINE.

Lemma unread_empty s : read_cnt s ≤ 0 → unread s = [].
Proof. intros H. unfold unread. by replace (Z.to_nat (read_cnt s)) with 0%nat by lia. Qed.

Lemma unread_take s :
  rl_ok s → 0 < read_cnt s →
  unread s = (read_buf s !!! read_ptr s) ::
    unread (RL (read_cnt s - 1) (S (read_ptr s)) (read_buf s)).
Proof.
  intros [Hl Hb] Hc. unfold unread. simpl.
  destruct (lookup_lt_is_Some_2 (read_buf s) (read_ptr s)) as [x Hx]; [lia|].
  rewrite (list_lookup_total_correct _ _ _ Hx), (drop_S _ x _ Hx).
  replace (Z.to_nat (read_cnt s)) with (S (Z.to_nat (read_cnt s - 1))) by lia. done.
Qed.

(** At the end of the stream the last answer of the system is an empty read. *)
Definition at_eof (fd : Z) (t : trace) : Prop := ∃ t' k, t = Event (sys_read fd k) (Ok []) :: t'.

Definition runs_out (fuel : nat) (p p' : proc) : Prop :=
  (fuel ≤ interrupted (p_trace p') - interrupted (p_trace p))%nat.

Definition fill_post (fuel : nat) (fd : Z) (p : proc) (o : outcome (Z * rl)) (p' : proc) : Prop :=
  (interrupted (p_trace p) ≤ interrupted (p_trace p'))%nat ∧
  match o with
  | Ret (rc, s') => rl_ok s' ∧
      received fd (p_trace p') = received fd (p_trace p) ++ unread s' ∧
      ((rc = 1 ∧ 0 < read_cnt s') ∨
       (rc = 0 ∧ unread s' = [] ∧ at_eof fd (p_trace p')) ∨
       (rc = -1 ∧ unread s' = [] ∧ p_errno p' ≠ EINTR))
  | NoFuel => runs_out fuel p p'
  | _ => False
  end.

Lemma my_read_fill_post fuel fd s p0 p :
  rl_ok s → received fd (p_trace p) = received fd (p_trace p0) →
  (interrupted (p_trace p0) ≤ interrupted (p_trace p))%nat →
  ∀ fuel0, (fuel0 ≤ fuel + (interrupted (p_trace p) - interrupted (p_trace p0)))%nat →
  post (my_read_fill fuel fd s) p (fill_post fuel0 fd p0).
Proof.
  revert s p. induction fuel as [|f IH]; intros s p Hok Hr Hi fuel0 Hf; simpl.
  { post_steps. split; [done|]. unfold runs_out. lia. }
  destruct Hok as [Hl Hp].
  post_steps.
  - assert (HM : 0 ≤ MAXLINE) by done.
    pose proof (read_at_most _ _ _ _ HM H) as Hlen.
    assert (Hbuf : Z.of_nat (List.length (a ++ drop (List.length a) (read_buf s))) = MAXLINE).
    { rewrite length_app, length_drop. lia. }
    destruct (Z.eqb_spec (Z.of_nat (List.length a)) 0).
    + destruct a; [|simpl in *; lia]. post_steps. split; [simpl; lia|].
      split; [split; simpl; [done|lia]|]. rewrite received_read, Hr. split; [done|].
      right. left. split; [done|]. split; [done|]. by eexists _, _.
    + post_steps. split; [simpl; lia|]. split; [split; cbn [read_buf read_ptr read_cnt]; lia|].
      rewrite received_read, Hr. unfold unread. cbn [read_buf read_ptr read_cnt].
      rewrite drop_0, Nat2Z.id, take_app_length. split; [done|]. left. split; [done|]. lia.
  - cbn [p_errno with_errno]. destruct (Z.eqb_spec e EINTR) as [->|].
    + apply IH; try done; simpl; try lia; [|by rewrite app_nil_r].
      split; simpl; [done|lia].
    + post_steps. split; [simpl; lia|].
      split; [split; simpl; [done|lia]|]. simpl. rewrite app_nil_r, Hr. unfold unread. simpl.
      split; [by rewrite app_nil_r|]. right. right. done.
Qed.

Definition my_read_post (fuel : nat) (fd : Z) (s : rl) (p : proc)
    (o : outcome (Z * Z * rl)) (p' : proc) : Prop :=
  (interrupted (p_trace p) ≤ interrupted (p_trace p'))%nat ∧
  match o with
  | Ret (rc, c, s') => rl_ok s' ∧
      ∃ new, received fd (p_trace p') = received fd (p_trace p) ++ new ∧
      ((rc = 1 ∧ unread s ++ new = c :: unread s') ∨
       (rc = 0 ∧ unread s ++ new = unread s' ∧ unread s' = [] ∧ at_eof fd (p_trace p')) ∨
       (rc = -1 ∧ unread s ++ new = unread s' ∧ unread s' = [] ∧ p_errno p' ≠ EINTR))
  | NoFuel => runs_out fuel p p'
  | _ => False
  end.

Lemma my_read_spec fuel fd s p :
  rl_ok s → post (my_read fuel fd s) p (my_read_post fuel fd s p).
Proof.
  intros Hok. unfold my_read. apply post_bind.
  assert (Hmain : ∀ s1 p1, rl_ok s1 → 0 < read_cnt s1 →
    (interrupted (p_trace p) ≤ interrupted (p_trace p1))%nat →
    (∃ new, received fd (p_trace p1) = received fd (p_trace p) ++ new ∧ unread s ++ new = unread s1) →
    my_read_post fuel fd s p (Ret (1, read_buf s1 !!! read_ptr s1,
      RL (read_cnt s1 - 1) (S (read_ptr s1)) (read_buf s1))) p1).
  { intros s1 p1 Hok1 Hc1 Hi (new & Hnew & Hu). split; [done|].
    destruct Hok1 as [? ?] eqn:E. split; [split; cbn [read_buf read_ptr read_cnt]; lia|].
    exists new. split; [done|]. left. split; [done|]. by rewrite Hu, unread_take by done. }
  destruct (Z.leb_spec (read_cnt s) 0).
  - eapply post_weaken; [apply (my_read_fill_post fuel fd s p p Hok eq_refl (le_n _) fuel); lia|].
    intros o p' [Hi Ho]. destruct o as [[rc s']| | | |]; simpl; try done.
    destruct Ho as (Hok' & Hr & Hcase). pose proof (unread_empty s ltac:(lia)) as Hu.
    destruct Hcase as [[-> Hc]|[(-> & Hn & Hc)|(-> & Hn & Hc)]]; simpl; post_steps.
    + apply Hmain; try done. exists (unread s'). by rewrite Hu.
    + split; [done|]. split; [done|]. exists []. rewrite Hr, Hn, Hu. naive_solver.
    + split; [done|]. split; [done|]. exists []. rewrite Hr, Hn, Hu. naive_solver.
  - post_steps. simpl. post_steps. apply Hmain; try done; try lia. exists []. by rewrite !app_nil_r.
Qed.

(** The results of [readline] on a buffer of [maxlen] bytes: [line] is what was
    consumed of the stream, in order; it ends at the first newline, at the end
    of the file, at the capacity of the buffer, or at an error. *)
Definition readline_post (fuel : nat) (fd maxlen : Z) (s : rl) (p : proc)
    (o : outcome (Z * list Z * rl)) (p' : proc) : Prop :=
  match o with
  | Ret (n, line, s') => rl_ok s' ∧
      ∃ new, received fd (p_trace p') = received fd (p_trace p) ++ new ∧
      unread s ++ new = line ++ unread s' ∧ Z.of_nat (List.length line) < maxlen ∧
      ((n = Z.of_nat (List.length line) ∧ ∃ l, line = l ++ [NEWLINE] ∧ (NEWLINE ∉ l)) ∨
       (n = Z.of_nat (List.length line) ∧ (NEWLINE ∉ line) ∧ unread s' = [] ∧ at_eof fd (p_trace p')) ∨
       (n = maxlen ∧ Z.of_nat (List.length line) = maxlen - 1 ∧ NEWLINE ∉ line) ∨
       (n = -1 ∧ (NEWLINE ∉ line) ∧ unread s' = [] ∧ p_errno p' ≠ EINTR))
  | NoFuel => runs_out fuel p p'
  | _ => False
  end.

Lemma readline_loop_spec fuel fd maxlen s0 p0 todo : ∀ n stored s p,
  n + Z.of_nat todo = maxlen → n = Z.of_nat (List.length stored) + 1 → NEWLINE ∉ stored →
  rl_ok s → (interrupted (p_trace p0) ≤ interrupted (p_trace p))%nat →
  (∃ new, received fd (p_trace p) = received fd (p_trace p0) ++ new ∧
     unread s0 ++ new = stored ++ unread s) →
  post (readline_loop fuel fd n todo stored s) p (readline_post fuel fd maxlen s0 p0).
Proof.
  induction todo as [|todo IH]; intros n stored s p Hn Hs Hnl Hok Hi (new & Hr & Hu);
    cbn [readline_loop].
  { post_steps. split; [done|]. exists new. split; [done|]. split; [done|]. split; [lia|].
    right. right. left. split; [lia|]. split; [lia|done]. }
  post_steps. eapply post_weaken; [by apply my_read_spec|].
  intros o p' [Hi' Ho]. destruct o as [[[rc c] s']| | | |]; cbn [through]; try done.
  2: { unfold readline_post, runs_out in *. lia. }
  destruct Ho as (Hok' & new' & Hr' & Hcase).
  assert (Hrec : received fd (p_trace p') = received fd (p_trace p0) ++ (new ++ new')).
  { by rewrite Hr', Hr, app_assoc. }
  assert (Hun : ∀ l, (unread s ++ new' = l) → unread s0 ++ (new ++ new') = stored ++ l).
  { intros l <-. by rewrite app_assoc, Hu, app_assoc. }
  destruct Hcase as [[-> Hc]|[(-> & Hc & He & Hx)|(-> & Hc & He & Hx)]]; simpl.
  - destruct (Z.eqb_spec c NEWLINE) as [->|Hne]; [post_steps|].
    + split; [done|]. exists (new ++ new'). split; [done|].
      split; [by rewrite <- app_assoc; apply Hun|]. rewrite length_app. simpl. split; [lia|].
      left. split; [lia|]. by exists stored.
    + apply IH; try done; try lia.
      * rewrite length_app. simpl. lia.
      * rewrite elem_of_app, list_elem_of_singleton. by intros [?|?]; [|congruence].
      * exists (new ++ new'). split; [done|]. rewrite <- app_assoc. by apply Hun.
  - post_steps. split; [done|]. exists (new ++ new'). split; [done|]. split; [by apply Hun|].
    split; [lia|]. right. left. split; [lia|done].
  - post_steps. split; [done|]. exists (new ++ new'). split; [done|]. split; [by apply Hun|].
    split; [lia|]. right. right. right. done.
Qed.
End facts.

(** ** Lemmas on the echo server *)
Section echo.
Context {K : Kernel} {KOk : ReadWriteOk K}.

Lemma written_read fd fd' n (a : res (list Z)) p :
  written fd (p_trace (add_event (sys_read fd' n) a p)) = written fd (p_trace p).
Proof. simpl. by rewrite app_nil_r. Qed.

Lemma writen_receives_nothing fuel fd fd' rest p :
  post (writen_loop fuel fd rest) p (λ _ p', received fd' (p_trace p') = received fd' (p_trace p) ∧
    (interrupted (p_trace p) ≤ interrupted (p_trace p'))%nat).
Proof.
  revert rest p. induction fuel as [|f IH]; intros rest p; simpl; [by post_steps|].
  assert (Hrec : ∀ rest (a : res Z) p1, p_trace p1 = Event (sys_write fd rest) a :: p_trace p → ∀ rest',
    post (writen_loop f fd rest') p1 (λ _ p', received fd' (p_trace p') = received fd' (p_trace p) ∧
      (interrupted (p_trace p) ≤ interrupted (p_trace p'))%nat)).
  { intros r0 a p1 E rest'. eapply post_weaken; [apply IH|]. rewrite E. simpl. rewrite app_nil_r.
    intros o p' [-> ?]. split; [done|lia]. }
  ztest; [|by post_steps]. post_steps; ztest; try (eapply Hrec; done);
    post_steps; simpl; rewrite app_nil_r; split; lia || done.
Qed.

Lemma reported_streams p p' fd :
  reported p p' → received fd (p_trace p') = received fd (p_trace p) ∧
    written fd (p_trace p') = written fd (p_trace p) ∧
    interrupted (p_trace p') = interrupted (p_trace p).
Proof.
  intros [(t & -> & Hq & _) _]. induction Hq as [|[A c a] t He Ht IH]; [done|].
  destruct IH as (IH1 & IH2 & IH3). destruct c; try done; simpl;
    rewrite ?app_nil_r, ?Nat.add_0_r; auto.
Qed.

(** [writen] makes no other call than [write] on its descriptor. *)
Definition write_event (fd : Z) (e : event) : Prop :=
  match e with Event c _ => match c with sys_write fd' _ => fd' = fd | _ => False end end.
Lemma writen_loop_only fuel fd rest p :
  post (writen_loop fuel fd rest) p (λ _ p', ∃ t, p_trace p' = t ++ p_trace p ∧ Forall (write_event fd) t).
Proof.
  revert rest p. induction fuel as [|f IH]; intros rest p; simpl; [post_steps; by exists []|].
  assert (Hrec : ∀ rest (a : res Z) p1, p_trace p1 = Event (sys_write fd rest) a :: p_trace p → ∀ rest',
    post (writen_loop f fd rest') p1 (λ _ p', ∃ t, p_trace p' = t ++ p_trace p ∧ Forall (write_event fd) t)).
  { intros r0 a p1 E rest'. eapply post_weaken; [apply IH|]. rewrite E.
    intros o p' (t & -> & Ht). exists (t ++ [Event (sys_write fd r0) a]). rewrite <- app_assoc.
    split; [done|]. apply Forall_app. split; [done|]. by repeat constructor. }
  ztest; [|post_steps; by exists []]. post_steps; ztest; try (eapply Hrec; done);
    post_steps; eexists [_]; (split; [done|by repeat constructor]).
Qed.

Lemma write_events_frame fd fd' t t0 :
  Forall (write_event fd) t →
  received fd' (t ++ t0) = received fd' t0 ∧ open_fds (t ++ t0) = open_fds t0 ∧
  (fd' ≠ fd → written fd' (t ++ t0) = written fd' t0) ∧ (interrupted t0 ≤ interrupted (t ++ t0))%nat.
Proof.
  induction 1 as [|[A c a] t He Ht (IH1 & IH2 & IH3 & IH4)]; [done|].
  destruct c; try done. simpl in He. subst. cbn [app received written open_fds interrupted].
  rewrite IH1, IH2, app_nil_r. split_and!; [done|done| |lia].
  intros Hne. rewrite IH3 by done. simpl. destruct a; [|by rewrite app_nil_r].
  destruct (Z.eqb_spec fd fd'); [congruence|]. by rewrite app_nil_r.
Qed.

(** What was echoed is what was read, up to the data being written when the
    process stops; [fuel] bounds the bytes read and the interruptions. *)
Definition echo_post (fuel : nat) (fd : Z) (p : proc) (o : outcome unit) (p' : proc) : Prop :=
  ∃ echoed pending,
    received fd (p_trace p') = received fd (p_trace p) ++ echoed ++ pending ∧
    written fd (p_trace p') = written fd (p_trace p) ++ echoed ∧
    match o with
    | Ret _ => pending = [] ∧ at_eof fd (p_trace p')
    | Exit s => s = 1
    | NoFuel => (interrupted (p_trace p) ≤ interrupted (p_trace p') ∧
        fuel ≤ List.length (echoed ++ pending) + (interrupted (p_trace p') - interrupted (p_trace p)))%nat
    | _ => False
    end.

Lemma str_echo_post fuel fd p0 done p :
  received fd (p_trace p) = received fd (p_trace p0) ++ done →
  written fd (p_trace p) = written fd (p_trace p0) ++ done →
  (interrupted (p_trace p0) ≤ interrupted (p_trace p))%nat →
  ∀ fuel0, (fuel0 ≤ fuel + List.length done + (interrupted (p_trace p) - interrupted (p_trace p0)))%nat →
  post (str_echo fuel fd) p (echo_post fuel0 fd p0).
Proof.
  revert done p. induction fuel as [|f IH]; intros dn p Hr Hw Hi fuel0 Hf; cbn [str_echo].
  { post_steps. exists dn, []. rewrite app_nil_r. split; [done|]. split; [done|]. lia. }
  post_steps.
  - assert (HM : 0 ≤ MAXLINE) by done. pose proof (read_at_most _ _ _ _ HM H) as Hlen.
    ztest.
    2: { destruct a; [|simpl in *; lia]. post_steps. exists dn, [].
         rewrite received_read, written_read, !app_nil_r. split; [done|]. split; [done|].
         split; [done|]. by eexists _, _. }
    set (p1 := add_event _ _ p). unfold Writen, writen. post_steps. eapply post_weaken.
    { apply post_and; [apply (writen_loop_post (S f) fd a [] a p1 p1 eq_refl)
        with (fuel0 := S f)|apply (writen_receives_nothing _ _ fd)]; rewrite ?app_nil_r; lia || done. }
    assert (Hr1 : received fd (p_trace p1) = received fd (p_trace p0) ++ dn ++ a).
    { unfold p1. rewrite received_read, Hr. by rewrite app_assoc. }
    assert (Hw1 : written fd (p_trace p1) = written fd (p_trace p0) ++ dn).
    { unfold p1. by rewrite written_read. }
    assert (Hi1 : interrupted (p_trace p1) = interrupted (p_trace p)) by (simpl; lia).
    intros o p2 [(wr & rest & Ha & Hwr & Ho) [Hrec Hint]].
    destruct o as [[]| | | |]; cbn [through]; try done.
    + subst rest. rewrite app_nil_r in Ha. subst wr. post_steps. apply (IH (dn ++ a)).
      * by rewrite Hrec, Hr1.
      * by rewrite Hwr, Hw1, app_assoc.
      * lia.
      * rewrite length_app. lia.
    + eapply post_weaken; [apply err_sys_exits|]. intros o p3 [-> Hrep].
      destruct (reported_streams _ _ fd Hrep) as (E1 & E2 & _).
      exists (dn ++ wr), rest. rewrite E1, E2, Hrec, Hr1, Hwr, Hw1, Ha, <- !app_assoc. done.
    + exists (dn ++ wr), rest. rewrite Hrec, Hr1, Hwr, Hw1, <- !app_assoc, <- Ha.
      split; [done|]. split; [done|]. rewrite length_app. lia.
  - simpl. ztest.
    + subst e. apply (IH dn); cbn [p_trace add_event with_errno received written received1 written1
        interrupted interrupted1]; rewrite ?Z.eqb_refl, ?app_nil_r; try done; lia.
    + eapply post_weaken; [apply err_sys_exits|]. intros o p3 [-> Hrep].
      destruct (reported_streams _ _ fd Hrep) as (E1 & E2 & _).
      exists dn, []. rewrite E1, E2. simpl. rewrite !app_nil_r. done.
Qed.
End echo.

(** ** Properties *)

Section properties.
Context {K : Kernel} {KOk : ReadWriteOk K}.

(** [readn] stores the bytes received on the descriptor, in order and
    without loss, never more than [n]; it stores fewer only when the last read
    met the end of the file, and fails only on an error that is not an
    interruption.  It returns: the fuel can run out only on as many
    interruptions as it exceeds [n]. *)
Theorem readn_correct fuel fd n p :
  0 ≤ n → post (readn fuel fd n) p (readn_post fuel fd n p).
Proof.
  intros Hn. apply readn_loop_post; simpl; rewrite ?app_nil_r; try done; lia.
Qed.

(** [writen] succeeds exactly when the system has accepted the whole
    buffer, in order, whatever the sizes of the partial writes; otherwise it
    has accepted a proper prefix.  It returns: the fuel can run out only on as
    many interruptions as it exceeds the length. *)
Theorem writen_correct fuel fd buf p :
  post (writen fuel fd buf) p (writen_post fuel fd buf p).
Proof.
  apply (writen_loop_post fuel fd buf [] buf p p); rewrite ?app_nil_r; try done; lia.
Qed.

(** C33: [readline] consumes the stream in order, through the buffer it keeps
    between calls: the line returned followed by what is still buffered is what
    was buffered before followed by what was received.  The line holds at most
    [maxlen - 1] bytes and ends at the first newline, at the end of the file
    or at an error; a line that does not fit makes [readline] return [maxlen]
    although it stored [maxlen - 1] bytes. *)
Theorem readline_correct fuel fd maxlen s p :
  1 ≤ maxlen → rl_ok s → post (readline fuel fd maxlen s) p (readline_post fuel fd maxlen s p).
Proof.
  intros Hm Hok. apply readline_loop_spec; simpl; try done; try lia; [by intros ?%not_elem_of_nil|].
  exists []. by rewrite !app_nil_r.
Qed.

(** The echo server sends back what it reads, in order: when [str_echo]
    returns the client has closed the connection and every byte read was
    written; when it exits (status 1) only a tail of the last read is missing.
    The fuel it needs is bounded by the bytes read and the interruptions. *)
Theorem str_echo_correct fuel fd p :
  post (str_echo fuel fd) p (echo_post fuel fd p).
Proof.
  apply (str_echo_post fuel fd p []); rewrite ?app_nil_r; try done. simpl. lia.
Qed.
End properties.

(** A stream of seven bytes, three at a time, with two interrupted calls. *)
Definition abc : list Z := [97; 98; 10; 99; 100; 101; 102].
Definition tape : Kernel := tape_kernel abc 3 [0%nat; 2%nat].

Lemma readn_correct_witness :
  post (readn (K := tape) 10 0 5) proc0 (readn_post 10 0 5 proc0) ∧
  (readn (K := tape) 10 0 5 proc0).1 = Ret (Some [97; 98; 10; 99; 100]).
Proof. split; [apply (readn_correct (KOk := tape_ok _ _ _)); lia|reflexivity]. Defined.

Lemma writen_correct_witness :
  post (writen (K := tape) 10 1 abc) proc0 (writen_post 10 1 abc proc0) ∧
  (writen (K := tape) 10 1 abc proc0).1 = Ret true.
Proof. split; [apply (writen_correct (KOk := tape_ok _ _ _))|reflexivity]. Defined.

Lemma rl0_ok : rl_ok rl0.
Proof. split; [reflexivity|]. by simpl. Qed.

Lemma readline_correct_witness :
  post (readline (K := tape) 10 0 80 rl0) proc0 (readline_post 10 0 80 rl0 proc0) ∧
  match (readline (K := tape) 10 0 80 rl0 proc0).1 with
  | Ret (n, line, _) => n = 3 ∧ line = [97; 98; 10]
  | _ => False
  end.
Proof.
  split; [apply (readline_correct (KOk := tape_ok _ _ _)); [lia|apply rl0_ok]|].
  vm_compute. done.
Defined.

Lemma str_echo_correct_witness :
  post (str_echo (K := tape) 20 5) proc0 (echo_post 20 5 proc0) ∧
  (str_echo (K := tape) 20 5 proc0).1 = Ret tt ∧
  written 5 (p_trace (str_echo (K := tape) 20 5 proc0).2) = abc.
Proof. split; [apply (str_echo_correct (KOk := tape_ok _ _ _))|split; reflexivity]. Defined.
