(* ===== verification/Frame.v ===== *)
(** Computations that leave descriptors, memory and input alone.

    [framed P m]: [m] only adds events that satisfy [P] to the trace, and
    allocates and frees nothing.  With [steady] for [P] (no descriptor opened or
    closed, nothing read) this is the frame rule of the programs that mix a
    few state changes with many reports and writes. *)
From S2P Require Import Prelude Machine Posix Wrap Stream.

Definition frame (P : event → Prop) (p p' : proc) : Prop :=
  extends P p p' ∧ p_live p' = p_live p ∧ p_next p' = p_next p.
Definition framed {A} (P : event → Prop) (m : M A) : Prop := ∀ p, frame P p (m p).2.

#[global] Instance frame_preorder P : PreOrder (frame P).
Proof.
  split.
  - intros p. split; [apply extends_refl|done].
  - intros p1 p2 p3 (H1 & H2 & H3) (H4 & H5 & H6). split; [by eapply extends_trans|]. split; congruence.
Qed.

Create HintDb framed.

Section framed.
Context (P : event → Prop).

Lemma frame_event {A} (c : sys A) a p : P (Event c a) → frame P p (add_event c a p).
Proof. intros H. split; [|done]. eexists [_]. split; [done|]. by repeat constructor. Qed.
Lemma frame_errno e p : frame P p (with_errno e p).
Proof. split; [|done]. by exists []. Qed.

Lemma framed_ret {A} (a : A) : framed P (mret a).
Proof. intros p. reflexivity. Qed.
Lemma framed_stop {A} (o : outcome A) : framed P (stop o).
Proof. intros p. reflexivity. Qed.
Lemma framed_bind {A B} (m : M A) (k : A → M B) : framed P m → (∀ a, framed P (k a)) → framed P (m ≫= k).
Proof.
  intros Hm Hk p. unfold mbind, M_bind. specialize (Hm p). destruct (m p) as [[] p']; try done.
  etransitivity; [exact Hm|]. apply Hk.
Qed.
Lemma framed_call {K : Kernel} {A} (c : sys A) : (∀ a, P (Event c a)) → framed P (call c).
Proof. intros H p. by apply frame_event. Qed.
Lemma framed_get_errno : framed P get_errno.
Proof. intros p. reflexivity. Qed.
Lemma framed_set_errno e : framed P (set_errno e).
Proof. intros p. apply frame_errno. Qed.
Lemma framed_get_daemon_proc : framed P get_daemon_proc.
Proof. intros p. reflexivity. Qed.
Lemma framed_post {A} (m : M A) p : framed P m → post m p (λ _ p', frame P p p').
Proof. intros H. unfold post. specialize (H p). by destruct (m p). Qed.
End framed.

#[export] Hint Resolve framed_ret framed_stop framed_get_errno framed_set_errno
  framed_get_daemon_proc : framed.

Ltac framed_tac :=
  repeat first
    [ progress intros
    | solve [auto with framed]
    | apply framed_bind
    | apply framed_call; intros; exact I
    | match goal with |- framed _ (match ?x with _ => _ end) => destruct x end
    | match goal with |- framed _ (if ?x then _ else _) => destruct x end
    | progress unfold syscall, exit ].

(** ** Steady computations *)

(** Opens and closes no descriptor, reads nothing. *)
Definition steady (e : event) : Prop :=
  match e with
  | Event c _ =>
      match c with
      | sys_socket _ _ _ | sys_accept _ | sys_close _ | sys_read _ _
      | sys_socketpair _ _ _ | sys_dup2 _ _ | sys_recvmsg_ctl _ _
      | sys_open _ _ _ | sys_pipe | sys_mkstemp _ => False
      | _ => True
      end
  end.

(** The reads that brought data. *)
Definition data_read1 (e : event) : nat :=
  match e with
  | Event c a =>
      match c in sys A return A → nat with
      | sys_read _ _ => λ r, match r with Ok (_ :: _) => 1%nat | _ => 0%nat end
      | _ => λ _, 0%nat
      end a
  end.
Fixpoint data_reads (t : trace) : nat :=
  match t with [] => 0 | e :: t' => (data_reads t' + data_read1 e)%nat end.

(** Time passes: the trace grows. *)
Definition later (p p' : proc) : Prop := ∃ t, p_trace p' = t ++ p_trace p.
#[global] Instance later_preorder : PreOrder later.
Proof.
  split; [by exists []|]. intros p1 p2 p3 (t & H) (u & H'). exists (u ++ t). by rewrite H', H, app_assoc.
Qed.
Lemma later_counts p p' :
  later p p' → (interrupted (p_trace p) ≤ interrupted (p_trace p') ∧
                data_reads (p_trace p) ≤ data_reads (p_trace p'))%nat.
Proof. intros (t & ->). induction t as [|e t IH]; simpl; lia. Qed.

(** What a steady computation does not change. *)
Definition unmoved (p p' : proc) : Prop :=
  later p p' ∧
  open_fds (p_trace p') = open_fds (p_trace p) ∧
  (∀ fd, received fd (p_trace p') = received fd (p_trace p)) ∧
  data_reads (p_trace p') = data_reads (p_trace p) ∧
  (interrupted (p_trace p) ≤ interrupted (p_trace p'))%nat ∧
  p_live p' = p_live p ∧ p_next p' = p_next p.

#[global] Instance unmoved_preorder : PreOrder unmoved.
Proof.
  split; [by split; [exists []|]|]. intros p1 p2 p3 (H0 & H1 & H2 & H3 & H4 & H5 & H6) (G0 & G1 & G2 & G3 & G4 & G5 & G6).
  split; [by etransitivity|]. split_and!; try congruence; try lia.
Qed.

Lemma frame_unmoved p p' : frame steady p p' → unmoved p p'.
Proof.
  intros ((t & Ht & Hs) & Hl & Hn). split; [by exists t|]. rewrite Ht. clear Ht.
  induction Hs as [|[A c a] t Hc Hs (H1 & H2 & H3 & H4 & H5 & H6)]; [done|].
  cbn [app open_fds received data_reads interrupted]. split_and!; try done.
  - destruct c; done.
  - intros fd. rewrite H2. rewrite <- (app_nil_r (received fd (p_trace p))) at 2. by destruct c.
  - assert (data_read1 (Event c a) = 0%nat) as -> by by destruct c. lia.
  - lia.
Qed.
Lemma unmoved_event {A} (c : sys A) a p : steady (Event c a) → unmoved p (add_event c a p).
Proof. intros H. by apply frame_unmoved, frame_event. Qed.
Lemma unmoved_errno e p : unmoved p (with_errno e p).
Proof. apply frame_unmoved, frame_errno. Qed.

Section steady.
Context {K : Kernel}.

Lemma framed_err_doit b level msg : framed steady (err_doit b level msg).
Proof. unfold err_doit. framed_tac. Qed.

Lemma reported_unmoved p p' : reported p p' → unmoved p p'.
Proof.
  intros [(t & Ht & Hq & _) [Hl Hn]]. apply frame_unmoved. split; [|done].
  exists t. split; [done|]. eapply Forall_impl; [exact Hq|]. intros [A c a] H. by destruct c.
Qed.

(** [err_sys] and [err_quit] end the process. *)
Lemma exits_unmoved {A} (m : M A) p (Q : outcome A → proc → Prop) :
  post m p (λ o p', o = Exit 1 ∧ reported p p') → (∀ p', unmoved p p' → Q (Exit 1) p') → post m p Q.
Proof.
  intros Hm HQ. eapply post_weaken; [exact Hm|]. intros o p' [-> Hr]. by apply HQ, reported_unmoved.
Qed.

Lemma syscall_unmoved {A} (c : sys (res A)) p (Q : outcome (option A) → proc → Prop) :
  (∀ r, steady (Event c r)) →
  (∀ r p', unmoved p p' → Q (Ret r) p') → post (syscall c) p Q.
Proof.
  intros Hc HQ. post_steps; apply HQ; [by apply unmoved_event|].
  etransitivity; [by apply (unmoved_event c (Err e))|apply unmoved_errno].
Qed.

Lemma or_err_sys_unmoved {A} (c : sys (res A)) msg p (Q : outcome A → proc → Prop) :
  (∀ r, steady (Event c r)) →
  (∀ a p', answer (p_trace p) c = Ok a → unmoved p p' → Q (Ret a) p') →
  (∀ p', unmoved p p' → Q (Exit 1) p') →
  post (or_err_sys c msg) p Q.
Proof.
  intros Hc H1 H2. unfold or_err_sys. post_steps; [by apply H1, unmoved_event|].
  eapply exits_unmoved; [apply err_sys_exits|]. intros p' Hp'. apply H2.
  etransitivity; [by apply (unmoved_event c (Err e))|exact Hp'].
Qed.

Lemma err_ret_unmoved msg p (Q : outcome unit → proc → Prop) :
  (∀ p', unmoved p p' → Q (Ret tt) p') → post (err_ret msg) p Q.
Proof.
  intros HQ. eapply post_weaken; [apply err_doit_reports|]. intros o p' [-> Hr]. by apply HQ, reported_unmoved.
Qed.
Lemma err_msg_unmoved msg p (Q : outcome unit → proc → Prop) :
  (∀ p', unmoved p p' → Q (Ret tt) p') → post (err_msg msg) p Q.
Proof.
  intros HQ. eapply post_weaken; [apply err_doit_reports|]. intros o p' [-> Hr]. by apply HQ, reported_unmoved.
Qed.

Lemma framed_writen_loop fuel fd : ∀ rest, framed steady (writen_loop fuel fd rest).
Proof. induction fuel as [|f IH]; intros rest; cbn [writen_loop]; framed_tac. Qed.

(** [Writen]: the fuel runs out only by interruptions. *)
Lemma Writen_unmoved {KOk : ReadWriteOk K} fuel fd buf p (Q : outcome unit → proc → Prop) :
  (∀ p', unmoved p p' → Q (Ret tt) p') → (∀ p', unmoved p p' → Q (Exit 1) p') →
  (∀ p', unmoved p p' →
     (fuel ≤ List.length buf + (interrupted (p_trace p') - interrupted (p_trace p)))%nat → Q NoFuel p') →
  post (Writen fuel fd buf) p Q.
Proof.
  intros H1 H2 H3. unfold Writen, writen. post_step. eapply post_weaken.
  { apply post_and; [apply (writen_loop_post fuel fd buf [] buf p p eq_refl) with (fuel0 := fuel);
      rewrite ?app_nil_r; lia || done|apply framed_post, framed_writen_loop]. }
  intros o p' [(wr & rest & _ & _ & Ho) Hf]. apply frame_unmoved in Hf.
  destruct o as [[]| | | |]; cbn [through]; try done.
  - by apply post_ret, H1.
  - eapply exits_unmoved; [apply err_sys_exits|]. intros p'' Hp''. apply H2. by etransitivity.
  - apply H3; [done|lia].
Qed.
End steady.

Lemma frame_later P p p' : frame P p p' → later p p'.
Proof. intros [(t & Ht & _) _]. by exists t. Qed.

(** [Accept]: what it does is a sequence of aborted calls, then the connection
    or a report. *)
Lemma Accept_run {K : Kernel} (R : proc → proc → Prop) {HR : PreOrder R} lfd fuel p0 :
  (∀ e p, (e =? EPROTO) || (e =? ECONNABORTED) = true → R p (with_errno e (add_event (sys_accept lfd) (Err e) p))) → ∀ k p,
  R p0 p → (fuel ≤ k + (interrupted (p_trace p) - interrupted (p_trace p0)))%nat →
  (interrupted (p_trace p0) ≤ interrupted (p_trace p))%nat →
  post (Accept k lfd) p (λ o p', (interrupted (p_trace p0) ≤ interrupted (p_trace p'))%nat ∧
    match o with
    | Ret (fd, sa) => ∃ p1, R p0 p1 ∧ answer (p_trace p1) (sys_accept lfd) = Ok (fd, sa) ∧
        p' = add_event (sys_accept lfd) (Ok (fd, sa)) p1
    | Exit st => st = 1 ∧ ∃ p1 e, R p0 p1 ∧ reported (add_event (sys_accept lfd) (Err e) p1) p'
    | NoFuel => (fuel ≤ interrupted (p_trace p') - interrupted (p_trace p0))%nat
    | _ => False
    end).
Proof.
  intros Hab k. induction k as [|k IH]; intros p HRp Hf Hi; cbn [Accept]; [post_steps; split; [done|lia]|].
  post_steps.
  - destruct a as [fd sa]. split; [simpl; lia|]. by exists p.
  - destruct ((e =? EPROTO) || (e =? ECONNABORTED)) eqn:Er; simpl p_errno; rewrite Er.
    + assert (Hn : interrupted (p_trace (with_errno e (add_event (sys_accept lfd) (Err e) p))) = S (interrupted (p_trace p))).
      { cbn [p_trace with_errno add_event interrupted interrupted1]. rewrite Er. lia. }
      apply IH; [etransitivity; [exact HRp|by apply Hab]| |]; rewrite Hn; lia.
    + eapply post_weaken; [apply err_sys_exits|]. intros o p' [-> Hr].
      split; [apply reported_unmoved in Hr; destruct Hr as (_ & _ & _ & _ & Hr & _); cbn in Hr; lia|].
      split; [done|]. exists p, e. split; [done|exact Hr].
Qed.

(** An aborted call moves nothing. *)
Lemma unmoved_abort {K : Kernel} lfd e p : unmoved p (with_errno e (add_event (sys_accept lfd) (Err e) p)).
Proof.
  split; [by exists [Event (sys_accept lfd) (Err e)]|]. cbn. split_and!; try done; try lia. intros fd. by rewrite app_nil_r.
Qed.

(** ** Computations on one descriptor

    When [P] holds of the reports and of the reads and writes of [fd], the stream
    functions on [fd] only add events that satisfy [P]. *)
Section traffic.
Context {K : Kernel} (P : event → Prop) (fd : Z).
Context (Hquiet : ∀ e, quiet e → P e).

Lemma framed_report errnoflag level msg : framed P (err_doit errnoflag level msg).
Proof.
  unfold err_doit. repeat first [apply framed_call; intros; by apply Hquiet|progress framed_tac].
Qed.
Lemma framed_err_sys {A} msg : framed P (err_sys (A := A) msg).
Proof. apply framed_bind; [apply framed_report|]. framed_tac. Qed.
Lemma framed_err_quit {A} msg : framed P (err_quit (A := A) msg).
Proof. apply framed_bind; [apply framed_report|]. framed_tac. Qed.

Lemma framed_readline (Hread : ∀ n r, P (Event (sys_read fd n) r)) fuel maxlen s :
  framed P (Readline fuel fd maxlen s).
Proof.
  assert (Hfill : ∀ fuel s, framed P (my_read_fill fuel fd s)).
  { clear fuel s. induction fuel as [|f IH]; intros s; cbn [my_read_fill]; [framed_tac|].
    apply framed_bind; [apply framed_bind; [by apply framed_call|framed_tac]|]. framed_tac. }
  assert (Hmy : ∀ s, framed P (my_read fuel fd s)).
  { intros s'. unfold my_read. apply framed_bind; [|framed_tac]. case_match; [apply Hfill|framed_tac]. }
  unfold Readline, readline. apply framed_bind.
  - generalize 1 at 1. generalize (@nil Z). revert s. induction (Z.to_nat (maxlen - 1)) as [|todo IH]; intros s l n;
      cbn [readline_loop]; [framed_tac|]. apply framed_bind; [apply Hmy|].
    intros [[rc c] s']. framed_tac.
  - intros [[n l] s']. case_match; [apply framed_err_sys|framed_tac].
Qed.

Lemma framed_Writen (Hwrite : ∀ b r, P (Event (sys_write fd b) r)) fuel buf : framed P (Writen fuel fd buf).
Proof.
  unfold Writen, writen. apply framed_bind; [|intros []; [framed_tac|apply framed_err_sys]].
  revert buf. induction fuel as [|f IH]; intros buf; cbn [writen_loop]; [framed_tac|].
  case_match; [|framed_tac]. apply framed_bind; [apply framed_bind; [by apply framed_call|framed_tac]|]. framed_tac.
Qed.
Lemma framed_Accept (Hacc : ∀ r, P (Event (sys_accept fd) r)) fuel : framed P (Accept fuel fd).
Proof.
  induction fuel as [|f IH]; cbn [Accept]; [framed_tac|].
  apply framed_bind; [apply framed_bind; [by apply framed_call|framed_tac]|]. intros [a|]; [framed_tac|]. apply framed_bind; [apply framed_get_errno|]. intros e. case_match; [exact IH|apply framed_err_sys].
Qed.
End traffic.

(** ** Computations that return

    [fine ub o]: the outcome is a return, an [exit(1)], or undefined behaviour
    where [ub] allows it. *)
Definition fine (ub : Prop) {A} (o : outcome A) : Prop :=
  match o with Ret _ => True | Exit st => st = 1 | UB => ub | _ => False end.
Definition fine_run (ub : Prop) {A} (m : M A) : Prop := ∀ p, post m p (λ o _, fine ub o).

Create HintDb fine.

Section fine.
Context {K : Kernel} (ub : Prop).

Lemma fine_bind {A B} (m : M A) (k : A → M B) :
  fine_run ub m → (∀ a, fine_run ub (k a)) → fine_run ub (m ≫= k).
Proof.
  intros Hm Hk p. apply post_bind. eapply post_weaken; [apply Hm|].
  intros [a|st| | |] p' Ho; cbn [through]; try done. apply Hk.
Qed.
Lemma fine_ret {A} (a : A) : fine_run ub (mret a).
Proof. intros p. done. Qed.
Lemma fine_call {A} (c : sys A) : fine_run ub (call c).
Proof. intros p. done. Qed.
Lemma fine_get_errno : fine_run ub get_errno.
Proof. intros p. done. Qed.
Lemma fine_set_errno e : fine_run ub (set_errno e).
Proof. intros p. done. Qed.
Lemma fine_ub {A} : ub → fine_run ub (stop (A := A) UB).
Proof. intros Hu p. done. Qed.
Lemma fine_err_sys {A} msg : fine_run ub (err_sys (A := A) msg).
Proof. intros p. eapply post_weaken; [apply err_sys_exits|]. by intros o p' [-> _]. Qed.
Lemma fine_err_quit {A} msg : fine_run ub (err_quit (A := A) msg).
Proof. intros p. eapply post_weaken; [apply err_quit_exits|]. by intros o p' [-> _]. Qed.
Lemma fine_report b level msg : fine_run ub (err_doit b level msg).
Proof. intros p. eapply post_weaken; [apply err_doit_reports|]. by intros o p' [-> _]. Qed.
Lemma fine_syscall {A} (c : sys (res A)) : fine_run ub (syscall c).
Proof. apply fine_bind; [apply fine_call|]. intros []; [apply fine_ret|]. apply fine_bind; [apply fine_set_errno|]. intros. apply fine_ret. Qed.
Lemma fine_or_err_sys {A} (c : sys (res A)) msg : fine_run ub (or_err_sys c msg).
Proof. apply fine_bind; [apply fine_syscall|]. intros []; [apply fine_ret|apply fine_err_sys]. Qed.
Lemma fine_printf s : fine_run ub (printf s).
Proof. apply fine_bind; [apply fine_syscall|]. intros. apply fine_ret. Qed.
Lemma fine_Write fd buf : fine_run ub (Write fd buf).
Proof. apply fine_bind; [apply fine_syscall|]. intros [n|]; [|apply fine_err_sys]. case_match; [apply fine_ret|apply fine_err_sys]. Qed.
End fine.

#[export] Hint Resolve fine_ret fine_call fine_get_errno fine_set_errno fine_ub fine_err_sys fine_err_quit
  fine_report fine_syscall fine_or_err_sys fine_printf fine_Write : fine.

Ltac fine_tac := repeat first
  [ progress intros
  | solve [auto with fine]
  | apply fine_bind
  | match goal with |- fine_run _ (match ?x with _ => _ end) => destruct x end ].

(** ** Sequences of observations

    [obs1] picks from an event what matters of it.  [follows want R p o p']: from
    [p] to [p'] the program showed [want], returning a result that satisfies
    [R], or stopped after the beginning of [want]; [ub] says when an undefined
    outcome is possible. *)
Section follows.
Context {K : Kernel} {B0 : Type} (obs1 : event → list B0) (ub : Prop).

Fixpoint seen (t : trace) : list B0 :=
  match t with [] => [] | e :: t' => seen t' ++ obs1 e end.
Definition follows (want : list B0) {A} (R : A → Prop) (p : proc) (o : outcome A) (p' : proc) : Prop :=
  ∃ new, seen (p_trace p') = seen (p_trace p) ++ new ∧ new `prefix_of` want ∧
    match o with
    | Ret a => new = want ∧ R a
    | Exit st => st = 1
    | UB => ub
    | NoFuel => True
    | Abort => False
    end.
Definition unseen (e : event) : Prop := obs1 e = [].
(** Reports show nothing. *)
Class QuietUnseen : Prop := { quiet_unseen : ∀ e, quiet e → unseen e }.
Context {HQuiet : QuietUnseen}.

Lemma follows_bind {A B} (m : M A) (k : A → M B) w1 w2 (R1 : A → Prop) (R2 : B → Prop) p :
  post m p (follows w1 R1 p) → (∀ a p', R1 a → post (k a) p' (follows w2 R2 p')) →
  post (m ≫= k) p (follows (w1 ++ w2) R2 p).
Proof.
  intros Hm Hk. apply post_bind. eapply post_weaken; [exact Hm|].
  intros [a|st| | |] p' (sent & Hs & Hw & Ho); cbn [through]; try (exists sent; split; [done|]; split; [by apply prefix_app_r|done]).
  destruct Ho as [-> HR]. eapply post_weaken; [by apply Hk|]. intros o p2 (sent2 & Hs2 & Hw2 & Ho2).
  exists (w1 ++ sent2). rewrite Hs2, Hs, app_assoc. split; [done|]. split; [by apply prefix_app|].
  destruct o; try done. destruct Ho2 as [-> ?]. done.
Qed.
(** The same when what follows chooses how far to go. *)
Lemma follows_bind_ex {A B} (m : M A) (k : A → M B) (P : nat → Prop) w1 (w2 : nat → list B0) (R1 : A → Prop) (R2 : nat → B → Prop) p :
  (∃ n, P n) → post m p (follows w1 R1 p) →
  (∀ a p', R1 a → post (k a) p' (λ o p2, ∃ n, P n ∧ follows (w2 n) (R2 n) p' o p2)) →
  post (m ≫= k) p (λ o p2, ∃ n, P n ∧ follows (w1 ++ w2 n) (R2 n) p o p2).
Proof.
  intros [n0 Hn0] Hm Hk. apply post_bind. eapply post_weaken; [exact Hm|].
  intros [a|st| | |] p' (sent & Hs & Hw & Ho); cbn [through];
    try (exists n0; split; [done|]; exists sent; split; [done|]; split; [by apply prefix_app_r|done]).
  destruct Ho as [-> HR]. eapply post_weaken; [by apply Hk|]. intros o p2 (n & Hn & sent2 & Hs2 & Hw2 & Ho2).
  exists n. split; [done|]. exists (w1 ++ sent2). rewrite Hs2, Hs, app_assoc. split; [done|]. split; [by apply prefix_app|].
  destruct o; try done. destruct Ho2 as [-> ?]. done.
Qed.
Lemma follows_bind0 {A B} (m : M A) (k : A → M B) w (R1 : A → Prop) (R2 : B → Prop) p :
  post m p (follows [] R1 p) → (∀ a p', R1 a → post (k a) p' (follows w R2 p')) →
  post (m ≫= k) p (follows w R2 p).
Proof. apply (follows_bind m k []). Qed.
Lemma follows_ret {A} (a : A) (R : A → Prop) p : R a → post (mret a) p (follows [] R p).
Proof. intros HR. apply post_ret. exists []. by rewrite app_nil_r. Qed.
(** What is unseen adds nothing. *)
Lemma frame_seen p p' : frame unseen p p' → seen (p_trace p') = seen (p_trace p).
Proof.
  intros [(t & -> & Hq) _]. induction Hq as [|e t He _ IH]; [done|]. cbn [app seen]. by rewrite He, app_nil_r.
Qed.
Lemma follows_frame {A} (m : M A) p (R : A → Prop) (Q : outcome A → proc → Prop) :
  framed unseen m → post m p Q →
  (∀ o p', Q o p' → match o with Ret a => R a | Exit st => st = 1 | UB => ub | NoFuel => True | Abort => False end) →
  post m p (follows [] R p).
Proof.
  intros Hf Hm HQ. eapply post_weaken; [apply post_and; [exact Hm|apply (framed_post _ m p Hf)]|].
  intros o p' [Ho Hs%frame_seen]. exists []. split; [by rewrite app_nil_r|split; [done|]].
  apply HQ in Ho. by destruct o.
Qed.
Lemma framed_unseen_err {A} msg : framed (unseen) (err_sys (A := A) msg).
Proof. apply framed_err_sys, quiet_unseen. Qed.
Lemma follows_call {A} (c : sys A) p (R : A → Prop) : (∀ a, unseen (Event c a)) → (∀ a, R a) →
  post (call c) p (follows [] R p).
Proof.
  intros Hc HR. apply post_call. intros a _. exists []. cbn [add_event p_trace seen]. rewrite Hc, !app_nil_r. done.
Qed.
Lemma follows_syscall {A} (c : sys (res A)) p (R : option A → Prop) : (∀ a, unseen (Event c a)) → (∀ a, R a) →
  post (syscall c) p (follows [] R p).
Proof.
  intros Hc HR. apply post_syscall; intros a _; exists []; cbn [add_event with_errno p_trace seen];
    rewrite Hc, !app_nil_r; done.
Qed.
Lemma follows_printf s p : post (printf s) p (follows [] (λ _, True) p).
Proof. eapply follows_bind0; [apply (follows_syscall _ _ (λ _, True)); intros; [by apply quiet_unseen|done]|].
  intros. by apply follows_ret.
Qed.
Lemma follows_err_sys {A} msg p (R : A → Prop) : post (err_sys msg) p (follows [] R p).
Proof. eapply follows_frame; [apply framed_unseen_err|apply err_sys_exits|]. by intros o p' [-> _]. Qed.
Lemma follows_or_err_sys {A} (c : sys (res A)) msg p (R : A → Prop) : (∀ a, unseen (Event c a)) → (∀ a, R a) →
  post (or_err_sys c msg) p (follows [] R p).
Proof.
  intros Hc HR. eapply follows_bind0; [by apply (follows_syscall _ _ (λ _, True))|].
  intros [a|] p' _; [by apply follows_ret|apply follows_err_sys].
Qed.
Lemma follows_weaken {A} (m : M A) w (R R' : A → Prop) p :
  post m p (follows w R p) → (∀ a, R a → R' a) → post m p (follows w R' p).
Proof.
  intros Hm HR. eapply post_weaken; [exact Hm|]. intros o p' (sent & H1 & H2 & H3). exists sent.
  split; [done|]. split; [done|]. destruct o; naive_solver.
Qed.

End follows.

(** ** Runs

    [runs m Q]: from any state, what [m] shows and its outcome satisfy [Q].  The
    rules follow the computation; the observations of its parts are concatenated. *)
Section runs.
Context {K : Kernel} {B0 : Type} (obs1 : event → list B0).

Definition runs {A} (m : M A) (Q : outcome A → list B0 → Prop) : Prop :=
  ∀ p, post m p (λ o p', ∃ new, seen obs1 (p_trace p') = seen obs1 (p_trace p) ++ new ∧ Q o new).
(** The outcomes other than a return pass through a sequence. *)
Definition passes {A B} (Q : outcome B → list B0 → Prop) (k : A → list B0 → Prop)
    (o : outcome A) (new : list B0) : Prop :=
  match o with
  | Ret a => k a new
  | Exit s => Q (Exit s) new
  | Abort => Q Abort new
  | UB => Q UB new
  | NoFuel => Q NoFuel new
  end.

Lemma runs_weaken {A} (m : M A) (Q R : outcome A → list B0 → Prop) :
  runs m Q → (∀ o new, Q o new → R o new) → runs m R.
Proof. intros Hm HQ p. eapply post_weaken; [apply Hm|]. intros o p' (new & H & HQ'). eauto. Qed.
Lemma runs_ret {A} (a : A) (Q : outcome A → list B0 → Prop) : Q (Ret a) [] → runs (mret a) Q.
Proof. intros HQ p. exists []. by rewrite app_nil_r. Qed.
Lemma runs_stop {A} (o : outcome A) (Q : outcome A → list B0 → Prop) : Q o [] → runs (stop o) Q.
Proof. intros HQ p. exists []. by rewrite app_nil_r. Qed.
Lemma runs_bind {A B} (m : M A) (k : A → M B) (Q : outcome B → list B0 → Prop) :
  runs m (passes Q (λ a new, runs (k a) (λ o new', Q o (new ++ new')))) → runs (m ≫= k) Q.
Proof.
  intros Hm p. apply post_bind. eapply post_weaken; [apply Hm|].
  intros [a|st| | |] p' (new & Hs & Hk); cbn [through passes] in *; eauto.
  eapply post_weaken; [apply Hk|]. intros o p2 (new2 & Hs2 & HQ). exists (new ++ new2).
  by rewrite Hs2, Hs, app_assoc.
Qed.
Lemma runs_syscall {A} (c : sys (res A)) (Q : outcome (option A) → list B0 → Prop) :
  (∀ a, Q (Ret (Some a)) (obs1 (Event c (Ok a)))) → (∀ e, Q (Ret None) (obs1 (Event c (Err e)))) →
  runs (syscall c) Q.
Proof. intros H1 H2 p. apply post_syscall; intros ? _; eexists; (split; [reflexivity|auto]). Qed.
Lemma runs_call {A} (c : sys A) (Q : outcome A → list B0 → Prop) :
  (∀ a, Q (Ret a) (obs1 (Event c a))) → runs (call c) Q.
Proof. intros H p. apply post_call. intros a _. eexists. split; [reflexivity|auto]. Qed.
Lemma runs_get_errno (Q : outcome Z → list B0 → Prop) : (∀ e, Q (Ret e) []) → runs get_errno Q.
Proof. intros HQ p. exists []. rewrite app_nil_r. split; [done|apply HQ]. Qed.
Lemma runs_set_errno e (Q : outcome unit → list B0 → Prop) : Q (Ret tt) [] → runs (set_errno e) Q.
Proof. intros HQ p. exists []. rewrite app_nil_r. split; [done|apply HQ]. Qed.
Lemma runs_get_daemon_proc (Q : outcome bool → list B0 → Prop) : (∀ b, Q (Ret b) []) → runs get_daemon_proc Q.
Proof. intros HQ p. exists []. rewrite app_nil_r. split; [done|apply HQ]. Qed.
(** A post-condition together with what the computation shows. *)
Lemma runs_post {A} (m : M A) p (P : outcome A → proc → Prop) (Q : outcome A → list B0 → Prop) :
  post m p P → runs m Q →
  post m p (λ o p', P o p' ∧ ∃ new, seen obs1 (p_trace p') = seen obs1 (p_trace p) ++ new ∧ Q o new).
Proof. intros HP HQ. exact (post_and _ _ _ _ HP (HQ p)). Qed.
Lemma runs_unseen {A} (m : M A) (Q : outcome A → list B0 → Prop) :
  framed (unseen obs1) m → (∀ p, post m p (λ o _, Q o [])) → runs m Q.
Proof.
  intros Hf Hm p. eapply post_weaken; [apply post_and; [exact (Hm p)|apply (framed_post _ m p Hf)]|].
  intros o p' [Ho Hs%frame_seen]. exists []. by rewrite app_nil_r.
Qed.
End runs.

Ltac runs_step :=
  lazymatch goal with
  | |- runs _ (mbind _ _) _ => apply runs_bind
  | |- runs _ (mret _) _ => apply runs_ret
  | |- runs _ (stop _) _ => apply runs_stop
  | |- runs _ (syscall _) _ => apply runs_syscall; intros
  | |- runs _ (call _) _ => apply runs_call; intros
  | |- runs _ get_errno _ => apply runs_get_errno; intros
  | |- runs _ get_daemon_proc _ => apply runs_get_daemon_proc; intros
  end; cbn [passes].
Ltac runs_steps := repeat runs_step.
