(* ===== verification/Cksum.v ===== *)
(** The Internet checksum: src/unpv13e/libfree/in_cksum.c.

    A buffer is the list of its bytes; the host is little-endian, so the
    16-bit word at two bytes [lo], [hi] is [lo + 256 * hi]. *)
From S2P Require Import Prelude Machine.

(** ** in_cksum.c *)

(** The [while] loop: the accumulator, and what is left of the buffer when
    fewer than two bytes are. *)
Fixpoint cksum_words (w : list Z) (sum : Z) : Z * list Z :=
  match w with
  | lo :: hi :: w' => cksum_words w' (u32 (sum + Z.lor lo (Z.shiftl hi 8)))
  | _ => (sum, w)
  end.

(** The two folds of the carries. *)
Definition cksum_fold (sum : Z) : Z :=
  let sum := u32 (Z.shiftr sum 16 + Z.land sum 65535) in
  u32 (sum + Z.shiftr sum 16).

Definition in_cksum (addr : list Z) : Z :=
  let '(sum, rest) := cksum_words addr 0 in
  let sum := match rest with [b] => u32 (sum + b) | _ => sum end in
  u16 (Z.lnot (cksum_fold sum)).

(** ** Specification: RFC 1071, one's complement arithmetic on 16 bits *)

(** Addition with the carry brought around. *)
Definition ones_add (a b : Z) : Z :=
  let s := a + b in if s <? 65536 then s else s - 65535.

(** The words of a buffer, the last padded with a zero byte. *)
Fixpoint words (bs : list Z) : list Z :=
  match bs with
  | lo :: hi :: bs' => (lo + 256 * hi) :: words bs'
  | [b] => [b]
  | [] => []
  end.
Definition ones_sum (ws : list Z) : Z := foldr ones_add 0 ws.
Definition sum_of (ws : list Z) : Z := foldr Z.add 0 ws.

(** The largest buffer whose sum cannot leave the 32-bit accumulator. *)
Definition CKSUM_MAX : Z := 131072.

(** ** Lemmas *)

(** The representative of a sum modulo 65535 that end-around addition
    computes: it is 0 only for a zero sum. *)
Definition ones_repr (s v : Z) : Prop :=
  0 ≤ v < 65536 ∧ s mod 65535 = v mod 65535 ∧ (v = 0 ↔ s = 0).

Lemma ones_repr_unique s v v' : ones_repr s v → ones_repr s v' → v = v'.
Proof.
  intros (H1 & H2 & H3) (H4 & H5 & H6). destruct (decide (s = 0)); [lia|].
  assert (v ≠ 0 ∧ v' ≠ 0) by tauto. zdiv.
Qed.

Lemma ones_repr_add w s v :
  0 ≤ w < 65536 → 0 ≤ s → ones_repr s v → ones_repr (w + s) (ones_add w v).
Proof.
  intros Hw Hs (H1 & H2 & H3). unfold ones_add, ones_repr. cbn [Nat.add]. ztest.
  - split; [lia|]. split; [|lia]. rewrite Z.add_mod, H2, <- Z.add_mod by lia. done.
  - split; [lia|]. split; [|lia].
    replace (w + v - 65535) with (w + v + -1 * 65535) by lia.
    rewrite Z_mod_plus_full, Z.add_mod, H2, <- Z.add_mod by lia. done.
Qed.

(** Induction on buffers two bytes at a time. *)
Lemma bytes_pairs_ind (P : list Z → Prop) :
  P [] → (∀ b, P [b]) → (∀ a b bs, P bs → P (a :: b :: bs)) → ∀ bs, P bs.
Proof.
  intros H0 H1 H2. enough (H : ∀ bs, P bs ∧ ∀ b, P (b :: bs)) by (intros; apply H).
  induction bs as [|x bs [IH1 IH2]]; auto.
Qed.

Lemma words_bound bs : bytes_ok bs → Forall (λ w, 0 ≤ w < 65536) (words bs).
Proof.
  induction bs as [|b|a b bs IH] using bytes_pairs_ind; intros H; simpl; constructor.
  - apply Forall_cons in H as [H _]. lia.
  - constructor.
  - apply Forall_cons in H as [? H]. apply Forall_cons in H as [? H]. lia.
  - apply Forall_cons in H as [? H]. apply Forall_cons in H as [? H]. auto.
Qed.

Lemma sum_of_nonneg ws : Forall (λ w, 0 ≤ w < 65536) ws → 0 ≤ sum_of ws.
Proof. induction 1; simpl; lia. Qed.

Lemma ones_sum_repr ws :
  Forall (λ w, 0 ≤ w < 65536) ws → ones_repr (sum_of ws) (ones_sum ws).
Proof.
  induction 1; simpl; [done|]. apply ones_repr_add; auto using sum_of_nonneg.
Qed.

Lemma sum_of_bound bs :
  bytes_ok bs → sum_of (words bs) ≤ 65535 * ((Z.of_nat (List.length bs) + 1) / 2).
Proof.
  induction bs as [|b|a b bs IH] using bytes_pairs_ind; intros H.
  - by vm_compute.
  - apply Forall_cons in H as [H _]. cbn [words sum_of foldr List.length].
    change ((Z.of_nat 1 + 1) / 2) with 1. lia.
  - apply Forall_cons in H as [? H]. apply Forall_cons in H as [? H].
    specialize (IH H). cbn [words sum_of foldr List.length]. fold (sum_of (words bs)).
    replace (Z.of_nat (S (S (List.length bs))) + 1) with (Z.of_nat (List.length bs) + 1 + 1 * 2) by lia.
    rewrite Z.div_add by lia. lia.
Qed.

Lemma word_lor a b : 0 ≤ a < 256 → 0 ≤ b < 256 → Z.lor a (Z.shiftl b 8) = a + 256 * b.
Proof.
  intros Ha Hb. rewrite Z.shiftl_mul_pow2 by lia.
  enough (Z.land a (b * 2 ^ 8) = 0) by (pose proof (Z.add_lor_land a (b * 2 ^ 8)); lia).
  apply Z.bits_inj'. intros n Hn. rewrite Z.land_spec, Z.bits_0.
  destruct (Z.ltb_spec n 8).
  - rewrite Z.mul_pow2_bits_low by lia. apply andb_false_r.
  - rewrite (Z.bits_above_log2 a n); [done|lia|].
    destruct (Z.eq_dec a 0) as [->|]; [change (Z.log2 0) with 0; lia|].
    apply Z.log2_lt_pow2; [lia|]. apply Z.lt_le_trans with (2 ^ 8); [lia|].
    apply Z.pow_le_mono_r; lia.
Qed.

(** Below 2{^32} the accumulator is the sum. *)
Lemma cksum_words_sum bs sum :
  bytes_ok bs → 0 ≤ sum → sum + sum_of (words bs) < 2 ^ 32 →
  let '(s, rest) := cksum_words bs sum in
  match rest with [b] => u32 (s + b) | _ => s end = sum + sum_of (words bs).
Proof.
  revert sum. induction bs as [|b|a b bs IH] using bytes_pairs_ind; intros sum H Hs Hb.
  - simpl in *. lia.
  - apply Forall_cons in H as [H _]. simpl in *. unfold u32. rewrite Z.mod_small; lia.
  - apply Forall_cons in H as [? H]. apply Forall_cons in H as [? H].
    cbn [words sum_of foldr cksum_words] in *. fold (sum_of (words bs)) in *.
    rewrite word_lor by done.
    assert (0 ≤ sum_of (words bs)) by auto using sum_of_nonneg, words_bound.
    unfold u32 at 1. rewrite Z.mod_small by lia.
    specialize (IH (sum + (a + 256 * b)) H ltac:(lia) ltac:(lia)).
    destruct (cksum_words bs (sum + (a + 256 * b))). rewrite IH. lia.
Qed.

Lemma cksum_fold_repr s : 0 ≤ s < 2 ^ 32 → ones_repr s (u16 (cksum_fold s)).
Proof.
  intros Hs. unfold cksum_fold, u16, u32.
  change 65535 with (Z.ones 16). rewrite Z.land_ones, !Z.shiftr_div_pow2 by lia.
  change (2 ^ 16) with 65536 in *. change (2 ^ 32) with 4294967296 in *.
  assert (H1 : s / 65536 + s mod 65536 < 131071) by zdiv.
  assert (H0 : 0 ≤ s / 65536 ∧ 0 ≤ s mod 65536) by zdiv.
  rewrite (Z.mod_small (s / 65536 + s mod 65536)) by lia.
  set (f := s / 65536 + s mod 65536) in *.
  assert (Hf : s = f + 65535 * (s / 65536)) by (unfold f; zdiv).
  rewrite (Z.mod_small (f + f / 65536)) by zdiv.
  assert (Hm : s mod 65535 = f mod 65535).
  { rewrite Hf at 1. rewrite Z.mul_comm, Z_mod_plus_full. done. }
  assert (Hz : f = 0 ↔ s = 0) by (clear Hm; unfold f in *; zdiv).
  assert (Hf0 : 0 ≤ f) by (unfold f; lia). clearbody f. unfold ones_repr. rewrite Hm, <- Hz. clear s Hs Hm Hf Hz H0.
  destruct (decide (f < 65536)).
  - rewrite (Z.div_small f), Z.add_0_r, Z.mod_small by lia. split; [lia|done].
  - replace (f / 65536) with 1 by zdiv. replace ((f + 1) mod 65536) with (f - 65535) by zdiv.
    split; [lia|]. split; [|lia]. replace (f - 65535) with (f + -1 * 65535) by lia.
    by rewrite Z_mod_plus_full.
Qed.

Lemma u16_lnot v : u16 (Z.lnot v) = 65535 - u16 v.
Proof. unfold u16, Z.lnot, Z.pred. change (2 ^ 16) with 65536. zdiv. Qed.

Lemma in_cksum_spec bs :
  bytes_ok bs → Z.of_nat (List.length bs) ≤ CKSUM_MAX → in_cksum bs = 65535 - ones_sum (words bs).
Proof.
  intros Hb Hl. pose proof (sum_of_bound bs Hb) as Hs.
  assert (0 ≤ sum_of (words bs)) by auto using sum_of_nonneg, words_bound.
  assert (sum_of (words bs) < 2 ^ 32) by (unfold CKSUM_MAX in Hl; zdiv).
  pose proof (cksum_words_sum bs 0 Hb ltac:(lia) ltac:(lia)) as Hw. unfold in_cksum.
  destruct (cksum_words bs 0) as [s rest]. rewrite Hw, u16_lnot. f_equal.
  apply ones_repr_unique with (s := sum_of (words bs)).
  - apply cksum_fold_repr. lia.
  - apply ones_sum_repr, words_bound, Hb.
Qed.

Lemma words_app a b : Nat.Even (List.length a) → words (a ++ b) = words a ++ words b.
Proof.
  induction a as [|x|x y a IH] using bytes_pairs_ind; intros He; [done| |].
  - destruct He. simpl in *. lia.
  - simpl. f_equal. apply IH. destruct He as [k Hk]. exists (k - 1)%nat. simpl in Hk. lia.
Qed.

Lemma sum_of_app a b : sum_of (a ++ b) = sum_of a + sum_of b.
Proof. induction a; simpl; [done|]. unfold sum_of in *. lia. Qed.

(** The sum of a packet splits at an aligned 16-bit field. *)
Lemma sum_field pre lo hi post :
  Nat.Even (List.length pre) →
  sum_of (words (pre ++ lo :: hi :: post)) = lo + 256 * hi + sum_of (words (pre ++ 0 :: 0 :: post)).
Proof. intros He. rewrite !words_app, !sum_of_app by done. simpl. unfold sum_of. lia. Qed.

Lemma field_bytes pre lo hi post :
  bytes_ok (pre ++ 0 :: 0 :: post) → 0 ≤ lo < 256 → 0 ≤ hi < 256 →
  bytes_ok (pre ++ lo :: hi :: post).
Proof.
  intros H ? ?. apply Forall_app in H as [Ha Hc]. apply Forall_cons in Hc as [_ Hc].
  apply Forall_cons in Hc as [_ Hc]. apply Forall_app. split; [done|]. unfold bytes_ok; auto.
Qed.

(** [in_cksum] is 0 exactly when the sum of the words is a nonzero multiple of
    65535, and in general what the sum lacks to be one. *)
Lemma cksum_zero bs : bytes_ok bs → Z.of_nat (List.length bs) ≤ CKSUM_MAX →
  sum_of (words bs) mod 65535 = 0 → sum_of (words bs) ≠ 0 → in_cksum bs = 0.
Proof.
  intros Hb Hl Hm Hz. rewrite in_cksum_spec by done. destruct (ones_sum_repr _ (words_bound _ Hb)) as (Hr & Hm' & Hz').
  assert (ones_sum (words bs) ≠ 0) by tauto. rewrite Hm in Hm'. zdiv.
Qed.
Lemma cksum_complement bs : bytes_ok bs → Z.of_nat (List.length bs) ≤ CKSUM_MAX →
  0 ≤ in_cksum bs < 65536 ∧ (in_cksum bs + sum_of (words bs)) mod 65535 = 0.
Proof.
  intros Hb Hl. rewrite in_cksum_spec by done. destruct (ones_sum_repr _ (words_bound _ Hb)) as (Hr & Hm & _).
  split; [lia|]. rewrite Z.add_mod, Hm, <- Z.add_mod by lia. by replace (65535 - ones_sum (words bs) + ones_sum (words bs)) with 65535 by lia.
Qed.

(** ** Properties *)

(** C38: for a buffer of at most 128 KiB, of even or odd length, [in_cksum] is
    the RFC 1071 checksum: the complement of the one's complement sum of its
    16-bit words; in particular no carry of the 32-bit accumulator is lost. *)
Theorem in_cksum_correct bs :
  bytes_ok bs → Z.of_nat (List.length bs) ≤ CKSUM_MAX → in_cksum bs = 65535 - ones_sum (words bs).
Proof. apply in_cksum_spec. Qed.

(** A packet whose checksum field, zero when the checksum was computed,
    holds the checksum as [in_cksum] returned it, is accepted by the receiver:
    [in_cksum] of the whole packet is 0. *)
Theorem in_cksum_verifies pre post :
  bytes_ok (pre ++ 0 :: 0 :: post) → Nat.Even (List.length pre) →
  Z.of_nat (List.length (pre ++ 0 :: 0 :: post)) ≤ CKSUM_MAX →
  let c := in_cksum (pre ++ 0 :: 0 :: post) in
  in_cksum (pre ++ (c mod 256) :: (c / 256) :: post) = 0.
Proof.
  intros Hb He Hl c. assert (Hc : c = 65535 - ones_sum (words (pre ++ 0 :: 0 :: post))) by by apply in_cksum_spec.
  destruct (ones_sum_repr _ (words_bound _ Hb)) as (Hr & Hm & Hz).
  set (v := ones_sum (words (pre ++ 0 :: 0 :: post))) in *. clearbody v c.
  assert (Hb' : bytes_ok (pre ++ c mod 256 :: c / 256 :: post)) by (apply field_bytes; [done|zdiv..]).
  rewrite in_cksum_spec; [|done|rewrite length_app in *; simpl in *; lia].
  enough (ones_sum (words (pre ++ c mod 256 :: c / 256 :: post)) = 65535) by lia.
  eapply ones_repr_unique; [by apply ones_sum_repr, words_bound|].
  rewrite sum_field by done. split; [lia|].
  pose proof (sum_of_nonneg _ (words_bound _ Hb)) as Hn.
  replace (c mod 256 + 256 * (c / 256)) with c by zdiv. subst c.
  split; [|lia]. rewrite Z.add_mod, Hm, <- Z.add_mod by lia. f_equal. lia.
Qed.

(** The checksum detects every corruption of one aligned 16-bit word,
    except one that exchanges 0x0000 and 0xffff. *)
Theorem in_cksum_detects pre lo hi lo' hi' post :
  bytes_ok (pre ++ 0 :: 0 :: post) → Nat.Even (List.length pre) →
  Z.of_nat (List.length (pre ++ 0 :: 0 :: post)) ≤ CKSUM_MAX →
  0 ≤ lo < 256 → 0 ≤ hi < 256 → 0 ≤ lo' < 256 → 0 ≤ hi' < 256 →
  in_cksum (pre ++ lo :: hi :: post) = in_cksum (pre ++ lo' :: hi' :: post) →
  (lo, hi) = (lo', hi') ∨ (lo, hi, lo', hi') = (0, 0, 255, 255) ∨ (lo, hi, lo', hi') = (255, 255, 0, 0).
Proof.
  intros Hb He Hl ? ? ? ? Heq.
  assert (Hb1 : bytes_ok (pre ++ lo :: hi :: post)) by by apply field_bytes.
  assert (Hb2 : bytes_ok (pre ++ lo' :: hi' :: post)) by by apply field_bytes.
  rewrite !in_cksum_spec in Heq; try done; try (rewrite length_app in *; simpl in *; lia).
  assert (Hv : ones_sum (words (pre ++ lo :: hi :: post)) = ones_sum (words (pre ++ lo' :: hi' :: post))) by lia.
  destruct (ones_sum_repr _ (words_bound _ Hb1)) as (Hr & Hm & Hz).
  destruct (ones_sum_repr _ (words_bound _ Hb2)) as (Hr' & Hm' & Hz').
  rewrite <- Hv in *. rewrite sum_field in * by done.
  pose proof (sum_of_nonneg _ (words_bound _ Hb)) as Hn.
  generalize dependent (sum_of (words (pre ++ 0 :: 0 :: post))). intros s. intros.
  assert (Hmod : (lo + 256 * hi + s) mod 65535 = (lo' + 256 * hi' + s) mod 65535) by congruence.
  assert (Hd : lo + 256 * hi = lo' + 256 * hi' ∨ lo + 256 * hi = lo' + 256 * hi' + 65535
    ∨ lo + 256 * hi + 65535 = lo' + 256 * hi') by (clear -Hmod H H0 H1 H2; zdiv).
  destruct Hd as [Hd|[Hd|Hd]].
  - left. f_equal; lia.
  - right. right. assert (lo = 255 ∧ hi = 255 ∧ lo' = 0 ∧ hi' = 0) as (-> & -> & -> & ->) by lia. done.
  - right. left. assert (lo = 0 ∧ hi = 0 ∧ lo' = 255 ∧ hi' = 255) as (-> & -> & -> & ->) by lia. done.
Qed.

(** The header of RFC 1071's kind: twenty bytes, the field at offset 10. *)
Definition ip_pre : list Z := [69; 0; 0; 115; 0; 0; 64; 0; 64; 17].
Definition ip_post : list Z := [192; 168; 0; 1; 192; 168; 0; 199].

Lemma ip_bytes : bytes_ok (ip_pre ++ 0 :: 0 :: ip_post).
Proof. bytes. Qed.
Lemma ip_even : Nat.Even (List.length ip_pre).
Proof. by exists 5%nat. Qed.

Lemma in_cksum_correct_witness :
  in_cksum [0; 1; 242; 3; 244; 245; 246; 247; 9] = 65535 - ones_sum (words [0; 1; 242; 3; 244; 245; 246; 247; 9])
  ∧ in_cksum [0; 1; 242; 3; 244; 245; 246; 247] = 3362.
Proof. split; [apply in_cksum_correct; [bytes|done]|reflexivity]. Defined.

Lemma in_cksum_verifies_witness :
  let c := in_cksum (ip_pre ++ 0 :: 0 :: ip_post) in
  (c mod 256, c / 256) = (184, 97) ∧ in_cksum (ip_pre ++ (c mod 256) :: (c / 256) :: ip_post) = 0.
Proof.
  split; [reflexivity|]. apply (in_cksum_verifies ip_pre ip_post); [apply ip_bytes|apply ip_even|done].
Defined.

Lemma in_cksum_detects_witness :
  in_cksum (ip_pre ++ 0 :: 0 :: ip_post) = in_cksum (ip_pre ++ 255 :: 255 :: ip_post) ∧
  ((0, 0) = (255, 255) ∨ (0, 0, 255, 255) = (0, 0, 255, 255) ∨ (0, 0, 255, 255) = (255, 255, 0, 0)).
Proof.
  split; [reflexivity|].
  apply (in_cksum_detects ip_pre 0 0 255 255 ip_post); try lia; try done; [apply ip_bytes|apply ip_even].
Defined.
