(* ===== verification/Sockaddr.v ===== *)
(** Protocol-independent handling of socket addresses: the functions of
    src/unpv13e/lib that switch on [sa_family] (sock_ntop.c, sock_ntop_host.c,
    sock_cmp_addr.c, sock_cmp_port.c, sock_get_port.c, sock_set_addr.c,
    sock_set_port.c, sock_set_wild.c, sock_bind_wild.c, family_to_level.c,
    sockfd_to_family.c), with tv_sub.c, hstrerror.c and the wrappers of
    wraplib.c.

    [AF_LINK] addresses do not exist on the configured system
    (HAVE_SOCKADDR_DL_STRUCT is not defined). *)
From S2P Require Import Prelude Machine Inet Posix Wrap.

Definition IPPROTO_IP : Z := 0.
Definition IPPROTO_IPV6 : Z := 41.
Definition INADDR_ANY : list Z := [0; 0; 0; 0].
Definition in6addr_any : list Z := replicate 16 0.

(** ** Comparison, access and update *)

(** [strcmp] of two [sun_path] arrays reads past an array without terminator. *)
Definition sock_cmp_addr (sa1 sa2 : sockaddr) : outcome Z :=
  if negb (sa_family sa1 =? sa_family sa2) then Ret (-1)
  else
    match sa1, sa2 with
    | SaIn _ a1, SaIn _ a2 => Ret (memcmp a1 a2)
    | SaIn6 _ a1, SaIn6 _ a2 => Ret (memcmp a1 a2)
    | SaUn p1, SaUn p2 =>
        match cstr p1, cstr p2 with
        | Some s1, Some s2 => Ret (strcmp s1 s2)
        | _, _ => UB
        end
    | _, _ => Ret (-1)
    end.

(** 1 when the ports are equal, 0 when they differ, -1 when there is none. *)
Definition sock_cmp_port (sa1 sa2 : sockaddr) : Z :=
  if negb (sa_family sa1 =? sa_family sa2) then -1
  else
    match sa1, sa2 with
    | SaIn p1 _, SaIn p2 _ => if p1 =? p2 then 1 else 0
    | SaIn6 p1 _, SaIn6 p2 _ => if p1 =? p2 then 1 else 0
    | _, _ => -1
    end.

Definition sock_get_port (sa : sockaddr) : Z :=
  match sa with
  | SaIn p _ => p
  | SaIn6 p _ => p
  | _ => -1
  end.

(** [memcpy] of the size of the address from [addr]. *)
Definition sock_set_addr (sa : sockaddr) (addr : list Z) : sockaddr :=
  match sa with
  | SaIn p _ => SaIn p (take 4 addr)
  | SaIn6 p _ => SaIn6 p (take 16 addr)
  | _ => sa
  end.

(** The [int] is stored in a 16-bit field. *)
Definition sock_set_port (sa : sockaddr) (port : Z) : sockaddr :=
  match sa with
  | SaIn _ a => SaIn (u16 port) a
  | SaIn6 _ a => SaIn6 (u16 port) a
  | _ => sa
  end.

Definition sock_set_wild (sa : sockaddr) : sockaddr :=
  match sa with
  | SaIn _ _ => sock_set_addr sa INADDR_ANY
  | SaIn6 _ _ => sock_set_addr sa in6addr_any
  | _ => sa
  end.

Definition family_to_level (family : Z) : Z :=
  if family =? AF_INET then IPPROTO_IP
  else if family =? AF_INET6 then IPPROTO_IPV6
  else -1.

(** ** tv_sub.c: [out -= in] *)

Definition tv_sub (out tv_in : Z * Z) : Z * Z :=
  let '(sec, usec) := out in
  let usec := usec - tv_in.2 in
  let '(sec, usec) := if usec <? 0 then (sec - 1, usec + 1000000) else (sec, usec) in
  (sec - tv_in.1, usec).

(** ** hstrerror.c *)

Definition HOST_NOT_FOUND : Z := 1.
Definition TRY_AGAIN : Z := 2.
Definition NO_RECOVERY : Z := 3.
Definition NO_DATA : Z := 4.

Definition hstrerror (err : Z) : string :=
  if err =? 0 then "no error"
  else if err =? HOST_NOT_FOUND then "Unknown host"
  else if err =? TRY_AGAIN then "Hostname lookup failure"
  else if err =? NO_RECOVERY then "Unknown server error"
  else if err =? NO_DATA then "No address associated with name"
  else "unknown error".

Section sock.
Context {K : Kernel}.

(** [inet_ntop] sets [errno] when it returns [NULL]. *)
Definition ntop (r : ntop_result) : M (option string) :=
  match r with
  | NtopOk s => mret (Some s)
  | NtopErr e => set_errno e ;; mret None
  end.

(** The pathname of a Unix domain address as [snprintf(str, 128, "%s")]. *)
Definition ntop_unix (path : list ascii) : M (option string) :=
  if Ascii.eqb (path !!! 0%nat) NUL then mret (Some "(no pathname bound)"%string)
  else
    match cstr path with
    | Some s => mret (Some (snprintf 128 s))
    | None => stop UB
    end.

(** ** sock_ntop.c *)

Definition sock_ntop (sa : sockaddr) (salen : Z) : M (option string) :=
  match sa with
  | SaIn port addr =>
      r ← ntop (inet_ntop AF_INET addr 128);
      match r with
      | None => mret None
      | Some str =>
          if negb (ntohs port =? 0) then
            let portstr := snprintf 8 (":" +:+ fmt_d (ntohs port)) in
            mret (Some (str +:+ portstr))
          else mret (Some str)
      end
  | SaIn6 port addr =>
      r ← ntop (inet_ntop AF_INET6 addr (128 - 1));
      match r with
      | None => mret None
      | Some str =>
          if negb (ntohs port =? 0) then
            let portstr := snprintf 8 ("]:" +:+ fmt_d (ntohs port)) in
            mret (Some (String "[" str +:+ portstr))
          else mret (Some str)
      end
  | SaUn path => ntop_unix path
  | SaOther family _ =>
      mret (Some (snprintf 128 ("sock_ntop: unknown AF_xxx: " +:+ fmt_d family
                                  +:+ ", len " +:+ fmt_d salen)))
  end.
Definition Sock_ntop (sa : sockaddr) (salen : Z) : M string :=
  r ← sock_ntop sa salen;
  match r with Some s => mret s | None => err_sys "sock_ntop error" end.

(** ** sock_ntop_host.c *)

Definition sock_ntop_host (sa : sockaddr) (salen : Z) : M (option string) :=
  match sa with
  | SaIn _ addr => ntop (inet_ntop AF_INET addr 128)
  | SaIn6 _ addr => ntop (inet_ntop AF_INET6 addr 128)
  | SaUn path => ntop_unix path
  | SaOther family _ =>
      mret (Some (snprintf 128 ("sock_ntop_host: unknown AF_xxx: " +:+ fmt_d family
                                  +:+ ", len " +:+ fmt_d salen)))
  end.
Definition Sock_ntop_host (sa : sockaddr) (salen : Z) : M string :=
  r ← sock_ntop_host sa salen;
  match r with Some s => mret s | None => err_sys "sock_ntop_host error" end.

(** ** sock_bind_wild.c *)

(** The two bytes at offset 2 of an address, where [sin_port] and [sin6_port]
    lie. *)
Definition port_field (sa : sockaddr) : Z :=
  match sa with
  | SaIn p _ | SaIn6 p _ => p
  | SaUn path => ord (path !!! 0%nat) + 256 * ord (path !!! 1%nat)
  | SaOther _ d => d !!! 0%nat + 256 * d !!! 1%nat
  end.

Definition sock_bind_wild (sockfd family : Z) : M Z :=
  if family =? AF_INET then
    r ← syscall (sys_bind sockfd (SaIn (htons 0) INADDR_ANY) SIZEOF_SOCKADDR_IN);
    match r with
    | None => mret (-1)
    | Some _ =>
        r ← syscall (sys_getsockname sockfd);
        match r with None => mret (-1) | Some sin => mret (port_field sin) end
    end
  else if family =? AF_INET6 then
    r ← syscall (sys_bind sockfd (SaIn6 (htons 0) in6addr_any) SIZEOF_SOCKADDR_IN6);
    match r with
    | None => mret (-1)
    | Some _ =>
        r ← syscall (sys_getsockname sockfd);
        match r with None => mret (-1) | Some sin6 => mret (port_field sin6) end
    end
  else mret (-1).
Definition Sock_bind_wild (sockfd family : Z) : M Z :=
  port ← sock_bind_wild sockfd family;
  if port <? 0 then err_sys "sock_bind_wild error" else mret port.

(** ** sockfd_to_family.c and the wrappers *)

Definition sockfd_to_family (sockfd : Z) : M Z :=
  r ← syscall (sys_getsockname sockfd);
  match r with None => mret (-1) | Some ss => mret (sa_family ss) end.
Definition Sockfd_to_family (sockfd : Z) : M Z :=
  rc ← sockfd_to_family sockfd;
  if rc <? 0 then err_sys "sockfd_to_family error" else mret rc.
Definition Family_to_level (family : Z) : M Z :=
  let rc := family_to_level family in
  if rc <? 0 then err_sys "family_to_level error" else mret rc.

(** ** wraplib.c *)

Definition Inet_ntop (family : Z) (addrptr : list Z) (strptr : bool) (len : Z) : M string :=
  if negb strptr then err_quit "NULL 3rd argument to inet_ntop"
  else
    r ← ntop (inet_ntop family addrptr len);
    match r with Some s => mret s | None => err_sys "inet_ntop error" end.

Definition Inet_pton (family : Z) (strptr : string) : M (list Z) :=
  match inet_pton family strptr with
  | PtonErr e => set_errno e ;; err_sys ("inet_pton error for " +:+ strptr)
  | PtonInvalid => err_quit ("inet_pton error for " +:+ strptr)
  | PtonOk bs => mret bs
  end.
End sock.

(** ** Well-formed addresses *)

(** Ports are 16-bit values, addresses have the length of their family, and a
    [sun_path] is terminated within its array. *)
Definition sockaddr_ok (sa : sockaddr) : Prop :=
  match sa with
  | SaIn p a => 0 ≤ p < 2 ^ 16 ∧ List.length a = 4%nat ∧ bytes_ok a
  | SaIn6 p a => 0 ≤ p < 2 ^ 16 ∧ List.length a = 16%nat ∧ bytes_ok a
  | SaUn path => Z.of_nat (List.length path) = SIZEOF_SUN_PATH ∧ is_Some (cstr path)
  | SaOther f _ => f ≠ AF_INET ∧ f ≠ AF_INET6 ∧ f ≠ AF_UNIX
  end.
Definition is_inet (sa : sockaddr) : Prop :=
  match sa with SaIn _ _ | SaIn6 _ _ => True | _ => False end.
Definition addr_of (sa : sockaddr) : list Z :=
  match sa with SaIn _ a | SaIn6 _ a => a | _ => [] end.

(** ** Lemmas *)

Lemma memcmp_eq a b : List.length a = List.length b → memcmp a b = 0 ↔ a = b.
Proof.
  revert b. induction a as [|x a IH]; intros [|y b] Hl; simplify_eq/=; [done|].
  repeat ztest; try (split; [lia|intros [= -> ->]; lia]).
  assert (x = y) as -> by lia. rewrite IH by done. split; congruence.
Qed.

Lemma ord_inj c d : ord c = ord d → c = d.
Proof. intros H. by rewrite <- (chr_ord c), <- (chr_ord d), H. Qed.

Lemma strcmp_eq s t : strcmp s t = 0 ↔ s = t.
Proof.
  revert t. induction s as [|c s IH]; intros [|d t]; simpl; try (split; done).
  repeat ztest; try (split; [lia|intros [= -> ->]; lia]).
  assert (c = d) as -> by (apply ord_inj; lia). rewrite IH. split; congruence.
Qed.

(** A 16-bit port is printed in at most five digits, which read back as it. *)
Lemma fmt_port p :
  0 ≤ p < 2 ^ 16 → strlen (fmt_d p) ≤ 5 ∧ all_digits (fmt_d p) = true ∧ digits_value 0 (fmt_d p) = p.
Proof.
  intros Hp.
  assert (H : ((strlen (fmt_d p) <=? 5) && all_digits (fmt_d p) && (digits_value 0 (fmt_d p) =? p)) = true).
  { apply (zrange_forall (λ p, (strlen (fmt_d p) <=? 5) && all_digits (fmt_d p)
      && (digits_value 0 (fmt_d p) =? p)) 65536); [by vm_compute|done]. }
  zbool. done.
Qed.

Lemma ntop_host_text sa :
  is_inet sa → sockaddr_ok sa → ∃ text,
    inet_pton (sa_family sa) text = PtonOk (addr_of sa) ∧ strlen text < 46 ∧
    ∀ size, 46 < size → inet_ntop (sa_family sa) (addr_of sa) size = NtopOk text.
Proof.
  intros Hi Hok. destruct sa as [p a|p a| |]; try done; destruct Hok as (Hp & Hl & Hb); simpl.
  - do 4 (destruct a as [|? a]; [done|]). destruct a; [|done].
    exists (dotted [z; z0; z1; z2]). unfold inet_pton, inet_ntop, inet_ntop4. simpl.
    rewrite (pton4_complete _ _ (dotted_dotted_quad _ _ _ _ Hb)).
    pose proof (dotted_length _ _ _ _ Hb). split; [done|]. split; [lia|].
    intros size Hs. destruct (Z.ltb_spec size (strlen (dotted [z; z0; z1; z2]))); [lia|done].
  - destruct (ntop6_pton6 a Hl Hb) as (s & Hs & Hlen & Hp6). exists s.
    unfold inet_pton, inet_ntop. simpl. rewrite Hp6. split; [done|].
    unfold TMP6SZ in Hlen. split; [lia|]. intros size Hsz. rewrite Hs.
    destruct (Z.ltb_spec size (strlen s + 1)); [lia|done].
Qed.

(** ** Properties *)

Section properties.
Context {K : Kernel}.

(** [sock_ntop] of an Internet address succeeds, leaves [errno] alone and
    never overruns its 128-character buffer; its text is the presentation form
    that [inet_pton] reads back, followed for a nonzero port by a colon and
    the decimal port (an IPv6 address in brackets then). *)
Theorem sock_ntop_text sa salen p :
  is_inet sa → sockaddr_ok sa →
  ∃ text,
    inet_pton (sa_family sa) text = PtonOk (addr_of sa) ∧
    let port := ntohs (sock_get_port sa) in
    let full :=
      if port =? 0 then text
      else match sa with
           | SaIn6 _ _ => "[" +:+ text +:+ "]:" +:+ fmt_d port
           | _ => text +:+ ":" +:+ fmt_d port
           end in
    strlen full < 128 ∧ digits_value 0 (fmt_d port) = port ∧
    sock_ntop sa salen p = (Ret (Some full), p) ∧
    sock_ntop_host sa salen p = (Ret (Some text), p).
Proof.
  intros Hi Hok. destruct (ntop_host_text sa Hi Hok) as (text & Hp & Hl & Hs). exists text.
  split; [done|]. cbn zeta. pose proof (htons_bound (sock_get_port sa)) as Hpb.
  destruct (fmt_port (ntohs (sock_get_port sa)) Hpb) as (Hfl & _ & Hfv).
  assert (Hn : ∀ size, 46 < size → ntop (inet_ntop (sa_family sa) (addr_of sa) size) p = (Ret (Some text), p)).
  { intros size Hsz. by rewrite Hs. }
  assert (Hfit : ∀ s, strlen s ≤ 2 → snprintf 8 (s +:+ fmt_d (ntohs (sock_get_port sa))) =
                      s +:+ fmt_d (ntohs (sock_get_port sa))).
  { intros s Hsl. apply snprintf_fits. rewrite strlen_app. lia. }
  clear Hs Hp. destruct sa as [port a|port a| |]; try done; unfold sock_ntop, sock_ntop_host;
    cbn [sock_get_port sa_family addr_of] in *.
  - destruct (ntohs port =? 0).
    + rewrite (run_bind _ _ _ _ _ (Hn 128 eq_refl)), (Hn 128 eq_refl). split; [lia|done].
    + rewrite (run_bind _ _ _ _ _ (Hn 128 eq_refl)), (Hn 128 eq_refl).
      rewrite !strlen_app. change (strlen ":") with 1. split; [lia|]. cbn [negb]. by rewrite Hfit.
  - destruct (ntohs port =? 0).
    + rewrite (run_bind _ _ _ _ _ (Hn (128 - 1) eq_refl)), (Hn 128 eq_refl). split; [lia|done].
    + rewrite (run_bind _ _ _ _ _ (Hn (128 - 1) eq_refl)), (Hn 128 eq_refl).
      rewrite !strlen_app. change (strlen "[") with 1. change (strlen "]:") with 2.
      split; [lia|]. cbn [negb]. by rewrite Hfit.
Qed.

(** Two Internet addresses are the same endpoint exactly when
    [sock_cmp_addr] returns 0 and [sock_cmp_port] returns 1, whatever their
    families; and comparing an address with itself never reads outside it. *)
Theorem sock_cmp_identifies sa1 sa2 :
  is_inet sa1 → is_inet sa2 → sockaddr_ok sa1 → sockaddr_ok sa2 →
  sock_cmp_addr sa1 sa2 = Ret 0 ∧ sock_cmp_port sa1 sa2 = 1 ↔ sa1 = sa2.
Proof.
  intros Hi1 Hi2 H1 H2.
  assert (Hsame : ∀ (p1 p2 : Z) a1 a2, List.length a1 = List.length a2 →
    Ret (memcmp a1 a2) = Ret 0 ∧ (if p1 =? p2 then 1 else 0) = 1 ↔ p1 = p2 ∧ a1 = a2).
  { intros p1 p2 a1 a2 Hl. rewrite <- memcmp_eq by done. destruct (Z.eqb_spec p1 p2) as [|Hne].
    - split; [intros [[= ?] _]; done|intros [_ ->]; done].
    - split; [intros [_ ?]; discriminate|intros [? _]; done]. }
  unfold sock_cmp_addr, sock_cmp_port.
  destruct sa1 as [p1 a1|p1 a1| |]; try done; destruct sa2 as [p2 a2|p2 a2| |]; try done;
    destruct H1 as (_ & Hl1 & _); destruct H2 as (_ & Hl2 & _); simpl.
  - rewrite Hsame by congruence. split; [intros [-> ->]|intros [= -> ->]]; done.
  - split; [intros [? ?]|intros ?]; discriminate.
  - split; [intros [? ?]|intros ?]; discriminate.
  - rewrite Hsame by congruence. split; [intros [-> ->]|intros [= -> ->]]; done.
Qed.

(** The wildcard: after [sock_set_wild] an Internet address keeps its
    family and port and compares equal to the all-zero address; after
    [sock_set_port] it keeps its address, and [sock_get_port] gives the port
    truncated to 16 bits. *)
Theorem sock_set_get sa port :
  is_inet sa → sockaddr_ok sa →
  sockaddr_ok (sock_set_wild sa) ∧ sockaddr_ok (sock_set_port sa port) ∧
  sock_get_port (sock_set_wild sa) = sock_get_port sa ∧
  Forall (λ b, b = 0) (addr_of (sock_set_wild sa)) ∧
  sa_family (sock_set_wild sa) = sa_family sa ∧
  sock_get_port (sock_set_port sa port) = u16 port ∧
  sock_cmp_addr (sock_set_port sa port) sa = Ret 0.
Proof.
  intros Hi Hok. pose proof (Z.mod_pos_bound port (2 ^ 16) eq_refl) as Hu.
  assert (Hm : ∀ a, memcmp a a = 0) by (intros; by apply memcmp_eq).
  destruct sa as [p a|p a| |]; try done; destruct Hok as (Hp & Hl & Hb);
    unfold sock_cmp_addr; simpl; rewrite Hm; unfold u16;
    (split; [split_and!; [lia..|done|bytes]|]); split_and!; try done; try lia; repeat constructor.
Qed.
End properties.

(** On normalised times ([0 <= tv_usec < 1000000]) [tv_sub] is the
    normalised difference. *)
Theorem tv_sub_correct out tv_in :
  0 ≤ out.2 < 1000000 → 0 ≤ tv_in.2 < 1000000 →
  let d := tv_sub out tv_in in
  0 ≤ d.2 < 1000000 ∧ d.1 * 1000000 + d.2 = (out.1 * 1000000 + out.2) - (tv_in.1 * 1000000 + tv_in.2).
Proof.
  destruct out as [s u], tv_in as [s' u']; unfold tv_sub; simpl. intros. ztest; simpl; lia.
Qed.

Definition loop6 : sockaddr := SaIn6 (htons 80) (replicate 15 0 ++ [1]).
Lemma loop6_ok : sockaddr_ok loop6.
Proof. split; [by vm_compute|]. split; [done|]. cbv. repeat constructor; try discriminate. Qed.

Lemma sock_ntop_text_witness :
  (sock_ntop loop6 28 proc0).1 = Ret (Some "[::1]:80"%string) ∧
  ∃ text, inet_pton AF_INET6 text = PtonOk (addr_of loop6) ∧
    let full := if ntohs (sock_get_port loop6) =? 0 then text
                else "[" +:+ text +:+ "]:" +:+ fmt_d (ntohs (sock_get_port loop6)) in
    strlen full < 128 ∧ digits_value 0 (fmt_d (ntohs (sock_get_port loop6))) = ntohs (sock_get_port loop6) ∧
    sock_ntop loop6 28 proc0 = (Ret (Some full), proc0) ∧
    sock_ntop_host loop6 28 proc0 = (Ret (Some text), proc0).
Proof. split; [by vm_compute|]. apply (sock_ntop_text loop6 28 proc0 I loop6_ok). Defined.

Lemma sock_cmp_identifies_witness :
  sock_cmp_addr loop6 loop6 = Ret 0 ∧ sock_cmp_port loop6 loop6 = 1 ↔ loop6 = loop6.
Proof. apply sock_cmp_identifies; try apply loop6_ok; done. Defined.

Lemma sock_set_get_witness :
  sock_get_port (sock_set_port loop6 65537) = 1 ∧
  sock_cmp_addr (sock_set_port loop6 65537) loop6 = Ret 0.
Proof. destruct (sock_set_get loop6 65537 I loop6_ok) as (_ & _ & _ & _ & _ & H & H'). by split. Defined.

Lemma tv_sub_correct_witness :
  tv_sub (10, 100) (8, 200) = (1, 999900) ∧
  0 ≤ (tv_sub (10, 100) (8, 200)).2 < 1000000 ∧
  (tv_sub (10, 100) (8, 200)).1 * 1000000 + (tv_sub (10, 100) (8, 200)).2 =
    (10 * 1000000 + 100) - (8 * 1000000 + 200).
Proof. split; [reflexivity|]. apply (tv_sub_correct (10, 100) (8, 200)); simpl; lia. Defined.
