(* ===== verification/Rtt.v ===== *)
(** Round-trip-time estimation and reliable datagrams: src/unpv13e/lib/rtt.c
    (with lib/unprtt.h) and rtt/dg_send_recv.c.

    [float] and [double] are the binary32 and binary64 formats of IEEE 754,
    rounded to nearest even, as the Standard Library specifies them
    ([SpecFloat]): an operation on [float]s is computed in binary32, one with a
    [double] operand in binary64, and an assignment to a [float] rounds. *)
From Stdlib Require Import SpecFloat.
From S2P Require Import Prelude Machine Posix Wrap.

(** ** Floating point *)

(** Rounding of a value into a format. *)
Definition round_to (prec emax : Z) (x : spec_float) : spec_float :=
  match x with
  | S754_finite s m e => binary_normalize prec emax (cond_Zopp s (Zpos m)) e s
  | _ => x
  end.
Definition to_float : spec_float → spec_float := round_to 24 128.
Definition of_Z (prec emax z : Z) : spec_float := binary_normalize prec emax z 0 false.
Definition float_of_Z : Z → spec_float := of_Z 24 128.
Definition double_of_Z : Z → spec_float := of_Z 53 1024.
Definition dadd := SFadd 53 1024.
Definition dsub := SFsub 53 1024.
Definition dmul := SFmul 53 1024.
Definition ddiv := SFdiv 53 1024.
Definition half : spec_float := S754_finite false 1 (-1).
Definition three_quarters : spec_float := S754_finite false 3 (-2).

(** Conversion to [int], towards zero; out of range, the value of the x86-64
    conversion instruction (ISO C leaves it undefined). *)
Definition float_to_int (x : spec_float) : Z :=
  match x with
  | S754_zero _ => 0
  | S754_finite s m e =>
      let z := cond_Zopp s (Z.shiftl (Zpos m) e) in
      if (- 2 ^ 31 <=? z) && (z <? 2 ^ 31) then z else - 2 ^ 31
  | _ => - 2 ^ 31
  end.

(** [%.3f], the decimal nearest, ties to even. *)
Definition fmt_f3 (x : spec_float) : string :=
  let dec (s : bool) (k : Z) : string :=
    (if s then "-" else "") +:+ fmt_u (k / 1000) +:+ "." +:+
    fmt_u (k / 100 mod 10) +:+ fmt_u (k / 10 mod 10) +:+ fmt_u (k mod 10) in
  match x with
  | S754_zero s => dec s 0
  | S754_infinity s => if s then "-inf" else "inf"
  | S754_nan => "nan"
  | S754_finite s m e =>
      if 0 <=? e then dec s (Z.shiftl (Zpos m) e * 1000)
      else
        let d := 2 ^ (- e) in
        let k := Zpos m * 1000 / d in
        let r := 2 * (Zpos m * 1000 mod d) in
        dec s (if (d <? r) || ((r =? d) && Z.odd k) then k + 1 else k)
  end.

(** ** lib/unprtt.h *)

Record rtt_info := RttInfo {
  rtt_rtt : spec_float;
  rtt_srtt : spec_float;
  rtt_rttvar : spec_float;
  rtt_rto : spec_float;
  rtt_nrexmt : Z;
  rtt_base : Z
}.
Definition rtt_info0 : rtt_info :=
  RttInfo (S754_zero false) (S754_zero false) (S754_zero false) (S754_zero false) 0 0.

Definition RTT_RXTMIN : Z := 2.
Definition RTT_RXTMAX : Z := 60.
Definition RTT_MAXNREXMT : Z := 3.

(** ** lib/rtt.c *)

Definition RTT_RTOCALC (srtt rttvar : spec_float) : spec_float :=
  dadd srtt (dmul (double_of_Z 4) rttvar).

Definition rtt_minmax (rto : spec_float) : spec_float :=
  if SFltb rto (float_of_Z RTT_RXTMIN) then float_of_Z RTT_RXTMIN
  else if SFltb (float_of_Z RTT_RXTMAX) rto then float_of_Z RTT_RXTMAX
  else rto.

Definition rtt_newpack (ptr : rtt_info) : rtt_info :=
  RttInfo (rtt_rtt ptr) (rtt_srtt ptr) (rtt_rttvar ptr) (rtt_rto ptr) 0 (rtt_base ptr).

Definition rtt_start (ptr : rtt_info) : Z := float_to_int (dadd (rtt_rto ptr) half).

Definition rtt_stop (ptr : rtt_info) (ms : Z) : rtt_info :=
  let rtt := to_float (ddiv (double_of_Z ms) (double_of_Z 1000)) in
  let delta := SFsub 24 128 rtt (rtt_srtt ptr) in
  let srtt := to_float (dadd (rtt_srtt ptr) (ddiv delta (double_of_Z 8))) in
  let delta := if SFltb delta (S754_zero false) then SFopp delta else delta in
  let rttvar := to_float (dadd (rtt_rttvar ptr)
                            (ddiv (dsub delta (rtt_rttvar ptr)) (double_of_Z 4))) in
  let rto := rtt_minmax (to_float (RTT_RTOCALC srtt rttvar)) in
  RttInfo rtt srtt rttvar rto (rtt_nrexmt ptr) (rtt_base ptr).

(** [true]: returns -1. *)
Definition rtt_timeout (ptr : rtt_info) : bool * rtt_info :=
  let rto := SFmul 24 128 (rtt_rto ptr) (float_of_Z 2) in
  let nrexmt := rtt_nrexmt ptr + 1 in
  (RTT_MAXNREXMT <? nrexmt,
   RttInfo (rtt_rtt ptr) (rtt_srtt ptr) (rtt_rttvar ptr) rto nrexmt (rtt_base ptr)).

(** The millisecond count stored in a [uint32_t]. *)
Definition timestamp (ptr : rtt_info) (tv : Z * Z) : Z :=
  u32 ((tv.1 - rtt_base ptr) * 1000 + tv.2 / 1000).

Section rtt.
Context {K : Kernel}.

Definition rtt_init (ptr : rtt_info) : M rtt_info :=
  tv ← Gettimeofday;
  let rttvar := three_quarters in
  let srtt := S754_zero false in
  mret (RttInfo (S754_zero false) srtt rttvar
          (rtt_minmax (to_float (RTT_RTOCALC srtt rttvar))) (rtt_nrexmt ptr) (u32 (tv.1))).

Definition rtt_ts (ptr : rtt_info) : M Z :=
  tv ← Gettimeofday;
  mret (timestamp ptr tv).

Definition rtt_debug (rtt_d_flag : bool) (ptr : rtt_info) : M unit :=
  if negb rtt_d_flag then mret tt
  else
    call (sys_fputs STDERR_FILENO ("rtt = " +:+ fmt_f3 (rtt_rtt ptr) +:+ ", srtt = " +:+ fmt_f3 (rtt_srtt ptr)
            +:+ ", rttvar = " +:+ fmt_f3 (rtt_rttvar ptr) +:+ ", rto = " +:+ fmt_f3 (rtt_rto ptr) +:+ nl)) ;;
    call (sys_fflush STDERR_FILENO).
End rtt.

(** ** rtt/dg_send_recv.c *)

(** The static variables. *)
Record dg := Dg {
  rttinfo : rtt_info;
  rttinit : bool;
  rtt_d_flag : bool;
  send_seq : Z;
  recvhdr : list Z
}.
Definition dg0 : dg := Dg rtt_info0 false false 0 (replicate 8 0).
Definition with_rtt (r : rtt_info) (s : dg) : dg :=
  Dg r (rttinit s) (rtt_d_flag s) (send_seq s) (recvhdr s).

Definition SIZEOF_HDR : Z := 8.
(** A [uint32_t] in the memory of the host, and back. *)
Definition le32 : Z → list Z := le32_bytes.
Definition of_le32 (bs : list Z) : Z :=
  bs !!! 0%nat + 256 * bs !!! 1%nat + 65536 * bs !!! 2%nat + 16777216 * bs !!! 3%nat.
Definition hdr_seq (h : list Z) : Z := of_le32 (take 4 h).
Definition hdr_ts (h : list Z) : Z := of_le32 (drop 4 h).

(** [%4d] of an unsigned number below 2{^31}. *)
Definition fmt_4d (n : Z) : string :=
  let s := fmt_d n in
  of_chars (replicate (4 - String.length s) (chr 32)) +:+ s.

Section dg.
Context {K : Kernel}.

(** The [do ... while] loop: [None] when SIGALRM made [siglongjmp] return to
    [sigsetjmp], otherwise the datagram accepted. *)
Fixpoint dg_receive (fuel : nat) (fd inbytes : Z) (s : dg) : M (option (list Z) * dg) :=
  match fuel with
  | O => stop NoFuel
  | S f =>
      r ← call (sys_recvmsg_jmp fd (SIZEOF_HDR + inbytes));
      match r with
      | None => mret (None, s)
      | Some (Err e) => set_errno e ;; err_sys "recvmsg error"
      | Some (Ok bs) =>
          let n := Z.of_nat (List.length bs) in
          let h := take 8 bs ++ drop (List.length bs) (recvhdr s) in
          let s := Dg (rttinfo s) (rttinit s) (rtt_d_flag s) (send_seq s) h in
          call (sys_fputs STDERR_FILENO ("recv " +:+ fmt_4d (i32 (hdr_seq h)) +:+ nl)) ;;
          if (n <? SIZEOF_HDR) || negb (hdr_seq h =? send_seq s) then dg_receive f fd inbytes s
          else mret (Some bs, s)
      end
  end.

(** From the label [sendagain] on, [sends] transmissions being possible. *)
Fixpoint dg_sendagain (sends fuel : nat) (fd : Z) (outbuff : list Z) (inbytes : Z) (s : dg)
    : M (option (Z * list Z) * dg) :=
  match sends with
  | O => stop NoFuel
  | S sends' =>
      call (sys_fputs STDERR_FILENO ("send " +:+ fmt_4d (i32 (send_seq s)) +:+ ": ")) ;;
      ts ← rtt_ts (rttinfo s);
      Sendmsg fd [le32 (send_seq s) ++ le32 ts; outbuff] ;;
      call (sys_alarm (u32 (rtt_start (rttinfo s)))) ;;
      rtt_debug (rtt_d_flag s) (rttinfo s) ;;
      '(r, s) ← dg_receive fuel fd inbytes s;
      match r with
      | None =>
          let '(gave_up, info) := rtt_timeout (rttinfo s) in
          let s := with_rtt info s in
          if gave_up then
            err_msg "dg_send_recv: no response from server, giving up" ;;
            set_errno ETIMEDOUT ;;
            mret (None, Dg (rttinfo s) false (rtt_d_flag s) (send_seq s) (recvhdr s))
          else
            err_msg "dg_send_recv: timeout, retransmitting" ;;
            dg_sendagain sends' fuel fd outbuff inbytes s
      | Some bs =>
          call (sys_alarm 0) ;;
          ts ← rtt_ts (rttinfo s);
          let s := with_rtt (rtt_stop (rttinfo s) (u32 (ts - hdr_ts (recvhdr s)))) s in
          mret (Some (Z.of_nat (List.length bs) - SIZEOF_HDR, drop 8 bs), s)
      end
  end.

Definition MAX_SENDS : nat := Z.to_nat (RTT_MAXNREXMT + 1).

(** [None]: returns -1; otherwise the count returned and the bytes in
    [inbuff].  [handler] is the address of [sig_alrm]. *)
Definition dg_send_recv (handler : Z) (fuel : nat) (fd : Z) (outbuff : list Z) (inbytes : Z) (s : dg)
    : M (option (Z * list Z) * dg) :=
  s ← (if negb (rttinit s) then
         info ← rtt_init (rttinfo s);
         mret (Dg info true true (send_seq s) (recvhdr s))
       else mret s);
  let s := Dg (rttinfo s) (rttinit s) (rtt_d_flag s) (u32 (send_seq s + 1)) (recvhdr s) in
  Signal SIGALRM handler ;;
  let s := with_rtt (rtt_newpack (rttinfo s)) s in
  dg_sendagain MAX_SENDS fuel fd outbuff inbytes s.

Definition Dg_send_recv (handler : Z) (fuel : nat) (fd : Z) (outbuff : list Z) (inbytes : Z) (s : dg)
    : M (Z * list Z * dg) :=
  '(r, s) ← dg_send_recv handler fuel fd outbuff inbytes s;
  match r with
  | None => err_quit "dg_send_recv error"
  | Some (n, bs) => mret (n, bs, s)
  end.
End dg.

(** ** Observations on the datagrams of a trace *)

(** What was given to [sendmsg] on a descriptor, oldest first; how many
    datagrams [recvmsg] delivered. *)
Definition sent1 (fd : Z) (e : event) : list (list Z) :=
  match e with
  | Event c _ =>
      match c with
      | sys_sendmsg fd' buf => if fd' =? fd then [buf] else []
      | _ => []
      end
  end.
Fixpoint sent (fd : Z) (t : trace) : list (list Z) :=
  match t with [] => [] | e :: t' => sent fd t' ++ sent1 fd e end.
Definition delivered1 (e : event) : nat :=
  match e with
  | Event c a =>
      match c in sys A return A → nat with
      | sys_recvmsg_jmp _ _ => λ r, match r with Some (Ok _) => 1%nat | _ => 0%nat end
      | _ => λ _, 0%nat
      end a
  end.
Fixpoint delivered (t : trace) : nat :=
  match t with [] => 0%nat | e :: t' => (delivered t' + delivered1 e)%nat end.

(** Calls that neither send nor receive. *)
Definition local_event (e : event) : Prop :=
  match e with
  | Event c _ => match c with sys_sendmsg _ _ | sys_recvmsg_jmp _ _ => False | _ => True end
  end.
Definition locally (p p' : proc) : Prop :=
  ∃ t, p_trace p' = t ++ p_trace p ∧ Forall local_event t.

(** The outcomes of [dg_send_recv] for the sequence number [seq]. *)
Definition dg_packet (seq : Z) (outbuff b : list Z) : Prop :=
  ∃ ts, b = (le32 seq ++ le32 ts) ++ outbuff.
Definition dg_post (fuel : nat) (fd : Z) (outbuff : list Z) (inbytes seq : Z) (p : proc)
    (o : outcome (option (Z * list Z) * dg)) (p' : proc) : Prop :=
  ∃ pk, sent fd (p_trace p') = sent fd (p_trace p) ++ pk ∧
    Forall (dg_packet seq outbuff) pk ∧ (List.length pk ≤ MAX_SENDS)%nat ∧
    (delivered (p_trace p) ≤ delivered (p_trace p'))%nat ∧
    match o with
    | Ret (Some (n, bs), _) =>
        pk ≠ [] ∧ ∃ d t1 t2,
          p_trace p' = t1 ++ Event (sys_recvmsg_jmp fd (SIZEOF_HDR + inbytes)) (Some (Ok d)) :: t2 ∧
          Forall local_event t1 ∧ of_le32 (take 4 d) = seq ∧
          n = Z.of_nat (List.length d) - SIZEOF_HDR ∧ 0 ≤ n ∧ bs = drop 8 d
    | Ret (None, s') => List.length pk = MAX_SENDS ∧ p_errno p' = ETIMEDOUT ∧ rttinit s' = false
    | Exit st => st = 1
    | NoFuel => (fuel ≤ delivered (p_trace p') - delivered (p_trace p))%nat
    | Abort | UB => False
    end.

(** ** Lemmas *)

Lemma locally_refl p : locally p p.
Proof. by exists []. Qed.
Lemma locally_event {A} (c : sys A) a p p' :
  local_event (Event c a) → locally p p' → locally p (add_event c a p').
Proof. intros H (t & Ht & Hl). exists (Event c a :: t). simpl. rewrite Ht. auto. Qed.
Lemma locally_trans p1 p2 p3 : locally p1 p2 → locally p2 p3 → locally p1 p3.
Proof.
  intros (t & Ht & H) (u & Hu & H'). exists (u ++ t). rewrite Hu, Ht, app_assoc. split; [done|].
  by apply Forall_app.
Qed.
Lemma reported_locally p p' : reported p p' → locally p p'.
Proof.
  intros [(t & Ht & Hq & _) _]. exists t. split; [done|]. eapply Forall_impl; [done|].
  intros [A c a] H. by destruct c.
Qed.
Lemma locally_sent fd p p' : locally p p' → sent fd (p_trace p') = sent fd (p_trace p).
Proof.
  intros (t & -> & H). induction H as [|[A c a] t Hc Ht IH]; simpl; [done|].
  rewrite IH. destruct c; try done; apply app_nil_r.
Qed.
Lemma locally_delivered p p' : locally p p' → delivered (p_trace p') = delivered (p_trace p).
Proof.
  intros (t & -> & H). induction H as [|[A c a] t Hc Ht IH]; simpl; [done|].
  rewrite IH. destruct c; try done; apply Nat.add_0_r.
Qed.

(** A wrapper of a local call either returns or exits. *)
Lemma or_err_sys_local {K : Kernel} {A} (c : sys (res A)) msg p
    (Q : outcome A → proc → Prop) :
  (∀ r, local_event (Event c r)) →
  (∀ a p', locally p p' → Q (Ret a) p') → (∀ p', locally p p' → Q (Exit 1) p') →
  post (or_err_sys c msg) p Q.
Proof.
  intros Hc H1 H2. unfold or_err_sys. post_steps.
  - apply H1, locally_event, locally_refl. done.
  - eapply post_weaken; [apply err_sys_exits|]. intros o p' [-> Hr]. apply H2.
    eapply locally_trans; [|by apply reported_locally].
    apply (locally_event c (Err e) p p); [done|apply locally_refl].
Qed.

Section facts.
Context {K : Kernel}.

Lemma rtt_ts_post info p (Q : outcome Z → proc → Prop) :
  (∀ ts p', locally p p' → Q (Ret ts) p') → (∀ p', locally p p' → Q (Exit 1) p') →
  post (rtt_ts info) p Q.
Proof.
  intros H1 H2. unfold rtt_ts, Gettimeofday. post_steps. apply or_err_sys_local; [done| |done].
  intros a p' Hl. cbn [through]. post_steps. by apply H1.
Qed.

Lemma rtt_debug_post b info p (Q : outcome unit → proc → Prop) :
  (∀ a p', locally p p' → p_errno p' = p_errno p → Q (Ret a) p') → post (rtt_debug b info) p Q.
Proof.
  intros H. unfold rtt_debug. destruct b; simpl; post_steps; apply H; try done;
    repeat (apply locally_event; [done|]); apply locally_refl.
Qed.

Lemma err_msg_local msg p (Q : outcome unit → proc → Prop) :
  (∀ a p', locally p p' → Q (Ret a) p') → post (err_msg msg) p Q.
Proof.
  intros H. eapply post_weaken; [apply err_doit_reports|]. intros o p' [-> Hr].
  by apply H, reported_locally.
Qed.
End facts.

Section loops.
Context {K : Kernel}.

(** The last datagram delivered. *)
Definition accepted (fd inbytes : Z) (d : list Z) (t : trace) : Prop :=
  ∃ t1 t2, t = t1 ++ Event (sys_recvmsg_jmp fd (SIZEOF_HDR + inbytes)) (Some (Ok d)) :: t2 ∧
    Forall local_event t1.

Lemma accepted_locally fd inbytes d p p' :
  locally p p' → accepted fd inbytes d (p_trace p) → accepted fd inbytes d (p_trace p').
Proof.
  intros (t & -> & Ht) (t1 & t2 & -> & H1). exists (t ++ t1), t2. rewrite app_assoc.
  split; [done|]. by apply Forall_app.
Qed.

Definition receive_post (fuel : nat) (fd inbytes : Z) (s : dg) (p : proc)
    (o : outcome (option (list Z) * dg)) (p' : proc) : Prop :=
  sent fd (p_trace p') = sent fd (p_trace p) ∧
  (delivered (p_trace p) ≤ delivered (p_trace p'))%nat ∧
  match o with
  | Ret (r, s') =>
      rttinfo s' = rttinfo s ∧ send_seq s' = send_seq s ∧
      match r with
      | Some d => accepted fd inbytes d (p_trace p') ∧
          SIZEOF_HDR ≤ Z.of_nat (List.length d) ∧ of_le32 (take 4 d) = send_seq s
      | None => True
      end
  | Exit st => st = 1
  | NoFuel => (fuel ≤ delivered (p_trace p') - delivered (p_trace p))%nat
  | _ => False
  end.

Lemma hdr_seq_take d h : SIZEOF_HDR ≤ Z.of_nat (List.length d) → hdr_seq (take 8 d ++ h) = of_le32 (take 4 d).
Proof.
  unfold SIZEOF_HDR, hdr_seq. intros H. rewrite take_app_le by (rewrite length_take; lia).
  by rewrite take_take.
Qed.

Lemma dg_receive_post fuel fd inbytes s0 p0 : ∀ k s p,
  rttinfo s = rttinfo s0 → send_seq s = send_seq s0 →
  sent fd (p_trace p) = sent fd (p_trace p0) →
  (delivered (p_trace p0) ≤ delivered (p_trace p))%nat →
  (fuel ≤ k + (delivered (p_trace p) - delivered (p_trace p0)))%nat →
  post (dg_receive k fd inbytes s) p (receive_post fuel fd inbytes s0 p0).
Proof.
  induction k as [|k IH]; intros s p Hi Hq Hs Hd Hf; cbn [dg_receive].
  { post_steps. split; [done|]. split; [done|]. lia. }
  post_steps. destruct a as [[bs|e]|].
  - post_steps. set (p1 := add_event _ _ p).
    assert (Hs1 : sent fd (p_trace p1) = sent fd (p_trace p0)) by (simpl; by rewrite app_nil_r).
    set (p2 := add_event _ _ p1).
    assert (Hl : locally p1 p2) by (apply locally_event; [done|apply locally_refl]).
    assert (Hs2 : sent fd (p_trace p2) = sent fd (p_trace p0)) by by rewrite (locally_sent _ p1).
    assert (Hd2 : delivered (p_trace p2) = S (delivered (p_trace p))) by (simpl; lia).
    match goal with |- context [if ?b then _ else _] => destruct b eqn:E end.
    + apply IH; try done; lia.
    + apply orb_false_iff in E as [E1 E2]. apply negb_false_iff in E2. cbn [send_seq] in E2. zbool.
      post_steps. split; [done|]. split; [lia|]. split; [done|]. split; [done|].
      split; [|split; [done|by rewrite <- Hq, <- E2, hdr_seq_take]].
      apply (accepted_locally _ _ _ p1); [done|]. by exists [], (p_trace p).
  - post_steps. eapply post_weaken; [apply err_sys_exits|]. intros o p' [-> Hr].
    apply reported_locally in Hr. split; [|split; [|done]].
    + rewrite (locally_sent _ _ _ Hr). simpl. by rewrite app_nil_r.
    + rewrite (locally_delivered _ _ Hr). simpl. lia.
  - post_steps. split; [simpl; by rewrite app_nil_r|]. split; [simpl; lia|]. done.
Qed.
End loops.

Section exchange.
Context {K : Kernel}.

(** So far the packets [pk] have been sent for [seq]. *)
Definition sending (fd : Z) (outbuff : list Z) (seq : Z) (pk : list (list Z)) (p0 p : proc) : Prop :=
  sent fd (p_trace p) = sent fd (p_trace p0) ++ pk ∧ Forall (dg_packet seq outbuff) pk ∧
  (List.length pk ≤ MAX_SENDS)%nat ∧ (delivered (p_trace p0) ≤ delivered (p_trace p))%nat.

Lemma sending_locally fd outbuff seq pk p0 p p' :
  sending fd outbuff seq pk p0 p → locally p p' → sending fd outbuff seq pk p0 p'.
Proof.
  intros (H1 & H2 & H3 & H4) Hl. unfold sending. by rewrite (locally_sent _ _ _ Hl), (locally_delivered _ _ Hl).
Qed.

Lemma sending_exit fuel fd outbuff inbytes seq pk p0 p p' :
  sending fd outbuff seq pk p0 p → locally p p' → dg_post fuel fd outbuff inbytes seq p0 (Exit 1) p'.
Proof.
  intros Hs Hl. destruct (sending_locally _ _ _ _ _ _ _ Hs Hl) as (H1 & H2 & H3 & H4).
  by exists pk.
Qed.

(** One packet more. *)
Lemma Sendmsg_post fd outbuff seq ts pk p0 p (Q : outcome unit → proc → Prop) :
  sending fd outbuff seq pk p0 p → (List.length pk < MAX_SENDS)%nat →
  (∀ a p', sending fd outbuff seq (pk ++ [(le32 seq ++ le32 ts) ++ outbuff]) p0 p' → Q (Ret a) p') →
  (∀ p1 p', sending fd outbuff seq (pk ++ [(le32 seq ++ le32 ts) ++ outbuff]) p0 p1 →
     locally p1 p' → Q (Exit 1) p') →
  post (Sendmsg fd [le32 seq ++ le32 ts; outbuff]) p Q.
Proof.
  intros (H1 & H2 & H3 & H4) Hlt HR HE. unfold Sendmsg.
  change (mjoin [le32 seq ++ le32 ts; outbuff]) with ((le32 seq ++ le32 ts) ++ outbuff ++ []).
  rewrite app_nil_r. set (b := (le32 seq ++ le32 ts) ++ outbuff) in *.
  assert (Hs : ∀ r, sending fd outbuff seq (pk ++ [b]) p0 (add_event (sys_sendmsg fd b) r p)).
  { intros r. split; [|split; [|split; [|simpl; lia]]].
    - simpl. by rewrite Z.eqb_refl, H1, app_assoc.
    - apply Forall_app. split; [done|]. constructor; [by exists ts|constructor].
    - rewrite length_app. simpl. lia. }
  assert (Herr : ∀ p1, sending fd outbuff seq (pk ++ [b]) p0 p1 → post (err_sys "sendmsg error") p1 Q).
  { intros p1 Hp1. eapply post_weaken; [apply err_sys_exits|]. intros o p' [-> Hr].
    apply (HE p1); [done|]. by apply reported_locally. }
  post_steps.
  - case_match; [post_steps; apply HR, Hs|apply Herr, Hs].
  - apply Herr. eapply sending_locally; [apply (Hs (Err e))|]. by exists [].
Qed.

Lemma dg_sendagain_post fuel fd outbuff inbytes seq p0 : ∀ sends s p pk,
  send_seq s = seq → rtt_nrexmt (rttinfo s) = Z.of_nat (List.length pk) →
  (0 < sends)%nat → (List.length pk + sends = MAX_SENDS)%nat → sending fd outbuff seq pk p0 p →
  post (dg_sendagain sends fuel fd outbuff inbytes s) p (dg_post fuel fd outbuff inbytes seq p0).
Proof.
  induction sends as [|sends IH]; intros s p pk Hq Hn Hpos Hpk Hs; [lia|]. cbn [dg_sendagain].
  post_steps. apply rtt_ts_post.
  2: { intros p' Hl. eapply sending_exit; [done|]. eapply locally_trans; [|done].
       apply locally_event; [done|apply locally_refl]. }
  intros ts p1 Hl1. cbn [through]. post_steps. rewrite Hq.
  apply (Sendmsg_post _ _ _ _ pk p0); [|lia| |].
  { eapply sending_locally; [done|]. eapply locally_trans; [|done].
    apply locally_event; [done|apply locally_refl]. }
  2: { intros p2 p' Hs2 Hl. by eapply sending_exit. }
  intros [] p2 Hs2. cbn [through]. set (pk' := pk ++ _) in Hs2.
  assert (Hlen : List.length pk' = S (List.length pk)) by (unfold pk'; rewrite length_app; simpl; lia).
  post_steps. apply rtt_debug_post. intros [] p3 Hl3 _. cbn [through].
  assert (Hs3 : sending fd outbuff seq pk' p0 p3).
  { eapply sending_locally; [done|]. eapply locally_trans; [|done].
    apply locally_event; [done|apply locally_refl]. }
  post_steps. eapply post_weaken; [by apply (dg_receive_post fuel fd inbytes s p3 fuel s p3); try done; lia|].
  intros o p4 (E1 & E2 & Ho). destruct Hs3 as (S1 & S2 & S3 & S4).
  assert (Hs4 : sending fd outbuff seq pk' p0 p4).
  { unfold sending. rewrite E1, S1. split_and!; [done..|lia]. }
  destruct o as [[[d|] s']|st| | |]; cbn [through].
  - destruct Ho as (Hi & Hq' & Hacc & Hd & Hseq). post_steps. apply rtt_ts_post.
    2: { intros p' Hl. eapply sending_exit; [done|]. eapply locally_trans; [|done].
         apply locally_event; [done|apply locally_refl]. }
    intros ts' p5 Hl5. cbn [through]. post_steps.
    assert (Hl : locally p4 p5).
    { eapply locally_trans; [|done]. apply locally_event; [done|apply locally_refl]. }
    destruct (sending_locally _ _ _ _ _ _ _ Hs4 Hl) as (F1 & F2 & F3 & F4).
    exists pk'. split_and!; [done..|by intros Hnil; rewrite Hnil in Hlen|].
    destruct (accepted_locally _ _ _ _ _ Hl Hacc) as (t1 & t2 & Ht & Hlt).
    exists d, t1, t2. split_and!; try done; [congruence|lia].
  - destruct Ho as (Hi & Hq' & _). unfold rtt_timeout. rewrite Hi, Hn. cbn [fst snd].
    destruct (Z.ltb_spec RTT_MAXNREXMT (Z.of_nat (List.length pk) + 1)) as [Hgive|Hgo]; post_steps.
    + apply err_msg_local. intros [] p5 Hl5. cbn [through]. post_steps.
      destruct (sending_locally _ _ _ _ _ _ _ Hs4 Hl5) as (F1 & F2 & F3 & F4).
      exists pk'. split_and!; try done. change MAX_SENDS with 4%nat in *. unfold RTT_MAXNREXMT in Hgive. lia.
    + apply err_msg_local. intros [] p5 Hl5. cbn [through].
      apply (IH _ _ pk').
      * by rewrite <- Hq.
      * cbn [rttinfo with_rtt rtt_nrexmt]. lia.
      * change MAX_SENDS with 4%nat in *. unfold RTT_MAXNREXMT in Hgo. lia.
      * lia.
      * by eapply sending_locally.
  - subst st. apply (sending_exit _ _ _ _ _ _ _ _ _ Hs4). apply locally_refl.
  - done.
  - done.
  - destruct Hs4 as (F1 & F2 & F3 & F4). exists pk'. split_and!; try done. lia.
Qed.

Lemma dg_send_recv_post handler fuel fd outbuff inbytes s p :
  post (dg_send_recv handler fuel fd outbuff inbytes s) p
    (dg_post fuel fd outbuff inbytes (u32 (send_seq s + 1)) p).
Proof.
  set (seq := u32 (send_seq s + 1)).
  assert (H0 : ∀ p', locally p p' → sending fd outbuff seq [] p p').
  { intros p' Hl. apply (sending_locally _ _ _ _ _ p); [|done]. split_and!; [by rewrite app_nil_r|done|simpl; lia|lia]. }
  unfold dg_send_recv. post_steps.
  assert (Hgo : ∀ s1 p1, locally p p1 → send_seq s1 = send_seq s →
    post (Signal SIGALRM handler ;; dg_sendagain MAX_SENDS fuel fd outbuff inbytes
      (with_rtt (rtt_newpack (rttinfo s1))
         (Dg (rttinfo s1) (rttinit s1) (rtt_d_flag s1) (u32 (send_seq s1 + 1)) (recvhdr s1)))) p1
      (dg_post fuel fd outbuff inbytes seq p)).
  { intros s1 p1 Hl1 Hq. unfold Signal, signal. post_steps.
    - apply (dg_sendagain_post fuel fd outbuff inbytes seq p MAX_SENDS _ _ []).
      + cbn [send_seq with_rtt]. by rewrite Hq.
      + done.
      + unfold MAX_SENDS, RTT_MAXNREXMT. lia.
      + done.
      + apply H0, locally_event; [done|done].
    - eapply post_weaken; [apply err_sys_exits|]. intros o p' [-> Hr]. cbn [through].
      eapply sending_exit; [by apply (H0 p1)|].
      eapply locally_trans; [|by apply reported_locally]. eexists [_]. split; [done|by repeat constructor]. }
  destruct (rttinit s); cbn [negb].
  - post_step. by apply (Hgo s p (locally_refl p)).
  - unfold rtt_init, Gettimeofday. post_steps. apply or_err_sys_local; [done| |].
    + intros tv p' Hl. cbn [through]. post_step. post_step.
      by apply (Hgo (Dg _ true true (send_seq s) (recvhdr s)) p' Hl).
    + intros p' Hl. cbn [through]. apply (sending_exit fuel fd outbuff inbytes seq [] p p); [apply H0, locally_refl|done].
Qed.
End exchange.

Lemma rtt_minmax_clamps x :
  let rto := rtt_minmax x in
  SFltb rto (float_of_Z RTT_RXTMIN) = false ∧ SFltb (float_of_Z RTT_RXTMAX) rto = false ∧
  rtt_minmax rto = rto.
Proof.
  unfold rtt_minmax.
  destruct (SFltb x (float_of_Z RTT_RXTMIN)) eqn:E1; [by vm_compute|].
  destruct (SFltb (float_of_Z RTT_RXTMAX) x) eqn:E2; [by vm_compute|]. by rewrite E1, E2.
Qed.

(** ** Properties *)

(** The milliseconds of a time. *)
Definition millis (tv : Z * Z) : Z := tv.1 * 1000 + tv.2 / 1000.

(** The 32-bit millisecond timestamps may wrap: whatever the base, the
    difference of two of them, computed as a [uint32_t], is the elapsed time as
    long as it is below 2{^32} ms (49.7 days). *)
Theorem rtt_ts_elapsed info tv1 tv2 :
  0 ≤ millis tv2 - millis tv1 < 2 ^ 32 →
  u32 (timestamp info tv2 - timestamp info tv1) = millis tv2 - millis tv1.
Proof.
  unfold timestamp, millis, u32. intros H. rewrite <- Zminus_mod.
  rewrite <- (Z.mod_small _ _ H). f_equal. lia.
Qed.

(** Whatever the estimators and the measured time, the timeout computed by
    [rtt_stop] lies between RTT_RXTMIN and RTT_RXTMAX seconds, and clamping it
    again does not change it. *)
Theorem rtt_stop_bounds info ms :
  let rto := rtt_rto (rtt_stop info ms) in
  SFltb rto (float_of_Z RTT_RXTMIN) = false ∧ SFltb (float_of_Z RTT_RXTMAX) rto = false ∧
  rtt_minmax rto = rto.
Proof. unfold rtt_stop. cbn [rtt_rto]. apply rtt_minmax_clamps. Qed.

(** The timeouts that [n] expiries in a row give, and whether each made
    [rtt_timeout] give up. *)
Fixpoint backoff (n : nat) (info : rtt_info) : list (bool * Z) :=
  match n with
  | O => []
  | S n' => let '(b, info') := rtt_timeout info in (b, rtt_start info') :: backoff n' info'
  end.

(** After [rtt_init] the first timeout is 3 seconds; unanswered
    transmissions double it to 6, 12 and 24 seconds and the fourth gives up.
    [rtt_timeout] applies no bound: from RTT_RXTMAX the timeout grows to eight
    times the documented maximum. *)
Theorem rtt_backoff (K : Kernel) info p :
  post (rtt_init info) p (λ o _, ∀ i, o = Ret i →
    rtt_start (rtt_newpack i) = 3 ∧
    backoff 4 (rtt_newpack i) = [(false, 6); (false, 12); (false, 24); (true, 48)] ∧
    ∃ ms, rtt_start (rtt_stop i ms) = RTT_RXTMAX ∧
      backoff 3 (rtt_newpack (rtt_stop i ms)) = [(false, 120); (false, 240); (false, 480)]).
Proof.
  unfold rtt_init, Gettimeofday, or_err_sys. post_steps.
  - intros i [= <-]. split; [reflexivity|]. split; [by vm_compute|]. exists 100000. by vm_compute.
  - eapply post_weaken; [apply err_sys_exits|]. intros o p' [-> _]. done.
Qed.

(** C29: [dg_send_recv] sends its request at most four times, every copy
    carrying the incremented sequence number; it succeeds only with a datagram,
    the last one delivered, of at least a header and of that sequence number,
    whose payload it returns; it gives up ([ETIMEDOUT], estimators to be
    reinitialised) only after four transmissions; and the datagrams it drops
    are the only thing that can keep it from returning. *)
Theorem dg_send_recv_correct (K : Kernel) handler fuel fd outbuff inbytes s p :
  post (dg_send_recv handler fuel fd outbuff inbytes s) p
    (dg_post fuel fd outbuff inbytes (u32 (send_seq s + 1)) p).
Proof. apply dg_send_recv_post. Qed.

Lemma rtt_ts_elapsed_witness :
  timestamp rtt_info0 (4294967, 296000) = 0 ∧
  u32 (timestamp rtt_info0 (4294967, 296000) - timestamp rtt_info0 (4294967, 295000)) = 1.
Proof.
  split; [reflexivity|].
  apply (rtt_ts_elapsed rtt_info0 (4294967, 295000) (4294967, 296000)). by vm_compute.
Defined.
