(* ===== verification/Nonblock.v ===== *)
(** Clients that wait for several descriptors: the non-blocking stdin-to-socket
    loop of src/unpv13e/nonblock/strclinonb.c and the select loop of
    select/strcliselect02.c.

    [fd_set]s are lists of descriptors; the timestamps printed under VOL2 are
    not compiled. *)
From S2P Require Import Prelude Machine Posix Wrap Stream.

Definition F_GETFL : Z := 3.
Definition F_SETFL : Z := 4.
Definition O_NONBLOCK : Z := 2048.
Definition SHUT_WR : Z := 1.

Definition FD_ISSET (fd : Z) (set : list Z) : bool := bool_decide (fd ∈ set).

(** [bs] stored at offset [off] of a buffer; the bytes from [a] up to [b]. *)
Definition store (buf : list Z) (off : nat) (bs : list Z) : list Z :=
  take off buf ++ bs ++ drop (off + List.length bs) buf.
Definition slice (buf : list Z) (a b : nat) : list Z := take (b - a) (drop a buf).

(** ** nonblock/strclinonb.c *)

(** The local variables: the pointers are offsets in their buffer. *)
Record nb := Nb {
  to : list Z; toiptr : nat; tooptr : nat;
  fr : list Z; friptr : nat; froptr : nat;
  stdineof : bool
}.
Definition nb0 : nb :=
  Nb (replicate (Z.to_nat MAXLINE) 0) 0 0 (replicate (Z.to_nat MAXLINE) 0) 0 0 false.

Section client.
Context {K : Kernel}.

Definition set_nonblock (fd : Z) : M unit :=
  val ← Fcntl fd F_GETFL 0;
  Fcntl fd F_SETFL (Z.lor val O_NONBLOCK) ;; mret tt.

(** [errno != EWOULDBLOCK] is fatal. *)
Definition wouldblock_or (msg : string) : M unit :=
  e ← get_errno;
  if negb (e =? EWOULDBLOCK) then err_sys msg else mret tt.

Definition nb_rset (sockfd : Z) (s : nb) : list Z :=
  (if negb (stdineof s) && (Z.of_nat (toiptr s) <? MAXLINE) then [STDIN_FILENO] else []) ++
  (if Z.of_nat (friptr s) <? MAXLINE then [sockfd] else []).
Definition nb_wset (sockfd : Z) (s : nb) : list Z :=
  (if negb (Nat.eqb (tooptr s) (toiptr s)) then [sockfd] else []) ++
  (if negb (Nat.eqb (froptr s) (friptr s)) then [STDOUT_FILENO] else []).

(** Read from stdin; the second component is the set [wset]. *)
Definition nb_stdin (sockfd : Z) (rset wset : list Z) (s : nb) : M (nb * list Z) :=
  if FD_ISSET STDIN_FILENO rset then
    r ← syscall (sys_read STDIN_FILENO (MAXLINE - Z.of_nat (toiptr s)));
    match r with
    | None => wouldblock_or "read error on stdin" ;; mret (s, wset)
    | Some bs =>
        if Z.of_nat (List.length bs) =? 0 then
          let s := Nb (to s) (toiptr s) (tooptr s) (fr s) (friptr s) (froptr s) true in
          if Nat.eqb (tooptr s) (toiptr s) then Shutdown sockfd SHUT_WR ;; mret (s, wset)
          else mret (s, wset)
        else
          mret (Nb (store (to s) (toiptr s) bs) (toiptr s + List.length bs) (tooptr s)
                  (fr s) (friptr s) (froptr s) (stdineof s), sockfd :: wset)
    end
  else mret (s, wset).

(** Read from the socket; [true]: the function returns. *)
Definition nb_socket (sockfd : Z) (rset wset : list Z) (s : nb) : M (bool * (nb * list Z)) :=
  if FD_ISSET sockfd rset then
    r ← syscall (sys_read sockfd (MAXLINE - Z.of_nat (friptr s)));
    match r with
    | None => wouldblock_or "read error on socket" ;; mret (false, (s, wset))
    | Some bs =>
        if Z.of_nat (List.length bs) =? 0 then
          if stdineof s then mret (true, (s, wset)) else err_quit "str_cli: server terminated prematurely"
        else
          mret (false, (Nb (to s) (toiptr s) (tooptr s)
                          (store (fr s) (friptr s) bs) (friptr s + List.length bs) (froptr s)
                          (stdineof s), STDOUT_FILENO :: wset))
    end
  else mret (false, (s, wset)).

(** Write to stdout. *)
Definition nb_stdout (wset : list Z) (s : nb) : M nb :=
  let n := slice (fr s) (froptr s) (friptr s) in
  if FD_ISSET STDOUT_FILENO wset && (0 <? Z.of_nat (friptr s) - Z.of_nat (froptr s)) then
    r ← syscall (sys_write STDOUT_FILENO n);
    match r with
    | None => wouldblock_or "write error to stdout" ;; mret s
    | Some nwritten =>
        let froptr := (froptr s + Z.to_nat nwritten)%nat in
        if Nat.eqb froptr (friptr s)
        then mret (Nb (to s) (toiptr s) (tooptr s) (fr s) 0 0 (stdineof s))
        else mret (Nb (to s) (toiptr s) (tooptr s) (fr s) (friptr s) froptr (stdineof s))
    end
  else mret s.

(** Write to the socket. *)
Definition nb_tosock (sockfd : Z) (wset : list Z) (s : nb) : M nb :=
  let n := slice (to s) (tooptr s) (toiptr s) in
  if FD_ISSET sockfd wset && (0 <? Z.of_nat (toiptr s) - Z.of_nat (tooptr s)) then
    r ← syscall (sys_write sockfd n);
    match r with
    | None => wouldblock_or "write error to socket" ;; mret s
    | Some nwritten =>
        let tooptr := (tooptr s + Z.to_nat nwritten)%nat in
        if Nat.eqb tooptr (toiptr s) then
          let s := Nb (to s) 0 0 (fr s) (friptr s) (froptr s) (stdineof s) in
          if stdineof s then Shutdown sockfd SHUT_WR ;; mret s else mret s
        else mret (Nb (to s) (toiptr s) tooptr (fr s) (friptr s) (froptr s) (stdineof s))
    end
  else mret s.

(** One turn of the loop; [true]: the function returns. *)
Definition nb_step (sockfd : Z) (s : nb) : M (bool * nb) :=
  '(rset, wset) ← Select (nb_rset sockfd s) (nb_wset sockfd s) None;
  '(s, wset) ← nb_stdin sockfd rset wset s;
  '(ret, (s, wset)) ← nb_socket sockfd rset wset s;
  if (ret : bool) then mret (true, s)
  else
    s ← nb_stdout wset s;
    s ← nb_tosock sockfd wset s;
    mret (false, s).

(** [fuel] turns; the variables when the function returns. *)
Fixpoint nb_loop (fuel : nat) (sockfd : Z) (s : nb) : M nb :=
  match fuel with
  | O => stop NoFuel
  | S f =>
      '(ret, s) ← nb_step sockfd s;
      if (ret : bool) then mret s else nb_loop f sockfd s
  end.

Definition nb_str_cli (fuel : nat) (sockfd : Z) : M unit :=
  set_nonblock sockfd ;;
  set_nonblock STDIN_FILENO ;;
  set_nonblock STDOUT_FILENO ;;
  nb_loop fuel sockfd nb0 ;; mret tt.

(** ** select/strcliselect02.c *)

(** One turn from the flag [stdineof] and the descriptors of [rset]; [None]:
    the function returns. *)
Definition sel_step (fuel : nat) (sockfd : Z) (eof : bool) (rset : list Z) : M (option (bool * list Z)) :=
  let rset := if negb eof then STDIN_FILENO :: rset else rset in
  let rset := sockfd :: rset in
  '(rset, _) ← Select rset [] None;
  stop_ ← (if FD_ISSET sockfd rset then
             buf ← Read sockfd MAXLINE;
             if Z.of_nat (List.length buf) =? 0 then
               if eof then mret true else err_quit "str_cli: server terminated prematurely"
             else Write STDOUT_FILENO buf ;; mret false
           else mret false);
  if (stop_ : bool) then mret None
  else if FD_ISSET STDIN_FILENO rset then
    buf ← Read STDIN_FILENO MAXLINE;
    if Z.of_nat (List.length buf) =? 0 then
      Shutdown sockfd SHUT_WR ;;
      mret (Some (true, filter (λ fd, fd ≠ STDIN_FILENO) rset))
    else Writen fuel sockfd buf ;; mret (Some (eof, rset))
  else mret (Some (eof, rset)).

Fixpoint sel_loop (fuel : nat) (sockfd : Z) (eof : bool) (rset : list Z) : M unit :=
  match fuel with
  | O => stop NoFuel
  | S f =>
      r ← sel_step fuel sockfd eof rset;
      match r with None => mret tt | Some (eof, rset) => sel_loop f sockfd eof rset end
  end.
Definition sel_str_cli (fuel : nat) (sockfd : Z) : M unit := sel_loop fuel sockfd false [].
End client.

(** ** The invariant of the non-blocking client *)

(** How many times the sending side of a socket was closed. *)
Definition fin1 (fd : Z) (e : event) : nat :=
  match e with
  | Event c _ =>
      match c with
      | sys_shutdown fd' how => if (fd' =? fd) && (how =? SHUT_WR) then 1%nat else 0%nat
      | _ => 0%nat
      end
  end.
Fixpoint fins (fd : Z) (t : trace) : nat :=
  match t with [] => 0%nat | e :: t' => (fins fd t' + fin1 fd e)%nat end.

(** The bytes on their way to the server and from it. *)
Definition pending_to (s : nb) : list Z := slice (to s) (tooptr s) (toiptr s).
Definition pending_fr (s : nb) : list Z := slice (fr s) (froptr s) (friptr s).

Definition buffer_ok (buf : list Z) (iptr optr : nat) : Prop :=
  Z.of_nat (List.length buf) = MAXLINE ∧ (optr ≤ iptr)%nat ∧ Z.of_nat iptr ≤ MAXLINE.
Definition nb_ok (s : nb) : Prop :=
  buffer_ok (to s) (toiptr s) (tooptr s) ∧ buffer_ok (fr s) (friptr s) (froptr s).

(** What came in on [fin] went out on [fout], up to [pending]. *)
Definition conserved (fin fout : Z) (pending : list Z) (p0 p : proc) : Prop :=
  ∃ moved, received fin (p_trace p) = received fin (p_trace p0) ++ moved ++ pending ∧
    written fout (p_trace p) = written fout (p_trace p0) ++ moved.

Definition nb_data (sockfd : Z) (s : nb) (p0 p : proc) : Prop :=
  nb_ok s ∧ conserved STDIN_FILENO sockfd (pending_to s) p0 p ∧
  conserved sockfd STDOUT_FILENO (pending_fr s) p0 p.
Definition fin_due (s : nb) : nat :=
  if stdineof s && Nat.eqb (tooptr s) (toiptr s) then 1%nat else 0%nat.
Definition nb_inv (sockfd : Z) (s : nb) (p0 p : proc) : Prop :=
  nb_data sockfd s p0 p ∧ fins sockfd (p_trace p) = (fins sockfd (p_trace p0) + fin_due s)%nat.

(** ** Lemmas *)

Lemma length_store buf off bs :
  (off + List.length bs ≤ List.length buf)%nat → List.length (store buf off bs) = List.length buf.
Proof. intros H. unfold store. rewrite !length_app, length_take, length_drop. lia. Qed.

Lemma slice_store buf o i bs :
  (o ≤ i)%nat → (i + List.length bs ≤ List.length buf)%nat →
  slice (store buf i bs) o (i + List.length bs) = slice buf o i ++ bs.
Proof.
  intros Ho Hi. unfold slice, store.
  rewrite (drop_app_le (take i buf)) by (rewrite length_take; lia).
  rewrite skipn_firstn_comm, take_app, length_take, length_drop.
  rewrite (take_ge (take (i - o) (drop o buf))) by (rewrite length_take, length_drop; lia).
  f_equal. replace (i + List.length bs - o - (i - o) `min` (List.length buf - o))%nat with (List.length bs) by lia.
  by rewrite take_app_length.
Qed.

Lemma slice_split buf o n i :
  (o + n ≤ i)%nat → (i ≤ List.length buf)%nat →
  slice buf o i = take n (slice buf o i) ++ slice buf (o + n) i.
Proof.
  intros Ho Hi. rewrite <- (take_drop n (slice buf o i)) at 1. f_equal. unfold slice.
  rewrite skipn_firstn_comm, drop_drop. f_equal. lia.
Qed.

Lemma length_slice buf o i :
  (o ≤ i)%nat → (i ≤ List.length buf)%nat → List.length (slice buf o i) = (i - o)%nat.
Proof. intros. unfold slice. rewrite length_take, length_drop. lia. Qed.

Lemma slice_empty buf o : slice buf o o = [].
Proof. unfold slice. by rewrite Nat.sub_diag. Qed.

Lemma conserved_step fin fout pend pend' p0 p p' r w :
  conserved fin fout pend p0 p →
  received fin (p_trace p') = received fin (p_trace p) ++ r →
  written fout (p_trace p') = written fout (p_trace p) ++ w →
  pend ++ r = w ++ pend' → conserved fin fout pend' p0 p'.
Proof.
  intros (moved & Hr & Hw) Hr' Hw' Hp. exists (moved ++ w).
  rewrite Hr', Hr, Hw', Hw, <- !app_assoc, Hp. done.
Qed.

(** Steps that move no byte and close no direction. *)
Definition still (sockfd : Z) (p p' : proc) : Prop :=
  (∀ fd, received fd (p_trace p') = received fd (p_trace p) ∧
         written fd (p_trace p') = written fd (p_trace p)) ∧
  fins sockfd (p_trace p') = fins sockfd (p_trace p).

Lemma conserved_still sockfd fin fout pend p0 p p' :
  still sockfd p p' → conserved fin fout pend p0 p → conserved fin fout pend p0 p'.
Proof.
  intros [H _] Hc. destruct (H fin) as [Hr _], (H fout) as [_ Hw].
  eapply (conserved_step _ _ _ _ _ _ _ [] []); rewrite ?app_nil_r; done.
Qed.
Lemma nb_data_still sockfd s p0 p p' : still sockfd p p' → nb_data sockfd s p0 p → nb_data sockfd s p0 p'.
Proof. intros Hs (H1 & H2 & H3). split; [done|]. split; by eapply conserved_still. Qed.
Lemma nb_inv_still sockfd s p0 p p' : still sockfd p p' → nb_inv sockfd s p0 p → nb_inv sockfd s p0 p'.
Proof. intros Hs [H1 H2]. split; [by eapply nb_data_still|]. destruct Hs as [_ ->]. done. Qed.

Lemma still_refl sockfd p : still sockfd p p.
Proof. done. Qed.
Lemma still_trans sockfd p1 p2 p3 : still sockfd p1 p2 → still sockfd p2 p3 → still sockfd p1 p3.
Proof.
  intros [H1 F1] [H2 F2]. split; [|congruence].
  intros fd. destruct (H1 fd), (H2 fd). split; congruence.
Qed.
Lemma still_event {A} sockfd (c : sys A) a p :
  (∀ fd, received1 fd (Event c a) = [] ∧ written1 fd (Event c a) = []) → fin1 sockfd (Event c a) = 0%nat →
  still sockfd p (add_event c a p).
Proof.
  intros H Hf. split; [|cbn [p_trace add_event fins]; rewrite Hf; lia].
  intros fd. destruct (H fd) as [Hr Hw]. cbn [p_trace add_event received written]. rewrite Hr, Hw, !app_nil_r. done.
Qed.
Lemma reported_still sockfd p p' : reported p p' → still sockfd p p'.
Proof.
  intros Hr. split; [intros fd; by destruct (reported_streams _ _ fd Hr) as (? & ? & _)|].
  destruct Hr as [(t & -> & Hq & _) _]. induction Hq as [|[A c a] t He Ht IH]; [done|].
  simpl. rewrite IH. destruct c; try done; simpl; lia.
Qed.

Definition nb_post {A} (Q : A → proc → Prop) (sockfd : Z) (p0 : proc) (o : outcome A) (p' : proc) : Prop :=
  match o with
  | Ret a => Q a p'
  | Exit st => st = 1 ∧ ∃ s, nb_data sockfd s p0 p'
  | _ => False
  end.

Section loop.
Context {K : Kernel} {KOk : ReadWriteOk K} {KSel : SelectOk K}.
Context (sockfd : Z) (p0 : proc) (Hin : sockfd ≠ STDIN_FILENO) (Hout : sockfd ≠ STDOUT_FILENO).

Lemma err_exit {A B} (m : M A) (Q : B → proc → Prop) s p (k : A → proc → Prop) :
  post m p (λ o p', o = Exit 1 ∧ reported p p') → nb_data sockfd s p0 p →
  post m p (through (nb_post Q sockfd p0) k).
Proof.
  intros Hm Hd. eapply post_weaken; [done|]. intros o p' [-> Hr]. split; [done|]. exists s.
  eapply nb_data_still; [by apply reported_still|done].
Qed.

Lemma err_exit_last {A} (m : M A) (Q : A → proc → Prop) s p :
  post m p (λ o p', o = Exit 1 ∧ reported p p') → nb_data sockfd s p0 p →
  post m p (nb_post Q sockfd p0).
Proof.
  intros Hm Hd. eapply post_weaken; [done|]. intros o p' [-> Hr]. split; [done|]. exists s.
  eapply nb_data_still; [by apply reported_still|done].
Qed.

Lemma wouldblock_or_post {B} msg s p (Q : B → proc → Prop) (k : unit → proc → Prop) :
  nb_data sockfd s p0 p → k tt p → post (wouldblock_or msg) p (through (nb_post Q sockfd p0) k).
Proof.
  intros Hd Hk. unfold wouldblock_or. post_steps. case_match; [|by post_steps].
  by eapply err_exit; [apply err_sys_exits|].
Qed.

Lemma Shutdown_post {B} s p (Q : B → proc → Prop) (k : unit → proc → Prop) :
  nb_data sockfd s p0 p →
  (∀ p', (∀ fd, received fd (p_trace p') = received fd (p_trace p) ∧
            written fd (p_trace p') = written fd (p_trace p)) →
         fins sockfd (p_trace p') = S (fins sockfd (p_trace p)) → k tt p') →
  post (Shutdown sockfd SHUT_WR) p (through (nb_post Q sockfd p0) k).
Proof.
  intros Hd Hk. unfold Shutdown, or_err_sys. post_steps.
  - destruct a. apply Hk; [intros fd; simpl; by rewrite !app_nil_r|].
    simpl. rewrite Z.eqb_refl. simpl. lia.
  - eapply err_exit; [apply err_sys_exits|]. destruct Hd as (H1 & H2 & H3).
    split; [done|]. split; (eapply (conserved_step _ _ _ _ _ _ _ [] []); [done|simpl; by rewrite ?app_nil_r..]).
Qed.

(** A read or a write that fails moves nothing. *)
Lemma nb_inv_failed {A} (c : sys (res A)) e s p :
  (∀ fd, received1 fd (Event c (Err e)) = [] ∧ written1 fd (Event c (Err e)) = []) →
  fin1 sockfd (Event c (Err e)) = 0%nat →
  nb_inv sockfd s p0 p → nb_inv sockfd s p0 (with_errno e (add_event c (Err e) p)).
Proof. intros H1 H2. apply nb_inv_still. by apply (still_event sockfd c). Qed.

Lemma conserved_keep fin fout pend p p' :
  received fin (p_trace p') = received fin (p_trace p) → written fout (p_trace p') = written fout (p_trace p) →
  conserved fin fout pend p0 p → conserved fin fout pend p0 p'.
Proof. intros Hr Hw H. eapply (conserved_step _ _ _ _ _ _ _ [] []); rewrite ?app_nil_r; done. Qed.

Ltac streams := cbn [received written received1 written1 fins fin1 p_trace add_event with_errno]; rewrite ?Z.eqb_refl, ?(proj2 (Z.eqb_neq _ _) Hin), ?(proj2 (Z.eqb_neq _ _) Hout),
  ?(proj2 (Z.eqb_neq _ _) (not_eq_sym Hin)), ?(proj2 (Z.eqb_neq _ _) (not_eq_sym Hout)), ?app_nil_r, ?Nat.add_0_r; try done.

(** Bytes read from stdin are appended to what is pending for the socket. *)
Lemma nb_data_stdin s p bs (eof : bool) :
  nb_data sockfd s p0 p → Z.of_nat (toiptr s + List.length bs) ≤ MAXLINE → ∀ n,
  nb_data sockfd (Nb (store (to s) (toiptr s) bs) (toiptr s + List.length bs) (tooptr s)
                    (fr s) (friptr s) (froptr s) eof) p0
    (add_event (sys_read STDIN_FILENO n) (Ok bs) p).
Proof.
  intros (((L1 & O1 & I1) & B2) & C1 & C2) Hlen n. split; [|split].
  - split; [|done]. unfold buffer_ok. simpl. rewrite length_store by lia. lia.
  - eapply (conserved_step _ _ _ _ _ _ _ bs []); [done| | |].
    + streams.
    + streams.
    + unfold pending_to. simpl. rewrite slice_store by lia. done.
  - eapply conserved_keep; [| |done]; streams.
Qed.

Lemma nb_data_socket s p bs :
  nb_data sockfd s p0 p → Z.of_nat (friptr s + List.length bs) ≤ MAXLINE → ∀ n,
  nb_data sockfd (Nb (to s) (toiptr s) (tooptr s)
                    (store (fr s) (friptr s) bs) (friptr s + List.length bs) (froptr s) (stdineof s)) p0
    (add_event (sys_read sockfd n) (Ok bs) p).
Proof.
  intros ((B1 & (L2 & O2 & I2)) & C1 & C2) Hlen n. split; [|split].
  - split; [done|]. unfold buffer_ok. simpl. rewrite length_store by lia. lia.
  - eapply conserved_keep; [| |done]; streams.
  - eapply (conserved_step _ _ _ _ _ _ _ bs []); [done| | |].
    + streams.
    + streams.
    + unfold pending_fr. simpl. rewrite slice_store by lia. done.
Qed.

(** Bytes the system accepted leave the front of the pending ones. *)
Lemma nb_data_stdout s p n :
  nb_data sockfd s p0 p → (froptr s + n ≤ friptr s)%nat →
  nb_data sockfd (Nb (to s) (toiptr s) (tooptr s) (fr s) (friptr s) (froptr s + n) (stdineof s)) p0
    (add_event (sys_write STDOUT_FILENO (pending_fr s)) (Ok (Z.of_nat n)) p).
Proof.
  intros ((B1 & (L2 & O2 & I2)) & C1 & C2) Hn. split; [|split].
  - split; [done|]. unfold buffer_ok. simpl. lia.
  - eapply conserved_keep; [| |done]; streams.
  - eapply (conserved_step _ _ _ _ _ _ _ [] (take n (pending_fr s))); [done| | |].
    + streams.
    + streams. by rewrite Nat2Z.id.
    + unfold pending_fr. rewrite app_nil_r. apply (slice_split (fr s)); [done|]. simpl; lia.
Qed.

Lemma nb_data_tosock s p n :
  nb_data sockfd s p0 p → (tooptr s + n ≤ toiptr s)%nat →
  nb_data sockfd (Nb (to s) (toiptr s) (tooptr s + n) (fr s) (friptr s) (froptr s) (stdineof s)) p0
    (add_event (sys_write sockfd (pending_to s)) (Ok (Z.of_nat n)) p).
Proof.
  intros (((L1 & O1 & I1) & B2) & C1 & C2) Hn. split; [|split].
  - split; [|done]. unfold buffer_ok. simpl. lia.
  - eapply (conserved_step _ _ _ _ _ _ _ [] (take n (pending_to s))); [done| | |].
    + streams.
    + streams. by rewrite Nat2Z.id.
    + unfold pending_to. rewrite app_nil_r. apply (slice_split (to s)); [done|]. simpl; lia.
  - eapply conserved_keep; [| |done]; streams.
Qed.

(** An empty buffer may be used from its beginning again. *)
Lemma nb_data_rewind_fr s p :
  nb_data sockfd s p0 p → froptr s = friptr s →
  nb_data sockfd (Nb (to s) (toiptr s) (tooptr s) (fr s) 0 0 (stdineof s)) p0 p.
Proof.
  intros ((B1 & (L2 & O2 & I2)) & C1 & C2) E. split; [|split]; [|done|].
  - split; [done|]. unfold buffer_ok. simpl. lia.
  - revert C2. unfold pending_fr. simpl. by rewrite E, !slice_empty.
Qed.
Lemma nb_data_rewind_to s p :
  nb_data sockfd s p0 p → tooptr s = toiptr s →
  nb_data sockfd (Nb (to s) 0 0 (fr s) (friptr s) (froptr s) (stdineof s)) p0 p.
Proof.
  intros (((L1 & O1 & I1) & B2) & C1 & C2) E. split; [|split]; [| |done].
  - split; [|done]. unfold buffer_ok. simpl. lia.
  - revert C1. unfold pending_to. simpl. by rewrite E, !slice_empty.
Qed.

Lemma nb_stdin_post rset wset s p :
  nb_inv sockfd s p0 p →
  (FD_ISSET STDIN_FILENO rset = true → stdineof s = false ∧ Z.of_nat (toiptr s) < MAXLINE) →
  post (nb_stdin sockfd rset wset s) p
    (nb_post (λ '(s', _) p', nb_inv sockfd s' p0 p' ∧ friptr s' = friptr s) sockfd p0).
Proof.
  intros Hs Hset. unfold nb_stdin. destruct (FD_ISSET STDIN_FILENO rset); [|by post_steps].
  destruct (Hset eq_refl) as [He Hlt]. clear Hset. post_steps.
  - pose proof (read_count _ _ _ _ H ltac:(lia)) as Hlen.
    destruct Hs as [Hd Hf]. ztest.
    + destruct a; [|simpl in *; lia]. set (p1 := add_event _ _ p).
      pose proof (nb_data_stdin s p [] true Hd ltac:(simpl; lia) (MAXLINE - Z.of_nat (toiptr s))) as Hd1.
      assert (Hd2 : nb_data sockfd (Nb (to s) (toiptr s) (tooptr s) (fr s) (friptr s) (froptr s) true) p0 p1).
      { destruct Hd1 as (_ & H1 & H2). destruct Hd as (Hok & _). split; [done|]. split; [|done].
        revert H1. unfold pending_to. simpl. rewrite Nat.add_0_r. unfold store. simpl.
        by rewrite Nat.add_0_r, take_drop. }
      assert (Hf1 : fins sockfd (p_trace p1) = fins sockfd (p_trace p0)).
      { unfold p1. streams. rewrite Hf. unfold fin_due. rewrite He. simpl. lia. }
      cbn [tooptr toiptr]. destruct (Nat.eqb (tooptr s) (toiptr s)) eqn:E; post_steps.
      * eapply Shutdown_post; [done|]. intros p2 Hst Hf2. post_steps. split; [|done]. split.
        -- destruct Hd2 as (? & ? & ?). split; [done|]. split.
           ++ destruct (Hst STDIN_FILENO) as [? _], (Hst sockfd) as [_ ?]. by eapply conserved_keep.
           ++ destruct (Hst STDOUT_FILENO) as [_ ?], (Hst sockfd) as [? _]. by eapply conserved_keep.
        -- rewrite Hf2, Hf1. unfold fin_due. simpl. rewrite E. lia.
      * split; [|done]. split; [done|]. rewrite Hf1. unfold fin_due. simpl. rewrite E. lia.
    + post_steps. split; [|done]. split; [apply nb_data_stdin; [done|lia]|].
      streams. rewrite Hf. unfold fin_due. simpl. rewrite He. done.
  - set (p1 := with_errno _ _). assert (Hs1 : nb_inv sockfd s p0 p1) by by apply nb_inv_failed.
    eapply wouldblock_or_post; [apply Hs1|]. post_steps. done.
Qed.

Lemma nb_socket_post rset wset s p :
  nb_inv sockfd s p0 p →
  (FD_ISSET sockfd rset = true → Z.of_nat (friptr s) < MAXLINE) →
  post (nb_socket sockfd rset wset s) p
    (nb_post (λ '(ret, (s', _)) p', nb_inv sockfd s' p0 p' ∧
       (ret = true → stdineof s' = true ∧ at_eof sockfd (p_trace p'))) sockfd p0).
Proof.
  intros Hs Hset. unfold nb_socket. destruct (FD_ISSET sockfd rset); [|by post_steps].
  specialize (Hset eq_refl). post_steps.
  - pose proof (read_count _ _ _ _ H ltac:(lia)) as Hlen.
    destruct Hs as [Hd Hf]. ztest.
    + destruct a; [|simpl in *; lia]. set (p1 := add_event _ _ p).
      assert (Hd1 : nb_data sockfd s p0 p1).
      { destruct Hd as (? & ? & ?). split; [done|]. split; (eapply conserved_keep; [| |done]); unfold p1; streams. }
      destruct (stdineof s) eqn:E; post_steps.
      * split; [|intros _; split; [done|by eexists _, _]]. split; [done|]. unfold p1. streams.
      * by eapply err_exit_last; [apply err_quit_exits|].
    + post_steps. split; [|done]. split; [apply nb_data_socket; [done|lia]|].
      streams.
  - set (p1 := with_errno _ _). assert (Hs1 : nb_inv sockfd s p0 p1) by by apply nb_inv_failed.
    eapply wouldblock_or_post; [apply Hs1|]. post_steps. done.
Qed.

Lemma nb_stdout_post wset s p :
  nb_inv sockfd s p0 p →
  post (nb_stdout wset s) p (nb_post (λ s' p', nb_inv sockfd s' p0 p') sockfd p0).
Proof.
  intros Hs. unfold nb_stdout. case_match; [|by post_steps]. post_steps.
  - pose proof (write_at_most _ _ _ _ H0) as Hlen. destruct Hs as [Hd Hf].
    destruct (id Hd) as ((B1 & (L2 & O2 & I2)) & _ & _).
    rewrite length_slice in Hlen by lia.
    assert (Ha : a = Z.of_nat (Z.to_nat a)) by lia. set (n := Z.to_nat a) in *. rewrite Ha.
    pose proof (nb_data_stdout s p n Hd ltac:(lia)) as Hd1.
    destruct (Nat.eqb_spec (froptr s + n) (friptr s)) as [E|E]; post_steps; (split; [|streams]).
    + by apply (nb_data_rewind_fr _ _ Hd1).
    + done.
  - set (p1 := with_errno _ _). assert (Hs1 : nb_inv sockfd s p0 p1) by by apply nb_inv_failed.
    eapply wouldblock_or_post; [apply Hs1|]. post_steps. done.
Qed.

Lemma nb_tosock_post wset s p :
  nb_inv sockfd s p0 p →
  post (nb_tosock sockfd wset s) p (nb_post (λ s' p', nb_inv sockfd s' p0 p') sockfd p0).
Proof.
  intros Hs. unfold nb_tosock. case_match eqn:Hc; [|by post_steps]. post_steps.
  - pose proof (write_at_most _ _ _ _ H) as Hlen. destruct Hs as [Hd Hf].
    apply andb_true_iff in Hc as [_ Hc]. zbool.
    destruct (id Hd) as (((L1 & O1 & I1) & B2) & _ & _).
    rewrite length_slice in Hlen by lia.
    assert (Ha : a = Z.of_nat (Z.to_nat a)) by lia. set (n := Z.to_nat a) in *. rewrite Ha.
    pose proof (nb_data_tosock s p n Hd ltac:(lia)) as Hd1. set (p1 := add_event _ _ p) in *.
    assert (Hf1 : fins sockfd (p_trace p1) = fins sockfd (p_trace p0)).
    { unfold p1. streams. rewrite Hf. unfold fin_due. destruct (Nat.eqb_spec (tooptr s) (toiptr s)); [lia|].
      rewrite andb_false_r. lia. }
    destruct (Nat.eqb_spec (tooptr s + n) (toiptr s)) as [E|E].
    + apply nb_data_rewind_to in Hd1; [|done]. cbn [to fr friptr froptr stdineof] in *.
      destruct (stdineof s) eqn:Eo; post_steps.
      * eapply Shutdown_post; [done|]. intros p2 Hst Hf2. post_steps. split.
        -- destruct Hd1 as (? & ? & ?). split; [done|]. split.
           ++ destruct (Hst STDIN_FILENO) as [? _], (Hst sockfd) as [_ ?]. by eapply conserved_keep.
           ++ destruct (Hst STDOUT_FILENO) as [_ ?], (Hst sockfd) as [? _]. by eapply conserved_keep.
        -- rewrite Hf2, Hf1. unfold fin_due. simpl. lia.
      * split; [done|]. rewrite Hf1. unfold fin_due. simpl. lia.
    + post_steps. split; [done|]. rewrite Hf1. unfold fin_due. simpl.
      destruct (Nat.eqb_spec (tooptr s + n) (toiptr s)); [done|]. rewrite andb_false_r. lia.
  - set (p1 := with_errno _ _). assert (Hs1 : nb_inv sockfd s p0 p1) by by apply nb_inv_failed.
    eapply wouldblock_or_post; [apply Hs1|]. post_steps. done.
Qed.

Lemma nb_rset_stdin s r :
  r ⊆ nb_rset sockfd s → FD_ISSET STDIN_FILENO r = true → stdineof s = false ∧ Z.of_nat (toiptr s) < MAXLINE.
Proof.
  intros Hr Hi. apply bool_decide_eq_true in Hi. apply Hr in Hi. unfold nb_rset in Hi.
  apply elem_of_app in Hi as [Hi|Hi].
  - case_match eqn:E; [|by apply not_elem_of_nil in Hi]. zbool. destruct (stdineof s); done.
  - case_match; [apply list_elem_of_singleton in Hi|by apply not_elem_of_nil in Hi]. congruence.
Qed.
Lemma nb_rset_socket s r :
  r ⊆ nb_rset sockfd s → FD_ISSET sockfd r = true → Z.of_nat (friptr s) < MAXLINE.
Proof.
  intros Hr Hi. apply bool_decide_eq_true in Hi. apply Hr in Hi. unfold nb_rset in Hi.
  apply elem_of_app in Hi as [Hi|Hi].
  - case_match; [apply list_elem_of_singleton in Hi; congruence|by apply not_elem_of_nil in Hi].
  - case_match eqn:E; [|by apply not_elem_of_nil in Hi]. by zbool.
Qed.

Definition returns_ok (s : nb) (p' : proc) : Prop :=
  nb_inv sockfd s p0 p' ∧ stdineof s = true ∧ at_eof sockfd (p_trace p').

Lemma nb_step_post s p :
  nb_inv sockfd s p0 p →
  post (nb_step sockfd s) p
    (nb_post (λ '(ret, s') p', if (ret : bool) then returns_ok s' p' else nb_inv sockfd s' p0 p') sockfd p0).
Proof.
  intros Hs. unfold nb_step, Select, or_err_sys. post_steps.
  2: { eapply err_exit; [apply err_sys_exits|]. destruct Hs as [Hd _]. eapply nb_data_still; [|done].
       apply (still_event sockfd (sys_select (nb_rset sockfd s) (nb_wset sockfd s) None)); done. }
  destruct a as [r w]. cbn zeta. destruct (select_asked _ _ _ _ _ _ H) as [Hr _].
  set (p1 := add_event _ _ p).
  assert (Hs1 : nb_inv sockfd s p0 p1) by by eapply nb_inv_still; [apply still_event|].
  post_steps. eapply post_weaken; [apply nb_stdin_post; [done|by apply nb_rset_stdin]|].
  intros o p2 Ho. destruct o as [[s2 w2]| | | |]; cbn [through nb_post] in *; try done.
  destruct Ho as [Hs2 Hfr]. post_steps.
  eapply post_weaken; [apply nb_socket_post; [done|]|].
  { rewrite Hfr. by apply nb_rset_socket. }
  clear Hs1 Hs2. intros o p3 Ho. destruct o as [[ret [s3 w3]]| | | |]; cbn [through nb_post] in *; try done.
  destruct Ho as [Hs3 Hret]. destruct ret; post_steps.
  { split; [done|]. by apply Hret. }
  eapply post_weaken; [by apply nb_stdout_post|].
  intros o p4 Ho. destruct o as [s4| | | |]; cbn [through nb_post] in *; try done.
  post_steps. eapply post_weaken; [by apply nb_tosock_post|].
  intros o p5 Ho'. destruct o as [s5| | | |]; cbn [through nb_post] in *; try done.
Qed.

(** The outcomes of [fuel] turns. *)
Definition nb_result (o : outcome nb) (p' : proc) : Prop :=
  match o with
  | Ret s => returns_ok s p'
  | Exit st => st = 1 ∧ ∃ s, nb_data sockfd s p0 p'
  | NoFuel => ∃ s, nb_inv sockfd s p0 p'
  | _ => False
  end.

Lemma nb_loop_post fuel : ∀ s p,
  nb_inv sockfd s p0 p → post (nb_loop fuel sockfd s) p nb_result.
Proof.
  induction fuel as [|f IH]; intros s p Hs; cbn [nb_loop].
  { post_steps. by exists s. }
  post_steps. eapply post_weaken; [by apply nb_step_post|].
  intros o p1 Ho. destruct o as [[ret s1]| | | |]; cbn [through nb_post] in *; try done.
  destruct ret; [by post_steps|]. by apply IH.
Qed.
End loop.

Lemma nb0_inv sockfd p : nb_inv sockfd nb0 p p.
Proof.
  split; [split; [|split]|].
  - split; (split; [|split; [done|by vm_compute]]); unfold nb0; cbn [to fr]; by rewrite length_replicate.
  - exists []. unfold pending_to. simpl. by rewrite slice_empty, !app_nil_r.
  - exists []. unfold pending_fr. simpl. by rewrite slice_empty, !app_nil_r.
  - unfold fin_due. simpl. lia.
Qed.

(** ** Properties *)

(** C2: the buffers of the non-blocking client neither lose, duplicate nor
    reorder a byte, whatever partial reads and writes the system makes: at
    every turn what was read from stdin is what was written to the socket
    followed by what is pending, and likewise from the socket to stdout; the
    pointers stay within the buffers; the FIN is sent exactly once, when stdin
    has ended and everything was sent.  It returns only when both directions
    have ended. *)
Theorem nb_loop_correct (K : Kernel) (KOk : ReadWriteOk K) (KSel : SelectOk K) fuel sockfd p :
  sockfd ≠ STDIN_FILENO → sockfd ≠ STDOUT_FILENO →
  post (nb_loop fuel sockfd nb0) p (nb_result sockfd p).
Proof. intros H1 H2. apply nb_loop_post; [done..|apply nb0_inv]. Qed.

(** A server that sends [data] and closes, behind a stdout that cannot be
    written yet; stdin is at its end. *)
Definition full_stdout (sockfd : Z) (data : list Z) : Kernel := λ A t c,
  (match c in sys A return A → A with
   | sys_read fd n => λ a,
       if (fd =? sockfd) && bool_decide (received fd t = []) then Ok (take (Z.to_nat n) data) else a
   | sys_write fd _ => λ a, if fd =? STDOUT_FILENO then Err EWOULDBLOCK else a
   | _ => λ a, a
   end) (plain t c).

Lemma full_stdout_ok sockfd data : ReadWriteOk (full_stdout sockfd data) ∧ SelectOk (full_stdout sockfd data).
Proof.
  split; split.
  - intros t fd n bs Hn. unfold answer, full_stdout. case_match; [|intros [= <-]; simpl; lia].
    intros [= <-]. rewrite length_take. lia.
  - intros t fd buf n. unfold answer, full_stdout. simpl. case_match; [done|]. intros [= <-]. lia.
  - intros t r w tm r' w' [= <- <-]. done.
Qed.

(** The client loses data: under a documented behaviour of the system, the
    server sends three bytes and closes while stdout cannot be written; the
    function returns normally with the bytes it received still pending, and
    they are never written. *)
Theorem nb_loses_output :
  ∃ K : Kernel, ReadWriteOk K ∧ SelectOk K ∧
  match nb_loop 2 5 nb0 proc0 with
  | (Ret s, p') => received 5 (p_trace p') = [97; 98; 99] ∧
      written STDOUT_FILENO (p_trace p') = [] ∧ pending_fr s = [97; 98; 99]
  | _ => False
  end.
Proof.
  exists (full_stdout 5 [97; 98; 99]). destruct (full_stdout_ok 5 [97; 98; 99]) as [H1 H2].
  split; [done|]. split; [done|]. by vm_compute.
Qed.

Lemma nb_loop_correct_witness :
  post (nb_loop (K := full_stdout 5 [97; 98; 99]) 2 5 nb0) proc0 (nb_result 5 proc0) ∧
  match (nb_loop (K := full_stdout 5 [97; 98; 99]) 2 5 nb0 proc0).1 with Ret s => stdineof s = true | _ => False end.
Proof.
  destruct (full_stdout_ok 5 [97; 98; 99]) as [H1 H2].
  split; [by apply (nb_loop_correct _ H1 H2)|by vm_compute].
Defined.
