(* ===== verification/Servers.v ===== *)
(** Concurrent servers in one process: the select server of
    src/unpv13e/tcpcliserv/tcpservselect01.c and the poll server of
    tcpcliserv/tcpservpoll01.c.

    [main] is modelled from the creation of the listening socket on; the
    endless loop takes as fuel the number of its turns.  OPEN_MAX of the poll
    server comes from the system's <limits.h> and is a parameter. *)
From S2P Require Import Prelude Machine Posix Wrap Stream.

Definition SERV_PORT : Z := 9877.
Definition LISTENQ : Z := 1024.
Definition FD_SETSIZE : Z := 1024.
Definition INFTIM : Z := -1.
Definition POLLRDNORM : Z := 64.
Definition POLLERR : Z := 8.
Definition servaddr : sockaddr := SaIn (htons SERV_PORT) [0; 0; 0; 0].

(** The first available entry of an array of descriptors. *)
Definition first_free (client : list Z) : option nat := fst <$> list_find (λ c, c < 0) client.

(** ** tcpcliserv/tcpservselect01.c *)

Record sv := Sv {
  client : list Z;
  maxi : Z;
  maxfd : Z;
  allset : gset Z
}.

Section select_server.
Context {K : Kernel}.

(** [FD_SET] is undefined for a descriptor that does not fit in an [fd_set]. *)
Definition fd_set_add (fd : Z) (s : gset Z) : M (gset Z) :=
  if FD_SETSIZE <=? fd then stop UB else mret ({[fd]} ∪ s).

(** A new connection. *)
Definition sv_accept (fuel : nat) (listenfd : Z) (s : sv) : M sv :=
  '(connfd, _) ← Accept fuel listenfd;
  match first_free (client s) with
  | None => err_quit "too many clients"
  | Some i =>
      let client := <[i := connfd]> (client s) in
      allset ← fd_set_add connfd (allset s);
      let maxfd := if maxfd s <? connfd then connfd else maxfd s in
      let maxi := if maxi s <? Z.of_nat i then Z.of_nat i else maxi s in
      mret (Sv client maxi maxfd allset)
  end.

(** The [for] loop over the clients from entry [i] on. *)
Fixpoint sv_scan (fuel todo : nat) (i : nat) (rset : list Z) (nready : Z) (s : sv) : M sv :=
  match todo with
  | O => mret s
  | S todo' =>
      let sockfd := client s !!! i in
      if sockfd <? 0 then sv_scan fuel todo' (S i) rset nready s
      else if bool_decide (sockfd ∈ rset) then
        buf ← Read sockfd MAXLINE;
        s ← (if Z.of_nat (List.length buf) =? 0 then
               Close sockfd ;;
               mret (Sv (<[i := -1]> (client s)) (maxi s) (maxfd s) (allset s ∖ {[sockfd]}))
             else Writen fuel sockfd buf ;; mret s);
        if nready - 1 <=? 0 then mret s
        else sv_scan fuel todo' (S i) rset (nready - 1) s
      else sv_scan fuel todo' (S i) rset nready s
  end.

(** One turn of the loop. *)
Definition sv_step (fuel : nat) (listenfd : Z) (s : sv) : M sv :=
  '(rset, _) ← Select (elements (allset s)) [] None;
  let nready := Z.of_nat (List.length rset) in
  if bool_decide (listenfd ∈ rset) then
    s ← sv_accept fuel listenfd s;
    if nready - 1 <=? 0 then mret s
    else sv_scan fuel (Z.to_nat (maxi s + 1)) 0 rset (nready - 1) s
  else sv_scan fuel (Z.to_nat (maxi s + 1)) 0 rset nready s.

Fixpoint sv_loop (turns fuel : nat) (listenfd : Z) (s : sv) : M sv :=
  match turns with
  | O => mret s
  | S t => s ← sv_step fuel listenfd s; sv_loop t fuel listenfd s
  end.

Definition sv_init (listenfd : Z) : M sv :=
  let client := replicate (Z.to_nat FD_SETSIZE) (-1) in
  allset ← fd_set_add listenfd ∅;
  mret (Sv client (-1) listenfd allset).

(** The state after [turns] turns, and the listening descriptor. *)
Definition select_main (turns fuel : nat) : M (Z * sv) :=
  listenfd ← Socket AF_INET SOCK_STREAM 0;
  Bind listenfd servaddr SIZEOF_SOCKADDR_IN ;;
  Listen listenfd LISTENQ ;;
  s ← sv_init listenfd;
  s ← sv_loop turns fuel listenfd s;
  mret (listenfd, s).
End select_server.

(** ** tcpcliserv/tcpservpoll01.c *)

(** [struct pollfd]; [revents] is [None] until [poll] has stored it. *)
Record pollfd := PollFd { pfd : Z; events : Z; revents : option Z }.
#[global] Instance pollfd_inhabited : Inhabited pollfd := populate (PollFd (-1) 0 None).

Section poll_server.
Context {K : Kernel} (OPEN_MAX : nat).

Definition set_fd (fd : Z) (c : pollfd) : pollfd := PollFd fd (events c) (revents c).

(** [poll] on the first entries stores their [revents]. *)
Fixpoint store_revents (client : list pollfd) (rs : list Z) : list pollfd :=
  match client, rs with
  | c :: client', r :: rs' => PollFd (pfd c) (events c) (Some r) :: store_revents client' rs'
  | _, _ => client
  end.

(** [client\[i\].revents & mask]: testing an indeterminate value is undefined. *)
Definition test_revents (c : pollfd) (mask : Z) : M bool :=
  match revents c with
  | Some r => mret (has r mask)
  | None => stop UB
  end.

Definition pl_accept (fuel : nat) (listenfd : Z) (client : list pollfd) (maxi : Z)
    : M (list pollfd * Z) :=
  '(connfd, _) ← Accept fuel listenfd;
  match first_free (pfd <$> drop 1 client) with
  | None => err_quit "too many clients"
  | Some j =>
      let i := S j in
      let client := alter (λ c, PollFd connfd POLLRDNORM (revents c)) i client in
      mret (client, if maxi <? Z.of_nat i then Z.of_nat i else maxi)
  end.

Fixpoint pl_scan (fuel todo i : nat) (nready : Z) (client : list pollfd) : M (list pollfd) :=
  match todo with
  | O => mret client
  | S todo' =>
      let c := client !!! i in
      let sockfd := pfd c in
      if sockfd <? 0 then pl_scan fuel todo' (S i) nready client
      else
        ready ← test_revents c (Z.lor POLLRDNORM POLLERR);
        if (ready : bool) then
          r ← syscall (sys_read sockfd MAXLINE);
          client ← match r with
            | None =>
                e ← get_errno;
                if e =? ECONNRESET then
                  Close sockfd ;; mret (alter (set_fd (-1)) i client)
                else err_sys "read error"
            | Some buf =>
                if Z.of_nat (List.length buf) =? 0 then
                  Close sockfd ;; mret (alter (set_fd (-1)) i client)
                else Writen fuel sockfd buf ;; mret client
            end;
          if nready - 1 <=? 0 then mret client
          else pl_scan fuel todo' (S i) (nready - 1) client
        else pl_scan fuel todo' (S i) nready client
  end.

Definition pl_step (fuel : nat) (listenfd : Z) (client : list pollfd) (maxi : Z)
    : M (list pollfd * Z) :=
  '(nready, rs) ← Poll ((λ c, (pfd c, events c)) <$> take (Z.to_nat (maxi + 1)) client) INFTIM;
  let client := store_revents client rs in
  new ← test_revents (client !!! 0%nat) POLLRDNORM;
  if (new : bool) then
    '(client, maxi) ← pl_accept fuel listenfd client maxi;
    if nready - 1 <=? 0 then mret (client, maxi)
    else
      client ← pl_scan fuel (Z.to_nat maxi) 1 (nready - 1) client;
      mret (client, maxi)
  else
    client ← pl_scan fuel (Z.to_nat maxi) 1 nready client;
    mret (client, maxi).

Fixpoint pl_loop (turns fuel : nat) (listenfd : Z) (client : list pollfd) (maxi : Z)
    : M (list pollfd * Z) :=
  match turns with
  | O => mret (client, maxi)
  | S t =>
      '(client, maxi) ← pl_step fuel listenfd client maxi;
      pl_loop t fuel listenfd client maxi
  end.

Definition pl_init (listenfd : Z) : list pollfd :=
  PollFd listenfd POLLRDNORM None :: replicate (OPEN_MAX - 1) (PollFd (-1) 0 None).

Definition poll_main (turns fuel : nat) : M (list pollfd * Z) :=
  listenfd ← Socket AF_INET SOCK_STREAM 0;
  Bind listenfd servaddr SIZEOF_SOCKADDR_IN ;;
  Listen listenfd LISTENQ ;;
  pl_loop turns fuel listenfd (pl_init listenfd) 0.
End poll_server.

(** ** Tables of clients

    The set given to [select] and the array of the clients' descriptors, next
    to the descriptors [base] the server itself reads. *)
Definition table (base : gset Z) (client : list Z) (maxi maxfd : Z) (allset : gset Z) : Prop :=
  Z.of_nat (List.length client) = FD_SETSIZE ∧
  (∀ fd, fd ∈ allset ↔ fd ∈ base ∨ (0 ≤ fd ∧ fd ∈ client)) ∧
  (∀ i j fd, client !! i = Some fd → client !! j = Some fd → 0 ≤ fd → i = j) ∧
  (∀ fd, fd ∈ base → fd ∉ client) ∧
  (∀ i fd, client !! i = Some fd → 0 ≤ fd → Z.of_nat i ≤ maxi) ∧
  -1 ≤ maxi < FD_SETSIZE ∧
  (∀ fd, fd ∈ allset → 0 ≤ fd ≤ maxfd ∧ fd < FD_SETSIZE).

Lemma first_free_spec client i :
  first_free client = Some i → ∃ c, client !! i = Some c ∧ c < 0 ∧ (i < List.length client)%nat.
Proof.
  unfold first_free. intros H. apply fmap_Some in H as ([j c] & H & ->).
  apply list_find_Some in H as (H & Hc & _). exists c. simpl. split; [done|].
  split; [done|]. by apply lookup_lt_Some in H.
Qed.

(** No client yet. *)
Lemma table_init base maxfd :
  (∀ fd, fd ∈ base → 0 ≤ fd ≤ maxfd ∧ fd < FD_SETSIZE) →
  table base (replicate (Z.to_nat FD_SETSIZE) (-1)) (-1) maxfd base.
Proof.
  intros Hb. assert (Hn : ∀ fd, 0 ≤ fd → fd ∉ replicate (Z.to_nat FD_SETSIZE) (-1)).
  { intros fd Hfd Hin. apply elem_of_replicate in Hin. lia. }
  assert (Hc : ∀ i fd, replicate (Z.to_nat FD_SETSIZE) (-1) !! i = Some fd → fd = -1).
  { intros i fd Hi. by apply lookup_replicate in Hi as [? _]. }
  split_and!; try done.
  - intros fd. split; [by left|]. by intros [?|[? ?%Hn]].
  - intros i j fd Hi%Hc. lia.
  - intros fd Hfd. apply Hn, Hb, Hfd.
  - intros i fd Hi%Hc. lia.
Qed.

(** The array cannot be full: its descriptors are distinct, below FD_SETSIZE, and
    none of them is one of the server's own. *)
Lemma table_not_full base client maxi maxfd allset :
  table base client maxi maxfd allset → base ≠ ∅ → is_Some (first_free client).
Proof.
  intros (Hl & Hall & Hinj & Hbase & _ & _ & Hmf) (b & Hb)%set_choose_L. unfold first_free.
  destruct (list_find (λ c, c < 0) client) as [[i c]|] eqn:Ef; [by eexists|]. exfalso.
  apply list_find_None in Ef. rewrite Forall_forall in Ef.
  assert (Hpos : ∀ x, x ∈ client → 0 ≤ x) by (intros x Hx; specialize (Ef x Hx); lia).
  assert (Hsub : client ⊆+ seqZ 0 FD_SETSIZE).
  { apply NoDup_submseteq.
    - apply NoDup_alt. intros i j x Hi Hj. eapply Hinj; [done..|]. apply Hpos. by eapply list_elem_of_lookup_2.
    - intros x Hx. apply elem_of_seqZ. assert (Hx' : x ∈ allset) by (apply Hall; right; auto). specialize (Hmf x Hx'). lia. }
  apply submseteq_length_Permutation in Hsub; [|rewrite length_seqZ; lia].
  apply (Hbase b Hb). rewrite Hsub. apply elem_of_seqZ. assert (Hb' : b ∈ allset) by (apply Hall; by left).
  specialize (Hmf b Hb'). lia.
Qed.

(** A client takes a free entry. *)
Lemma table_add base client maxi maxfd allset i c fd :
  table base client maxi maxfd allset → client !! i = Some c → c < 0 →
  0 ≤ fd < FD_SETSIZE → fd ∉ allset →
  table base (<[i := fd]> client) (if maxi <? Z.of_nat i then Z.of_nat i else maxi)
    (if maxfd <? fd then fd else maxfd) ({[fd]} ∪ allset).
Proof.
  intros (Hl & Hall & Hinj & Hbase & Hb & Hm & Hmf) Hi Hc Hfd Hfresh.
  pose proof (lookup_lt_Some _ _ _ Hi) as Hlt.
  assert (Hnew : fd ∉ client) by (intros ?; apply Hfresh, Hall; right; split; [lia|done]).
  assert (Hne : fd ∉ base) by (intros ?; apply Hfresh, Hall; auto).
  assert (Hin : ∀ x, 0 ≤ x → x ∈ <[i := fd]> client ↔ x = fd ∨ x ∈ client).
  { intros x Hx. rewrite !list_elem_of_lookup. split.
    - intros (j & Hj). apply list_lookup_insert_Some in Hj as [(-> & -> & _)|[_ Hj]]; eauto.
    - intros [->|(j & Hj)]; [exists i; by apply list_lookup_insert_eq|].
      exists j. rewrite list_lookup_insert_ne; [done|]. intros ->. rewrite Hi in Hj. simplify_eq. lia. }
  unfold table. split_and!.
  - by rewrite length_insert.
  - intros x. rewrite elem_of_union, elem_of_singleton, Hall. split.
    + intros [->|[?|[? ?]]]; [right|by left|right]; (split; [lia|]); apply Hin; auto; lia.
    + intros [?|[Hx Hy]]; [by right; left|]. apply Hin in Hy as [->|]; [by left| |done]. by right; right.
  - intros j k x Hj Hk Hx.
    apply list_lookup_insert_Some in Hj as [(-> & -> & _)|[Hij Hj]];
      apply list_lookup_insert_Some in Hk as [(? & ? & _)|[Hik Hk]]; subst; try done.
    + destruct Hnew. by eapply list_elem_of_lookup_2.
    + destruct Hnew. by eapply list_elem_of_lookup_2.
    + by eapply Hinj.
  - intros x Hx Hy. assert (0 ≤ x) by (apply Hmf, Hall; by left).
    apply Hin in Hy as [->|Hy]; [done|by apply (Hbase x)|done].
  - intros j x Hj Hx. ztest; apply list_lookup_insert_Some in Hj as [(-> & -> & _)|[Hij Hj]]; try lia;
      specialize (Hb _ _ Hj Hx); lia.
  - ztest; lia.
  - ztest; lia.
  - intros x [->%elem_of_singleton|Hx]%elem_of_union; [ztest; lia|]. specialize (Hmf x Hx). ztest; lia.
Qed.

(** A client leaves its entry and the set. *)
Lemma table_remove base client maxi maxfd allset i fd :
  table base client maxi maxfd allset → client !! i = Some fd → 0 ≤ fd →
  table base (<[i := -1]> client) maxi maxfd (allset ∖ {[fd]}).
Proof.
  intros (Hl & Hall & Hinj & Hbase & Hb & Hm & Hmf) Hi Hfd.
  assert (Hne : fd ∉ base) by (intros Hx; apply (Hbase fd Hx); by eapply list_elem_of_lookup_2).
  pose proof (lookup_lt_Some _ _ _ Hi) as Hlt.
  assert (Hin : ∀ x, 0 ≤ x → x ∈ <[i := -1]> client ↔ x ≠ fd ∧ x ∈ client).
  { intros x Hx. rewrite !list_elem_of_lookup. split.
    - intros (j & Hj). apply list_lookup_insert_Some in Hj as [(-> & <- & _)|[Hij Hj]]; [lia|].
      split; [|eauto]. intros ->. destruct Hij. by eapply Hinj.
    - intros [Hxf (j & Hj)]. exists j. rewrite list_lookup_insert_ne; [done|]. congruence. }
  unfold table. split_and!; try lia.
  - by rewrite length_insert.
  - intros x. rewrite elem_of_difference, elem_of_singleton, Hall. split.
    + intros [[?|[? ?]] ?]; [by left|]. right. split; [done|]. by apply Hin.
    + intros [Hx|[Hx Hy]]; [split; [by left|by intros ->]|]. apply Hin in Hy as [? ?]; [|done]. split; [by right|done].
  - intros j k x Hj Hk Hx.
    apply list_lookup_insert_Some in Hj as [(-> & <- & _)|[Hij Hj]]; [lia|].
    apply list_lookup_insert_Some in Hk as [(-> & <- & _)|[Hik Hk]]; [lia|]. by eapply Hinj.
  - intros x Hx Hy. assert (0 ≤ x) by (apply Hmf, Hall; by left). apply Hin in Hy as [_ ?]; [|done]. by apply (Hbase x).
  - intros j x Hj Hx. apply list_lookup_insert_Some in Hj as [(-> & <- & _)|[Hij Hj]]; [lia|]. eauto.
  - intros x [Hx _]%elem_of_difference. by apply Hmf.
Qed.

(** ** The invariant of the select server *)

Definition sv_inv (listenfd : Z) (s : sv) (p : proc) : Prop :=
  table {[listenfd]} (client s) (maxi s) (maxfd s) (allset s) ∧
  open_fds (p_trace p) = allset s ∧
  (∀ fd, written fd (p_trace p) = received fd (p_trace p)).

(** Some open descriptor does not fit in an [fd_set]. *)
Definition fd_too_big (p : proc) : Prop := ∃ fd, fd ∈ open_fds (p_trace p) ∧ FD_SETSIZE ≤ fd.

(** The outcomes of the server: it stops only by [exit(1)], or, the behaviour
    being undefined, when a descriptor does not fit in an [fd_set]; [fuel] is
    exceeded only by that many interrupted or aborted calls. *)
Definition sv_post {A} (Q : A → proc → Prop) (fuel : nat) (p : proc) (o : outcome A) (p' : proc) : Prop :=
  (interrupted (p_trace p) ≤ interrupted (p_trace p'))%nat ∧
  match o with
  | Ret a => Q a p'
  | Exit st => st = 1
  | UB => fd_too_big p'
  | NoFuel => (Z.of_nat fuel ≤ MAXLINE + Z.of_nat (interrupted (p_trace p') - interrupted (p_trace p)))
  | Abort => False
  end.

(** ** Lemmas *)

(** Nothing moved and no descriptor was opened or closed. *)
Definition untouched (p p' : proc) : Prop :=
  open_fds (p_trace p') = open_fds (p_trace p) ∧
  (interrupted (p_trace p) ≤ interrupted (p_trace p'))%nat ∧
  (∀ fd, received fd (p_trace p') = received fd (p_trace p) ∧
         written fd (p_trace p') = written fd (p_trace p)).

Lemma untouched_refl p : untouched p p.
Proof. done. Qed.
Lemma untouched_trans p1 p2 p3 : untouched p1 p2 → untouched p2 p3 → untouched p1 p3.
Proof.
  intros (H1 & H2 & H3) (H4 & H5 & H6). split; [congruence|]. split; [lia|].
  intros fd. destruct (H3 fd), (H6 fd). split; congruence.
Qed.
Lemma untouched_event {A} (c : sys A) a p :
  open_after (Event c a) (open_fds (p_trace p)) = open_fds (p_trace p) →
  (∀ fd, received1 fd (Event c a) = [] ∧ written1 fd (Event c a) = []) →
  untouched p (add_event c a p).
Proof.
  intros H1 H2. split; [done|]. split; [simpl; lia|].
  intros fd. destruct (H2 fd) as [Hr Hw]. cbn [p_trace add_event received written].
  by rewrite Hr, Hw, !app_nil_r.
Qed.
Lemma reported_untouched p p' : reported p p' → untouched p p'.
Proof.
  intros Hr. split; [|split].
  - destruct Hr as [(t & -> & Hq & _) _]. induction Hq as [|[A c a] t He Ht IH]; [done|].
    simpl. rewrite IH. by destruct c.
  - destruct (reported_streams _ _ 0 Hr) as (_ & _ & ->). done.
  - intros fd. by destruct (reported_streams _ _ fd Hr) as (? & ? & _).
Qed.

Lemma sv_inv_untouched listenfd s p p' : untouched p p' → sv_inv listenfd s p → sv_inv listenfd s p'.
Proof.
  intros (H1 & _ & H2) (? & Ho & He). unfold sv_inv. rewrite H1. split_and!; try done.
  intros fd. destruct (H2 fd). congruence.
Qed.

Section facts.
Context {K : Kernel} {KOk : ReadWriteOk K} {KAcc : AcceptOk K} {KSel : SelectOk K}.

(** A wrapper that moves nothing. *)
Lemma or_err_sys_untouched {A} (c : sys (res A)) msg p (Q : outcome A → proc → Prop) :
  (∀ r, open_after (Event c r) (open_fds (p_trace p)) = open_fds (p_trace p)) →
  (∀ r fd, received1 fd (Event c r) = [] ∧ written1 fd (Event c r) = []) →
  (∀ a p', answer (p_trace p) c = Ok a → untouched p p' → Q (Ret a) p') →
  (∀ p', untouched p p' → Q (Exit 1) p') →
  post (or_err_sys c msg) p Q.
Proof.
  intros Hc Hm H1 H2. unfold or_err_sys. post_steps.
  - by apply H1, untouched_event.
  - eapply post_weaken; [apply err_sys_exits|]. intros o p' [-> Hr]. apply H2.
    eapply untouched_trans; [by apply (untouched_event c (Err e) p)|by apply reported_untouched].
Qed.

(** [Accept]: the descriptor accepted is the last event. *)
Lemma Accept_post lfd fuel p0 : ∀ k p,
  untouched p0 p → (fuel ≤ k + (interrupted (p_trace p) - interrupted (p_trace p0)))%nat →
  post (Accept k lfd) p (λ o p', (interrupted (p_trace p0) ≤ interrupted (p_trace p'))%nat ∧
    match o with
    | Ret (fd, sa) => ∃ p1, untouched p0 p1 ∧ 0 ≤ fd ∧ (fd ∉ open_fds (p_trace p1)) ∧
        p' = add_event (sys_accept lfd) (Ok (fd, sa)) p1
    | Exit st => st = 1
    | NoFuel => (fuel ≤ interrupted (p_trace p') - interrupted (p_trace p0))%nat
    | _ => False
    end).
Proof.
  induction k as [|k IH]; intros p Hu Hf; cbn [Accept].
  { post_steps. destruct Hu as (_ & ? & _). split; [done|lia]. }
  post_steps.
  - destruct a as [fd sa]. destruct (accept_fresh _ _ _ _ H). split; [simpl; destruct Hu as (_ & ? & _); lia|].
    by exists p.
  - set (p1 := with_errno _ _). assert (Hu1 : untouched p p1) by by apply (untouched_event (sys_accept lfd) (Err e) p).
    case_match eqn:Er.
    + apply IH; [by eapply untouched_trans|].
      replace (interrupted (p_trace p1)) with (S (interrupted (p_trace p))).
      * destruct Hu as (_ & ? & _). lia.
      * change (p_errno p1) with e in Er. unfold p1.
        cbn [p_trace with_errno add_event interrupted interrupted1]. rewrite Er. lia.
    + eapply post_weaken; [apply err_sys_exits|]. intros o p' [-> Hr].
      assert (Hu2 : untouched p0 p').
      { eapply untouched_trans; [done|]. eapply untouched_trans; [done|by apply reported_untouched]. }
      split; [apply Hu2|done].
Qed.

(** A new client takes a free entry; one that closed leaves its entry and the
    set. *)
Lemma sv_inv_accept listenfd s p i connfd sa lfd :
  sv_inv listenfd s p → first_free (client s) = Some i →
  0 ≤ connfd → connfd ∉ open_fds (p_trace p) → connfd < FD_SETSIZE →
  sv_inv listenfd
    (Sv (<[i := connfd]> (client s)) (if maxi s <? Z.of_nat i then Z.of_nat i else maxi s)
       (if maxfd s <? connfd then connfd else maxfd s) ({[connfd]} ∪ allset s))
    (add_event (sys_accept lfd) (Ok (connfd, sa)) p).
Proof.
  intros (Ht & Ho & He) (c & Hi & Hc & _)%first_free_spec Hpos Hfresh Hsz. rewrite Ho in Hfresh.
  split; [by eapply table_add|]. split; [simpl; by rewrite Ho|]. intros fd. simpl. by rewrite !app_nil_r.
Qed.
Lemma sv_inv_close listenfd s p i fd :
  sv_inv listenfd s p → client s !! i = Some fd → 0 ≤ fd →
  sv_inv listenfd (Sv (<[i := -1]> (client s)) (maxi s) (maxfd s) (allset s ∖ {[fd]}))
    (add_event (sys_close fd) (Ok tt) p).
Proof.
  intros (Ht & Ho & He) Hi Hfd. split; [by apply table_remove|]. split; [simpl; by rewrite Ho|].
  intros x. simpl. by rewrite !app_nil_r.
Qed.

Lemma sv_exit {A B} (m : M A) (Q : B → proc → Prop) fuel p0 p (k : A → proc → Prop) :
  post m p (λ o p', o = Exit 1 ∧ reported p p') →
  (interrupted (p_trace p0) ≤ interrupted (p_trace p))%nat →
  post m p (through (sv_post Q fuel p0) k).
Proof.
  intros Hm Hi. eapply post_weaken; [done|]. intros o p' [-> Hr]. split; [|done].
  apply reported_untouched in Hr as (_ & ? & _). lia.
Qed.

(** One request of a client is echoed. *)
Lemma sv_echo_post {B} fuel fd bs n listenfd s p0 p (Q : B → proc → Prop) (k : unit → proc → Prop) :
  sv_inv listenfd s p → (interrupted (p_trace p0) ≤ interrupted (p_trace p))%nat →
  Z.of_nat (List.length bs) ≤ MAXLINE →
  (∀ p', sv_inv listenfd s p' → (interrupted (p_trace p0) ≤ interrupted (p_trace p'))%nat → k tt p') →
  post (Writen fuel fd bs) (add_event (sys_read fd n) (Ok bs) p) (through (sv_post Q fuel p0) k).
Proof.
  intros Hs Hi Hlen Hk. set (p1 := add_event _ _ p). unfold Writen, writen. post_steps.
  assert (Hp1 : interrupted (p_trace p1) = interrupted (p_trace p)) by (simpl; lia).
  eapply post_weaken.
  { apply post_and; [apply (writen_loop_post fuel fd bs [] bs p1 p1 eq_refl) with (fuel0 := fuel);
      rewrite ?app_nil_r; lia || done|apply writen_loop_only]. }
  intros o p2 [(wr & rest & Hbs & Hwr & Ho) (t & Ht & Hev)].
  pose proof (λ fd', write_events_frame fd fd' t (p_trace p1) Hev) as Hfr. rewrite <- Ht in Hfr.
  assert (Hi2 : (interrupted (p_trace p0) ≤ interrupted (p_trace p2))%nat).
  { destruct (Hfr fd) as (_ & _ & _ & ?). lia. }
  destruct o as [[]| | | |]; cbn [through]; try done.
  - subst rest. rewrite app_nil_r in Hbs. subst wr. post_steps. apply Hk; [|done].
    destruct Hs as (? & Hop & He). unfold sv_inv. split_and!; [done|..].
    + destruct (Hfr fd) as (_ & -> & _). done.
    + intros x. destruct (Hfr x) as (-> & _ & Hw & _). unfold p1. rewrite received_add.
      destruct (Z.eq_dec x fd) as [->|Hne].
      * rewrite Hwr. unfold p1. rewrite written_read, He. simpl. by rewrite Z.eqb_refl.
      * rewrite Hw by done. unfold p1. rewrite written_read, He. simpl.
        destruct (Z.eqb_spec fd x); [congruence|]. by rewrite app_nil_r.
  - eapply sv_exit; [apply err_sys_exits|done].
  - split; [done|]. destruct (Hfr fd) as (_ & _ & _ & ?). lia.
Qed.

Lemma sv_scan_post fuel listenfd rset p0 : ∀ todo i nready s p,
  sv_inv listenfd s p → (interrupted (p_trace p0) ≤ interrupted (p_trace p))%nat →
  Z.of_nat (i + todo) ≤ FD_SETSIZE →
  post (sv_scan fuel todo i rset nready s) p (sv_post (sv_inv listenfd) fuel p0).
Proof.
  induction todo as [|todo IH]; intros i nready s p Hs Hi Hb; cbn [sv_scan]; [by post_steps|].
  destruct (Z.ltb_spec (client s !!! i) 0); [by apply IH; [..|lia]|].
  case_bool_decide; [|by apply IH; [..|lia]].
  destruct (lookup_lt_is_Some_2 (client s) i) as [fd Hfd].
  { destruct Hs as ((Hl & _) & _). lia. }
  rewrite (list_lookup_total_correct _ _ _ Hfd) in *. unfold Read, or_err_sys at 1. post_steps.
  2: { eapply sv_exit; [apply err_sys_exits|]. simpl. lia. }
  pose proof (read_count _ _ _ _ H1 ltac:(done)) as Hlen.
  assert (Hcont : ∀ s' p', sv_inv listenfd s' p' → (interrupted (p_trace p0) ≤ interrupted (p_trace p'))%nat →
    post (if nready - 1 <=? 0 then mret s' else sv_scan fuel todo (S i) rset (nready - 1) s') p'
      (sv_post (sv_inv listenfd) fuel p0)).
  { intros s' p' Hs' Hi'. case_match; [by post_steps|]. by apply IH; [..|lia]. }
  ztest.
  - destruct a; [|simpl in *; lia]. post_steps. unfold Close, or_err_sys. set (p1 := add_event _ _ p).
    assert (Hu : untouched p p1).
    { apply untouched_event; [done|]. intros x. simpl. by destruct (_ =? _). }
    assert (Hs1 : sv_inv listenfd s p1) by by eapply sv_inv_untouched.
    assert (Hi1 : (interrupted (p_trace p0) ≤ interrupted (p_trace p1))%nat) by (simpl; lia).
    post_steps.
    + destruct a. apply Hcont; [by eapply sv_inv_close|]. simpl. lia.
    + eapply sv_exit; [apply err_sys_exits|]. simpl. lia.
  - post_steps. eapply sv_echo_post; [done|done|done|]. intros p' Hs' Hi'. post_steps. by apply Hcont.
Qed.

Lemma sv_accept_post fuel listenfd s p0 p (k : sv → proc → Prop) :
  sv_inv listenfd s p → (interrupted (p_trace p0) ≤ interrupted (p_trace p))%nat →
  (∀ s' p', sv_inv listenfd s' p' → (interrupted (p_trace p0) ≤ interrupted (p_trace p'))%nat → k s' p') →
  post (sv_accept fuel listenfd s) p (through (sv_post (sv_inv listenfd) fuel p0) k).
Proof.
  intros Hs Hi Hk. unfold sv_accept. post_steps.
  eapply post_weaken; [by apply (Accept_post listenfd fuel p fuel p); [apply untouched_refl|lia]|].
  intros o p1 [Hi1 Ho]. destruct o as [[fd sa]| | | |]; cbn [through]; try done.
  - destruct Ho as (p2 & Hu & Hpos & Hfresh & ->).
    assert (Hs2 : sv_inv listenfd s p2) by by eapply sv_inv_untouched.
    destruct (first_free (client s)) as [i|] eqn:Ef.
    + cbn zeta. unfold fd_set_add. destruct (Z.leb_spec FD_SETSIZE fd); post_steps.
      * split; [lia|]. exists fd. split; [simpl; set_solver|done].
      * apply Hk; [|lia]. by apply sv_inv_accept.
    + eapply sv_exit; [apply err_quit_exits|lia].
  - split; [lia|done].
  - split; [lia|]. unfold MAXLINE. lia.
Qed.

Lemma sv_step_post fuel listenfd s p0 p :
  sv_inv listenfd s p → (interrupted (p_trace p0) ≤ interrupted (p_trace p))%nat →
  post (sv_step fuel listenfd s) p (sv_post (sv_inv listenfd) fuel p0).
Proof.
  intros Hs Hi. unfold sv_step, Select. post_steps. apply or_err_sys_untouched; [done..| |].
  2: { intros p' (_ & ? & _). split; [lia|done]. }
  intros [r w] p1 _ Hu. cbn [through]. cbn zeta.
  assert (Hs1 : sv_inv listenfd s p1) by by eapply sv_inv_untouched.
  assert (Hi1 : (interrupted (p_trace p0) ≤ interrupted (p_trace p1))%nat).
  { destruct Hu as (_ & ? & _). lia. }
  assert (Hscan : ∀ n s' p', sv_inv listenfd s' p' → (interrupted (p_trace p0) ≤ interrupted (p_trace p'))%nat →
    post (sv_scan fuel (Z.to_nat (maxi s' + 1)) 0 r n s') p' (sv_post (sv_inv listenfd) fuel p0)).
  { intros n s' p' Hs' Hi'. apply sv_scan_post; [done|done|].
    destruct Hs' as ((_ & _ & _ & _ & _ & Hm & _) & _). lia. }
  case_bool_decide; [|by apply Hscan]. post_steps. apply sv_accept_post; [done|done|].
  intros s2 p2 Hs2 Hi2. case_match; [by post_steps|]. by apply Hscan.
Qed.

Lemma sv_loop_post fuel listenfd p0 : ∀ turns s p,
  sv_inv listenfd s p → (interrupted (p_trace p0) ≤ interrupted (p_trace p))%nat →
  post (sv_loop turns fuel listenfd s) p (sv_post (sv_inv listenfd) fuel p0).
Proof.
  induction turns as [|t IH]; intros s p Hs Hi; cbn [sv_loop]; [by post_steps|].
  post_steps. eapply post_weaken; [by apply sv_step_post|].
  intros o p1 Ho. destruct o as [s1| | | |]; cbn [through]; try apply Ho.
  destruct Ho as [Hi1 Hs1]. by apply IH.
Qed.

Lemma sv_init_post listenfd p0 p (k : sv → proc → Prop) :
  0 ≤ listenfd → open_fds (p_trace p) = {[listenfd]} →
  (∀ fd, written fd (p_trace p) = received fd (p_trace p)) →
  (interrupted (p_trace p0) ≤ interrupted (p_trace p))%nat →
  (∀ s, sv_inv listenfd s p → k s p) →
  ∀ B (Q : B → proc → Prop) fuel, post (sv_init listenfd) p (through (sv_post Q fuel p0) k).
Proof.
  intros Hl Ho He Hi Hk B Q fuel. unfold sv_init, fd_set_add.
  destruct (Z.leb_spec FD_SETSIZE listenfd); post_steps.
  - split; [done|]. exists listenfd. split; [rewrite Ho; set_solver|done].
  - rewrite (right_id_L ∅ (∪)). apply Hk. split; [|by split]. apply table_init.
    cbn [allset maxfd]. intros fd ->%elem_of_singleton. lia.
Qed.
End facts.

(** ** Properties *)

(** C1: the select server, from its start and for any number of turns: the set
    given to [select] is exactly the listening socket and the connected
    clients, which are the open descriptors (none leaks, none is used after its
    close); every client has one entry of [client\[\]], within [maxi] and
    [maxfd]; and every byte received was sent back on the same connection, in
    order.  It stops only by [exit(1)], or by [FD_SET] of a descriptor of
    FD_SETSIZE or more, which it does not check. *)
Theorem select_main_correct (K : Kernel) (KOk : ReadWriteOk K) (KSock : SocketOk K)
    (KAcc : AcceptOk K) (KSel : SelectOk K) turns fuel :
  post (select_main turns fuel) proc0
    (sv_post (λ '(listenfd, s) p', sv_inv listenfd s p') fuel proc0).
Proof.
  unfold select_main, Socket, or_err_sys at 1. post_steps.
  2: { eapply sv_exit; [apply err_sys_exits|done]. }
  destruct (socket_fresh _ _ _ _ _ H) as [Hpos _].
  set (p1 := add_event _ _ proc0). unfold Bind, Listen.
  apply or_err_sys_untouched; [done..| |by intros p' (_ & ? & _)].
  intros [] p2 _ Hu2. cbn [through]. post_steps. apply or_err_sys_untouched; [done..| |].
  2: { intros p' _. split; [apply Nat.le_0_l|done]. }
  intros [] p3 _ Hu3. cbn [through]. post_steps.
  assert (Hu : untouched p1 p3).
  { eapply untouched_trans; [exact Hu2|]. eapply untouched_trans; [|exact Hu3]. by apply untouched_event. }
  destruct Hu as (Ho & Hi & Hm).
  apply sv_init_post; [done| | |simpl; lia|].
  - rewrite Ho. simpl. by rewrite (right_id_L ∅ (∪)).
  - intros fd. by destruct (Hm fd) as [-> ->].
  - intros s Hs. post_steps. eapply post_weaken; [apply (sv_loop_post fuel a proc0); [exact Hs|simpl; lia]|].
    intros o p4 [Hi4 Ho4]. destruct o as [s4| | | |]; cbn [through]; post_steps; done.
Qed.

(** Ready clients that always have a byte to say; [accept] gives the
    descriptors from [base] on. *)
Definition busy (base : Z) : Kernel := λ A t c,
  (match c in sys A return A → A with
   | sys_socket _ _ _ => λ _, Ok 3
   | sys_accept _ => λ _, Ok (base + Z.of_nat (List.length t), SaOther 0 [])
   | sys_read _ n => λ _, Ok (take (Z.to_nat n) [120])
   | _ => λ a, a
   end) (plain t c).

(** The select server does not check that a descriptor fits in an
    [fd_set]: when the system gives it one of FD_SETSIZE (a process may have
    more descriptors open than that) its behaviour is undefined. *)
Theorem select_main_fd_setsize :
  ∃ K : Kernel, (∀ t lfd fd sa, answer t (sys_accept lfd) = Ok (fd, sa) → 0 ≤ fd) ∧
    (select_main 1 1 proc0).1 = UB.
Proof.
  exists (busy 1024). split; [|by vm_compute].
  intros t lfd fd sa [= <- _]. lia.
Qed.

(** A system for the witness: the next descriptor is above the open ones, every
    descriptor is ready, and every client sends one byte and closes. *)
Definition next_fd (fds : gset Z) : Z := 1 + foldr Z.max 2 (elements fds).
Definition calm : Kernel := λ A t c,
  (match c in sys A return A → A with
   | sys_socket _ _ _ => λ _, Ok (next_fd (open_fds t))
   | sys_accept _ => λ _, Ok (next_fd (open_fds t), SaOther 0 [])
   | sys_read fd n => λ _, if bool_decide (received fd t = []) then Ok (take (Z.to_nat n) [120]) else Ok []
   | _ => λ a, a
   end) (plain t c).

Lemma next_fd_fresh fds : 0 ≤ next_fd fds ∧ next_fd fds ∉ fds.
Proof.
  assert (H : ∀ l : list Z, 2 ≤ foldr Z.max 2 l ∧ ∀ x, x ∈ l → x ≤ foldr Z.max 2 l).
  { induction l as [|y l [IH1 IH2]]; simpl; [split; [lia|by intros x ?%not_elem_of_nil]|].
    split; [lia|]. intros x [->|Hx]%elem_of_cons; [lia|]. specialize (IH2 x Hx). lia. }
  destruct (H (elements fds)) as [H1 H2]. unfold next_fd. split; [lia|].
  intros Hin. apply elem_of_elements, H2 in Hin. lia.
Qed.

Lemma next_fd_above fds x : x ∈ fds → x < next_fd fds.
Proof.
  intros Hx%elem_of_elements. unfold next_fd. induction (elements fds) as [|y l IH]; [by apply not_elem_of_nil in Hx|].
  simpl. apply elem_of_cons in Hx as [->|Hx]; [lia|]. specialize (IH Hx). lia.
Qed.

Lemma calm_ok : ReadWriteOk calm ∧ SocketOk calm ∧ AcceptOk calm ∧ SelectOk calm.
Proof.
  split_and!; split.
  - intros t fd n bs Hn. unfold answer, calm. case_bool_decide; intros [= <-]; simpl; [|lia].
    rewrite length_take. simpl. lia.
  - intros t fd buf n [= <-]. lia.
  - intros t f s p fd [= <-]. apply next_fd_fresh.
  - intros t f fd sa [= <- _]. apply next_fd_fresh.
  - intros t r w tm r' w' [= <- <-]. done.
Qed.

Lemma select_main_correct_witness :
  post (select_main (K := calm) 3 5) proc0 (sv_post (λ '(listenfd, s) p', sv_inv listenfd s p') 5 proc0) ∧
  match (select_main (K := calm) 3 5 proc0).1 with
  | Ret (listenfd, s) => listenfd = 3 ∧ take 4 (client s) = [-1; 5; 6; -1]
  | _ => False
  end.
Proof.
  destruct calm_ok as (H1 & H2 & H3 & H4).
  split; [by apply (select_main_correct _ H1 H2 H3 H4)|]. by vm_compute.
Defined.
