(* ===== verification/Gai.v ===== *)
(** getaddrinfo and getnameinfo: src/unpv13e/libgai (getaddrinfo.c,
    ga_aistruct.c, ga_clone.c, ga_echeck.c, ga_nsearch.c, ga_port.c, ga_serv.c,
    ga_unix.c, freeaddrinfo.c, getnameinfo.c, gn_ipv46.c, gai_strerror.c), with
    IPv4, IPv6 and UNIXdomain defined.

    A linked list of [struct addrinfo] is the list of its nodes; a node carries
    the identities of its heap blocks, so that what is allocated, freed and
    lost is visible in [p_live].  The resolver and the services database are
    calls of the system. *)
From S2P Require Import Prelude Machine Inet Posix Wrap Heap Stream Sockaddr.

(** ** addrinfo.h, gai_hdr.h *)

Definition AI_PASSIVE : Z := 1.
Definition AI_CANONNAME : Z := 2.
Definition AI_CLONE : Z := 4.
Definition NI_NOFQDN : Z := 1.
Definition NI_NUMERICHOST : Z := 2.
Definition NI_NAMEREQD : Z := 4.
Definition NI_NUMERICSERV : Z := 8.
Definition NI_DGRAM : Z := 16.
Definition EAI_ADDRFAMILY : Z := 1.
Definition EAI_AGAIN : Z := 2.
Definition EAI_BADFLAGS : Z := 3.
Definition EAI_FAIL : Z := 4.
Definition EAI_FAMILY : Z := 5.
Definition EAI_MEMORY : Z := 6.
Definition EAI_NODATA : Z := 7.
Definition EAI_NONAME : Z := 8.
Definition EAI_SERVICE : Z := 9.
Definition EAI_SOCKTYPE : Z := 10.
Definition EAI_SYSTEM : Z := 11.
Definition RES_INIT : Z := 1.
Definition RES_USE_INET6 : Z := 8192.

(** [struct search]. *)
Record search := Search { s_host : string; s_family : Z }.

Definition empty_name (s : option string) : bool :=
  match s with None => true | Some s => streq s "" end.

(** ** gai_strerror.c *)

Definition gai_strerror (err : Z) : string :=
  if err =? EAI_ADDRFAMILY then "address family for host not supported"
  else if err =? EAI_AGAIN then "temporary failure in name resolution"
  else if err =? EAI_BADFLAGS then "invalid flags value"
  else if err =? EAI_FAIL then "non-recoverable failure in name resolution"
  else if err =? EAI_FAMILY then "address family not supported"
  else if err =? EAI_MEMORY then "memory allocation failure"
  else if err =? EAI_NODATA then "no address associated with host"
  else if err =? EAI_NONAME then "host nor service provided, or not known"
  else if err =? EAI_SERVICE then "service not supported for socket type"
  else if err =? EAI_SOCKTYPE then "socket type not supported"
  else if err =? EAI_SYSTEM then "system error"
  else "unknown getaddrinfo() error".

(** ** ga_echeck.c *)

Definition ga_echeck (hostname servname : option string)
    (flags family socktype protocol : Z) : Z :=
  if negb (Z.land flags (Z.lnot (Z.lor AI_PASSIVE AI_CANONNAME)) =? 0) then EAI_BADFLAGS
  else if empty_name hostname && empty_name servname then EAI_NONAME
  else if family =? AF_UNSPEC then 0
  else if (family =? AF_INET) || (family =? AF_INET6) then
    if negb (socktype =? 0) &&
       (negb (socktype =? SOCK_STREAM) && negb (socktype =? SOCK_DGRAM) && negb (socktype =? SOCK_RAW))
    then EAI_SOCKTYPE else 0
  else if family =? AF_LOCAL then
    if negb (socktype =? 0) && (negb (socktype =? SOCK_STREAM) && negb (socktype =? SOCK_DGRAM))
    then EAI_SOCKTYPE else 0
  else EAI_FAMILY.

(** ** ga_nsearch.c: the entries filled in; there must be one or two *)

Definition nsearch_entries (hostname : option string) (flags family : Z) : list search :=
  let pick (v4 v6 : string) :=
    if family =? AF_INET then [Search v4 AF_INET]
    else if family =? AF_INET6 then [Search v6 AF_INET6]
    else if family =? AF_UNSPEC then [Search v6 AF_INET6; Search v4 AF_INET]
    else [] in
  match hostname with
  | Some h =>
      if streq h "" then
        if has flags AI_PASSIVE then pick "0.0.0.0" "0::0" else pick "localhost" "0::1"
      else pick h h
  | None => if has flags AI_PASSIVE then pick "0.0.0.0" "0::0" else pick "localhost" "0::1"
  end.

Section gai.
Context {K : Kernel}.

Definition ga_nsearch (hostname : option string) (hintsp : hints) : M (list search) :=
  let search := nsearch_entries hostname (h_flags hintsp) (h_family hintsp) in
  let nsearch := Z.of_nat (List.length search) in
  if (nsearch <? 1) || (2 <? nsearch) then err_quit ("nsearch = " +:+ fmt_d nsearch)
  else mret search.

(** [strdup] *)
Definition strdup (s : string) : M (option (ptr * string)) :=
  q ← malloc (strlen s + 1);
  mret ((λ q, (q, s)) <$> q).

(** ** freeaddrinfo.c *)

Fixpoint freeaddrinfo (ai : chain) : M unit :=
  match ai with
  | [] => mret tt
  | a :: ainext =>
      free_opt (fst <$> ai_addr a) ;;
      free_opt (fst <$> ai_canonname a) ;;
      free (ai_self a) ;;
      freeaddrinfo ainext
  end.

(** ** ga_aistruct.c *)

(** A C string in memory: the bytes before the first NUL. *)
Fixpoint c_string (bs : list Z) : option string :=
  match bs with
  | [] => None
  | b :: bs' => if b =? 0 then Some EmptyString else String (chr b) <$> c_string bs'
  end.

(** Appends a node to the list; [addr] are the bytes at the caller's pointer. *)
Definition ga_aistruct (ais : chain) (hintsp : hints) (addr : list Z) (family : Z) : M (Z * chain) :=
  q ← malloc SIZEOF_ADDRINFO;
  match q with
  | None => mret (EAI_MEMORY, ais)
  | Some self =>
      let flags := if h_socktype hintsp =? 0 then AI_CLONE else 0 in
      let node len a :=
        AddrInfo self flags family (h_socktype hintsp) (h_protocol hintsp) len None a in
      if family =? AF_INET then
        q ← malloc SIZEOF_SOCKADDR_IN;
        match q with
        | None => mret (EAI_MEMORY, ais ++ [node 0 None])
        | Some a => mret (0, ais ++ [node SIZEOF_SOCKADDR_IN (Some (a, SaIn 0 (take 4 addr)))])
        end
      else if family =? AF_INET6 then
        q ← malloc SIZEOF_SOCKADDR_IN6;
        match q with
        | None => mret (EAI_MEMORY, ais ++ [node 0 None])
        | Some a => mret (0, ais ++ [node SIZEOF_SOCKADDR_IN6 (Some (a, SaIn6 0 (take 16 addr)))])
        end
      else if family =? AF_LOCAL then
        match c_string addr with
        | None => stop UB
        | Some path =>
            if SIZEOF_SUN_PATH <=? strlen path then mret (EAI_SERVICE, ais ++ [node 0 None])
            else
              q ← malloc SIZEOF_SOCKADDR_UN;
              match q with
              | None => mret (EAI_MEMORY, ais ++ [node 0 None])
              | Some a =>
                  (if has (h_flags hintsp) AI_PASSIVE
                   then syscall (sys_unlink path) ;; mret tt else mret tt) ;;
                  mret (0, ais ++ [node SIZEOF_SOCKADDR_UN
                                     (Some (a, SaUn (char_array SIZEOF_SUN_PATH path)))])
              end
        end
      else mret (0, ais ++ [node 0 None])
  end.

(** ** ga_clone.c *)

(** The clone, linked after [ai]; [false] when its address could not be
    allocated: it stays in the list without one.  That of a node without
    address has no bytes. *)
Definition ga_clone (ai : addrinfo) : M (option (addrinfo * bool)) :=
  q ← malloc SIZEOF_ADDRINFO;
  match q with
  | None => mret None
  | Some self =>
      let new a := AddrInfo self 0 (ai_family ai) (ai_socktype ai) (ai_protocol ai)
                     (ai_addrlen ai) None a in
      q ← malloc (ai_addrlen ai);
      match q with
      | None => mret (Some (new None, false))
      | Some a =>
          match ai_addr ai with
          | Some (_, sa) => mret (Some (new (Some (a, sa)), true))
          | None => mret (Some (new (Some (a, SaOther 0 [])), true))
          end
      end
  end.

(** ** ga_port.c *)

(** The socket type and the port set in a node; whether it counts in [nfound].
    A node of an Internet family without address would be dereferenced. *)
Definition set_port (ai : addrinfo) (port socktype : Z) : M (addrinfo * Z) :=
  let upd a := AddrInfo (ai_self ai) (ai_flags ai) (ai_family ai) socktype (ai_protocol ai)
                 (ai_addrlen ai) (ai_canonname ai) a in
  if (ai_family ai =? AF_INET) || (ai_family ai =? AF_INET6) then
    match ai_addr ai with
    | Some (q, sa) => mret (upd (Some (q, sock_set_port sa port)), 1)
    | None => stop UB
    end
  else mret (upd (ai_addr ai), 0).

(** [None]: -1. *)
Fixpoint ga_port (aihead : chain) (port socktype : Z) : M (option Z * chain) :=
  match aihead with
  | [] => mret (Some 0, [])
  | ai :: rest =>
      if has (ai_flags ai) AI_CLONE then
        if negb (ai_socktype ai =? 0) then
          c ← ga_clone ai;
          match c with
          | None => mret (None, ai :: rest)
          | Some (new, false) => mret (None, ai :: new :: rest)
          | Some (new, true) =>
              '(new, n) ← set_port new port socktype;
              '(r, rest) ← ga_port rest port socktype;
              mret (Z.add n <$> r, ai :: new :: rest)
          end
        else
          '(ai, n) ← set_port ai port socktype;
          '(r, rest) ← ga_port rest port socktype;
          mret (Z.add n <$> r, ai :: rest)
      else if negb (ai_socktype ai =? socktype) then
        '(r, rest) ← ga_port rest port socktype;
        mret (r, ai :: rest)
      else
        '(ai, n) ← set_port ai port socktype;
        '(r, rest) ← ga_port rest port socktype;
        mret (Z.add n <$> r, ai :: rest)
  end.

(** ** ga_serv.c *)

(** One call of [ga_port], [nfound] being the count so far; [inl] is an error. *)
Definition serv_port (aihead : chain) (port socktype nfound : Z) : M (option Z * chain) :=
  '(rc, aihead) ← ga_port aihead port socktype;
  mret (Z.add nfound <$> rc, aihead).

(** A service looked up for a protocol when the socket type allows it. *)
Definition serv_name (aihead : chain) (hintsp : hints) (serv proto : string) (socktype nfound : Z)
    : M (option Z * chain) :=
  if (h_socktype hintsp =? 0) || (h_socktype hintsp =? socktype) then
    sptr ← call (sys_getservbyname serv proto);
    match sptr with
    | Some s_port => serv_port aihead s_port socktype nfound
    | None => mret (Some nfound, aihead)
    end
  else mret (Some nfound, aihead).

Definition ga_serv (aihead : chain) (hintsp : hints) (serv : string) : M (Z * chain) :=
  '(nfound, aihead) ←
    (if isdigit (head_char serv) then
       let port := htons (atoi serv) in
       if negb (h_socktype hintsp =? 0) then serv_port aihead port (h_socktype hintsp) 0
       else
         '(n, aihead) ← serv_port aihead port SOCK_STREAM 0;
         match n with
         | None => mret (None, aihead)
         | Some n => serv_port aihead port SOCK_DGRAM n
         end
     else
       '(n, aihead) ← serv_name aihead hintsp serv "tcp" SOCK_STREAM 0;
       match n with
       | None => mret (None, aihead)
       | Some n => serv_name aihead hintsp serv "udp" SOCK_DGRAM n
       end);
  match nfound with
  | None => mret (EAI_MEMORY, aihead)
  | Some nfound =>
      if nfound =? 0 then
        if h_socktype hintsp =? 0 then mret (EAI_NONAME, aihead) else mret (EAI_SERVICE, aihead)
      else mret (0, aihead)
  end.

(** ** ga_unix.c *)

Definition set_canonname (ais : chain) (name : ptr * string) : chain :=
  match ais with
  | [] => []
  | ai :: rest =>
      AddrInfo (ai_self ai) (ai_flags ai) (ai_family ai) (ai_socktype ai) (ai_protocol ai)
        (ai_addrlen ai) (Some name) (ai_addr ai) :: rest
  end.
Definition with_socktype (h : hints) (t : Z) : hints :=
  Hints (h_flags h) (h_family h) t (h_protocol h).

(** The list is the result when the code is 0; on an error it is lost. *)
Definition ga_unix (path : string) (hintsp : hints) : M (Z * chain) :=
  if negb (h_family hintsp =? AF_UNSPEC) && negb (h_family hintsp =? AF_LOCAL)
  then mret (EAI_ADDRFAMILY, [])
  else
    let addr := to_bytes path ++ [0] in
    '(rc, aihead, hintsp) ←
      (if h_socktype hintsp =? 0 then
         '(rc, aihead) ← ga_aistruct [] (with_socktype hintsp SOCK_STREAM) addr AF_LOCAL;
         mret (rc, aihead, with_socktype hintsp SOCK_DGRAM)
       else mret (0, [], hintsp));
    if negb (rc =? 0) then mret (rc, aihead)
    else
      '(rc, aihead) ← ga_aistruct aihead hintsp addr AF_LOCAL;
      if negb (rc =? 0) then mret (rc, aihead)
      else if has (h_flags hintsp) AI_CANONNAME then
        myname ← syscall sys_uname;
        match myname with
        | None => mret (EAI_SYSTEM, aihead)
        | Some nodename =>
            c ← strdup nodename;
            match c with
            | None => mret (EAI_MEMORY, aihead)
            | Some name => mret (0, set_canonname aihead name)
            end
        end
      else mret (0, aihead).

(** ** getaddrinfo.c *)

(** What one entry of [search\[\]] leads to: the next one, an error, or the
    resolver. *)
Inductive flow :=
| Next (ais : chain)
| Bad (error : Z) (ais : chain)
| LookUp.

Definition try_literal (hints : hints) (s : search) (ais : chain) : M flow :=
  match (if isdigit (head_char (s_host s)) then inet_pton AF_INET (s_host s) else PtonInvalid) with
  | PtonOk inaddr =>
      if negb (h_family hints =? AF_UNSPEC) && negb (h_family hints =? AF_INET)
      then mret (Bad EAI_ADDRFAMILY ais)
      else if negb (s_family s =? AF_INET) then mret (Next ais)
      else
        '(rc, ais) ← ga_aistruct ais hints inaddr AF_INET;
        mret (if negb (rc =? 0) then Bad rc ais else Next ais)
  | _ =>
      match (if (isxdigit (head_char (s_host s)) || Ascii.eqb (head_char (s_host s)) ":")
                && bool_decide (is_Some (strchr (s_host s) ":"))
             then inet_pton AF_INET6 (s_host s) else PtonInvalid) with
      | PtonOk in6addr =>
          if negb (h_family hints =? AF_UNSPEC) && negb (h_family hints =? AF_INET6)
          then mret (Bad EAI_ADDRFAMILY ais)
          else if negb (s_family s =? AF_INET6) then mret (Next ais)
          else
            '(rc, ais) ← ga_aistruct ais hints in6addr AF_INET6;
            mret (if negb (rc =? 0) then Bad rc ais else Next ais)
      | _ => mret LookUp
      end
  end.

(** The resolver, by the number of searches. *)
Definition look_up (nsearch : nat) (s : search) : M (option hostent) :=
  o ← get_res_options;
  (if negb (has o RES_INIT) then o ← call sys_res_init; set_res_options o else mret tt) ;;
  o ← get_res_options;
  if Nat.eqb nsearch 2 then
    let o := Z.land o (Z.lnot RES_USE_INET6) in
    set_res_options o ;;
    hostcall (sys_gethostbyname2 o (s_host s) (s_family s))
  else
    let o := if s_family s =? AF_INET6 then Z.lor o RES_USE_INET6
             else Z.land o (Z.lnot RES_USE_INET6) in
    set_res_options o ;;
    hostcall (sys_gethostbyname o (s_host s)).

Definition host_error (h_errno : Z) : Z :=
  if h_errno =? HOST_NOT_FOUND then EAI_NONAME
  else if h_errno =? TRY_AGAIN then EAI_AGAIN
  else if h_errno =? NO_RECOVERY then EAI_FAIL
  else if h_errno =? NO_DATA then EAI_NODATA
  else EAI_NONAME.

(** One node for each address. *)
Fixpoint ga_addrs (hints : hints) (addrs : list (list Z)) (family : Z) (ais : chain) : M (Z * chain) :=
  match addrs with
  | [] => mret (0, ais)
  | ap :: addrs' =>
      '(rc, ais) ← ga_aistruct ais hints ap family;
      if negb (rc =? 0) then mret (rc, ais) else ga_addrs hints addrs' family ais
  end.

(** The canonical name, saved the first time. *)
Definition save_canon (hostname : option string) (hints : hints) (hptr : hostent)
    (canon : option (ptr * string)) : M (bool * option (ptr * string)) :=
  if negb (empty_name hostname) && has (h_flags hints) AI_CANONNAME &&
     bool_decide (canon = None) then
    match h_name hptr with
    | None => stop UB
    | Some n => c ← strdup n; mret (bool_decide (is_Some c), c)
    end
  else mret (true, canon).

(** The loop over [search\[\]]: error code (0 when it ends), list, [canon]. *)
Fixpoint ga_search (hostname : option string) (hints : hints) (nsearch : nat) (search : list search)
    (ais : chain) (canon : option (ptr * string)) : M (Z * chain * option (ptr * string)) :=
  match search with
  | [] => mret (0, ais, canon)
  | s :: search' =>
      f ← try_literal hints s ais;
      match f with
      | Next ais => ga_search hostname hints nsearch search' ais canon
      | Bad e ais => mret (e, ais, canon)
      | LookUp =>
          h ← look_up nsearch s;
          match h with
          | None =>
              if Nat.eqb nsearch 2 then ga_search hostname hints nsearch search' ais canon
              else e ← get_h_errno; mret (host_error e, ais, canon)
          | Some hptr =>
              if negb (h_family hints =? AF_UNSPEC) && negb (h_family hints =? h_addrtype hptr)
              then mret (EAI_ADDRFAMILY, ais, canon)
              else
                '(ok, canon) ← save_canon hostname hints hptr canon;
                if negb (ok : bool) then mret (EAI_MEMORY, ais, canon)
                else
                  '(rc, ais) ← ga_addrs hints (h_addr_list hptr) (h_addrtype hptr) ais;
                  if negb (rc =? 0) then mret (rc, ais, canon)
                  else ga_search hostname hints nsearch search' ais canon
          end
      end
  end.

(** The canonical name stored in the first node; error code and list. *)
Definition put_canon (hostname : option string) (hints : hints) (host0 : string) (aihead : chain)
    (canon : option (ptr * string)) : M (Z * chain) :=
  if negb (empty_name hostname) && has (h_flags hints) AI_CANONNAME then
    match canon with
    | Some c => mret (0, set_canonname aihead c)
    | None =>
        c ← strdup host0;
        match c with
        | None => mret (EAI_MEMORY, aihead)
        | Some c => mret (0, set_canonname aihead c)
        end
    end
  else mret (0, aihead).

Definition bad (aihead : chain) (error : Z) : M (Z * chain) :=
  freeaddrinfo aihead ;; mret (error, []).

Definition is_local (hostname servname : option string) : option string :=
  match hostname, servname with
  | Some h, Some s =>
      if (streq h "/local" || streq h "/unix") && Ascii.eqb (head_char s) "/" then Some s else None
  | _, _ => None
  end.

(** The return value, and [*result] when it is 0 (for an error of [ga_unix], the
    list it leaves behind). *)
Definition getaddrinfo (hostname servname : option string) (hintsp : option hints) : M (Z * chain) :=
  let hints := match hintsp with None => Hints 0 AF_UNSPEC 0 0 | Some h => h end in
  let rc := ga_echeck hostname servname (h_flags hints) (h_family hints) (h_socktype hints)
              (h_protocol hints) in
  if negb (rc =? 0) then bad [] rc
  else
    match is_local hostname servname with
    | Some path => ga_unix path hints
    | None =>
        search ← ga_nsearch hostname hints;
        '(rc, aihead, canon) ← ga_search hostname hints (List.length search) search [] None;
        if negb (rc =? 0) then bad aihead rc
        else
          match aihead with
          | [] => bad [] EAI_NONAME
          | _ =>
              '(rc, aihead) ← put_canon hostname hints (from_option s_host "" (head search)) aihead canon;
              if negb (rc =? 0) then bad aihead rc
              else
                '(rc, aihead) ← (match servname with
                   | Some serv => if streq serv "" then mret (0, aihead) else ga_serv aihead hints serv
                   | None => mret (0, aihead)
                   end);
                if negb (rc =? 0) then bad aihead rc else mret (0, aihead)
          end
    end.

(** ** getnameinfo.c, gn_ipv46.c *)

(** The return value and the two strings; [None] where nothing was stored. *)
Definition gn_host (hostlen : Z) (aptr : list Z) (family flags : Z) : M (Z * option string) :=
  let numeric :=
    r ← ntop (inet_ntop family aptr hostlen);
    match r with Some s => mret (0, Some s) | None => mret (1, None) end in
  if 0 <? hostlen then
    if has flags NI_NUMERICHOST then numeric
    else
      hptr ← hostcall (sys_gethostbyaddr aptr family);
      match hptr ≫= h_name with
      | Some name =>
          let name :=
            if has flags NI_NOFQDN then
              match strchr name "." with
              | Some i => str_take (Z.to_nat i) name
              | None => name
              end
            else name in
          mret (0, Some (snprintf hostlen name))
      | None => if has flags NI_NAMEREQD then mret (1, None) else numeric
      end
  else mret (0, None).

Definition gn_serv (servlen port flags : Z) : M (option string) :=
  if 0 <? servlen then
    if has flags NI_NUMERICSERV then mret (Some (snprintf servlen (fmt_d (ntohs port))))
    else
      sptr ← call (sys_getservbyport port (if has flags NI_DGRAM then Some "udp"%string else None));
      match sptr with
      | Some s_name => mret (Some (snprintf servlen s_name))
      | None => mret (Some (snprintf servlen (fmt_d (ntohs port))))
      end
  else mret None.

Definition gn_ipv46 (hostlen servlen : Z) (aptr : list Z) (family port flags : Z)
    : M (Z * option string * option string) :=
  '(rc, host) ← gn_host hostlen aptr family flags;
  if negb (rc =? 0) then mret (rc, host, None)
  else
    serv ← gn_serv servlen port flags;
    mret (0, host, serv).

Definition getnameinfo (sa : sockaddr) (hostlen servlen flags : Z)
    : M (Z * option string * option string) :=
  match sa with
  | SaIn port addr => gn_ipv46 hostlen servlen addr AF_INET port flags
  | SaIn6 port addr => gn_ipv46 hostlen servlen addr AF_INET6 port flags
  | SaUn path =>
      let host := if 0 <? hostlen then Some (snprintf hostlen "/local") else None in
      if 0 <? servlen then
        match cstr path with
        | Some s => mret (0, host, Some (snprintf servlen s))
        | None => stop UB
        end
      else mret (0, host, None)
  | SaOther _ _ => mret (1, None, None)
  end.
End gai.

(** ** Ownership of heap blocks *)

(** The blocks of a list. *)
Definition blocks1 (ai : addrinfo) : list ptr :=
  ai_self ai :: option_list (fst <$> ai_canonname ai) ++ option_list (fst <$> ai_addr ai).
Definition blocks (ais : chain) : list ptr := ais ≫= blocks1.
Definition canon_block (c : option (ptr * string)) : list ptr := option_list (fst <$> c).

(** What the documentation of the resolver promises of a [hostent]: a name, an
    Internet family, addresses of its length. *)
Definition hostent_ok (h : hostent) : Prop :=
  is_Some (h_name h) ∧
  (h_addrtype h = AF_INET ∧ Forall (λ a, List.length a = 4%nat ∧ bytes_ok a) (h_addr_list h) ∨
   h_addrtype h = AF_INET6 ∧ Forall (λ a, List.length a = 16%nat ∧ bytes_ok a) (h_addr_list h)).
Class ResolverOk (K : Kernel) : Prop := {
  gethostbyname_ok : ∀ t o n h, answer t (sys_gethostbyname o n) = Ok h → hostent_ok h;
  gethostbyname2_ok : ∀ t o n f h, answer t (sys_gethostbyname2 o n f) = Ok h → hostent_ok h ∧ h_addrtype h = f
}.

Lemma blocks_app a b : blocks (a ++ b) = blocks a ++ blocks b.
Proof. unfold blocks. by rewrite bind_app. Qed.
Lemma blocks_one ai : blocks [ai] = blocks1 ai.
Proof. unfold blocks. cbn [mbind list_bind]. apply app_nil_r. Qed.

Section memory.
Context {K : Kernel}.

Lemma strdup_holds s p0 own p (Q : outcome (option (ptr * string)) → proc → Prop) :
  holds p0 own p →
  (∀ c p', holds p0 (canon_block c ++ own) p' → Q (Ret c) p') →
  post (strdup s) p Q.
Proof.
  intros Hh HQ. unfold strdup. post_step. apply (malloc_holds _ p0 own); [done| |].
  - intros q p' Hp'. cbn [through]. post_steps. exact (HQ (Some (q, s)) p' Hp').
  - intros p' Hp'. cbn [through]. post_steps. exact (HQ None p' Hp').
Qed.

(** [freeaddrinfo] frees every block of the list, once. *)
Lemma freeaddrinfo_holds p0 own ais : ∀ p (Q : outcome unit → proc → Prop),
  holds p0 (blocks ais ++ own) p → (∀ p', holds p0 own p' → Q (Ret tt) p') →
  post (freeaddrinfo ais) p Q.
Proof.
  induction ais as [|a ais IH]; intros p Q Hh HQ; cbn [freeaddrinfo]; [by apply post_ret, HQ|].
  post_step. apply (free_opt_holds _ p0 (option_list (fst <$> ai_canonname a) ++ ai_self a :: blocks ais ++ own)).
  { eapply holds_perm; [|exact Hh]. simpl. unfold blocks1. fold (blocks ais). solve_Permutation. }
  intros p1 Hh1. cbn [through]. post_step. eapply free_opt_holds; [exact Hh1|].
  intros p2 Hh2. cbn [through]. post_step. eapply free_holds; [exact Hh2|].
  intros p3 Hh3. cbn [through]. by eapply IH.
Qed.
End memory.

(** ** Lemmas on the construction of the list *)

(** The address stored in a new node. *)
Definition new_addr (family : Z) (addr : list Z) (ai : addrinfo) : Prop :=
  if family =? AF_INET then
    ai_addrlen ai = SIZEOF_SOCKADDR_IN ∧ ∃ q, ai_addr ai = Some (q, SaIn 0 (take 4 addr))
  else if family =? AF_INET6 then
    ai_addrlen ai = SIZEOF_SOCKADDR_IN6 ∧ ∃ q, ai_addr ai = Some (q, SaIn6 0 (take 16 addr))
  else if family =? AF_LOCAL then
    ai_addrlen ai = SIZEOF_SOCKADDR_UN ∧ ∃ q path, c_string addr = Some path ∧
      strlen path < SIZEOF_SUN_PATH ∧ ai_addr ai = Some (q, SaUn (char_array SIZEOF_SUN_PATH path))
  else ai_addr ai = None.
Definition new_node (h : hints) (family : Z) (addr : list Z) (ai : addrinfo) : Prop :=
  ai_family ai = family ∧ ai_socktype ai = h_socktype h ∧ ai_protocol ai = h_protocol h ∧
  ai_flags ai = (if h_socktype h =? 0 then AI_CLONE else 0) ∧ ai_canonname ai = None ∧
  new_addr family addr ai.

Section build.
Context {K : Kernel}.

Lemma ga_aistruct_holds ais h addr family p0 own p (Q : outcome (Z * chain) → proc → Prop) :
  holds p0 (blocks ais ++ own) p →
  (family = AF_LOCAL → is_Some (c_string addr)) →
  (∀ rc ai p', holds p0 (blocks (ais ++ [ai]) ++ own) p' → (rc = 0 → new_node h family addr ai) →
     Q (Ret (rc, ais ++ [ai])) p') →
  (∀ rc p', holds p0 (blocks ais ++ own) p' → rc ≠ 0 → Q (Ret (rc, ais)) p') →
  post (ga_aistruct ais h addr family) p Q.
Proof.
  intros Hh Hstr H1 H2. unfold ga_aistruct. post_step.
  apply (malloc_holds _ p0 _ _ _ Hh); [|intros p' Hp'; cbn [through]; post_steps; by apply H2].
  intros self p1 Hp1. cbn [through]. cbn zeta.
  assert (Hone : ∀ ai p', blocks1 ai = [self] → holds p0 (self :: blocks ais ++ own) p' →
    holds p0 (blocks (ais ++ [ai]) ++ own) p').
  { intros ai p' Hai Hp'. eapply holds_perm; [|exact Hp']. rewrite blocks_app, blocks_one, Hai.
    solve_Permutation. }
  assert (Htwo : ∀ ai a p', blocks1 ai = [self; a] → holds p0 (a :: self :: blocks ais ++ own) p' →
    holds p0 (blocks (ais ++ [ai]) ++ own) p').
  { intros ai a p' Hai Hp'. eapply holds_perm; [|exact Hp']. rewrite blocks_app, blocks_one, Hai.
    solve_Permutation. }
  unfold new_node, new_addr in *.
  destruct (Z.eqb_spec family AF_INET) as [E4|E4]; [|destruct (Z.eqb_spec family AF_INET6) as [E6|E6];
    [|destruct (Z.eqb_spec family AF_LOCAL) as [El|El]]].
  - post_step. apply (malloc_holds _ p0 _ _ _ Hp1); [intros a p2 Hp2|intros p2 Hp2]; cbn [through]; post_steps.
    + apply H1; [by eapply Htwo|]. intros _. split_and!; try done. eauto.
    + apply H1; [by eapply Hone|done].
  - post_step. apply (malloc_holds _ p0 _ _ _ Hp1); [intros a p2 Hp2|intros p2 Hp2]; cbn [through]; post_steps.
    + apply H1; [by eapply Htwo|]. intros _. split_and!; try done. eauto.
    + apply H1; [by eapply Hone|done].
  - destruct (Hstr El) as [path Hpath]. rewrite Hpath in *.
    destruct (Z.leb_spec SIZEOF_SUN_PATH (strlen path)); [post_steps; apply H1; [by eapply Hone|done]|].
    post_step. apply (malloc_holds _ p0 _ _ _ Hp1); [intros a p2 Hp2|intros p2 Hp2]; cbn [through].
    + assert (Hdone : ∀ p', holds p0 (a :: self :: blocks ais ++ own) p' →
        Q (Ret (0, ais ++ [AddrInfo self (if h_socktype h =? 0 then AI_CLONE else 0) family (h_socktype h)
          (h_protocol h) SIZEOF_SOCKADDR_UN None (Some (a, SaUn (char_array SIZEOF_SUN_PATH path)))])) p').
      { intros p' Hp'. apply H1; [by eapply Htwo|]. intros _. split_and!; try done. eauto. }
      post_step. destruct (has (h_flags h) AI_PASSIVE); post_steps; by apply Hdone.
    + post_steps. apply H1; [by eapply Hone|done].
  - post_steps. apply H1; [by eapply Hone|]. intros _. done.
Qed.

(** Every node of the list has the family, socket type and protocol asked for,
    and an address of its family. *)
Definition node_ok (h : hints) (ai : addrinfo) : Prop :=
  (ai_family ai = AF_INET ∨ ai_family ai = AF_INET6) ∧
  (h_family h = AF_UNSPEC ∨ ai_family ai = h_family h) ∧
  (h_socktype h = 0 ∨ ai_socktype ai = h_socktype h) ∧
  ai_protocol ai = h_protocol h ∧
  ∃ q sa, ai_addr ai = Some (q, sa) ∧ sa_family sa = ai_family ai ∧ sockaddr_ok sa ∧
    ai_addrlen ai = (if ai_family ai =? AF_INET then SIZEOF_SOCKADDR_IN else SIZEOF_SOCKADDR_IN6).

(** A node of the search has no canonical name yet. *)
Definition bare (h : hints) (ai : addrinfo) : Prop := node_ok h ai ∧ ai_canonname ai = None.

Definition addr_bytes (family : Z) (a : list Z) : Prop :=
  family = AF_INET ∧ List.length a = 4%nat ∧ bytes_ok a ∨
  family = AF_INET6 ∧ List.length a = 16%nat ∧ bytes_ok a.

Lemma new_node_ok h family addr ai :
  addr_bytes family addr → h_family h = AF_UNSPEC ∨ family = h_family h →
  new_node h family addr ai → bare h ai.
Proof.
  intros Ha Hf (E1 & E2 & E3 & E4 & E5 & E6). split; [|done]. unfold node_ok. rewrite E1, E2, E3. unfold new_addr in E6.
  destruct Ha as [(-> & Hl & Hb)|(-> & Hl & Hb)]; simpl in E6; destruct E6 as (E6 & q & E7);
    rewrite take_ge in E7 by lia; split_and!; auto; eexists q, _; (split; [exact E7|]);
    (split; [done|]); (split; [|done]); simpl; split_and!; done || lia.
Qed.

(** What [ga_search] and the steps after it keep: the list owns its blocks and
    its nodes are well formed. *)
Definition building (p0 : proc) (h : hints) (ais : chain) (own : list ptr) (p : proc) : Prop :=
  holds p0 (blocks ais ++ own) p ∧ Forall (node_ok h) ais.

Definition collecting (p0 : proc) (h : hints) (ais : chain) (own : list ptr) (p : proc) : Prop :=
  holds p0 (blocks ais ++ own) p ∧ Forall (bare h) ais.

Lemma ga_addrs_holds h family p0 own addrs : ∀ ais p (Q : outcome (Z * chain) → proc → Prop),
  Forall (addr_bytes family) addrs → h_family h = AF_UNSPEC ∨ family = h_family h →
  collecting p0 h ais own p →
  (∀ rc ais' p', holds p0 (blocks ais' ++ own) p' → (rc = 0 → Forall (bare h) ais') →
     Q (Ret (rc, ais')) p') →
  post (ga_addrs h addrs family ais) p Q.
Proof.
  induction addrs as [|a addrs IH]; intros ais p Q Ha Hf [Hh Hn] HQ; cbn [ga_addrs].
  { apply post_ret, HQ; auto. }
  apply Forall_cons in Ha as [Ha1 Ha]. post_step. eapply ga_aistruct_holds; [exact Hh| | |].
  - intros ->. by destruct Ha1 as [[? _]|[? _]].
  - intros rc ai p' Hp' Hnew. cbn [through]. destruct (Z.eqb_spec rc 0) as [->|Hne]; cbn [negb].
    + apply IH; [done|done| |done]. split; [done|]. apply Forall_app. split; [done|].
      constructor; [|constructor]. by eapply new_node_ok; [..|apply Hnew].
    + by apply post_ret, HQ.
  - intros rc p' Hp' Hrc. cbn [through]. rewrite (proj2 (Z.eqb_neq _ _) Hrc). by apply post_ret, HQ.
Qed.
End build.

Section searching.
Context {K : Kernel} {KRes : ResolverOk K}.

Lemma set_res_options_holds o p0 own p (Q : outcome unit → proc → Prop) :
  holds p0 own p → (∀ p', holds p0 own p' → Q (Ret tt) p') → post (set_res_options o) p Q.
Proof. intros Hh HQ. apply HQ. by eapply holds_same; [..|exact Hh]. Qed.

Lemma hostcall_holds (c : sys (res hostent)) p0 own p (Q : outcome (option hostent) → proc → Prop) :
  holds p0 own p →
  (∀ h p', answer (p_trace p) c = Ok h → holds p0 own p' → Q (Ret (Some h)) p') →
  (∀ p', holds p0 own p' → Q (Ret None) p') → post (hostcall c) p Q.
Proof.
  intros Hh H1 H2. unfold hostcall. post_steps. destruct a as [h|e]; post_steps.
  - apply H1; [done|]. by apply holds_event.
  - apply H2. by eapply (holds_same _ _ (add_event c (Err e) p)); [..|apply holds_event].
Qed.

Lemma look_up_holds n s p0 own p (Q : outcome (option hostent) → proc → Prop) :
  holds p0 own p →
  (∀ h p', hostent_ok h → (n = 2%nat → h_addrtype h = s_family s) → holds p0 own p' → Q (Ret (Some h)) p') →
  (∀ p', holds p0 own p' → Q (Ret None) p') →
  post (look_up n s) p Q.
Proof.
  intros Hh H1 H2. unfold look_up. apply post_bind. unfold post, get_res_options at 1. cbn [through].
  apply post_bind. set (o := p_res_options p).
  assert (Hrest : ∀ p1, holds p0 own p1 → post (o ← get_res_options;
    if Nat.eqb n 2 then
      set_res_options (Z.land o (Z.lnot RES_USE_INET6)) ;;
      hostcall (sys_gethostbyname2 (Z.land o (Z.lnot RES_USE_INET6)) (s_host s) (s_family s))
    else
      set_res_options (if s_family s =? AF_INET6 then Z.lor o RES_USE_INET6 else Z.land o (Z.lnot RES_USE_INET6)) ;;
      hostcall (sys_gethostbyname (if s_family s =? AF_INET6 then Z.lor o RES_USE_INET6
        else Z.land o (Z.lnot RES_USE_INET6)) (s_host s))) p1 Q).
  { intros p1 Hp1. apply post_bind. unfold post, get_res_options at 1. cbn [through].
    destruct (Nat.eqb_spec n 2) as [->|Hn]; apply post_bind; eapply set_res_options_holds; try done;
      intros p2 Hp2; cbn [through]; apply (hostcall_holds _ _ _ _ _ Hp2); try done.
    - intros h p' Ha Hp'. apply gethostbyname2_ok in Ha as [? ?]. by apply H1.
    - intros h p' Ha Hp'. apply gethostbyname_ok in Ha. by apply H1. }
  destruct (has o RES_INIT); cbn [negb].
  - apply post_ret. cbn [through]. by apply Hrest.
  - post_steps. eapply set_res_options_holds; [by apply holds_event|]. intros p1 Hp1. cbn [through].
    by apply Hrest.
Qed.

Lemma save_canon_holds hostname h hptr canon p0 own p
    (Q : outcome (bool * option (ptr * string)) → proc → Prop) :
  hostent_ok hptr → holds p0 (canon_block canon ++ own) p →
  (∀ ok canon' p', holds p0 (canon_block canon' ++ own) p' →
     (has (h_flags h) AI_CANONNAME = false ∨ empty_name hostname = true → canon' = canon) → Q (Ret (ok, canon')) p') →
  post (save_canon hostname h hptr canon) p Q.
Proof.
  intros [[name Hname] _] Hh HQ. unfold save_canon. rewrite Hname. case_match eqn:E; [|by apply post_ret, HQ].
  apply andb_true_iff in E as [E Ec]. apply bool_decide_eq_true in Ec. subst canon. simpl in Hh.
  post_step. eapply strdup_holds; [done|]. intros c p' Hp'. cbn [through]. post_steps. apply HQ; [done|].
  apply andb_true_iff in E as [E1 ->]. destruct (empty_name hostname); [done|]. by intros [?|?].
Qed.

(** The literal forms of an address. *)
Lemma try_literal_holds h s ais p0 own p (Q : outcome flow → proc → Prop) :
  collecting p0 h ais own p →
  (∀ ais' p', collecting p0 h ais' own p' → Q (Ret (Next ais')) p') →
  (∀ e ais' p', holds p0 (blocks ais' ++ own) p' → e ≠ 0 → Q (Ret (Bad e ais')) p') →
  Q (Ret LookUp) p →
  post (try_literal h s ais) p Q.
Proof.
  intros [Hh Hn] HN HB HL. unfold try_literal.
  assert (Hgo : ∀ af bytes, addr_bytes af bytes → (h_family h = AF_UNSPEC ∨ af = h_family h) →
    post ('(rc, ais) ← ga_aistruct ais h bytes af; mret (if negb (rc =? 0) then Bad rc ais else Next ais)) p Q).
  { intros af bs Hb Hf. post_step. eapply ga_aistruct_holds; [exact Hh| | |].
    - intros ->. by destruct Hb as [[? _]|[? _]].
    - intros rc ai p' Hp' Hnew. cbn [through]. apply post_ret. destruct (Z.eqb_spec rc 0) as [->|Hne].
      + apply HN. split; [done|]. apply Forall_app. split; [done|]. constructor; [|constructor].
        by eapply new_node_ok; [..|apply Hnew].
      + by apply HB.
    - intros rc p' Hp' Hrc. cbn [through]. apply post_ret. rewrite (proj2 (Z.eqb_neq _ _) Hrc). by apply HB. }
  assert (Hfam : ∀ af, negb (h_family h =? AF_UNSPEC) && negb (h_family h =? af) = false →
    h_family h = AF_UNSPEC ∨ af = h_family h).
  { intros af E. destruct (Z.eqb_spec (h_family h) AF_UNSPEC); [by left|].
    destruct (Z.eqb_spec (h_family h) af); [by right|done]. }
  assert (Hlit : ∀ (b : bool) af bytes, (if b then inet_pton af (s_host s) else PtonInvalid) = PtonOk bytes →
    addr_bytes af bytes).
  { intros [] af bs E; [|done]. apply inet_pton_wf in E as [Hb [[-> Hl]|[-> Hl]]]; [left|right]; done. }
  match goal with |- context [match ?r with PtonOk _ => _ | _ => _ end] => destruct r as [bs| |] eqn:E4 end.
  1: { apply Hlit in E4.
       destruct (negb (h_family h =? AF_UNSPEC) && negb (h_family h =? AF_INET)) eqn:E; [by apply post_ret, HB|].
       destruct (negb (s_family s =? AF_INET)); [by apply post_ret, HN|]. apply Hgo; [done|]. by apply Hfam. }
  all: match goal with |- context [match ?r with PtonOk _ => _ | _ => _ end] => destruct r as [bs6| |] eqn:E6 end;
    [|by apply post_ret..]; apply Hlit in E6.
  all: destruct (negb (h_family h =? AF_UNSPEC) && negb (h_family h =? AF_INET6)) eqn:E; [by apply post_ret, HB|].
  all: destruct (negb (s_family s =? AF_INET6)); [by apply post_ret, HN|]; (apply Hgo; [done|]); by apply Hfam.
Qed.
End searching.

Section assembling.
Context {K : Kernel} {KRes : ResolverOk K}.

Lemma hostent_addr_bytes hptr : hostent_ok hptr → Forall (addr_bytes (h_addrtype hptr)) (h_addr_list hptr).
Proof.
  intros [_ [[-> H]|[-> H]]]; (eapply Forall_impl; [exact H|]); intros a [? ?].
  - by left.
  - by right.
Qed.

Lemma host_error_nonzero e : host_error e ≠ 0.
Proof. unfold host_error. repeat case_match; done. Qed.

(** The loop over [search\[\]]. *)
Lemma ga_search_holds hostname h n p0 own search : ∀ ais canon p
    (Q : outcome (Z * chain * option (ptr * string)) → proc → Prop),
  collecting p0 h ais (canon_block canon ++ own) p →
  (∀ rc ais' canon' p', holds p0 (blocks ais' ++ canon_block canon' ++ own) p' →
     (rc = 0 → Forall (bare h) ais') →
     (has (h_flags h) AI_CANONNAME = false ∨ empty_name hostname = true → canon' = canon) → Q (Ret (rc, ais', canon')) p') →
  post (ga_search hostname h n search ais canon) p Q.
Proof.
  induction search as [|s search IH]; intros ais canon p Q [Hh Hn] HQ; cbn [ga_search].
  { apply post_ret, HQ; auto. }
  post_step. apply (try_literal_holds h s ais p0 (canon_block canon ++ own)); [done| | |].
  - intros ais1 p1 Hb1. cbn [through]. by apply IH.
  - intros e ais1 p1 Hp1 He. cbn [through]. by apply post_ret, HQ.
  - cbn [through]. post_step. eapply look_up_holds; [exact Hh| |].
    2: { intros p1 Hp1. cbn [through]. destruct (Nat.eqb n 2); [by apply IH|]. post_steps.
         apply HQ; [done|by intros ?%host_error_nonzero|done]. }
    intros hptr p1 Hok _ Hp1. cbn [through].
    destruct (negb (h_family h =? AF_UNSPEC) && negb (h_family h =? h_addrtype hptr)) eqn:E.
    { by apply post_ret, HQ. }
    post_step. eapply (save_canon_holds _ _ _ _ p0 (blocks ais ++ own)); [done| |].
    { eapply holds_perm; [|exact Hp1]. solve_Permutation. }
    intros ok canon1 p2 Hp2 Hc. cbn [through].
    assert (Hp2' : holds p0 (blocks ais ++ canon_block canon1 ++ own) p2).
    { eapply holds_perm; [|exact Hp2]. solve_Permutation. }
    destruct ok; cbn [negb]; [|by apply post_ret, HQ].
    post_step. eapply (ga_addrs_holds h _ p0 (canon_block canon1 ++ own)).
    + by apply hostent_addr_bytes.
    + destruct (Z.eqb_spec (h_family h) AF_UNSPEC); [by left|].
      destruct (Z.eqb_spec (h_family h) (h_addrtype hptr)); [by right|done].
    + by split.
    + intros rc ais3 p3 Hp3 Hrc. cbn [through]. destruct (Z.eqb_spec rc 0) as [->|]; cbn [negb].
      * apply IH; [split; [done|by apply Hrc]|]. intros rc' a' c' p' H1 H2 H3. apply HQ; [done..|].
        intros Hflag. by rewrite H3, Hc.
      * by apply post_ret, HQ.
Qed.

Lemma blocks_set_canonname ais c :
  ais ≠ [] → Forall (λ ai, ai_canonname ai = None) (take 1 ais) →
  blocks (set_canonname ais c) ≡ₚ fst c :: blocks ais.
Proof.
  destruct ais as [|ai ais]; [done|]. intros _ H. apply Forall_cons in H as [H _].
  simpl. unfold blocks1. simpl. rewrite H. simpl. solve_Permutation.
Qed.

Lemma set_canonname_ok h ais c : Forall (node_ok h) ais → Forall (node_ok h) (set_canonname ais c).
Proof. intros H. destruct H as [|ai ais H1 H2]; constructor; done. Qed.

Lemma sock_set_port_ok sa port :
  sockaddr_ok sa → sockaddr_ok (sock_set_port sa port) ∧ sa_family (sock_set_port sa port) = sa_family sa.
Proof.
  intros H. pose proof (Z.mod_pos_bound port (2 ^ 16) eq_refl).
  destruct sa; simpl in *; unfold u16; split_and!; try tauto; lia.
Qed.

(** A node into which [set_port] may write. *)
Lemma set_port_ok h ai port socktype p (Q : outcome (addrinfo * Z) → proc → Prop) :
  node_ok h ai → h_socktype h = 0 ∨ socktype = h_socktype h →
  (∀ ai' n, node_ok h ai' → blocks1 ai' = blocks1 ai → ai_canonname ai' = ai_canonname ai →
     Q (Ret (ai', n)) p) →
  post (set_port ai port socktype) p Q.
Proof.
  intros (Hf & Hf' & Hs & Hp & q & sa & Ha & Hsf & Hok & Hlen) Hst HQ. unfold set_port. cbn zeta.
  assert (E : (ai_family ai =? AF_INET) || (ai_family ai =? AF_INET6) = true).
  { destruct Hf as [-> | ->]; done. }
  rewrite E, Ha. apply post_ret. destruct (sock_set_port_ok sa port Hok) as [Hok' Hsf'].
  apply HQ; [|unfold blocks1; simpl; by rewrite Ha|done].
  split_and!; simpl; try done. eexists q, _. split; [done|].
  rewrite Hsf'. split_and!; done.
Qed.

Lemma ga_port_holds h port socktype p0 own ais : ∀ p (Q : outcome (option Z * chain) → proc → Prop),
  building p0 h ais own p → h_socktype h = 0 ∨ socktype = h_socktype h →
  (∀ r ais' p', holds p0 (blocks ais' ++ own) p' → (is_Some r → Forall (node_ok h) ais') →
     (ais ≠ [] → ais' ≠ []) → Q (Ret (r, ais')) p') →
  post (ga_port ais port socktype) p Q.
Proof.
  revert own. induction ais as [|ai ais IH]; intros own p Q [Hh Hn] Hst HQ; cbn [ga_port].
  { apply post_ret, HQ; auto. }
  apply Forall_cons in Hn as [Hai Hn].
  (* the node [ai1] in place of [ai], with the blocks [pre] before it *)
  assert (Hrest : ∀ ai1 pre n p1, node_ok h ai1 → Forall (node_ok h) pre →
    holds p0 (blocks pre ++ blocks1 ai1 ++ blocks ais ++ own) p1 →
    post ('(r, rest) ← ga_port ais port socktype; mret (Z.add n <$> r, pre ++ ai1 :: rest)) p1 Q).
  { intros ai1 pre n p1 H1 Hpre Hp1. post_step.
    apply (IH (blocks pre ++ blocks1 ai1 ++ own)); [split; [|done]|done|].
    { eapply holds_perm; [|exact Hp1]. solve_Permutation. }
    intros r rest p2 Hp2 Hr _. cbn [through]. apply post_ret, HQ.
    - eapply holds_perm; [|exact Hp2]. rewrite blocks_app. simpl. solve_Permutation.
    - intros Hsome. apply Forall_app. split; [done|]. constructor; [done|]. apply Hr.
      destruct r; [done|by destruct Hsome].
    - intros _. by destruct pre. }
  assert (Hset : ∀ ai1 pre p1, node_ok h ai1 → Forall (node_ok h) pre →
    holds p0 (blocks pre ++ blocks1 ai1 ++ blocks ais ++ own) p1 →
    post ('(ai1, n) ← set_port ai1 port socktype; '(r, rest) ← ga_port ais port socktype;
          mret (Z.add n <$> r, pre ++ ai1 :: rest)) p1 Q).
  { intros ai1 pre p1 H1 Hpre Hp1. post_step. eapply set_port_ok; [exact H1|done|].
    intros ai2 n H2 Hb Hc. cbn [through]. apply Hrest; [done|done|]. by rewrite Hb. }
  simpl in Hh. rewrite <- app_assoc in Hh.
  destruct (has (ai_flags ai) AI_CLONE); [destruct (Z.eqb_spec (ai_socktype ai) 0) as [E|E]|
    destruct (Z.eqb_spec (ai_socktype ai) socktype) as [E|E]]; cbn [negb].
  - by apply (Hset ai []).
  - unfold ga_clone. post_steps. apply (malloc_holds _ p0 _ _ _ Hh); [|intros p1 Hp1; cbn [through]; post_steps].
    2: { apply HQ; [|by intros [? ?]|done]. simpl. by rewrite <- app_assoc. }
    intros self p1 Hp1. cbn [through]. cbn zeta. post_step.
    apply (malloc_holds _ p0 _ _ _ Hp1); [intros a p2 Hp2|intros p2 Hp2]; cbn [through].
    + destruct (id Hai) as (Hf & Hf' & Hs & Hp & q & sa & Ha & Hsf & Hok & Hlen). rewrite Ha. post_step.
      apply (Hset _ [ai]); [|by constructor|].
      * split_and!; simpl; try done. eexists a, sa. done.
      * eapply holds_perm; [|exact Hp2]. rewrite blocks_one. unfold blocks1. simpl. solve_Permutation.
    + post_steps. apply HQ; [|by intros [? ?]|done].
      eapply holds_perm; [|exact Hp2]. simpl. solve_Permutation.
  - by apply (Hset ai []).
  - post_step. apply (IH (blocks1 ai ++ own)); [split; [|done]|done|].
    { eapply holds_perm; [|exact Hh]. solve_Permutation. }
    intros r rest p2 Hp2 Hr _. cbn [through]. apply post_ret, HQ; [|intros Hsome; constructor; auto|done].
    eapply holds_perm; [|exact Hp2]. simpl. solve_Permutation.
Qed.
End assembling.

Section whole.
Context {K : Kernel} {KRes : ResolverOk K}.

Lemma call_holds {A} (c : sys A) p0 own p (Q : outcome A → proc → Prop) :
  holds p0 own p → (∀ a p', holds p0 own p' → Q (Ret a) p') → post (call c) p Q.
Proof. intros Hh HQ. apply post_call. intros a _. by apply HQ, holds_event. Qed.

(** What [ga_serv] and its parts keep. *)
Definition served (p0 : proc) (h : hints) (own : list ptr) (ais : chain)
    (Q : outcome (option Z * chain) → proc → Prop) : Prop :=
  ∀ r ais' p', holds p0 (blocks ais' ++ own) p' → (is_Some r → Forall (node_ok h) ais') →
    (ais ≠ [] → ais' ≠ []) → Q (Ret (r, ais')) p'.

Lemma serv_port_holds h port socktype n p0 own ais p Q :
  building p0 h ais own p → h_socktype h = 0 ∨ socktype = h_socktype h →
  served p0 h own ais Q → post (serv_port ais port socktype n) p Q.
Proof.
  intros Hb Hst HQ. unfold serv_port. post_step. eapply ga_port_holds; [exact Hb|done|].
  intros r ais' p' Hp' Hr Hne. cbn [through]. apply post_ret, HQ; [done| |done].
  intros Hsome. apply Hr. destruct r; [done|by destruct Hsome].
Qed.

Lemma serv_name_holds h serv proto socktype n p0 own ais p Q :
  building p0 h ais own p → served p0 h own ais Q → post (serv_name ais h serv proto socktype n) p Q.
Proof.
  intros Hb HQ. unfold serv_name.
  destruct ((h_socktype h =? 0) || (h_socktype h =? socktype)) eqn:E.
  2: { destruct Hb as [Hh Hn]. by apply post_ret, HQ. }
  post_step. destruct Hb as [Hh Hn]. eapply call_holds; [exact Hh|]. intros a p1 Hp1. cbn [through].
  destruct a as [port|]; [|by apply post_ret, HQ].
  eapply serv_port_holds; [by split| |done].
  apply orb_true_iff in E as [E|E]; zbool; [by left|by right].
Qed.

Lemma ga_serv_holds h serv p0 own ais p (Q : outcome (Z * chain) → proc → Prop) :
  building p0 h ais own p →
  (∀ rc ais' p', holds p0 (blocks ais' ++ own) p' → (rc = 0 → Forall (node_ok h) ais') →
    (ais ≠ [] → ais' ≠ []) → Q (Ret (rc, ais')) p') →
  post (ga_serv ais h serv) p Q.
Proof.
  intros Hb HQ. unfold ga_serv. post_step.
  match goal with |- post _ _ ?R => set (finish := R) end.
  assert (Hend : served p0 h own ais finish).
  { intros r ais' p' Hp' Hr Hne. unfold finish. cbn [through].
    destruct r as [n|]; [|by apply post_ret, HQ]. specialize (Hr ltac:(done)).
    repeat case_match; by apply post_ret, HQ. }
  clearbody finish.
  assert (Htwo : ∀ (m : chain → Z → M (option Z * chain)) ais1 (r : option Z) p1,
    (∀ ais2 n p2, building p0 h ais2 own p2 → (ais ≠ [] → ais2 ≠ []) → post (m ais2 n) p2 finish) →
    holds p0 (blocks ais1 ++ own) p1 → (is_Some r → Forall (node_ok h) ais1) → (ais ≠ [] → ais1 ≠ []) →
    post (match r with None => mret (None, ais1) | Some n => m ais1 n end) p1 finish).
  { intros m ais1 r p1 Hm Hp1 Hr Hne. destruct r as [n|].
    - apply Hm; [split; [done|]; by apply Hr|done].
    - by apply post_ret, Hend. }
  destruct (isdigit (head_char serv)).
  - destruct (Z.eqb_spec (h_socktype h) 0) as [E|E]; cbn [negb].
    + post_step. eapply serv_port_holds; [exact Hb|by left|]. intros r ais1 p1 Hp1 Hr Hne. cbn [through].
      apply (Htwo (λ a n, serv_port a (htons (atoi serv)) SOCK_DGRAM n)); [|done..].
      intros ais2 n p2 Hb2 Hne2. eapply serv_port_holds; [exact Hb2|by left|].
      intros r3 ais3 p3 H1 H2 H3. apply Hend; auto.
    + eapply serv_port_holds; [exact Hb|by right|done].
  - post_step. eapply serv_name_holds; [exact Hb|]. intros r ais1 p1 Hp1 Hr Hne. cbn [through].
    apply (Htwo (λ a n, serv_name a h serv "udp" SOCK_DGRAM n)); [|done..].
    intros ais2 n p2 Hb2 Hne2. eapply serv_name_holds; [exact Hb2|].
    intros r3 ais3 p3 H1 H2 H3. apply Hend; auto.
Qed.

Lemma put_canon_holds hostname h host0 ais canon p0 own p (Q : outcome (Z * chain) → proc → Prop) :
  collecting p0 h ais (canon_block canon ++ own) p → ais ≠ [] →
  (has (h_flags h) AI_CANONNAME = false → canon = None) →
  (canon ≠ None → empty_name hostname = false) →
  (∀ rc ais' p', building p0 h ais' own p' → ais' ≠ [] → Q (Ret (rc, ais')) p') →
  post (put_canon hostname h host0 ais canon) p Q.
Proof.
  intros [Hh Hn] Hne Hflag Hname HQ. unfold put_canon.
  assert (Hok : Forall (node_ok h) ais) by (eapply Forall_impl; [exact Hn|]; by intros ai [? _]).
  assert (Hbare : Forall (λ ai, ai_canonname ai = None) (take 1 ais)).
  { destruct Hn as [|ai ais' [_ Hb] _]; [constructor|]. by repeat constructor. }
  assert (Hput : ∀ c p', holds p0 (canon_block (Some c) ++ blocks ais ++ own) p' →
    Q (Ret (0, set_canonname ais c)) p').
  { intros c p' Hp'. apply HQ; [|by destruct ais]. split; [|by apply set_canonname_ok].
    eapply holds_perm; [|exact Hp']. rewrite (blocks_set_canonname _ _ Hne Hbare). done. }
  destruct (empty_name hostname) eqn:E; cbn [negb andb].
  { destruct canon as [c|]; [by specialize (Hname ltac:(done))|]. apply post_ret, HQ; [by split|done]. }
  destruct (has (h_flags h) AI_CANONNAME) eqn:Ef.
  2: { rewrite (Hflag eq_refl) in *. apply post_ret, HQ; [by split|done]. }
  destruct canon as [c|].
  - apply post_ret, Hput. eapply holds_perm; [|exact Hh]. solve_Permutation.
  - simpl in Hh. post_step. eapply strdup_holds; [exact Hh|]. intros c p' Hp'. cbn [through].
    destruct c as [c|]; apply post_ret; [by apply Hput|]. apply HQ; [by split|done].
Qed.
End whole.

(** The blocks [getaddrinfo] leaves allocated, by its outcome. *)
Definition gai_post (hostname servname : option string) (h : hints) (p : proc)
    (o : outcome (Z * chain)) (p' : proc) : Prop :=
  match o with
  | Ret (rc, ais) =>
      match is_local hostname servname with
      | Some _ => holds p (blocks ais) p' ∧
          (rc = 0 → ais ≠ [] ∧ Forall (λ ai, is_Some (ai_addr ai)) ais)
      | None =>
          if rc =? 0 then holds p (blocks ais) p' ∧ ais ≠ [] ∧ Forall (node_ok h) ais
          else ais = [] ∧ ∃ canon, holds p (canon_block canon) p' ∧
            (has (h_flags h) AI_CANONNAME = false → canon = None)
      end
  | Exit st => st = 1 ∧ h_family h = AF_LOCAL ∧ is_local hostname servname = None
  | _ => False
  end.

Section main.
Context {K : Kernel} {KRes : ResolverOk K}.

Lemma c_string_path bs : is_Some (c_string (bs ++ [0])).
Proof.
  induction bs as [|b bs [x IH]]; simpl; [done|]. case_match; [done|]. by rewrite IH.
Qed.

Lemma bad_holds ais rc p0 own p (Q : outcome (Z * chain) → proc → Prop) :
  holds p0 (blocks ais ++ own) p → (∀ p', holds p0 own p' → Q (Ret (rc, [])) p') → post (bad ais rc) p Q.
Proof.
  intros Hh HQ. unfold bad. post_step. eapply freeaddrinfo_holds; [exact Hh|].
  intros p' Hp'. cbn [through]. by apply post_ret, HQ.
Qed.

Definition local_node (ai : addrinfo) : Prop := ai_canonname ai = None ∧ is_Some (ai_addr ai).

Lemma new_local_node h addr ai : new_node h AF_LOCAL addr ai → local_node ai.
Proof.
  intros (_ & _ & _ & _ & Hc & Ha). split; [done|].
  unfold new_addr in Ha. simpl in Ha. destruct Ha as (_ & q & path & _ & _ & ->). done.
Qed.

Lemma ga_unix_holds path h p0 p (Q : outcome (Z * chain) → proc → Prop) :
  holds p0 [] p →
  (∀ rc ais p', holds p0 (blocks ais) p' →
     (rc = 0 → ais ≠ [] ∧ Forall (λ ai, is_Some (ai_addr ai)) ais) → Q (Ret (rc, ais)) p') →
  post (ga_unix path h) p Q.
Proof.
  intros Hh HQ. unfold ga_unix. case_match; [by apply post_ret, HQ|]. cbn zeta.
  assert (Hlast : ∀ h ais p1, holds p0 (blocks ais) p1 → Forall local_node ais →
    post ('(rc, aihead) ← ga_aistruct ais h (to_bytes path ++ [0]) AF_LOCAL;
      if negb (rc =? 0) then mret (rc, aihead)
      else if has (h_flags h) AI_CANONNAME then
        myname ← syscall sys_uname;
        match myname with
        | None => mret (EAI_SYSTEM, aihead)
        | Some nodename =>
            c ← strdup nodename;
            match c with
            | None => mret (EAI_MEMORY, aihead)
            | Some name => mret (0, set_canonname aihead name)
            end
        end
      else mret (0, aihead)) p1 Q).
  { clear h H. intros h ais p1 Hp1 Hbare. post_step.
    apply (ga_aistruct_holds _ _ _ _ p0 []); [by rewrite app_nil_r|intros _; apply c_string_path| |].
    2: { intros rc p2 Hp2 Hrc. rewrite app_nil_r in Hp2. cbn [through].
         rewrite (proj2 (Z.eqb_neq _ _) Hrc). by apply post_ret, HQ. }
    intros rc ai p2 Hp2 Hnew. rewrite app_nil_r in Hp2. cbn [through].
    destruct (Z.eqb_spec rc 0) as [->|Hrc]; cbn [negb]; [|by apply post_ret, HQ].
    pose proof (new_local_node _ _ _ (Hnew eq_refl)) as Hai. clear Hnew.
    assert (Hall : Forall local_node (ais ++ [ai])) by (apply Forall_app; auto).
    assert (Hne : ais ++ [ai] ≠ []) by by destruct ais. clear Hbare Hai Hp1.
    revert Hp2 Hall Hne. generalize (ais ++ [ai]). clear ais ai. intros ais Hp2 Hall Hne.
    assert (Haddr : Forall (λ ai, is_Some (ai_addr ai)) ais).
    { eapply Forall_impl; [exact Hall|]. by intros ai [_ ?]. }
    destruct (has (h_flags h) AI_CANONNAME); [|by apply post_ret, HQ].
    post_steps; [|by apply HQ; [apply holds_event|]].
    eapply strdup_holds; [by apply (holds_event sys_uname (Ok a)); exact Hp2|].
    intros [c|] p3 Hp3; cbn [through]; apply post_ret, HQ; [| |exact Hp3|done].
    - eapply holds_perm; [|exact Hp3]. rewrite blocks_set_canonname; [done|done|].
      destruct Hall as [|ai ais' [? _] _]; simpl; by constructor.
    - intros _. split; [by destruct ais|]. destruct Haddr; by constructor. }
  post_step. destruct (h_socktype h =? 0).
  - post_step. apply (ga_aistruct_holds _ _ _ _ p0 []); [exact Hh|intros _; apply c_string_path| |].
    + intros rc ai p1 Hp1 Hnew. rewrite app_nil_r in Hp1. cbn [through]. post_step.
      destruct (Z.eqb_spec rc 0) as [->|Hrc]; cbn [negb]; [|by apply post_ret, HQ].
      apply Hlast; [done|]. constructor; [|constructor]. by eapply new_local_node, Hnew.
    + intros rc p1 Hp1 Hrc. cbn [through]. post_step. rewrite (proj2 (Z.eqb_neq _ _) Hrc). by apply post_ret, HQ.
  - post_step. cbn [Z.eqb negb]. apply Hlast; [done|constructor].
Qed.

(** The flags and the family were checked: one or two searches, unless the
    family is AF_LOCAL. *)
Lemma nsearch_count hostname servname h :
  ga_echeck hostname servname (h_flags h) (h_family h) (h_socktype h) (h_protocol h) = 0 →
  let n := Z.of_nat (List.length (nsearch_entries hostname (h_flags h) (h_family h))) in
  (h_family h = AF_LOCAL ∧ n = 0) ∨ 1 ≤ n ≤ 2.
Proof.
  unfold ga_echeck, nsearch_entries. intros H. case_match; [done|]. case_match; [done|].
  assert (Hf : h_family h = AF_UNSPEC ∨ h_family h = AF_INET ∨ h_family h = AF_INET6 ∨ h_family h = AF_LOCAL).
  { destruct (Z.eqb_spec (h_family h) AF_UNSPEC); [tauto|].
    destruct (Z.eqb_spec (h_family h) AF_INET); [tauto|]. destruct (Z.eqb_spec (h_family h) AF_INET6); [tauto|].
    destruct (Z.eqb_spec (h_family h) AF_LOCAL); [tauto|done]. }
  destruct Hf as [-> |[-> |[-> | ->]]]; cbn zeta; destruct hostname as [s|]; simpl;
    repeat case_match; simpl; lia || auto.
Qed.

Lemma getaddrinfo_holds hostname servname hintsp p :
  heap_ok p →
  post (getaddrinfo hostname servname hintsp) p
    (gai_post hostname servname (from_option id (Hints 0 AF_UNSPEC 0 0) hintsp) p).
Proof.
  intros Hp. unfold getaddrinfo. cbn zeta.
  replace (match hintsp with None => Hints 0 AF_UNSPEC 0 0 | Some h => h end)
    with (from_option id (Hints 0 AF_UNSPEC 0 0) hintsp) by by destruct hintsp.
  set (h := from_option id (Hints 0 AF_UNSPEC 0 0) hintsp). clearbody h.
  pose proof (holds_refl p Hp) as Hh.
  assert (Hbad : ∀ own rc ais p1, rc ≠ 0 → holds p (blocks ais ++ canon_block own) p1 →
    (has (h_flags h) AI_CANONNAME = false → own = None) →
    is_local hostname servname = None → post (bad ais rc) p1 (gai_post hostname servname h p)).
  { intros own rc ais p1 Hrc Hp1 Hown Hloc. eapply bad_holds; [exact Hp1|]. intros p2 Hp2.
    unfold gai_post. rewrite Hloc, (proj2 (Z.eqb_neq _ _) Hrc). split; [done|]. by exists own. }
  case_match eqn:Erc.
  { (* an error before anything is allocated *)
    apply (bad_holds [] _ p []); [done|]. intros p1 Hp1. unfold gai_post.
    apply negb_true_iff in Erc. destruct (is_local hostname servname).
    { split; [done|]. intros Hrc. rewrite Hrc in Erc. done. }
    rewrite Erc.
    split; [done|]. by exists None. }
  destruct (is_local hostname servname) as [path|] eqn:Hloc.
  { apply ga_unix_holds with (p0 := p); [done|]. intros rc ais p1 Hp1 Hok. unfold gai_post. by rewrite Hloc. }
  post_step. unfold ga_nsearch. cbn zeta.
  apply negb_false_iff, Z.eqb_eq in Erc. apply nsearch_count in Erc. cbn zeta in Erc.
  set (search := nsearch_entries hostname (h_flags h) (h_family h)) in *. clearbody search.
  destruct Erc as [[Hfam Hlen]|Hlen].
  { rewrite Hlen. eapply post_weaken; [apply err_quit_exits|]. intros o p1 [-> _]. done. }
  destruct (Z.ltb_spec (Z.of_nat (List.length search)) 1); [lia|].
  destruct (Z.ltb_spec 2 (Z.of_nat (List.length search))); [lia|]. cbn [orb]. post_steps.
  eapply (ga_search_holds hostname h _ p []); [split; [exact Hh|constructor]|].
  intros rc ais canon p1 Hp1 Hn Hc. cbn [through]. rewrite app_nil_r in Hp1.
  assert (Hcan : has (h_flags h) AI_CANONNAME = false → canon = None) by auto.
  destruct (Z.eqb_spec rc 0) as [->|Hrc]; cbn [negb]; [|by eapply Hbad].
  specialize (Hn eq_refl). destruct ais as [|ai ais]; [by eapply Hbad|].
  set (all := ai :: ais) in *. assert (Hne : all ≠ []) by done. clearbody all. clear ai ais.
  post_step. eapply (put_canon_holds _ h _ _ canon p []); [|done|done| |].
  { split; [|done]. by rewrite app_nil_r. }
  { intros Hcn. destruct (empty_name hostname); [|done]. destruct Hcn. auto. }
  intros rc2 ais2 p2 [Hp2 Hn2] Hne2. cbn [through].
  destruct (Z.eqb_spec rc2 0) as [->|Hrc2]; cbn [negb]; [|by apply (Hbad None)].
  assert (Hfin : ∀ rc ais p', holds p (blocks ais ++ []) p' → (rc = 0 → Forall (node_ok h) ais) → ais ≠ [] →
    post (if negb (rc =? 0) then bad ais rc else mret (0, ais)) p' (gai_post hostname servname h p)).
  { intros rc ais p' Hp' Hok Hne'. destruct (Z.eqb_spec rc 0) as [->|Hrc]; cbn [negb]; [|by apply (Hbad None)].
    apply post_ret. unfold gai_post. rewrite Hloc. rewrite app_nil_r in Hp'. by split_and!; [| |apply Hok]. }
  post_step. destruct servname as [serv|]; [destruct (streq serv "")|].
  - post_step. by apply Hfin.
  - eapply (ga_serv_holds h serv p [] ais2); [by split|]. intros rc3 ais3 p3 Hp3 Hok3 Hne3. cbn [through].
    apply Hfin; auto.
  - post_step. by apply Hfin.
Qed.
End main.

(** ** Lemmas on the services *)

(** What a caller sees of a node. *)
Definition view (ai : addrinfo) : Z * Z * option sockaddr :=
  (ai_family ai, ai_socktype ai, snd <$> ai_addr ai).
Definition view_port (port socktype : Z) (ai : addrinfo) : Z * Z * option sockaddr :=
  (ai_family ai, socktype, (λ a, sock_set_port a.2 port) <$> ai_addr ai).

(** A node the search made for a caller that gave no socket type. *)
Definition clonable (t : Z → bool) (ai : addrinfo) : Prop :=
  has (ai_flags ai) AI_CLONE = true ∧ t (ai_socktype ai) = true ∧
  ((ai_family ai =? AF_INET) || (ai_family ai =? AF_INET6)) = true ∧ is_Some (ai_addr ai).

Section services.
Context {K : Kernel}.

Definition port_set (port socktype : Z) (ai : addrinfo) : addrinfo :=
  AddrInfo (ai_self ai) (ai_flags ai) (ai_family ai) socktype (ai_protocol ai) (ai_addrlen ai)
    (ai_canonname ai) ((λ a, (a.1, sock_set_port a.2 port)) <$> ai_addr ai).

Lemma set_port_run ai port socktype p :
  ((ai_family ai =? AF_INET) || (ai_family ai =? AF_INET6)) = true → is_Some (ai_addr ai) →
  set_port ai port socktype p = (Ret (port_set port socktype ai, 1), p).
Proof. intros Hf [[q sa] Ha]. unfold set_port, port_set. rewrite Hf, Ha. done. Qed.

(** The first use of the nodes sets them in place. *)
Lemma ga_port_first port socktype ais p :
  Forall (clonable (Z.eqb 0)) ais →
  ga_port ais port socktype p =
    (Ret (Some (Z.of_nat (List.length ais)), port_set port socktype <$> ais), p).
Proof.
  induction 1 as [|ai ais (Hc & Ht & Hf & Ha) Hrest IH]; [done|]. cbn [ga_port].
  rewrite Hc. replace (ai_socktype ai) with 0 by (by apply Z.eqb_eq in Ht). cbn [Z.eqb negb].
  rewrite (run_bind _ _ _ _ _ (set_port_run ai port socktype p Hf Ha)), (run_bind _ _ _ _ _ IH).
  replace (Z.of_nat (List.length (ai :: ais))) with (1 + Z.of_nat (List.length ais)) by (simpl; lia). done.
Qed.

(** The second use clones each of them. *)
Lemma ga_port_second port socktype ais : ∀ p,
  Forall (clonable (λ t, negb (t =? 0))) ais →
  post (ga_port ais port socktype) p (λ o _, ∀ n ais', o = Ret (Some n, ais') →
    n = Z.of_nat (List.length ais) ∧ view <$> ais' = ais ≫= λ ai, [view ai; view_port port socktype ai]).
Proof.
  induction ais as [|ai ais IH]; intros p Hall; cbn [ga_port].
  { post_step. by intros n ais' [= <- <-]. }
  apply Forall_cons in Hall as [(Hc & Ht & Hf & [[q sa] Ha]) Hall]. rewrite Hc, Ht.
  unfold ga_clone. post_steps. apply post_malloc; intros _; cbn [through]; [|by post_steps].
  cbn zeta. post_step. apply post_malloc; intros _; cbn [through]; [|by post_steps]. rewrite Ha. post_steps.
  set (new := AddrInfo _ _ _ _ _ _ _ _). set (p1 := with_block _).
  eapply post_eq; [by apply (set_port_run new port socktype p1)|]. cbn [through].
  post_step. eapply post_weaken; [by apply IH|].
  intros o p2 Ho. destruct o as [[[n|] ais']| | | |]; cbn [through]; post_steps; try done.
  destruct (Ho n ais' eq_refl) as [-> Hv]. intros n' ais'' [= <- <-]. split; [simpl; lia|].
  change (view <$> ai :: port_set port socktype new :: ais')
    with (view ai :: view (port_set port socktype new) :: (view <$> ais')).
  rewrite Hv. unfold new, view, view_port, port_set. cbn. by rewrite Ha.
Qed.

Lemma view_set port t ai : view (port_set port t ai) = view_port port t ai.
Proof. unfold view, view_port, port_set. simpl. by destruct (ai_addr ai) as [[]|]. Qed.
Lemma view_set_twice port t t' ai : view_port port t' (port_set port t ai) = view_port port t' ai.
Proof. unfold view_port, port_set. simpl. by destruct (ai_addr ai) as [[? []]|]. Qed.
Lemma views_set_twice port t t' (ais : chain) :
  ((port_set port t <$> ais) ≫= λ ai, [view ai; view_port port t' ai]) =
  ais ≫= λ ai, [view_port port t ai; view_port port t' ai].
Proof.
  induction ais as [|ai ais IH]; [done|]. rewrite fmap_cons, !bind_cons, IH. by rewrite view_set, view_set_twice.
Qed.

Lemma ga_serv_clones h serv ais p :
  Forall (clonable (Z.eqb 0)) ais → h_socktype h = 0 → isdigit (head_char serv) = true →
  post (ga_serv ais h serv) p (λ o _, ∀ ais', o = Ret (0, ais') →
    let port := htons (atoi serv) in
    view <$> ais' = ais ≫= λ ai, [view_port port SOCK_STREAM ai; view_port port SOCK_DGRAM ai]).
Proof.
  intros Hall Hst Hd. unfold ga_serv. rewrite Hd, Hst. cbn [Z.eqb negb]. cbn zeta.
  set (port := htons (atoi serv)). unfold serv_port. post_steps.
  eapply post_eq; [by apply (ga_port_first port SOCK_STREAM ais p Hall)|]. cbn [through]. post_steps.
  cbn [fmap option_fmap option_map]. post_steps.
  eapply post_weaken.
  { apply ga_port_second. apply Forall_fmap. eapply Forall_impl; [exact Hall|].
    intros ai (H1 & H2 & H3 & H4). split_and!; try done. simpl. by apply fmap_is_Some. }
  intros o p2 Ho. destruct o as [[[n|] ais']| | | |]; cbn [through]; post_steps; try done.
  destruct (Ho n ais' eq_refl) as [-> Hv]. cbn [fmap option_fmap option_map].
  case_match; post_steps; intros ais'' [= <-]. rewrite Hv. apply views_set_twice.
Qed.
End services.

(** Room for the longest address and its terminator. *)
Lemma gn_host_fits {K : Kernel} sa hostlen flags p :
  is_inet sa → sockaddr_ok sa → 46 < hostlen →
  post (gn_host hostlen (addr_of sa) (sa_family sa) flags) p (λ o _, ∀ rc s,
    o = Ret (rc, Some s) → strlen s < hostlen).
Proof.
  intros Hi Hok Hlen. destruct (ntop_host_text sa Hi Hok) as (text & _ & Ht & Hs).
  unfold gn_host. cbn zeta. destruct (Z.ltb_spec 0 hostlen); [|lia].
  assert (Hnum : ∀ p1, post (r ← ntop (inet_ntop (sa_family sa) (addr_of sa) hostlen);
    match r with Some s => mret (0, Some s) | None => mret (1, None) end) p1
    (λ o _, ∀ rc s, o = Ret (rc, Some s) → strlen s < hostlen)).
  { intros p1. rewrite Hs by done. cbn [ntop]. post_steps. intros rc s [= _ <-]. lia. }
  destruct (has flags NI_NUMERICHOST); [apply Hnum|].
  unfold hostcall. post_steps. destruct a as [hp|e]; post_steps.
  - cbn [mbind option_bind]. destruct (h_name hp) as [name|].
    + post_steps. intros rc s [= _ <-]. apply snprintf_length. lia.
    + case_match; [by post_steps|apply Hnum].
  - cbn [mbind option_bind]. case_match; [by post_steps|apply Hnum].
Qed.

Lemma gn_serv_fits {K : Kernel} servlen port flags p :
  0 < servlen → post (gn_serv servlen port flags) p (λ o _, ∀ s, o = Ret (Some s) → strlen s < servlen).
Proof.
  intros Hlen. unfold gn_serv. destruct (Z.ltb_spec 0 servlen); [|lia].
  destruct (has flags NI_NUMERICSERV); post_steps; [|destruct a; post_steps]; intros s' [= <-];
    apply snprintf_length; lia.
Qed.

(** ** Properties *)

Section properties.
Context {K : Kernel} {KRes : ResolverOk K}.


(** [freeaddrinfo] gives back all that a successful [getaddrinfo]
    allocated, each block once: the heap is as before the pair of calls. *)
Theorem freeaddrinfo_restores hostname servname hintsp p :
  heap_ok p →
  post (getaddrinfo hostname servname hintsp) p (λ o p', ∀ ais, o = Ret (0, ais) →
    post (freeaddrinfo ais) p' (λ o' p'', o' = Ret tt ∧ ∀ q, q ∈ p_live p'' ↔ q ∈ p_live p)).
Proof.
  intros Hp. eapply post_weaken; [by apply getaddrinfo_holds|].
  intros o p' Ho ais ->. assert (Hh : holds p (blocks ais ++ []) p').
  { rewrite app_nil_r. unfold gai_post in Ho. case_match; apply Ho. }
  eapply freeaddrinfo_holds; [exact Hh|]. intros p'' (_ & _ & _ & H). split; [done|].
  intros q. rewrite H, elem_of_nil. tauto.
Qed.

(** A numeric service without a socket type: every address found yields
    two entries, in order, the stream one and the datagram one, both with the
    port [htons(atoi(serv))]. *)
Theorem ga_serv_numeric h serv ais p :
  Forall (clonable (Z.eqb 0)) ais → h_socktype h = 0 → isdigit (head_char serv) = true →
  post (ga_serv ais h serv) p (λ o _, ∀ ais', o = Ret (0, ais') →
    let port := htons (atoi serv) in
    view <$> ais' = ais ≫= λ ai, [view_port port SOCK_STREAM ai; view_port port SOCK_DGRAM ai]).
Proof. apply ga_serv_clones. Qed.

(** Hints of family AF_LOCAL, which [ga_echeck] accepts, terminate the
    calling process from within the library unless the names are those of a
    local service. *)
Theorem getaddrinfo_exits hostname servname flags protocol p :
  flags = 0 → empty_name hostname && empty_name servname = false → is_local hostname servname = None →
  post (getaddrinfo hostname servname (Some (Hints flags AF_LOCAL 0 protocol))) p (λ o _, o = Exit 1).
Proof.
  intros -> Hne Hloc. unfold getaddrinfo. cbn [h_flags h_family h_socktype h_protocol]. cbn zeta.
  assert (E : ga_echeck hostname servname 0 AF_LOCAL 0 protocol = 0).
  { unfold ga_echeck. by rewrite Hne. }
  rewrite E, Hloc. cbn [Z.eqb negb]. unfold ga_nsearch. cbn zeta. cbn [h_flags h_family].
  replace (nsearch_entries hostname 0 AF_LOCAL) with (@nil search).
  - cbn. post_steps. eapply post_weaken; [apply err_quit_exits|]. by intros o p' [-> _].
  - unfold nsearch_entries. destruct hostname; repeat case_match; done.
Qed.

(** C40: [getnameinfo] of an Internet address stays within the caller's
    buffers when they can hold the longest address (46 characters and the
    terminator) and are not empty. *)
Theorem getnameinfo_fits sa hostlen servlen flags p :
  is_inet sa → sockaddr_ok sa → 46 < hostlen → 0 < servlen →
  post (getnameinfo sa hostlen servlen flags) p (λ o _, ∀ rc host serv, o = Ret (rc, host, serv) →
    (∀ s, host = Some s → strlen s < hostlen) ∧ (∀ s, serv = Some s → strlen s < servlen)).
Proof.
  intros Hi Hok Hh Hs.
  assert (Hgn : ∀ port, post (gn_ipv46 hostlen servlen (addr_of sa) (sa_family sa) port flags) p
    (λ o _, ∀ rc host serv, o = Ret (rc, host, serv) →
      (∀ s, host = Some s → strlen s < hostlen) ∧ (∀ s, serv = Some s → strlen s < servlen))).
  { intros port. unfold gn_ipv46. post_step. eapply post_weaken; [by apply (gn_host_fits sa)|].
    intros o p1 Ho. destruct o as [[rc host]| | | |]; cbn [through]; try done.
    assert (Hhost : ∀ s, host = Some s → strlen s < hostlen) by (intros s ->; by eapply Ho).
    destruct (negb (rc =? 0)); [post_step; by intros ? ? ? [= <- <- <-]|].
    post_step. eapply post_weaken; [by apply gn_serv_fits|].
    intros o p2 Ho2. destruct o as [serv| | | |]; cbn [through]; try done. post_step.
    intros ? ? ? [= <- <- <-]. split; [done|]. intros s ->. by apply Ho2. }
  destruct sa; try done; apply Hgn.
Qed.
End properties.

(** [ga_echeck] accepts exactly: known flags, a host or a service, and a socket
    type of the family. *)
Definition acceptable (hostname servname : option string) (flags family socktype : Z) : Prop :=
  Z.land flags (Z.lnot 3) = 0 ∧
  (empty_name hostname = false ∨ empty_name servname = false) ∧
  (family = AF_UNSPEC ∨
   (family = AF_INET ∨ family = AF_INET6) ∧ socktype ∈ [0; SOCK_STREAM; SOCK_DGRAM; SOCK_RAW] ∨
   family = AF_LOCAL ∧ socktype ∈ [0; SOCK_STREAM; SOCK_DGRAM]).

(** [ga_echeck] returns 0 exactly for the acceptable arguments. *)
Theorem ga_echeck_correct hostname servname flags family socktype protocol :
  ga_echeck hostname servname flags family socktype protocol = 0 ↔
  acceptable hostname servname flags family socktype.
Proof.
  unfold ga_echeck, acceptable. change (Z.lor AI_PASSIVE AI_CANONNAME) with 3.
  set (fl := Z.land flags (Z.lnot 3)). clearbody fl.
  rewrite !elem_of_cons, !elem_of_nil.
  destruct (Z.eqb_spec fl 0); cbn [negb]; [|split; [done|tauto]].
  destruct (empty_name hostname), (empty_name servname); cbn [andb]; try (split; [done|intuition done]).
  all: destruct (Z.eqb_spec family AF_UNSPEC); [intuition|].
  all: destruct (Z.eqb_spec family AF_INET), (Z.eqb_spec family AF_INET6), (Z.eqb_spec family AF_LOCAL);
    cbn [orb]; try congruence; try (split; [done|intuition congruence]).
  all: destruct (Z.eqb_spec socktype 0), (Z.eqb_spec socktype SOCK_STREAM), (Z.eqb_spec socktype SOCK_DGRAM),
    (Z.eqb_spec socktype SOCK_RAW); cbn [negb andb]; try congruence; split; intros; try done; intuition congruence.
Qed.

(** A resolver for the witnesses: every name has one IPv4 and one IPv6 address;
    "http" is a service of both protocols.  Memory is exhausted after [budget]
    calls. *)
Definition resolver (budget : nat) : Kernel := λ A t c,
  (match c in sys A return A → A with
   | sys_malloc _ => λ _, bool_decide (List.length t < budget)%nat
   | sys_gethostbyname _ _ => λ _, Ok (HostEnt (Some "www"%string) AF_INET [[192; 0; 2; 1]])
   | sys_gethostbyname2 _ _ f => λ _,
       if f =? AF_INET then Ok (HostEnt (Some "www"%string) AF_INET [[192; 0; 2; 1]])
       else if f =? AF_INET6 then Ok (HostEnt (Some "www"%string) AF_INET6 [replicate 15 0 ++ [1]])
       else Err HOST_NOT_FOUND
   | sys_getservbyname s _ => λ _, if streq s "http" then Some (htons 80) else None
   | _ => λ a, a
   end) (plain t c).

Lemma resolver_ok budget : ResolverOk (resolver budget).
Proof.
  split.
  - intros t o n h [= <-]. split; [done|]. left. split; [done|]. constructor; [|constructor].
    split; [done|]. bytes.
  - intros t o n f h. unfold answer, resolver. simpl.
    destruct (Z.eqb_spec f AF_INET) as [->|]; [|destruct (Z.eqb_spec f AF_INET6) as [->|]; [|done]]; intros [= <-].
    + split; [|done]. split; [done|]. left. split; [done|]. constructor; [|constructor]. split; [done|]. bytes.
    + split; [|done]. split; [done|]. right. split; [done|]. constructor; [|constructor]. split; [done|]. bytes.
Qed.


Definition long_path : string := String "/" (of_chars (replicate 107 (chr 97))).

(** The two leaks.  A pathname that does not fit in [sun_path] makes
    [getaddrinfo] fail with EAI_SERVICE and lose the node [ga_aistruct] had
    linked; and when memory runs out after the canonical name was saved, the
    error path does not free it. *)
Theorem getaddrinfo_leaks :
  ∃ K : Kernel, ResolverOk K ∧
  match getaddrinfo (Some "/local"%string) (Some long_path) None proc0 with
  | (Ret (rc, _), p') => rc = EAI_SERVICE ∧ elements (p_live p') = [1]
  | _ => False
  end ∧
  match getaddrinfo (Some "www"%string) None (Some (Hints AI_CANONNAME AF_INET 0 0)) proc0 with
  | (Ret (rc, ais), p') => rc = EAI_MEMORY ∧ ais = [] ∧ elements (p_live p') = [1]
  | _ => False
  end.
Proof. exists (resolver 3). split; [apply resolver_ok|]. by vm_compute. Qed.

Definition www := getaddrinfo (K := resolver 100) (Some "www"%string) (Some "http"%string) None.


Lemma freeaddrinfo_restores_witness :
  post www proc0 (λ o p', ∀ ais, o = Ret (0, ais) →
    post (freeaddrinfo ais) p' (λ o' p'', o' = Ret tt ∧ ∀ q, q ∈ p_live p'' ↔ q ∈ p_live proc0)) ∧
  match www proc0 with
  | (Ret (_, ais), p') => size (p_live p') = 8%nat ∧ elements (p_live (freeaddrinfo ais p').2) = []
  | _ => False
  end.
Proof.
  split; [|by vm_compute].
  apply (freeaddrinfo_restores (KRes := resolver_ok 100) _ _ None proc0 proc0_heap_ok).
Defined.

Definition found : chain :=
  [AddrInfo 1 AI_CLONE AF_INET 0 0 16 None (Some (2, SaIn 0 [192; 0; 2; 1]))].

Lemma ga_serv_numeric_witness :
  post (ga_serv (K := plain_kernel) found (Hints 0 AF_UNSPEC 0 0) "65616") proc0 (λ o _, ∀ ais',
    o = Ret (0, ais') →
    let port := htons (atoi "65616") in
    view <$> ais' = found ≫= λ ai, [view_port port SOCK_STREAM ai; view_port port SOCK_DGRAM ai]) ∧
  htons (atoi "65616") = htons 80.
Proof.
  split; [|reflexivity]. apply ga_serv_numeric; [|done|done]. constructor; [|constructor].
  split_and!; done.
Defined.

Lemma getaddrinfo_exits_witness :
  post (getaddrinfo (K := plain_kernel) (Some "host"%string) None (Some (Hints 0 AF_LOCAL 0 0))) proc0
    (λ o _, o = Exit 1).
Proof. by apply getaddrinfo_exits. Defined.

Lemma getnameinfo_fits_witness :
  post (getnameinfo (K := plain_kernel) loop6 47 6 (Z.lor NI_NUMERICHOST NI_NUMERICSERV)) proc0
    (λ o _, ∀ rc host serv, o = Ret (rc, host, serv) →
      (∀ s, host = Some s → strlen s < 47) ∧ (∀ s, serv = Some s → strlen s < 6)) ∧
  (getnameinfo (K := plain_kernel) loop6 47 6 (Z.lor NI_NUMERICHOST NI_NUMERICSERV) proc0).1 =
    Ret (0, Some "::1"%string, Some "80"%string).
Proof. split; [apply getnameinfo_fits; [done|apply loop6_ok|lia|lia]|by vm_compute]. Defined.
