(* ===== verification/NetLib.v ===== *)
(** Connections by name: src/unpv13e/lib (host_serv.c, tcp_connect.c,
    tcp_listen.c, udp_client.c, udp_connect.c, udp_server.c, connect_nonb.c,
    connect_timeo.c, readable_timeo.c, writable_timeo.c, signal_intr.c).

    These functions call getaddrinfo and freeaddrinfo through the interface
    [Resolver]; the theorems rely on its laws only, and the implementation of
    libgai (Gai.v) is shown to be an instance. *)
From S2P Require Import Prelude Machine Posix Wrap Heap Stream Nonblock Servers Gai.

Definition SO_REUSEADDR : Z := 2.
Definition SO_ERROR : Z := 4.

(** ** The interface *)

Class Resolver := {
  gai : option string → option string → option hints → M (Z * chain);
  gai_free : chain → M unit;
  gai_error : Z → string
}.

(** Events that open or close no descriptor. *)
Definition no_fd (e : event) : Prop :=
  match e with
  | Event c _ =>
      match c with
      | sys_socket _ _ _ | sys_accept _ | sys_close _
      | sys_socketpair _ _ _ | sys_dup2 _ _ | sys_recvmsg_ctl _ _
      | sys_open _ _ _ | sys_pipe | sys_mkstemp _ => False
      | _ => True
      end
  end.

(** A result is a nonempty list of addresses whose blocks are new, and which
    [gai_free] gives back; a failure is an error code or the end of the
    process; no descriptor is opened or closed. *)
Class ResolverLaws (R : Resolver) : Prop := {
  gai_result : ∀ host serv h p, heap_ok p →
    post (gai host serv (Some h)) p (λ o p', extends no_fd p p' ∧
      match o with
      | Ret (rc, ais) => rc = 0 → ais ≠ [] ∧ holds p (blocks ais) p' ∧
          Forall (λ ai, is_Some (ai_addr ai)) ais
      | Exit st => st = 1
      | _ => False
      end);
  gai_free_all : ∀ p0 own ais p, holds p0 (blocks ais ++ own) p →
    post (gai_free ais) p (λ o p', o = Ret tt ∧ holds p0 own p' ∧ extends no_fd p p')
}.

Section netlib.
Context {K : Kernel} {R : Resolver}.

(** ** host_serv.c *)

Definition host_serv (host serv : option string) (family socktype : Z) : M (option chain) :=
  '(n, res) ← gai host serv (Some (Hints AI_CANONNAME family socktype 0));
  if negb (n =? 0) then mret None else mret (Some res).
Definition Host_serv (host serv : option string) (family socktype : Z) : M chain :=
  '(n, res) ← gai host serv (Some (Hints AI_CANONNAME family socktype 0));
  if negb (n =? 0) then
    err_quit ("host_serv error for " +:+ default "(no hostname)" host +:+ ", " +:+
              default "(no service name)" serv +:+ ": " +:+ gai_error n)
  else mret res.

(** ** The [do ... while] loop over the results: the first attempt that does not
    [continue], with its node *)

Fixpoint first_of {A} (attempt : addrinfo → M (option A)) (res : chain) : M (option (A * addrinfo)) :=
  match res with
  | [] => mret None
  | ai :: ai_next =>
      r ← attempt ai;
      match r with
      | Some a => mret (Some (a, ai))
      | None => first_of attempt ai_next
      end
  end.

(** [ai->ai_addr] of a result, passed with its length. *)
Definition with_addr {A} (ai : addrinfo) (k : sockaddr → M A) : M A :=
  match ai_addr ai with Some (_, sa) => k sa | None => stop UB end.

(** ** tcp_connect.c, udp_connect.c *)

Definition connect_attempt (ai : addrinfo) : M (option Z) :=
  s ← syscall (sys_socket (ai_family ai) (ai_socktype ai) (ai_protocol ai));
  match s with
  | None => mret None
  | Some sockfd =>
      with_addr ai (λ sa,
        c ← syscall (sys_connect sockfd sa (ai_addrlen ai));
        match c with
        | Some _ => mret (Some sockfd)
        | None => Close sockfd ;; mret None
        end)
  end.

Definition tcp_connect (host serv : string) : M Z :=
  '(n, res) ← gai (Some host) (Some serv) (Some (Hints 0 AF_UNSPEC SOCK_STREAM 0));
  if negb (n =? 0) then
    err_quit ("tcp_connect error for " +:+ host +:+ ", " +:+ serv +:+ ": " +:+ gai_error n)
  else
    r ← first_of connect_attempt res;
    match r with
    | None => err_sys ("tcp_connect error for " +:+ host +:+ ", " +:+ serv)
    | Some (sockfd, _) => gai_free res ;; mret sockfd
    end.
Definition Tcp_connect (host serv : string) : M Z := tcp_connect host serv.

Definition udp_connect (host serv : string) : M Z :=
  '(n, res) ← gai (Some host) (Some serv) (Some (Hints 0 AF_UNSPEC SOCK_DGRAM 0));
  if negb (n =? 0) then
    err_quit ("udp_connect error for " +:+ host +:+ ", " +:+ serv +:+ ": " +:+ gai_error n)
  else
    r ← first_of connect_attempt res;
    match r with
    | None => err_sys ("udp_connect error for " +:+ host +:+ ", " +:+ serv)
    | Some (sockfd, _) => gai_free res ;; mret sockfd
    end.
Definition Udp_connect (host serv : string) : M Z :=
  n ← udp_connect host serv;
  if n <? 0 then
    err_quit ("udp_connect error for " +:+ host +:+ ", " +:+ serv +:+ ": " +:+ gai_error (- n))
  else mret n.

(** ** tcp_listen.c *)

Definition listen_attempt (ai : addrinfo) : M (option Z) :=
  s ← syscall (sys_socket (ai_family ai) (ai_socktype ai) (ai_protocol ai));
  match s with
  | None => mret None
  | Some listenfd =>
      Setsockopt listenfd SOL_SOCKET SO_REUSEADDR (le32_bytes 1) ;;
      with_addr ai (λ sa,
        b ← syscall (sys_bind listenfd sa (ai_addrlen ai));
        match b with
        | Some _ => mret (Some listenfd)
        | None => Close listenfd ;; mret None
        end)
  end.

(** The descriptor and [*addrlenp]. *)
Definition tcp_listen (host serv : option string) : M (Z * Z) :=
  '(n, res) ← gai host serv (Some (Hints AI_PASSIVE AF_UNSPEC SOCK_STREAM 0));
  if negb (n =? 0) then
    err_quit ("tcp_listen error for " +:+ default "(null)" host +:+ ", " +:+ default "(null)" serv
                +:+ ": " +:+ gai_error n)
  else
    r ← first_of listen_attempt res;
    match r with
    | None => err_sys ("tcp_listen error for " +:+ default "(null)" host +:+ ", " +:+ default "(null)" serv)
    | Some (listenfd, ai) =>
        Listen listenfd LISTENQ ;;
        gai_free res ;;
        mret (listenfd, ai_addrlen ai)
    end.
Definition Tcp_listen (host serv : option string) : M (Z * Z) := tcp_listen host serv.

(** ** udp_client.c: descriptor, the copy of the address and its length *)

Definition client_attempt (ai : addrinfo) : M (option Z) :=
  syscall (sys_socket (ai_family ai) (ai_socktype ai) (ai_protocol ai)).

Definition udp_client (host serv : string) : M (Z * (ptr * sockaddr) * Z) :=
  '(n, res) ← gai (Some host) (Some serv) (Some (Hints 0 AF_UNSPEC SOCK_DGRAM 0));
  if negb (n =? 0) then
    err_quit ("udp_client error for " +:+ host +:+ ", " +:+ serv +:+ ": " +:+ gai_error n)
  else
    r ← first_of client_attempt res;
    match r with
    | None => err_sys ("udp_client error for " +:+ host +:+ ", " +:+ serv)
    | Some (sockfd, ai) =>
        saptr ← Malloc (ai_addrlen ai);
        with_addr ai (λ sa,
          gai_free res ;;
          mret (sockfd, (saptr, sa), ai_addrlen ai))
    end.
Definition Udp_client (host serv : string) : M (Z * (ptr * sockaddr) * Z) := udp_client host serv.

(** ** udp_server.c *)

Definition server_attempt (ai : addrinfo) : M (option Z) :=
  s ← syscall (sys_socket (ai_family ai) (ai_socktype ai) (ai_protocol ai));
  match s with
  | None => mret None
  | Some sockfd =>
      with_addr ai (λ sa,
        b ← syscall (sys_bind sockfd sa (ai_addrlen ai));
        match b with
        | Some _ => mret (Some sockfd)
        | None => Close sockfd ;; mret None
        end)
  end.

Definition udp_server (host serv : option string) : M (Z * Z) :=
  '(n, res) ← gai host serv (Some (Hints AI_PASSIVE AF_UNSPEC SOCK_DGRAM 0));
  if negb (n =? 0) then
    err_quit ("udp_server error for " +:+ default "(null)" host +:+ ", " +:+ default "(null)" serv
                +:+ ": " +:+ gai_error n)
  else
    r ← first_of server_attempt res;
    match r with
    | None => err_sys ("udp_server error for " +:+ default "(null)" host +:+ ", " +:+ default "(null)" serv)
    | Some (sockfd, ai) =>
        gai_free res ;;
        mret (sockfd, ai_addrlen ai)
    end.
Definition Udp_server (host serv : option string) : M (Z * Z) := udp_server host serv.

(** ** connect_nonb.c *)

(** [true]: returns 0; [false]: -1. *)
Definition connect_done (sockfd flags error : Z) : M bool :=
  Fcntl sockfd F_SETFL flags ;;
  if negb (error =? 0) then
    syscall (sys_close sockfd) ;;
    set_errno error ;;
    mret false
  else mret true.

Definition connect_nonb (sockfd : Z) (saptr : sockaddr) (salen nsec : Z) : M bool :=
  flags ← Fcntl sockfd F_GETFL 0;
  Fcntl sockfd F_SETFL (Z.lor flags O_NONBLOCK) ;;
  n ← syscall (sys_connect sockfd saptr salen);
  e ← get_errno;
  match n with
  | Some _ => connect_done sockfd flags 0
  | None =>
      if negb (e =? EINPROGRESS) then mret false
      else
        '(rset, wset) ← Select [sockfd] [sockfd] (if negb (nsec =? 0) then Some nsec else None);
        if Z.of_nat (List.length rset + List.length wset) =? 0 then
          syscall (sys_close sockfd) ;;
          set_errno ETIMEDOUT ;;
          mret false
        else if FD_ISSET sockfd rset || FD_ISSET sockfd wset then
          error ← syscall (sys_getsockopt sockfd SOL_SOCKET SO_ERROR 4);
          match error with
          | None => mret false
          | Some error => connect_done sockfd flags error
          end
        else err_quit "select error: sockfd not set"
  end.

(** ** connect_timeo.c; [connect_alarm] is the address of the handler *)

Definition connect_timeo (connect_alarm sockfd : Z) (saptr : sockaddr) (salen nsec : Z) : M bool :=
  sigfunc ← Signal SIGALRM connect_alarm;
  old ← call (sys_alarm (u32 nsec));
  (if negb (old =? 0) then err_msg "connect_timeo: alarm was already set" else mret tt) ;;
  n ← syscall (sys_connect sockfd saptr salen);
  (match n with
   | Some _ => mret tt
   | None =>
       syscall (sys_close sockfd) ;;
       e ← get_errno;
       if e =? EINTR then set_errno ETIMEDOUT else mret tt
   end) ;;
  call (sys_alarm 0) ;;
  Signal SIGALRM sigfunc ;;
  mret (bool_decide (is_Some n)).
Definition Connect_timeo (connect_alarm fd : Z) (sa : sockaddr) (salen sec : Z) : M unit :=
  ok ← connect_timeo connect_alarm fd sa salen sec;
  if (ok : bool) then mret tt else err_sys "connect_timeo error".

(** ** readable_timeo.c, writable_timeo.c, signal_intr.c *)

(** [None]: -1; otherwise the number of ready descriptors. *)
Definition readable_timeo (fd sec : Z) : M (option Z) :=
  r ← syscall (sys_select [fd] [] (Some sec));
  mret ((λ rw : list Z * list Z, Z.of_nat (List.length rw.1 + List.length rw.2)) <$> r).
Definition Readable_timeo (fd sec : Z) : M Z :=
  n ← readable_timeo fd sec;
  match n with Some n => mret n | None => err_sys "readable_timeo error" end.
Definition writable_timeo (fd sec : Z) : M (option Z) :=
  r ← syscall (sys_select [] [fd] (Some sec));
  mret ((λ rw : list Z * list Z, Z.of_nat (List.length rw.1 + List.length rw.2)) <$> r).
Definition Writable_timeo (fd sec : Z) : M Z :=
  n ← writable_timeo fd sec;
  match n with Some n => mret n | None => err_sys "writable_timeo error" end.

(** SA_INTERRUPT is not a flag of the system. *)
Definition signal_intr (signo func : Z) : M (option Z) := syscall (sys_sigaction signo func 0).
Definition Signal_intr (signo func : Z) : M Z :=
  r ← signal_intr signo func;
  match r with Some h => mret h | None => err_sys "signal_intr error" end.
End netlib.

(** ** The implementation of libgai *)

#[global] Instance libgai {K : Kernel} : Resolver := {
  gai := getaddrinfo;
  gai_free := freeaddrinfo;
  gai_error := gai_strerror
}.

Section emits.
Context {K : Kernel}.

Lemma emits_err_doit b level msg : emits no_fd (err_doit b level msg).
Proof. unfold err_doit. emits_tac. Qed.
#[local] Hint Resolve emits_err_doit : emits.
Lemma emits_err_sys {A} msg : emits no_fd (err_sys (A := A) msg).
Proof. unfold err_sys. emits_tac. Qed.
Lemma emits_err_quit {A} msg : emits no_fd (err_quit (A := A) msg).
Proof. unfold err_quit. emits_tac. Qed.
#[local] Hint Resolve emits_err_sys emits_err_quit : emits.

Lemma emits_ga_aistruct ais h addr family : emits no_fd (ga_aistruct ais h addr family).
Proof. unfold ga_aistruct. emits_tac. Qed.
#[local] Hint Resolve emits_ga_aistruct : emits.
Lemma emits_strdup s : emits no_fd (strdup s).
Proof. unfold strdup. emits_tac. Qed.
#[local] Hint Resolve emits_strdup : emits.
Lemma emits_freeaddrinfo ais : emits no_fd (freeaddrinfo ais).
Proof. induction ais as [|ai ais IH]; cbn [freeaddrinfo]; unfold free_opt; emits_tac. Qed.
#[local] Hint Resolve emits_freeaddrinfo : emits.
Lemma emits_ga_clone ai : emits no_fd (ga_clone ai).
Proof. unfold ga_clone. emits_tac. Qed.
Lemma emits_set_port ai port t : emits no_fd (set_port ai port t).
Proof. unfold set_port. emits_tac. Qed.
#[local] Hint Resolve emits_ga_clone emits_set_port : emits.
Lemma emits_ga_port port t ais : emits no_fd (ga_port ais port t).
Proof. induction ais as [|ai ais IH]; cbn [ga_port]; emits_tac. Qed.
#[local] Hint Resolve emits_ga_port : emits.
Lemma emits_ga_serv ais h serv : emits no_fd (ga_serv ais h serv).
Proof. unfold ga_serv, serv_name, serv_port. emits_tac. Qed.
Lemma emits_ga_unix path h : emits no_fd (ga_unix path h).
Proof. unfold ga_unix. emits_tac. Qed.
Lemma emits_try_literal h s ais : emits no_fd (try_literal h s ais).
Proof. unfold try_literal. emits_tac. Qed.
Lemma emits_look_up n s : emits no_fd (look_up n s).
Proof. unfold look_up. emits_tac. Qed.
Lemma emits_ga_addrs h addrs family : ∀ ais, emits no_fd (ga_addrs h addrs family ais).
Proof. induction addrs as [|a addrs IH]; intros ais; cbn [ga_addrs]; emits_tac. Qed.
Lemma emits_save_canon hn h hp c : emits no_fd (save_canon hn h hp c).
Proof. unfold save_canon. emits_tac. Qed.
#[local] Hint Resolve emits_ga_serv emits_ga_unix emits_try_literal emits_look_up emits_ga_addrs
  emits_save_canon : emits.
Lemma emits_ga_search hn h n search : ∀ ais c, emits no_fd (ga_search hn h n search ais c).
Proof. induction search as [|s search IH]; intros ais c; cbn [ga_search]; emits_tac. Qed.
Lemma emits_put_canon hn h h0 ais c : emits no_fd (put_canon hn h h0 ais c).
Proof. unfold put_canon. emits_tac. Qed.
#[local] Hint Resolve emits_ga_search emits_put_canon : emits.
Lemma emits_getaddrinfo hn sn h : emits no_fd (getaddrinfo hn sn h).
Proof. unfold getaddrinfo, ga_nsearch, bad. emits_tac. Qed.
End emits.

#[global] Instance libgai_laws {K : Kernel} {KRes : ResolverOk K} : ResolverLaws libgai.
Proof.
  split.
  - intros host serv h p Hp. eapply post_weaken.
    { apply post_and; [by apply getaddrinfo_holds|apply emits_post, emits_getaddrinfo]. }
    intros o p' [Ho He]. split; [done|]. destruct o as [[rc ais]| | | |]; simpl in *; try tauto.
    intros ->. destruct (is_local host serv); [tauto|]. simpl in Ho. destruct Ho as (H1 & H2 & H3).
    split; [done|]. split; [done|]. eapply Forall_impl; [exact H3|].
    intros ai (_ & _ & _ & _ & q & sa & -> & _). done.
  - intros p0 own ais p Hh.
    assert (He : post (freeaddrinfo ais) p (λ _ p', extends no_fd p p')) by apply emits_post, emits_freeaddrinfo.
    eapply post_weaken; [apply post_and; [|exact He]|].
    { eapply (freeaddrinfo_holds _ _ _ _ (λ o p', o = Ret tt ∧ holds p0 own p')); [exact Hh|done]. }
    intros o p' [[-> ?] ?]. done.
Qed.

(** ** Lemmas on the attempts *)

Definition fds (p : proc) : gset Z := open_fds (p_trace p).

(** [fd] is the one descriptor opened since [p], and the event [e] of the trace,
    after which no descriptor was opened or closed, made it so. *)
Definition opened (win : Z → event → Prop) (p : proc) (fd : Z) (p' : proc) : Prop :=
  0 ≤ fd ∧ (fd ∉ fds p) ∧ fds p' = {[fd]} ∪ fds p ∧
  ∃ t1 e t2, p_trace p' = t1 ++ e :: t2 ∧ win fd e ∧ Forall no_fd t1.

Definition is_connected (fd : Z) (e : event) : Prop :=
  ∃ sa len, e = Event (sys_connect fd sa len) (Ok tt).
Definition is_bound (fd : Z) (e : event) : Prop :=
  ∃ sa len, e = Event (sys_bind fd sa len) (Ok tt).
Definition is_socket (fd : Z) (e : event) : Prop :=
  ∃ f t p, e = Event (sys_socket f t p) (Ok fd).

Lemma extends_fds p p' : extends no_fd p p' → fds p' = fds p.
Proof.
  intros (t & Ht & H). unfold fds. rewrite Ht. clear Ht.
  induction H as [|[A c a] t Hc Ht IH]; [done|]. simpl. rewrite IH. by destruct c.
Qed.
Lemma extends_opened win p fd p1 p2 : opened win p fd p1 → extends no_fd p1 p2 → opened win p fd p2.
Proof.
  intros (H1 & H2 & H3 & t1 & e & t2 & Ht & Hw & Hn) He.
  split; [done|]. split; [done|]. split; [by rewrite (extends_fds _ _ He)|].
  destruct He as (t & Ht' & Hn'). exists (t ++ t1), e, t2. rewrite Ht', Ht, app_assoc.
  split; [done|]. split; [done|]. by apply Forall_app.
Qed.
Lemma reported_extends p p' : reported p p' → extends no_fd p p'.
Proof.
  intros [(t & Ht & Hq & _) _]. exists t. split; [done|]. eapply Forall_impl; [exact Hq|].
  intros [A c a] H. by destruct c.
Qed.
Lemma opened_now {A} win p fd p1 (c : sys A) a :
  0 ≤ fd → fd ∉ fds p → fds p1 = {[fd]} ∪ fds p → no_fd (Event c a) → win fd (Event c a) →
  opened win p fd (add_event c a p1).
Proof.
  intros H1 H2 H3 Hn Hw. split; [done|]. split; [done|]. split.
  - rewrite <- H3. apply extends_fds. exists [Event c a]. split; [done|]. by repeat constructor.
  - by exists [], (Event c a), (p_trace p1).
Qed.

Section attempts.
Context {K : Kernel} {R : Resolver} {RL : ResolverLaws R} {KSock : SocketOk K}.

(** What an attempt on one result may do. *)
Definition attempt_post (win : Z → event → Prop) (p0 : proc) (own : list ptr) (p : proc)
    (o : outcome (option Z)) (p' : proc) : Prop :=
  match o with
  | Ret (Some fd) => holds p0 own p' ∧ opened win p fd p'
  | Ret None => holds p0 own p' ∧ fds p' = fds p
  | Exit st => st = 1
  | _ => False
  end.

Lemma err_exits {A B} (m : M A) (Q : B → proc → Prop) win p0 own p0' p k :
  post m p (λ o p', o = Exit 1 ∧ reported p p') →
  post m p (through (attempt_post win p0 own p0') k).
Proof. intros Hm. eapply post_weaken; [exact Hm|]. intros o p' [-> _]. done. Qed.

(** [socket], then a second call on the new descriptor, closing it on failure. *)
Lemma Close_new_post win fd p0 own p p1 (k : unit → proc → Prop) :
  fd ∉ fds p → fds p1 = {[fd]} ∪ fds p → holds p0 own p1 →
  (∀ p', holds p0 own p' → fds p' = fds p → k tt p') →
  post (Close fd) p1 (through (attempt_post win p0 own p) k).
Proof.
  intros Hf Ho Hh Hk. unfold Close, or_err_sys. post_steps.
  - destruct a. apply Hk; [by apply holds_event|]. unfold fds in *. simpl. rewrite Ho. clear -Hf.
    apply set_eq. intros x. rewrite elem_of_difference, elem_of_union, elem_of_singleton.
    split; [tauto|]. intros Hx. split; [by right|]. by intros ->.
  - eapply post_weaken; [apply err_sys_exits|]. intros o p' [-> _]. done.
Qed.

Lemma connect_attempt_post ai p0 own p :
  holds p0 own p → is_Some (ai_addr ai) →
  post (connect_attempt ai) p (attempt_post is_connected p0 own p).
Proof.
  intros Hh [[q sa] Ha]. unfold connect_attempt, with_addr. rewrite Ha. do 2 post_step.
  2: { post_steps. split; [|done]. by apply (holds_same _ _ p). }
  destruct (socket_fresh _ _ _ _ _ H) as [Hpos Hfr].
  post_steps.
  - destruct a0. split; [by apply (holds_same _ _ p)|]. apply opened_now; [done|done|done|done|]. by eexists _, _.
  - eapply (Close_new_post is_connected a p0 own p); [done|done|by apply (holds_same _ _ p)|].
    intros p' Hp' Hf. by post_steps.
Qed.

Lemma server_attempt_post ai p0 own p :
  holds p0 own p → is_Some (ai_addr ai) →
  post (server_attempt ai) p (attempt_post is_bound p0 own p).
Proof.
  intros Hh [[q sa] Ha]. unfold server_attempt, with_addr. rewrite Ha. do 2 post_step.
  2: { post_steps. split; [|done]. by apply (holds_same _ _ p). }
  destruct (socket_fresh _ _ _ _ _ H) as [Hpos Hfr].
  post_steps.
  - destruct a0. split; [by apply (holds_same _ _ p)|]. apply opened_now; [done|done|done|done|]. by eexists _, _.
  - eapply (Close_new_post is_bound a p0 own p); [done|done|by apply (holds_same _ _ p)|].
    intros p' Hp' Hf. by post_steps.
Qed.

Lemma listen_attempt_post ai p0 own p :
  holds p0 own p → is_Some (ai_addr ai) →
  post (listen_attempt ai) p (attempt_post is_bound p0 own p).
Proof.
  intros Hh [[q sa] Ha]. unfold listen_attempt, with_addr. rewrite Ha. do 2 post_step.
  2: { post_steps. split; [|done]. by apply (holds_same _ _ p). }
  destruct (socket_fresh _ _ _ _ _ H) as [Hpos Hfr].
  unfold Setsockopt, or_err_sys. do 3 post_step.
  2: { eapply post_weaken; [apply err_sys_exits|]. intros o p' [-> _]. done. }
  set (p2 := add_event _ _ (add_event _ _ p)).
  assert (Ho : fds p2 = {[a]} ∪ fds p) by done.
  post_steps.
  - destruct a1. split; [by apply (holds_same _ _ p)|]. apply opened_now; [done|done|done|done|]. by eexists _, _.
  - eapply (Close_new_post is_bound a p0 own p); [done|done|by apply (holds_same _ _ p)|].
    intros p' Hp' Hf. by post_steps.
Qed.

Lemma client_attempt_post ai p0 own p :
  holds p0 own p → post (client_attempt ai) p (attempt_post is_socket p0 own p).
Proof.
  intros Hh. unfold client_attempt. post_steps.
  - destruct (socket_fresh _ _ _ _ _ H) as [Hpos Hfr].
    split; [by apply (holds_same _ _ p)|]. split; [done|]. split; [done|]. split; [done|].
    exists [], (Event (sys_socket (ai_family ai) (ai_socktype ai) (ai_protocol ai)) (Ok a)), (p_trace p).
    split; [done|]. split; [by eexists _, _, _|constructor].
  - split; [|done]. by apply (holds_same _ _ p).
Qed.

(** The loop: the first success, everything else having been undone. *)
Lemma first_of_post win attempt p0 own ais : ∀ p p1 (Q : outcome (option (Z * addrinfo)) → proc → Prop),
  holds p0 own p1 → fds p1 = fds p →
  Forall (λ ai, is_Some (ai_addr ai)) ais →
  (∀ ai p, holds p0 own p → is_Some (ai_addr ai) → post (attempt ai) p (attempt_post win p0 own p)) →
  (∀ fd ai p', ai ∈ ais → is_Some (ai_addr ai) → holds p0 own p' → opened win p fd p' →
     Q (Ret (Some (fd, ai))) p') →
  (∀ p', holds p0 own p' → fds p' = fds p → Q (Ret None) p') →
  (∀ p', Q (Exit 1) p') →
  post (first_of attempt ais) p1 Q.
Proof.
  induction ais as [|ai ais IH]; intros p p1 Q Hh Hf Hall Hatt H1 H2 H3; cbn [first_of].
  { by apply post_ret, H2. }
  apply Forall_cons in Hall as [Hai Hall]. post_step. eapply post_weaken; [by apply Hatt|].
  intros o p2 Ho. destruct o as [[fd|]|st| | |]; cbn [through attempt_post] in *; try done.
  - destruct Ho as [Hh2 (O1 & O2 & O3 & O4)]. apply post_ret, H1; [by left|done|done|].
    rewrite Hf in O2, O3. done.
  - destruct Ho as [Hh2 Hf2]. apply (IH p); try done; [by rewrite Hf2|].
    intros fd ai' p' Hin. apply H1. by right.
  - subst st. apply H3.
Qed.
End attempts.

(** How the functions of this file end: with the one descriptor they opened, in
    the state [win] names, and the heap as it was but for [own]; or by
    [exit(1)]. *)
Definition netlib_post {A} (win : Z → event → Prop) (fd_of : A → Z) (own : A → list ptr) (p : proc)
    (o : outcome A) (p' : proc) : Prop :=
  match o with
  | Ret a => holds p (own a) p' ∧ opened win p (fd_of a) p'
  | Exit st => st = 1
  | _ => False
  end.

Section ends.
Context {K : Kernel} {R : Resolver} {RL : ResolverLaws R} {KSock : SocketOk K}.

Lemma exits_post {A} (m : M A) win fd_of own p p1 :
  post m p1 (λ o p', o = Exit 1 ∧ reported p1 p') → post m p1 (netlib_post (A := A) win fd_of own p).
Proof. intros Hm. eapply post_weaken; [exact Hm|]. by intros o p' [-> _]. Qed.

(** The resolver, then an attempt on each result, then [finish]. *)
Lemma by_name_post {A} win attempt finish fd_of own host serv h p (e1 : Z → M A) (e2 : M A) :
  heap_ok p →
  (∀ p0 own ai p, holds p0 own p → is_Some (ai_addr ai) → post (attempt ai) p (attempt_post win p0 own p)) →
  (∀ n p1, post (e1 n) p1 (netlib_post win fd_of own p)) → (∀ p1, post e2 p1 (netlib_post win fd_of own p)) →
  (∀ res fd ai p1, ai ∈ res → is_Some (ai_addr ai) → holds p (blocks res) p1 → opened win p fd p1 →
     post (finish res fd ai) p1 (netlib_post win fd_of own p)) →
  post ('(n, res) ← gai host serv (Some h);
        if negb (n =? 0) then e1 n
        else
          r ← first_of attempt res;
          match r with
          | None => e2
          | Some (fd, ai) => finish res fd ai
          end) p (netlib_post win fd_of own p).
Proof.
  intros Hp Hatt He1 He2 Hfin. post_step. eapply post_weaken; [by apply gai_result|].
  intros o p1 [He Ho]. destruct o as [[n res]|st| | |]; cbn [through]; try done.
  destruct (Z.eqb_spec n 0) as [Hn|]; cbn [negb]; [|apply He1].
  destruct (Ho Hn) as (Hne & Hh & Haddr). post_step.
  apply (first_of_post win attempt p (blocks res) res p); cbn [through]; try done.
  - by apply extends_fds.
  - intros ai p2. apply Hatt.
  - intros fd ai p2 Hin Hai Hh2 Hop. by apply Hfin.
Qed.

(** The results are freed; then the function returns. *)
Lemma free_and_return {A} win fd (a : A) fd_of own p res p1 :
  fd_of a = fd → holds p (blocks res ++ own a) p1 → opened win p fd p1 →
  post (gai_free res ;; mret a) p1 (netlib_post win fd_of own p).
Proof.
  intros Hfd Hh Hop. post_step. eapply post_weaken; [by apply (gai_free_all p (own a))|].
  intros o p2 (-> & Hh2 & He). cbn [through]. post_step. split; [done|]. rewrite Hfd.
  by eapply extends_opened.
Qed.
End ends.

(** ** Properties *)

Section properties.
Context {K : Kernel} {R : Resolver} {RL : ResolverLaws R} {KSock : SocketOk K}.

(** C36: [tcp_connect] and [udp_connect], with any resolver that keeps the laws
    of the interface: a descriptor returned is new, connected, and the only
    one left open (the sockets of the addresses that failed were closed), and
    the list of results was freed, block by block; otherwise the process
    exits. *)
Theorem connect_by_name host serv p :
  heap_ok p →
  post (tcp_connect host serv) p (netlib_post is_connected id (λ _, []) p) ∧
  post (udp_connect host serv) p (netlib_post is_connected id (λ _, []) p).
Proof.
  intros Hp. split;
    (apply (by_name_post is_connected connect_attempt (λ res fd _, gai_free res ;; mret fd)); [done|intros; by apply connect_attempt_post|intros; apply exits_post, err_quit_exits
      |intros; apply exits_post, err_sys_exits|]);
    intros res fd ai p1 _ _ Hh Hop; (eapply free_and_return; [done| |done]); by rewrite app_nil_r.
Qed.

(** [tcp_listen] and [udp_server] likewise: the descriptor returned is bound
    (and listening), the only one left open, and the results are freed. *)
Theorem listen_by_name host serv p :
  heap_ok p →
  post (tcp_listen host serv) p (netlib_post is_bound fst (λ _, []) p) ∧
  post (udp_server host serv) p (netlib_post is_bound fst (λ _, []) p).
Proof.
  intros Hp. split.
  - apply (by_name_post is_bound listen_attempt (λ res fd ai,
      Listen fd LISTENQ ;; gai_free res ;; mret (fd, ai_addrlen ai))); [done|intros; by apply listen_attempt_post|intros; apply exits_post, err_quit_exits
      |intros; apply exits_post, err_sys_exits|].
    intros res fd ai p1 _ _ Hh Hop. unfold Listen, or_err_sys. post_steps.
    + apply post_unbind. eapply free_and_return; [done| |].
      * rewrite app_nil_r. by apply holds_event, holds_event.
      * eapply extends_opened; [exact Hop|]. eexists [_; _]. split; [done|]. by repeat constructor.
    + eapply post_weaken; [apply err_sys_exits|]. by intros o p' [-> _].
  - apply (by_name_post is_bound server_attempt (λ res fd ai,
      gai_free res ;; mret (fd, ai_addrlen ai))); [done|intros; by apply server_attempt_post|intros; apply exits_post, err_quit_exits
      |intros; apply exits_post, err_sys_exits|].
    intros res fd ai p1 _ _ Hh Hop. eapply free_and_return; [done| |done]. by rewrite app_nil_r.
Qed.

(** [udp_client] returns a new socket and a copy of the address in a block
    of its own, which is all that is left allocated. *)
Theorem udp_client_correct host serv p :
  heap_ok p →
  post (udp_client host serv) p
    (netlib_post is_socket (λ r, r.1.1) (λ r, [r.1.2.1]) p).
Proof.
  intros Hp. apply (by_name_post is_socket client_attempt (λ res fd ai,
    saptr ← Malloc (ai_addrlen ai);
    with_addr ai (λ sa, gai_free res ;; mret (fd, (saptr, sa), ai_addrlen ai)))); [done|intros; by apply client_attempt_post|intros; apply exits_post, err_quit_exits
      |intros; apply exits_post, err_sys_exits|].
  intros res fd ai p1 _ [[q sa] Ha] Hh Hop. unfold Malloc, with_addr. rewrite Ha. do 2 post_step.
  assert (Hop' : ∀ b, opened is_socket p fd (add_event (sys_malloc (ai_addrlen ai)) b p1)).
  { intros b. eapply extends_opened; [exact Hop|]. exists [Event (sys_malloc (ai_addrlen ai)) b].
    split; [done|]. by repeat constructor. }
  apply post_malloc; intros _; cbn [through]; post_steps.
  - apply post_unbind. eapply (free_and_return is_socket fd (fd, (p_next p1, sa), ai_addrlen ai)); [done| |by apply (Hop' true)].
    eapply holds_perm; [|apply (holds_with_block p (blocks res)), holds_event; exact Hh].
    simpl. solve_Permutation.
  - eapply post_weaken; [apply err_sys_exits|]. by intros o p' [-> _].
Qed.
End properties.

(** A system for the witnesses: the names of [resolver], new descriptors above
    the open ones, and no route to IPv6 addresses. *)
Definition net : Kernel := λ A t c,
  (match c in sys A return A → A with
   | sys_socket _ _ _ => λ _, Ok (next_fd (open_fds t))
   | sys_connect _ sa _ => λ a, match sa with SaIn6 _ _ => Err 101 | _ => a end
   | sys_bind _ sa _ => λ a, match sa with SaIn6 _ _ => Err 99 | _ => a end
   | _ => λ a, a
   end) (resolver 1000 A t c).

Lemma net_ok : ResolverOk net ∧ SocketOk net.
Proof.
  split; split.
  - intros t o n h. exact (@gethostbyname_ok _ (resolver_ok 1000) t o n h).
  - intros t o n f h. exact (@gethostbyname2_ok _ (resolver_ok 1000) t o n f h).
  - intros t f s p fd [= <-]. apply next_fd_fresh.
Qed.

#[local] Existing Instance net.

Lemma connect_by_name_witness :
  (post (tcp_connect "www" "http") proc0 (netlib_post is_connected id (λ _, []) proc0) ∧
   post (udp_connect "www" "http") proc0 (netlib_post is_connected id (λ _, []) proc0)) ∧
  match tcp_connect "www" "http" proc0 with
  | (Ret fd, p') => fd = 3 ∧ elements (fds p') = [3] ∧ elements (p_live p') = []
  | _ => False
  end.
Proof.
  destruct net_ok as [H1 H2]. split; [|by vm_compute].
  apply connect_by_name, proc0_heap_ok.
Defined.

Lemma listen_by_name_witness :
  (post (tcp_listen None (Some "http"%string)) proc0 (netlib_post is_bound fst (λ _, []) proc0) ∧
   post (udp_server None (Some "http"%string)) proc0 (netlib_post is_bound fst (λ _, []) proc0)) ∧
  match tcp_listen None (Some "http"%string) proc0 with
  | (Ret (fd, len), p') => fd = 3 ∧ len = 16 ∧ elements (fds p') = [3]
  | _ => False
  end.
Proof.
  destruct net_ok as [H1 H2]. split; [|by vm_compute].
  apply listen_by_name, proc0_heap_ok.
Defined.

Lemma udp_client_correct_witness :
  post (udp_client "www" "http") proc0 (netlib_post is_socket (λ r, r.1.1) (λ r, [r.1.2.1]) proc0) ∧
  match udp_client "www" "http" proc0 with
  | (Ret (fd, (q, sa), len), p') => fd = 3 ∧ len = 28 ∧ elements (p_live p') = [q]
  | _ => False
  end.
Proof.
  destruct net_ok as [H1 H2]. split; [|by vm_compute].
  apply udp_client_correct, proc0_heap_ok.
Defined.
