(* ===== verification/Mcast.v ===== *)
(** Multicast: src/unpv13e/lib (mcast_join.c, mcast_leave.c, mcast_set_if.c,
    mcast_set_loop.c, mcast_set_ttl.c, mcast_get_if.c, mcast_get_loop.c,
    mcast_get_ttl.c).

    The configured system has the protocol-independent group options
    (MCAST_JOIN_GROUP and the others), so that of mcast_join.c and
    mcast_leave.c the branches under their [#ifdef] are compiled.  A function
    returns 0 or -1, or the value of an option. *)
From S2P Require Import Prelude Machine Posix Wrap Sockaddr.

Definition MCAST_JOIN_GROUP : Z := 42.
Definition MCAST_BLOCK_SOURCE : Z := 43.
Definition MCAST_UNBLOCK_SOURCE : Z := 44.
Definition MCAST_LEAVE_GROUP : Z := 45.
Definition MCAST_JOIN_SOURCE_GROUP : Z := 46.
Definition MCAST_LEAVE_SOURCE_GROUP : Z := 47.
Definition IP_MULTICAST_IF : Z := 32.
Definition IP_MULTICAST_TTL : Z := 33.
Definition IP_MULTICAST_LOOP : Z := 34.
Definition IPV6_MULTICAST_IF : Z := 17.
Definition IPV6_MULTICAST_HOPS : Z := 18.
Definition IPV6_MULTICAST_LOOP : Z := 19.
Definition IFNAMSIZ : nat := 16.
(** [sizeof] of [gr_group], [gsr_group] and [gsr_source]. *)
Definition SIZEOF_SOCKADDR_STORAGE : Z := 128.

(** An integer of the given size in memory, and back. *)
Definition uchar_bytes (v : Z) : list Z := [u8 v].
Definition u32_bytes (v : Z) : list Z := le32_bytes (u32 v).
Definition le_value (bs : list Z) : Z := foldr (λ b v, b + 256 * v) 0 bs.

(** [strncpy(ifr_name, ifname, IFNAMSIZ)]. *)
Definition strncpy_ifname (ifname : string) : list ascii :=
  take IFNAMSIZ (chars ifname ++ replicate IFNAMSIZ NUL).

Section mcast.
Context {K : Kernel}.

(** The return value of [setsockopt]. *)
Definition setsockopt (c : sys (res unit)) : M Z :=
  r ← syscall c; mret match r with Some _ => 0 | None => -1 end.
(** [errno = e; return(-1);] *)
Definition fail_with (e : Z) : M Z := set_errno e ;; mret (-1).

(** ** mcast_join.c *)

(** The interface of the request: the index, the index of the name, or 0;
    [None] when there is no interface of that name. *)
Definition gr_interface (ifname : option string) (ifindex : Z) : M (option Z) :=
  if 0 <? ifindex then mret (Some ifindex)
  else match ifname with
       | Some name =>
           idx ← call (sys_if_nametoindex name);
           mret (if idx =? 0 then None else Some idx)
       | None => mret (Some 0)
       end.

Definition mcast_join (sockfd : Z) (grp : sockaddr) (grplen : Z) (ifname : option string) (ifindex : Z) : M Z :=
  i ← gr_interface ifname ifindex;
  match i with
  | None => fail_with ENXIO
  | Some idx =>
      if SIZEOF_SOCKADDR_STORAGE <? grplen then fail_with EINVAL
      else setsockopt (sys_setsockopt_group sockfd (family_to_level (sa_family grp)) MCAST_JOIN_GROUP idx grp)
  end.
Definition Mcast_join (sockfd : Z) (grp : sockaddr) (grplen : Z) (ifname : option string) (ifindex : Z) : M unit :=
  rc ← mcast_join sockfd grp grplen ifname ifindex;
  if rc <? 0 then err_sys "mcast_join error" else mret tt.

(** A [struct group_source_req]. *)
Definition source_request (opt sockfd : Z) (src : sockaddr) (srclen : Z) (grp : sockaddr) (grplen idx : Z) : M Z :=
  if (SIZEOF_SOCKADDR_STORAGE <? grplen) || (SIZEOF_SOCKADDR_STORAGE <? srclen) then fail_with EINVAL
  else setsockopt (sys_setsockopt_source sockfd (family_to_level (sa_family grp)) opt idx grp src).

Definition mcast_join_source_group (sockfd : Z) (src : sockaddr) (srclen : Z) (grp : sockaddr) (grplen : Z)
    (ifname : option string) (ifindex : Z) : M Z :=
  i ← gr_interface ifname ifindex;
  match i with
  | None => fail_with ENXIO
  | Some idx => source_request MCAST_JOIN_SOURCE_GROUP sockfd src srclen grp grplen idx
  end.
Definition Mcast_join_source_group (sockfd : Z) (src : sockaddr) (srclen : Z) (grp : sockaddr) (grplen : Z)
    (ifname : option string) (ifindex : Z) : M unit :=
  rc ← mcast_join_source_group sockfd src srclen grp grplen ifname ifindex;
  if rc <? 0 then err_sys "mcast_join_source_group error" else mret tt.

Definition mcast_block_source (sockfd : Z) (src : sockaddr) (srclen : Z) (grp : sockaddr) (grplen : Z) : M Z :=
  source_request MCAST_BLOCK_SOURCE sockfd src srclen grp grplen 0.
Definition Mcast_block_source (sockfd : Z) (src : sockaddr) (srclen : Z) (grp : sockaddr) (grplen : Z) : M unit :=
  rc ← mcast_block_source sockfd src srclen grp grplen;
  if rc <? 0 then err_sys "mcast_block_source error" else mret tt.
Definition mcast_unblock_source (sockfd : Z) (src : sockaddr) (srclen : Z) (grp : sockaddr) (grplen : Z) : M Z :=
  source_request MCAST_UNBLOCK_SOURCE sockfd src srclen grp grplen 0.
Definition Mcast_unblock_source (sockfd : Z) (src : sockaddr) (srclen : Z) (grp : sockaddr) (grplen : Z) : M unit :=
  rc ← mcast_unblock_source sockfd src srclen grp grplen;
  if rc <? 0 then err_sys "mcast_unblock_source error" else mret tt.

(** ** mcast_leave.c *)

Definition mcast_leave (sockfd : Z) (grp : sockaddr) (grplen : Z) : M Z :=
  if SIZEOF_SOCKADDR_STORAGE <? grplen then fail_with EINVAL
  else setsockopt (sys_setsockopt_group sockfd (family_to_level (sa_family grp)) MCAST_LEAVE_GROUP 0 grp).
Definition Mcast_leave (sockfd : Z) (grp : sockaddr) (grplen : Z) : M unit :=
  rc ← mcast_leave sockfd grp grplen;
  if rc <? 0 then err_sys "mcast_leave error" else mret tt.
Definition mcast_leave_source_group (sockfd : Z) (src : sockaddr) (srclen : Z) (grp : sockaddr) (grplen : Z) : M Z :=
  source_request MCAST_LEAVE_SOURCE_GROUP sockfd src srclen grp grplen 0.
Definition Mcast_leave_source_group (sockfd : Z) (src : sockaddr) (srclen : Z) (grp : sockaddr) (grplen : Z) : M unit :=
  rc ← mcast_leave_source_group sockfd src srclen grp grplen;
  if rc <? 0 then err_sys "mcast_leave_source_group error" else mret tt.

(** ** Options chosen by the family of the socket *)

Definition by_family {A} (sockfd : Z) (inet inet6 other : M A) : M A :=
  family ← sockfd_to_family sockfd;
  if family =? AF_INET then inet else if family =? AF_INET6 then inet6 else other.

(** mcast_set_if.c *)
Definition mcast_set_if (sockfd : Z) (ifname : option string) (ifindex : Z) : M Z :=
  let doioctl (ifr_name : list ascii) : M Z :=
    r ← syscall (sys_ioctl_ifaddr sockfd ifr_name);
    match r with
    | None => mret (-1)
    | Some inaddr => setsockopt (sys_setsockopt sockfd IPPROTO_IP IP_MULTICAST_IF inaddr)
    end in
  by_family sockfd
    (if 0 <? ifindex then
       n ← call (sys_if_indextoname ifindex);
       match n with
       | None => fail_with ENXIO
       | Some name => doioctl (chars name ++ [NUL])
       end
     else match ifname with
          | Some name => doioctl (strncpy_ifname name)
          | None => setsockopt (sys_setsockopt sockfd IPPROTO_IP IP_MULTICAST_IF INADDR_ANY)
          end)
    (let set idx := setsockopt (sys_setsockopt sockfd IPPROTO_IPV6 IPV6_MULTICAST_IF (u32_bytes idx)) in
     if ifindex =? 0 then
       match ifname with
       | None => fail_with EINVAL
       | Some name =>
           idx ← call (sys_if_nametoindex name);
           if idx =? 0 then fail_with ENXIO else set idx
       end
     else set ifindex)
    (fail_with EAFNOSUPPORT).
Definition Mcast_set_if (sockfd : Z) (ifname : option string) (ifindex : Z) : M unit :=
  rc ← mcast_set_if sockfd ifname ifindex;
  if rc <? 0 then err_sys "mcast_set_if error" else mret tt.

(** mcast_set_loop.c *)
Definition mcast_set_loop (sockfd onoff : Z) : M Z :=
  by_family sockfd
    (setsockopt (sys_setsockopt sockfd IPPROTO_IP IP_MULTICAST_LOOP (uchar_bytes onoff)))
    (setsockopt (sys_setsockopt sockfd IPPROTO_IPV6 IPV6_MULTICAST_LOOP (u32_bytes onoff)))
    (fail_with EAFNOSUPPORT).
Definition Mcast_set_loop (sockfd onoff : Z) : M unit :=
  rc ← mcast_set_loop sockfd onoff;
  if rc <? 0 then err_sys "mcast_set_loop error" else mret tt.

(** mcast_set_ttl.c *)
Definition mcast_set_ttl (sockfd val : Z) : M Z :=
  by_family sockfd
    (setsockopt (sys_setsockopt sockfd IPPROTO_IP IP_MULTICAST_TTL (uchar_bytes val)))
    (setsockopt (sys_setsockopt sockfd IPPROTO_IPV6 IPV6_MULTICAST_HOPS (u32_bytes val)))
    (fail_with EAFNOSUPPORT).
Definition Mcast_set_ttl (sockfd val : Z) : M unit :=
  rc ← mcast_set_ttl sockfd val;
  if rc <? 0 then err_sys "mcast_set_ttl error" else mret tt.

(** The value of an integer option of [size] bytes; the system fills the
    variable whole or the rest of it is indeterminate. *)
Definition getsockopt_int (sockfd level opt size : Z) : M Z :=
  r ← syscall (sys_getsockopt_bytes sockfd level opt size);
  match r with
  | None => mret (-1)
  | Some bs => if Z.of_nat (List.length bs) =? size then mret (i32 (le_value bs)) else stop UB
  end.

(** mcast_get_if.c: not written for IPv4 *)
Definition mcast_get_if (sockfd : Z) : M Z :=
  by_family sockfd
    (mret (-1))
    (getsockopt_int sockfd IPPROTO_IPV6 IPV6_MULTICAST_IF 4)
    (fail_with EAFNOSUPPORT).
Definition Mcast_get_if (sockfd : Z) : M Z :=
  rc ← mcast_get_if sockfd;
  if rc <? 0 then err_sys "mcast_get_if error" else mret rc.

(** mcast_get_loop.c *)
Definition mcast_get_loop (sockfd : Z) : M Z :=
  by_family sockfd
    (getsockopt_int sockfd IPPROTO_IP IP_MULTICAST_LOOP 1)
    (getsockopt_int sockfd IPPROTO_IPV6 IPV6_MULTICAST_LOOP 4)
    (fail_with EAFNOSUPPORT).
Definition Mcast_get_loop (sockfd : Z) : M Z :=
  rc ← mcast_get_loop sockfd;
  if rc <? 0 then err_sys "mcast_get_loop error" else mret rc.

(** mcast_get_ttl.c *)
Definition mcast_get_ttl (sockfd : Z) : M Z :=
  by_family sockfd
    (getsockopt_int sockfd IPPROTO_IP IP_MULTICAST_TTL 1)
    (getsockopt_int sockfd IPPROTO_IPV6 IPV6_MULTICAST_HOPS 4)
    (fail_with EAFNOSUPPORT).
Definition Mcast_get_ttl (sockfd : Z) : M Z :=
  rc ← mcast_get_ttl sockfd;
  if rc <? 0 then err_sys "mcast_get_ttl error" else mret rc.
End mcast.

(** ** What the system keeps *)

(** The value of an option set last on the socket, if it is still open. *)
Definition set_event (fd level opt : Z) (e : event) : option (option (list Z)) :=
  match e with
  | Event c a =>
      match c in sys A return A → option (option (list Z)) with
      | sys_setsockopt fd' level' opt' v => λ r,
          if (fd' =? fd) && (level' =? level) && (opt' =? opt)
          then match r with Ok _ => Some (Some v) | Err _ => None end else None
      | sys_close fd' => λ _, if fd' =? fd then Some None else None
      | _ => λ _, None
      end a
  end.
Fixpoint last_set (fd level opt : Z) (t : trace) : option (list Z) :=
  match t with
  | [] => None
  | e :: t' => match set_event fd level opt e with Some v => v | None => last_set fd level opt t' end
  end.

(** The values the system takes as they are: any TTL of one byte, any hop limit
    up to 255, the booleans 0 and 1, any interface index. *)
Definition kept_value (level opt : Z) (v : list Z) : Prop :=
  (level = IPPROTO_IP ∧ opt = IP_MULTICAST_TTL ∧ ∃ z, v = uchar_bytes z) ∨
  (level = IPPROTO_IP ∧ opt = IP_MULTICAST_LOOP ∧ (v = uchar_bytes 0 ∨ v = uchar_bytes 1)) ∨
  (level = IPPROTO_IPV6 ∧ opt = IPV6_MULTICAST_HOPS ∧ ∃ z, 0 ≤ z < 256 ∧ v = u32_bytes z) ∨
  (level = IPPROTO_IPV6 ∧ opt = IPV6_MULTICAST_LOOP ∧ (v = u32_bytes 0 ∨ v = u32_bytes 1)) ∨
  (level = IPPROTO_IPV6 ∧ opt = IPV6_MULTICAST_IF ∧ ∃ z, v = u32_bytes z).

(** A socket of the family: getsockopt(2) fills the whole variable, with the
    value set last. *)
Class SockoptOk (K : Kernel) (fd family : Z) : Prop := {
  same_family : ∀ t sa, answer t (sys_getsockname fd) = Ok sa → sa_family sa = family;
  sockopt_size : ∀ t level opt size v, answer t (sys_getsockopt_bytes fd level opt size) = Ok v →
    Z.of_nat (List.length v) = size;
  sockopt_kept : ∀ t level opt size v r, last_set fd level opt t = Some v → kept_value level opt v →
    answer t (sys_getsockopt_bytes fd level opt size) = Ok r → Z.of_nat (List.length v) = size → r = v
}.

Lemma le_value_uchar v : i32 (le_value (uchar_bytes v)) = u8 v.
Proof. unfold uchar_bytes, le_value, i32, u8. cbn [foldr]. Z.to_euclidean_division_equations. lia. Qed.
Lemma le_value_u32 v : le_value (u32_bytes v) = u32 v.
Proof.
  unfold u32_bytes, le32_bytes, be32, le_value. cbn [rev app foldr].
  rewrite !Z.shiftr_div_pow2 by lia. change 255 with (Z.ones 8). rewrite !Z.land_ones by lia.
  unfold u32. Z.to_euclidean_division_equations. lia.
Qed.

Section properties.
Context {K : Kernel}.

Lemma by_family_post {A} {fd family} {KOk : SockoptOk K fd family} (m4 m6 other : M A) p (Q : outcome A → proc → Prop) :
  (∀ sa, post (if family =? AF_INET then m4 else if family =? AF_INET6 then m6 else other)
    (add_event (sys_getsockname fd) (Ok sa) p) Q) →
  (∀ e, post other (with_errno e (add_event (sys_getsockname fd) (Err e) p)) Q) →
  post (by_family fd m4 m6 other) p Q.
Proof.
  intros H1 H2. unfold by_family, sockfd_to_family. apply post_bind, post_bind, post_syscall; intros r Hr;
    cbn [through]; apply post_ret; cbn [through].
  - rewrite (same_family _ _ Hr). apply H1.
  - apply H2.
Qed.

(** Setting an integer option and reading it back. *)
Definition set_value (fd level opt : Z) (v : list Z) (o : outcome Z) (p' : proc) : Prop :=
  o = Ret (-1) ∨ o = Ret 0 ∧ last_set fd level opt (p_trace p') = Some v.
Lemma setsockopt_post fd level opt v p :
  post (setsockopt (sys_setsockopt fd level opt v)) p (set_value fd level opt v).
Proof.
  apply post_bind, post_syscall; intros r Hr; cbn [through]; apply post_ret; [right|by left].
  split; [done|]. cbn. by rewrite !Z.eqb_refl.
Qed.
Lemma getsockopt_post {fd family} {KOk : SockoptOk K fd family} level opt size v p :
  last_set fd level opt (p_trace p) = Some v → kept_value level opt v → Z.of_nat (List.length v) = size →
  post (getsockopt_int fd level opt size) p (λ o _, o = Ret (-1) ∨ o = Ret (i32 (le_value v))).
Proof.
  intros Hl Hv Hs. apply post_bind, post_syscall; intros r Hr; cbn [through]; [|apply post_ret; by left].
  rewrite (sockopt_size _ _ _ _ _ Hr), Z.eqb_refl. apply post_ret. right.
  by rewrite (sockopt_kept _ _ _ _ _ _ Hl Hv Hr Hs).
Qed.

Lemma getsockopt_returns {fd family} {KOk : SockoptOk K fd family} level opt size p :
  post (getsockopt_int fd level opt size) p (λ o _, ∃ z, o = Ret z).
Proof.
  apply post_bind, post_syscall; intros r Hr; cbn [through]; [|apply post_ret; by eexists].
  rewrite (sockopt_size _ _ _ _ _ Hr), Z.eqb_refl. apply post_ret. by eexists.
Qed.

(** What is read back, from the option the family selects. *)
Definition read_back (want : Z) (o : outcome (Z * Z)) (_ : proc) : Prop :=
  ∃ rc got, o = Ret (rc, got) ∧ (rc = -1 ∨ rc = 0 ∧ (got = -1 ∨ got = want)).

Lemma read_back_fail {fd family} {KOk : SockoptOk K fd family} (get4 get6 : M Z) want p :
  (∀ p, post get4 p (λ o _, ∃ z, o = Ret z)) → (∀ p, post get6 p (λ o _, ∃ z, o = Ret z)) →
  post (got ← by_family fd get4 get6 (fail_with EAFNOSUPPORT); mret (-1, got)) p (read_back want).
Proof.
  intros H4 H6. assert (Hf : ∀ p, post (fail_with EAFNOSUPPORT) p (λ o _, ∃ z, o = Ret z)).
  { intros q. apply post_bind, post_set_errno, post_ret. by eexists. }
  apply post_bind. eapply post_weaken.
  { instantiate (1 := λ o _, ∃ z, o = Ret z). apply by_family_post; intros; [|apply Hf].
    destruct (family =? AF_INET); [apply H4|]. destruct (family =? AF_INET6); [apply H6|apply Hf]. }
  intros o p' [z ->]. apply post_ret. exists (-1), z. split; [done|by left].
Qed.

Lemma set_get_post {fd family} {KOk : SockoptOk K fd family} l4 o4 v4 s4 l6 o6 v6 s6 want p :
  (family = AF_INET → kept_value l4 o4 v4 ∧ Z.of_nat (List.length v4) = s4 ∧ i32 (le_value v4) = want) →
  (family = AF_INET6 → kept_value l6 o6 v6 ∧ Z.of_nat (List.length v6) = s6 ∧ i32 (le_value v6) = want) →
  post (rc ← by_family fd (setsockopt (sys_setsockopt fd l4 o4 v4)) (setsockopt (sys_setsockopt fd l6 o6 v6))
               (fail_with EAFNOSUPPORT);
        got ← by_family fd (getsockopt_int fd l4 o4 s4) (getsockopt_int fd l6 o6 s6) (fail_with EAFNOSUPPORT);
        mret (rc, got)) p (read_back want).
Proof.
  intros H4 H6. pose proof (getsockopt_returns (fd := fd) (family := family)) as Hany.
  assert (Hfail : ∀ p, post (got ← by_family fd (getsockopt_int fd l4 o4 s4) (getsockopt_int fd l6 o6 s6)
      (fail_with EAFNOSUPPORT); mret (-1, got)) p (read_back want)) by (intros; apply read_back_fail; intros; apply Hany).
  assert (Hno : ∀ p, post (fail_with EAFNOSUPPORT) p (through (read_back want) (λ rc p', post
      (got ← by_family fd (getsockopt_int fd l4 o4 s4) (getsockopt_int fd l6 o6 s6) (fail_with EAFNOSUPPORT);
       mret (rc, got)) p' (read_back want)))).
  { intros q. apply post_bind, post_set_errno. cbn [through]. apply post_ret. apply Hfail. }
  assert (Hno0 : ∀ p, post (fail_with EAFNOSUPPORT) p (through (read_back want) (λ got p', post (mret (0, got)) p' (read_back want)))).
  { intros q. apply post_bind, post_set_errno. cbn [through]. apply post_ret. apply post_ret.
    exists 0, (-1). auto. }
  assert (Hget : ∀ l o v s p, last_set fd l o (p_trace p) = Some v →
      kept_value l o v ∧ Z.of_nat (List.length v) = s ∧ i32 (le_value v) = want →
      post (getsockopt_int fd l o s) p (through (read_back want) (λ got p', post (mret (0, got)) p' (read_back want)))).
  { intros l o v s q Hl (Hk & Hs & Hw). eapply post_weaken; [by eapply (getsockopt_post (family := family))|].
    intros o' p' [->| ->]; apply post_ret; exists 0; eexists; (split; [done|]); right; (split; [done|]);
      [by left|right; congruence]. }
  apply post_bind, by_family_post; intros x; [|apply Hno].
  destruct (Z.eqb_spec family AF_INET) as [Hf|Hf]; [|destruct (Z.eqb_spec family AF_INET6) as [Hf6|]; [|apply Hno]];
    (eapply post_weaken; [apply setsockopt_post|]; intros o p1 [->|[-> Hset]]; cbn [through]; [apply Hfail|]);
    apply post_bind, by_family_post; intros y; cbn [through]; try apply Hno0.
  - rewrite Hf, Z.eqb_refl. eapply Hget; [exact Hset|by apply H4].
  - rewrite Hf6, Z.eqb_refl. eapply Hget; [exact Hset|by apply H6].
Qed.
End properties.

(** ** Properties *)

(** An option set on a multicast socket is the one read back.  After a
    successful [mcast_set_ttl] the value [mcast_get_ttl] returns is the TTL
    modulo 256 on an IPv4 socket (the range is not checked) and the hop limit
    itself on an IPv6 socket; after [mcast_set_loop] the flag; after
    [mcast_set_if] with an interface index on an IPv6 socket, the index.  -1
    is returned only when a call of the system fails. *)
Theorem mcast_set_get {K : Kernel} (fd family : Z) {KOk : SockoptOk K fd family} (p : proc) :
  (∀ val, family = AF_INET ∨ family = AF_INET6 ∧ 0 ≤ val < 256 →
     post (rc ← mcast_set_ttl fd val; got ← mcast_get_ttl fd; mret (rc, got)) p (read_back (u8 val))) ∧
  (∀ onoff, onoff = 0 ∨ onoff = 1 →
     post (rc ← mcast_set_loop fd onoff; got ← mcast_get_loop fd; mret (rc, got)) p (read_back onoff)) ∧
  (∀ ifname ifindex, family = AF_INET6 → 0 < ifindex < 2 ^ 31 →
     post (rc ← mcast_set_if fd ifname ifindex; got ← mcast_get_if fd; mret (rc, got)) p (read_back ifindex)).
Proof.
  split; [|split].
  - intros val Hval. apply set_get_post; intros Hf.
    + split; [left; eauto|]. split; [done|apply le_value_uchar].
    + destruct Hval as [E|[_ Hval]]; [unfold AF_INET, AF_INET6 in *; lia|]. unfold kept_value. split_and!; [by eauto 10|done|].
      rewrite le_value_u32. unfold i32, u32, u8. Z.to_euclidean_division_equations. lia.
  - intros onoff Hon. apply set_get_post; intros Hf; unfold kept_value.
    + split_and!; [right; left; destruct Hon as [->| ->]; eauto|done|]. rewrite le_value_uchar. by destruct Hon as [->| ->].
    + split_and!; [do 3 right; left; destruct Hon as [->| ->]; eauto|done|].
      rewrite le_value_u32. by destruct Hon as [->| ->].
  - intros ifname ifindex -> Hidx. unfold mcast_set_if. cbn zeta. rewrite (proj2 (Z.eqb_neq ifindex 0)) by lia.
    assert (Hfail : ∀ rc q, rc = -1 ∨ rc = 0 → post (fail_with EAFNOSUPPORT) q
      (through (read_back ifindex) (λ got p', post (mret (rc, got)) p' (read_back ifindex)))).
    { intros rc q Hrc. apply post_bind, post_set_errno, post_ret, post_ret. exists rc, (-1). tauto. }
    apply post_bind, by_family_post; intros x.
    + cbn [Z.eqb AF_INET AF_INET6 Pos.eqb]. eapply post_weaken; [apply setsockopt_post|].
      intros o p1 Hset. destruct Hset as [->|[-> Hset]]; cbn [through]; apply post_bind, by_family_post; intros y;
        try (apply Hfail; tauto); cbn [Z.eqb AF_INET AF_INET6 Pos.eqb].
      * eapply post_weaken; [apply (getsockopt_returns (family := AF_INET6))|]. intros o p2 [z ->].
        apply post_ret. exists (-1), z. tauto.
      * eapply post_weaken; [eapply (getsockopt_post (family := AF_INET6)); [exact Hset|do 4 right; eauto|done]|].
        intros o p2 Ho. rewrite le_value_u32 in Ho.
        assert (E : i32 (u32 ifindex) = ifindex) by (unfold i32, u32; Z.to_euclidean_division_equations; lia).
        rewrite E in Ho. destruct Ho as [->| ->]; apply post_ret; exists 0; eexists; (split; [done|]); tauto.
    + apply post_bind, post_set_errno. cbn [through]. apply post_ret. cbn [through].
      apply post_bind, by_family_post; intros y; [|apply Hfail; tauto]. cbn [Z.eqb AF_INET AF_INET6 Pos.eqb].
      eapply post_weaken; [apply (getsockopt_returns (family := AF_INET6))|]. intros o p2 [z ->].
      apply post_ret. exists (-1), z. tauto.
Qed.

(** An IPv4 socket on a system that keeps every option. *)
Definition options_kernel : Kernel := λ A t c,
  (match c in sys A return A → A with
   | sys_getsockname _ => λ _, Ok (SaIn 0 [0; 0; 0; 0])
   | sys_getsockopt_bytes fd level opt size => λ _,
       if size <? 0 then Err EINVAL
       else match last_set fd level opt t with
            | Some v => if Z.of_nat (List.length v) =? size then Ok v else Ok (replicate (Z.to_nat size) 0)
            | None => Ok (replicate (Z.to_nat size) 0)
            end
   | _ => λ a, a
   end) (plain t c).

#[local] Instance options_ok : SockoptOk options_kernel 3 AF_INET.
Proof.
  split.
  - intros t sa. unfold answer, options_kernel. by intros [= <-].
  - intros t level opt size v. unfold answer, options_kernel.
    destruct (Z.ltb_spec size 0); [done|]. destruct (last_set 3 level opt t) as [w|];
      [destruct (Z.eqb_spec (Z.of_nat (List.length w)) size)|]; intros [= <-]; rewrite ?length_replicate; lia.
  - intros t level opt size v r Hl _. unfold answer, options_kernel. rewrite Hl.
    destruct (size <? 0); [done|]. intros Hr Hs. rewrite Hs, Z.eqb_refl in Hr. by simplify_eq.
Qed.

(** A TTL of 257 is accepted and becomes 1. *)
Lemma mcast_set_get_witness :
  (@mcast_set_ttl options_kernel 3 257 ≫= λ rc, @mcast_get_ttl options_kernel 3 ≫= λ got, mret (rc, got)) proc0 =
    (Ret (0, 1), ((@mcast_set_ttl options_kernel 3 257 ≫= λ rc, @mcast_get_ttl options_kernel 3 ≫= λ got, mret (rc, got)) proc0).2)
  ∧ post (@mcast_set_ttl options_kernel 3 257 ≫= λ rc, @mcast_get_ttl options_kernel 3 ≫= λ got, mret (rc, got))
      proc0 (read_back (u8 257)).
Proof.
  split; [vm_compute; reflexivity|].
  pose proof (@mcast_set_get options_kernel 3 AF_INET options_ok proc0) as [H _].
  apply H. left. reflexivity.
Defined.

(** ** Group membership *)

(** The membership requests made: interface, level, option and group. *)
Definition group_request1 (e : event) : list (Z * Z * Z * Z * sockaddr) :=
  match e with
  | Event c _ =>
      match c with
      | sys_setsockopt_group fd level opt idx grp => [(fd, level, opt, idx, grp)]
      | _ => []
      end
  end.
Definition group_requests (t : trace) : list (Z * Z * Z * Z * sockaddr) := t ≫= group_request1.

(** The interface a request names: the index, else that of the name, else 0. *)
Definition interface_of {K : Kernel} (ifname : option string) (ifindex : Z) (p : proc) (idx : Z) : Prop :=
  if 0 <? ifindex then idx = ifindex
  else match ifname with
       | Some name => answer (p_trace p) (sys_if_nametoindex name) = idx
       | None => idx = 0
       end.

Definition join_outcome {K : Kernel} (sockfd : Z) (grp : sockaddr) (grplen : Z) (ifname : option string) (ifindex : Z)
    (p : proc) (o : outcome Z) (p' : proc) : Prop :=
  ∃ idx, interface_of ifname ifindex p idx ∧
    ((o = Ret 0 ∨ o = Ret (-1)) ∧ grplen ≤ SIZEOF_SOCKADDR_STORAGE ∧
     group_requests (p_trace p') =
       (sockfd, family_to_level (sa_family grp), MCAST_JOIN_GROUP, idx, grp) :: group_requests (p_trace p) ∨
     o = Ret (-1) ∧ group_requests (p_trace p') = group_requests (p_trace p) ∧
     (p_errno p' = EINVAL ∧ SIZEOF_SOCKADDR_STORAGE < grplen ∨
      p_errno p' = ENXIO ∧ ifindex ≤ 0 ∧ ifname ≠ None ∧ idx = 0)).

(** [mcast_join] makes one request, with the interface given by index, else by
    name, else the default one, at the level of the group's family; a name
    without interface and an address that does not fit the request make
    none, and say so in [errno]. *)
Theorem mcast_join_correct {K : Kernel} sockfd grp grplen ifname ifindex p :
  post (mcast_join sockfd grp grplen ifname ifindex) p (join_outcome sockfd grp grplen ifname ifindex p).
Proof.
  assert (Hsend : ∀ idx q, group_requests (p_trace q) = group_requests (p_trace p) →
    interface_of ifname ifindex p idx →
    post (if SIZEOF_SOCKADDR_STORAGE <? grplen then fail_with EINVAL
          else setsockopt (sys_setsockopt_group sockfd (family_to_level (sa_family grp)) MCAST_JOIN_GROUP idx grp)) q
      (join_outcome sockfd grp grplen ifname ifindex p)).
  { intros idx q Hq Hidx. destruct (Z.ltb_spec SIZEOF_SOCKADDR_STORAGE grplen).
    - apply post_bind, post_set_errno, post_ret. exists idx. split; [done|]. right. split_and!; [done|done|]. by left.
    - apply post_bind, post_syscall; intros r Hr; cbn [through]; apply post_ret; exists idx; (split; [done|]); left;
        (split_and!; [auto|done|]); unfold group_requests in *; cbn; by rewrite <- Hq. }
  unfold join_outcome, interface_of in *. unfold mcast_join, gr_interface. apply post_bind. destruct (Z.ltb_spec 0 ifindex).
  { apply post_ret. by apply Hsend. }
  destruct ifname as [name|]; [|apply post_ret; by apply Hsend].
  apply post_bind, post_call. intros idx Hidx. cbn [through]. destruct (Z.eqb_spec idx 0) as [->|Hne]; apply post_ret.
  - apply post_bind, post_set_errno, post_ret. exists 0. split; [done|]. right. split_and!; [done|done|]. by right.
  - by apply Hsend.
Qed.
