(* ===== verification/Daemon.v ===== *)
(** The environment of a process: daemons (src/unpv13e/lib/daemon_init.c,
    daemon_inetd.c), the time of day as text (gf_time.c) and the addresses of
    the host (my_addrs.c).

    A process inherits descriptors: [held inherited t] are the ones open after
    the trace [t] of a process that started with [inherited]. *)
From S2P Require Import Prelude Machine Posix Wrap.

Definition MAXFD : nat := 64.
Definition SIGHUP : Z := 1.
Definition SIG_IGN : Z := 1.
Definition LOG_PID : Z := 1.
Definition O_RDONLY : Z := 0.
Definition O_RDWR : Z := 2.

Section daemon.
Context {K : Kernel}.

(** ** daemon_init.c *)

(** [for (i = 0; i < MAXFD; i++) close(i)], from [i] on. *)
Fixpoint close_all (todo : nat) (i : Z) : M unit :=
  match todo with
  | O => mret tt
  | S todo' => syscall (sys_close i) ;; close_all todo' (i + 1)
  end.

Definition daemon_init (pname : string) (facility : Z) : M Z :=
  pid ← Fork;
  if pid <? 0 then mret (-1)
  else if negb (pid =? 0) then exit 0
  else
    sid ← syscall sys_setsid;
    match sid with
    | None => mret (-1)
    | Some _ =>
        Signal SIGHUP SIG_IGN ;;
        pid ← Fork;
        if pid <? 0 then mret (-1)
        else if negb (pid =? 0) then exit 0
        else
          set_daemon_proc true ;;
          syscall (sys_chdir "/") ;;
          close_all MAXFD 0 ;;
          syscall (sys_open "/dev/null" O_RDONLY 0) ;;
          syscall (sys_open "/dev/null" O_RDWR 0) ;;
          syscall (sys_open "/dev/null" O_RDWR 0) ;;
          call (sys_openlog pname LOG_PID facility) ;;
          mret 0
    end.

(** ** daemon_inetd.c *)

Definition daemon_inetd (pname : string) (facility : Z) : M unit :=
  set_daemon_proc true ;;
  call (sys_openlog pname LOG_PID facility).

(** ** gf_time.c

    [sys_ctime t] is what [ctime] writes.  The copy from its twelfth character
    on must fit the 30 characters of [str]; what is written after its
    terminator is not part of the result. *)
Definition fmt_06d (n : Z) : string :=
  let s := fmt_d n in str_take (6 - String.length s) "000000" +:+ s.
Definition gf_time : M string :=
  tv ← syscall sys_gettimeofday;
  match tv with
  | None => err_sys "gettimeofday error"
  | Some (tv_sec, tv_usec) =>
      ptr ← call (sys_ctime tv_sec);
      let str := str_drop 11 ptr in
      if (strlen ptr <? 11) || (30 <=? strlen str) then stop UB
      else if strlen str <? 8 then mret str
      else mret (str_take 8 str +:+ snprintf 22 ("." +:+ fmt_06d tv_usec))
  end.

(** ** my_addrs.c: the family and the addresses, [None] for [NULL] *)

Definition my_addrs : M (option (Z * list (list Z))) :=
  myname ← syscall sys_uname;
  match myname with
  | None => mret None
  | Some nodename =>
      o ← get_res_options;
      hptr ← hostcall (sys_gethostbyname o nodename);
      match hptr with
      | None => mret None
      | Some h => mret (Some (h_addrtype h, h_addr_list h))
      end
  end.
Definition My_addrs : M (Z * list (list Z)) :=
  pptr ← my_addrs;
  match pptr with Some a => mret a | None => err_sys "my_addrs error" end.
End daemon.

(** ** Specification *)

Definition held (inherited : gset Z) (t : trace) : gset Z := foldr open_after inherited t.

(** close(2) fails on a descriptor that is not open only; fork(2) returns 0 or
    the identity of the child; open(2) returns the
    least descriptor that is not open; "/dev/null" can be opened when a descriptor is left. *)
Class DescriptorsOk (K : Kernel) (inherited : gset Z) : Prop := {
  close_bad : ∀ t fd e, answer t (sys_close fd) = Err e → fd ∉ held inherited t;
  open_least : ∀ t path oflag mode fd, answer t (sys_open path oflag mode) = Ok fd →
    0 ≤ fd ∧ fd ∉ held inherited t ∧ ∀ k, 0 ≤ k < fd → k ∈ held inherited t;
  fork_pid : ∀ t pid, answer t sys_fork = Ok pid → 0 ≤ pid;
  open_null : ∀ t oflag mode k, 0 ≤ k < Z.of_nat MAXFD → k ∉ held inherited t → ∃ fd, answer t (sys_open "/dev/null" oflag mode) = Ok fd
}.

(** The answers of [fork] and [setsid], newest first. *)
Definition family1 (e : event) : list (res Z) :=
  match e with
  | Event c a =>
      match c in sys A return A → list (res Z) with
      | sys_fork => λ r, [r]
      | sys_setsid => λ r, [r]
      | _ => λ _, []
      end a
  end.
Definition family (t : trace) : list (res Z) := t ≫= family1.

(** Neither descriptors nor processes change. *)
Definition idle (e : event) : Prop := (∀ fds, open_after e fds = fds) ∧ family1 e = [].

Section properties.
Context {K : Kernel} (inherited : gset Z) {KOk : DescriptorsOk K inherited}.
Abbreviation opened := (held inherited).

Lemma idle_held t t' : Forall idle t → opened (t ++ t') = opened t'.
Proof. induction 1 as [|e t [He _] _ IH]; [done|]. cbn. by rewrite He. Qed.
Lemma idle_family t t' : Forall idle t → family (t ++ t') = family t'.
Proof. induction 1 as [|e t [_ He] _ IH]; [done|]. unfold family in *. cbn. by rewrite He, IH. Qed.

(** [close_all] closes the descriptors of its range and no other. *)
Lemma close_all_post todo i p :
  post (close_all todo i) p (λ o p', o = Ret tt ∧ family (p_trace p') = family (p_trace p) ∧
    p_daemon_proc p' = p_daemon_proc p ∧
    ∀ fd, fd ∈ opened (p_trace p') ↔ fd ∈ opened (p_trace p) ∧ ¬ (i ≤ fd < i + Z.of_nat todo)).
Proof.
  revert i p. induction todo as [|todo IH]; intros i p; cbn [close_all].
  - apply post_ret. split_and!; try done. intros fd. split; [|tauto]. intros H. split; [done|lia].
  - apply post_bind, post_syscall; cbn [through]; intros r Hr; (eapply post_weaken; [apply IH|]);
      intros o p' (-> & Hf & Hd & H); split_and!; try done; intros fd; rewrite H; cbn [p_trace add_event with_errno];
      unfold held; cbn [foldr open_after].
    + rewrite elem_of_difference, elem_of_singleton. split; [intros [[? ?] ?]; split; [done|lia]|].
      intros [? ?]. split; [split; [done|lia]|lia].
    + apply close_bad in Hr. unfold held in Hr. split; [intros [? ?]; split; [done|]|intros [? ?]; split; [done|lia]].
      destruct (decide (fd = i)) as [->|]; [done|lia].
Qed.

(** Below [MAXFD] exactly the descriptors less than [n] are open; from
    [MAXFD] on, those of [fds0]. *)
Definition low (fds0 : gset Z) (n : Z) (p : proc) : Prop :=
  ∀ fd, 0 ≤ fd → fd ∈ opened (p_trace p) ↔ fd < n ∨ Z.of_nat MAXFD ≤ fd ∧ fd ∈ fds0.

Lemma open_null_post fds0 n oflag mode p :
  0 ≤ n < Z.of_nat MAXFD → low fds0 n p →
  post (syscall (sys_open "/dev/null" oflag mode)) p (λ o p', o = Ret (Some n) ∧ low fds0 (n + 1) p' ∧
    family (p_trace p') = family (p_trace p) ∧ p_daemon_proc p' = p_daemon_proc p).
Proof.
  intros Hn Hl. apply post_syscall; intros r Hr.
  - pose proof (open_least _ _ _ _ _ Hr) as (H0 & Hfree & Hleast).
    assert (r = n) as ->.
    { destruct (Z.lt_total r n) as [Hlt|[?|Hgt]]; [|done|].
      - destruct Hfree. apply Hl; lia.
      - specialize (Hleast n ltac:(lia)). apply Hl in Hleast; lia. }
    split_and!; try done. intros fd Hfd. unfold held. cbn [p_trace add_event foldr open_after].
    rewrite elem_of_union, elem_of_singleton. specialize (Hl fd Hfd). unfold held in Hl. rewrite Hl.
      split.
      + intros [->|[?|?]]; [left; lia|left; lia|by right].
      + intros [?|?]; [|by right; right]. destruct (decide (fd = n)); [by left|right; left; lia].
  - destruct (open_null (p_trace p) oflag mode n Hn) as [fd Hfd]; [|congruence].
    intros H%Hl; lia.
Qed.

(** The last part of [daemon_init]. *)
Lemma daemon_rest_post pname facility p :
  post (set_daemon_proc true ;;
        syscall (sys_chdir "/") ;;
        close_all MAXFD 0 ;;
        syscall (sys_open "/dev/null" O_RDONLY 0) ;;
        syscall (sys_open "/dev/null" O_RDWR 0) ;;
        syscall (sys_open "/dev/null" O_RDWR 0) ;;
        call (sys_openlog pname LOG_PID facility) ;;
        mret 0) p (λ o p', o = Ret 0 ∧ p_daemon_proc p' = true ∧
    family (p_trace p') = family (p_trace p) ∧ low (opened (p_trace p)) 3 p').
Proof.
  apply post_bind. unfold set_daemon_proc, post at 1. cbn [through].
  apply post_bind. eapply post_weaken.
  { instantiate (1 := λ o p', (∃ r, o = Ret r) ∧ p_daemon_proc p' = true ∧
      family (p_trace p') = family (p_trace p) ∧ opened (p_trace p') = opened (p_trace p)).
    apply post_syscall; intros; split_and!; eauto. }
  intros o p1 ([r ->] & Hd1 & Hf1 & Hh1). cbn [through].
  apply post_bind. eapply post_weaken; [apply close_all_post|]. intros o p2 (-> & Hf2 & Hd2 & Hh2). cbn [through].
  assert (Hl : low (opened (p_trace p)) 0 p2).
  { intros fd Hfd. rewrite Hh2, Hh1. unfold MAXFD. split; [intros [? ?]; right; split; [lia|done]|intros [?|[? ?]]; [lia|split; [done|lia]]]. }
  apply post_bind. eapply post_weaken; [apply open_null_post; [|exact Hl]; unfold MAXFD; lia|].
  intros o p3 (-> & Hl3 & Hf3 & Hd3). cbn [through].
  apply post_bind. eapply post_weaken; [apply open_null_post; [|exact Hl3]; unfold MAXFD; lia|].
  intros o p4 (-> & Hl4 & Hf4 & Hd4). cbn [through].
  apply post_bind. eapply post_weaken; [apply open_null_post; [|exact Hl4]; unfold MAXFD; lia|].
  intros o p5 (-> & Hl5 & Hf5 & Hd5). cbn [through].
  apply post_bind, post_call. intros u Hu. cbn [through]. apply post_ret.
  split_and!; [done| | |exact Hl5]; cbn [p_daemon_proc add_event p_trace]; [congruence|].
  change (family (p_trace p5) = family (p_trace p)). congruence.
Qed.

(** What the parents do. *)
Lemma Fork_post p (Q : outcome Z → proc → Prop) :
  (∀ pid, answer (p_trace p) sys_fork = Ok pid → Q (Ret pid) (add_event sys_fork (Ok pid) p)) →
  (∀ p', Q (Exit 1) p') →
  post Fork p Q.
Proof.
  intros H1 H2. apply post_bind, post_syscall; intros r Hr; cbn [through]; [by apply post_ret, H1|].
  eapply post_weaken; [apply err_sys_exits|]. intros o p' [-> _]. apply H2.
Qed.
Lemma Signal_post signo func p (Q : outcome Z → proc → Prop) :
  (∀ h p', extends idle p p' → p_daemon_proc p' = p_daemon_proc p → Q (Ret h) p') →
  (∀ p', Q (Exit 1) p') → post (Signal signo func) p Q.
Proof.
  intros H1 H2. unfold Signal, signal. apply post_bind, post_syscall; intros r Hr; cbn [through].
  - apply post_ret, H1; [|done]. eexists [_]. split; [done|]. by repeat constructor.
  - eapply post_weaken; [apply err_sys_exits|]. intros o p' [-> _]. apply H2.
Qed.
End properties.

(** ** Properties *)

(** [daemon_init] returns 0 only in the second child, after a [setsid]
    between the two [fork]s, so that the daemon leads no session; then of the
    descriptors below [MAXFD] exactly 0, 1 and 2 are open, the others are those
    that were open before, and errors go to the system's log.  The other
    outcomes are the exits of the two parents with status 0, the return value
    -1 when [setsid] fails, and an error exit. *)
Theorem daemon_init_correct {K : Kernel} (inherited : gset Z) {KOk : DescriptorsOk K inherited} pname facility p :
  post (daemon_init pname facility) p (λ o p', match o with
    | Ret r =>
        (r = 0 ∧ p_daemon_proc p' = true ∧
         (∃ sid, family (p_trace p') = Ok 0 :: Ok sid :: Ok 0 :: family (p_trace p)) ∧
         ∀ fd, 0 ≤ fd → fd ∈ held inherited (p_trace p') ↔
           fd < 3 ∨ Z.of_nat MAXFD ≤ fd ∧ fd ∈ held inherited (p_trace p)) ∨
        (r = -1 ∧ ∃ e, family (p_trace p') = Err e :: Ok 0 :: family (p_trace p))
    | Exit s => s = 1 ∨ s = 0 ∧ ∃ pid older, 0 < pid ∧ family (p_trace p') = Ok pid :: older
    | _ => False
    end).
Proof.
  unfold daemon_init. apply post_bind, Fork_post; [|by left]. intros pid Hpid. cbn [through].
  pose proof (fork_pid _ _ Hpid). rewrite (proj2 (Z.ltb_ge pid 0)) by lia.
  destruct (Z.eqb_spec pid 0) as [->|Hne]; cbn [negb]; [|right; split; [done|]; exists pid; eexists; split; [lia|done]].
  apply post_bind, post_syscall; intros sid Hsid; cbn [through].
  2: { apply post_ret. right. split; [done|]. by eexists. }
  apply post_bind, Signal_post; [|by left]. intros h p1 (t1 & Ht1 & Hidle) _. cbn [through].
  apply post_bind, Fork_post; [|by left]. intros pid2 Hpid2. cbn [through].
  pose proof (fork_pid _ _ Hpid2). rewrite (proj2 (Z.ltb_ge pid2 0)) by lia.
  destruct (Z.eqb_spec pid2 0) as [->|Hne]; cbn [negb]; [|right; split; [done|]; exists pid2; eexists; split; [lia|done]].
  eapply post_weaken; [apply (daemon_rest_post inherited)|]. intros o p2 (-> & Hd & Hf & Hl).
  left. split_and!; [done|done| |].
  - exists sid. rewrite Hf. cbn [p_trace add_event family]. unfold family. cbn. rewrite Ht1.
    pose proof (idle_family t1 (p_trace (add_event sys_setsid (Ok sid) (add_event sys_fork (Ok 0) p))) Hidle) as E.
    unfold family in E. by rewrite E.
  - intros fd Hfd. rewrite (Hl fd Hfd). cbn [p_trace add_event]. unfold held. cbn [foldr open_after]. rewrite Ht1.
    pose proof (idle_held inherited t1 (p_trace (add_event sys_setsid (Ok sid) (add_event sys_fork (Ok 0) p))) Hidle) as E.
    unfold held in E. by rewrite E.
Qed.

(** A process with descriptors 0, 1, 2 and 70, and the daemon it makes. *)
Fixpoint least (todo : nat) (k : Z) (fds : gset Z) : option Z :=
  match todo with
  | O => None
  | S todo' => if decide (k ∈ fds) then least todo' (k + 1) fds else Some k
  end.
Definition shell_fds : gset Z := {[0; 1; 2; 70]}.
Definition shell_kernel : Kernel := λ A t c,
  (match c in sys A return A → A with
   | sys_fork => λ _, Ok 0
   | sys_close fd => λ _, if decide (fd ∈ held shell_fds t) then Ok tt else Err 9
   | sys_open _ _ _ => λ _, match least MAXFD 0 (held shell_fds t) with Some fd => Ok fd | None => Err 24 end
   | _ => λ a, a
   end) (plain t c).

Lemma least_spec todo k fds : match least todo k fds with
  | Some fd => k ≤ fd ∧ fd ∉ fds ∧ ∀ j, k ≤ j < fd → j ∈ fds
  | None => ∀ j, k ≤ j < k + Z.of_nat todo → j ∈ fds
  end.
Proof.
  revert k. induction todo as [|todo IH]; intros k; cbn [least]; [lia|]. case_decide; [|split_and!; [lia|done|lia]].
  specialize (IH (k + 1)). destruct (least todo (k + 1) fds) as [fd|].
  - destruct IH as (? & ? & Hj). split_and!; [lia|done|]. intros j Hkj.
    destruct (decide (j = k)) as [->|]; [done|apply Hj; lia].
  - intros j Hj. destruct (decide (j = k)) as [->|]; [done|apply IH; lia].
Qed.

#[local] Instance shell_ok : DescriptorsOk shell_kernel shell_fds.
Proof.
  split.
  - intros t fd e. unfold answer, shell_kernel. by case_decide.
  - intros t path oflag mode fd. unfold answer, shell_kernel. pose proof (least_spec MAXFD 0 (held shell_fds t)) as H.
    destruct (least MAXFD 0 (held shell_fds t)); intros E; by simplify_eq.
  - intros t pid. unfold answer, shell_kernel. intros [= <-]. done.
  - intros t oflag mode k Hk Hfree. unfold answer, shell_kernel. pose proof (least_spec MAXFD 0 (held shell_fds t)) as H.
    destruct (least MAXFD 0 (held shell_fds t)); [by eexists|]. destruct Hfree. apply H. lia.
Qed.

Lemma daemon_init_correct_witness :
  (@daemon_init shell_kernel "echod" 24 proc0).1 = Ret 0 ∧
  ∀ fd, 0 ≤ fd → fd ∈ held shell_fds (p_trace (@daemon_init shell_kernel "echod" 24 proc0).2) ↔ fd < 3 ∨ 64 ≤ fd ∧ fd ∈ shell_fds.
Proof.
  pose proof (@daemon_init_correct shell_kernel shell_fds shell_ok "echod" 24 proc0) as H.
  assert (E : (@daemon_init shell_kernel "echod" 24 proc0).1 = Ret 0) by (vm_compute; reflexivity).
  split; [exact E|]. unfold post in H. destruct (@daemon_init shell_kernel "echod" 24 proc0) as [o p'].
  simpl in E. subst o. destruct H as [(_ & _ & _ & H)|[H _]]; [exact H|discriminate H].
Defined.
