(* ===== verification/Web.v ===== *)
(** The simultaneous-connections web client: src/unpv13e/nonblock (web.h, web.c,
    start_connect.c, write_get_cmd.c, home_page.c).

    Each file goes through the states [F_CONNECTING], [F_READING] and [F_DONE];
    the counters and the descriptor sets are global variables, here the record
    [web].  [main] is modelled from its arguments to its [exit(0)].  The loops
    that wait for the system take fuel; the theorems bound the turns.

    The specification is the transition system [wstep] on the phases of the
    files, of which every turn of the loop is shown to be a sequence of steps. *)
From S2P Require Import Prelude Machine Posix Wrap Heap Stream Frame Nonblock Servers Gai NetLib.

(** ** web.h *)

Definition MAXFILES : Z := 20.
Definition SERV : string := "80".
Definition F_CONNECTING : Z := 1.
Definition F_READING : Z := 2.
Definition F_DONE : Z := 4.
Definition crlf : string := String "013" (String "010" "").
Definition GET_CMD (f_name : string) : string :=
  "GET " +:+ f_name +:+ " HTTP/1.0" +:+ crlf +:+ crlf.

Record file := File {
  f_name : string;
  f_host : string;
  f_fd : Z;
  f_flags : Z
}.
#[global] Instance file_inhabited : Inhabited file := populate (File "" "" 0 0).

(** The global variables ([nfiles] is the length of [files]). *)
Record web := Web {
  files : list file;
  nconn : Z;
  nlefttoconn : Z;
  nlefttoread : Z;
  w_maxfd : Z;
  w_rset : gset Z;
  w_wset : gset Z
}.

Section web.
Context {K : Kernel} {R : Resolver}.

(** The GET command in [line] and the count [snprintf] returns, that of the
    whole text: reading more than the array is undefined. *)
Definition get_line (name : string) : M (list Z) :=
  let n := strlen (GET_CMD name) in
  if MAXLINE <? n then stop UB
  else mret (take (Z.to_nat n) (to_bytes (snprintf MAXLINE (GET_CMD name)) ++ [0])).

(** ** write_get_cmd.c *)

Definition write_get_cmd (fuel : nat) (i : nat) (s : web) : M web :=
  let fptr := files s !!! i in
  line ← get_line (f_name fptr);
  Writen fuel (f_fd fptr) line ;;
  printf ("wrote " +:+ fmt_d (Z.of_nat (List.length line)) +:+ " bytes for " +:+ f_name fptr +:+ nl) ;;
  let fptr := File (f_name fptr) (f_host fptr) (f_fd fptr) F_READING in
  rset ← fd_set_add (f_fd fptr) (w_rset s);
  mret (Web (<[i := fptr]> (files s)) (nconn s) (nlefttoconn s) (nlefttoread s)
          (if w_maxfd s <? f_fd fptr then f_fd fptr else w_maxfd s) rset (w_wset s)).

(** ** start_connect.c *)

Definition start_connect (fuel : nat) (i : nat) (s : web) : M web :=
  let fptr := files s !!! i in
  res ← Host_serv (Some (f_host fptr)) (Some SERV) 0 SOCK_STREAM;
  match res with
  | [] => stop UB
  | ai :: _ =>
      fd ← Socket (ai_family ai) (ai_socktype ai) (ai_protocol ai);
      let fptr := File (f_name fptr) (f_host fptr) fd (f_flags fptr) in
      let s := Web (<[i := fptr]> (files s)) (nconn s) (nlefttoconn s) (nlefttoread s)
                 (w_maxfd s) (w_rset s) (w_wset s) in
      printf ("start_connect for " +:+ f_name fptr +:+ ", fd " +:+ fmt_d fd +:+ nl) ;;
      flags ← Fcntl fd F_GETFL 0;
      Fcntl fd F_SETFL (Z.lor flags O_NONBLOCK) ;;
      with_addr ai (λ sa,
        n ← syscall (sys_connect fd sa (ai_addrlen ai));
        match n with
        | None =>
            e ← get_errno;
            if negb (e =? EINPROGRESS) then err_sys "nonblocking connect error"
            else
              let fptr := File (f_name fptr) (f_host fptr) fd F_CONNECTING in
              rset ← fd_set_add fd (w_rset s);
              wset ← fd_set_add fd (w_wset s);
              mret (Web (<[i := fptr]> (files s)) (nconn s) (nlefttoconn s) (nlefttoread s)
                      (if w_maxfd s <? fd then fd else w_maxfd s) rset wset)
        | Some _ => write_get_cmd fuel i s
        end)
  end.

(** ** home_page.c *)

Fixpoint home_loop (fuel : nat) (fd : Z) : M unit :=
  match fuel with
  | O => stop NoFuel
  | S f =>
      buf ← Read fd MAXLINE;
      let n := Z.of_nat (List.length buf) in
      if n =? 0 then mret tt
      else printf ("read " +:+ fmt_d n +:+ " bytes of home page" +:+ nl) ;; home_loop f fd
  end.
Definition home_page (fuel : nat) (host fname : string) : M unit :=
  fd ← Tcp_connect host SERV;
  line ← get_line fname;
  Writen fuel fd line ;;
  home_loop fuel fd ;;
  printf ("end-of-file on home page" +:+ nl) ;;
  Close fd.

(** ** web.c *)

(** The first file no connection was started for. *)
Definition find_file (fs : list file) : option nat :=
  fst <$> list_find (λ f, f_flags f = 0) fs.

(** The inner [while]: at most [todo = nlefttoconn] iterations. *)
Fixpoint web_fill (fuel todo : nat) (maxnconn : Z) (s : web) : M web :=
  match todo with
  | O => mret s
  | S todo' =>
      if (nconn s <? maxnconn) && (0 <? nlefttoconn s) then
        match find_file (files s) with
        | None => err_quit ("nlefttoconn = " +:+ fmt_d (nlefttoconn s) +:+ " but nothing found")
        | Some i =>
            s ← start_connect fuel i s;
            web_fill fuel todo' maxnconn
              (Web (files s) (nconn s + 1) (nlefttoconn s - 1) (nlefttoread s) (w_maxfd s)
                 (w_rset s) (w_wset s))
        end
      else mret s
  end.

(** A connection in progress whose descriptor is ready. *)
Definition web_connected (fuel i : nat) (s : web) : M web :=
  let f := files s !!! i in
  let fd := f_fd f in
  error ← syscall (sys_getsockopt fd SOL_SOCKET SO_ERROR 4);
  (if match error with None => true | Some e => negb (e =? 0) end
   then err_ret ("nonblocking connect failed for " +:+ f_name f) else mret tt) ;;
  printf ("connection established for " +:+ f_name f +:+ nl) ;;
  write_get_cmd fuel i (Web (files s) (nconn s) (nlefttoconn s) (nlefttoread s) (w_maxfd s)
                          (w_rset s) (w_wset s ∖ {[fd]})).

(** A reply that can be read. *)
Definition web_read (i : nat) (s : web) : M web :=
  let f := files s !!! i in
  let fd := f_fd f in
  buf ← Read fd MAXLINE;
  let n := Z.of_nat (List.length buf) in
  if n =? 0 then
    printf ("end-of-file on " +:+ f_name f +:+ nl) ;;
    Close fd ;;
    mret (Web (<[i := File (f_name f) (f_host f) fd F_DONE]> (files s)) (nconn s - 1)
            (nlefttoconn s) (nlefttoread s - 1) (w_maxfd s) (w_rset s ∖ {[fd]}) (w_wset s))
  else printf ("read " +:+ fmt_d n +:+ " bytes from " +:+ f_name f +:+ nl) ;; mret s.

(** The [for] loop over the files from [i] on. *)
Fixpoint web_scan (fuel todo i : nat) (rs ws : list Z) (s : web) : M web :=
  match todo with
  | O => mret s
  | S todo' =>
      let flags := f_flags (files s !!! i) in
      if (flags =? 0) || has flags F_DONE then web_scan fuel todo' (S i) rs ws s
      else
        let fd := f_fd (files s !!! i) in
        s ← (if has flags F_CONNECTING && (FD_ISSET fd rs || FD_ISSET fd ws) then web_connected fuel i s
             else if has flags F_READING && FD_ISSET fd rs then web_read i s
             else mret s);
        web_scan fuel todo' (S i) rs ws s
  end.

(** One turn of the outer [while]. *)
Definition web_step (fuel : nat) (maxnconn : Z) (s : web) : M web :=
  s ← web_fill fuel (Z.to_nat (nlefttoconn s)) maxnconn s;
  '(rs, ws) ← Select (elements (w_rset s)) (elements (w_wset s)) None;
  web_scan fuel (List.length (files s)) 0 rs ws s.

Fixpoint web_loop (turns fuel : nat) (maxnconn : Z) (s : web) : M web :=
  match turns with
  | O => stop NoFuel
  | S t =>
      if 0 <? nlefttoread s then
        s ← web_step fuel maxnconn s;
        web_loop t fuel maxnconn s
      else mret s
  end.

Definition web_init (host : string) (names : list string) : web :=
  let fs := (λ name, File name host 0 0) <$> names in
  let nfiles := Z.of_nat (List.length fs) in
  Web fs 0 nfiles nfiles (-1) ∅ ∅.

(** [main]: the number of connections, host, home page and files of [argv]. *)
Definition web_main (turns fuel : nat) (argv : list string) : M unit :=
  match argv with
  | _ :: conns :: host :: homepage :: ((_ :: _) as names) =>
      let names := take (Z.to_nat MAXFILES) names in
      printf ("nfiles = " +:+ fmt_d (Z.of_nat (List.length names)) +:+ nl) ;;
      home_page fuel host homepage ;;
      web_loop turns fuel (atoi conns) (web_init host names) ;;
      exit 0
  | _ => err_quit "usage: web <#conns> <hostname> <homepage> <file1> ..."
  end.
End web.

(** ** The specification: the phases of the files *)

Inductive phase := Pending | Connecting | Reading | Done.
#[global] Instance phase_eq_dec : EqDecision phase.
Proof. solve_decision. Defined.

Definition active (ph : phase) : bool :=
  match ph with Connecting | Reading => true | _ => false end.
(** How many files are in a phase that satisfies [P]. *)
Fixpoint pcount (P : phase → bool) (l : list phase) : Z :=
  match l with [] => 0 | ph :: l' => Z.b2z (P ph) + pcount P l' end.
Definition is_phase (ph : phase) : phase → bool := λ x, bool_decide (x = ph).

(** A connection is started when fewer than [maxnconn] are in progress (it may
    be complete at once), completes, and ends. *)
Inductive wstep (maxnconn : Z) : list phase → list phase → Prop :=
| wstep_start i l ph : l !! i = Some Pending → active ph = true → pcount active l < maxnconn →
    wstep maxnconn l (<[i := ph]> l)
| wstep_connected i l : l !! i = Some Connecting → wstep maxnconn l (<[i := Reading]> l)
| wstep_done i l : l !! i = Some Reading → wstep maxnconn l (<[i := Done]> l).

(** The steps a file has still to make, at most. *)
Definition weight (ph : phase) : Z :=
  match ph with Pending => 3 | Connecting => 2 | Reading => 1 | Done => 0 end.
Fixpoint total (l : list phase) : Z :=
  match l with [] => 0 | ph :: l' => weight ph + total l' end.

Lemma pcount_insert P l i x y :
  l !! i = Some x → pcount P (<[i := y]> l) = pcount P l - Z.b2z (P x) + Z.b2z (P y).
Proof.
  revert i. induction l as [|z l IH]; intros [|i] H; simplify_eq/=; [lia|]. rewrite (IH i) by done. lia.
Qed.
Lemma total_insert l i x y : l !! i = Some x → total (<[i := y]> l) = total l - weight x + weight y.
Proof.
  revert i. induction l as [|z l IH]; intros [|i] H; simplify_eq/=; [lia|]. rewrite (IH i) by done. lia.
Qed.
Lemma pcount_nonneg P l : 0 ≤ pcount P l.
Proof. induction l as [|x l IH]; simpl; [lia|]. destruct (P x); simpl; lia. Qed.
Lemma total_nonneg l : 0 ≤ total l.
Proof. induction l as [|x l IH]; simpl; [lia|]. destruct x; simpl; lia. Qed.
Lemma pcount_pos P l : 0 < pcount P l → ∃ i x, l !! i = Some x ∧ P x = true.
Proof.
  induction l as [|x l IH]; simpl; [lia|]. intros H. destruct (P x) eqn:E; [by exists 0%nat, x|].
  destruct IH as (i & y & ? & ?); [simpl in H; lia|]. by exists (S i), y.
Qed.
Lemma pcount_zero P l i x : pcount P l = 0 → l !! i = Some x → P x = false.
Proof.
  revert i. induction l as [|y l IH]; intros [|i] H Hi; simplify_eq/=;
    pose proof (pcount_nonneg P l); [destruct (P x); simpl in *; [lia|done]|]. eapply IH; [|done]. destruct (P y); simpl in *; lia.
Qed.
Lemma total_phases l :
  total l = 3 * pcount (is_phase Pending) l + 2 * pcount (is_phase Connecting) l + pcount (is_phase Reading) l.
Proof. induction l as [|x l IH]; simpl; [done|]. rewrite IH. destruct x; simpl; lia. Qed.

(** A step of the specification lowers the weight and keeps the bound. *)
Lemma wstep_total n l l' : wstep n l l' → total l' < total l.
Proof. intros [i l0 ph H Ha _|i l0 H|i l0 H]; rewrite (total_insert _ _ _ _ H); simpl; [destruct ph; try done; simpl|..]; lia. Qed.
Lemma wstep_bound n l l' : wstep n l l' → pcount active l ≤ n → pcount active l' ≤ n.
Proof. intros [i l0 ph H Ha Hb|i l0 H|i l0 H]; rewrite (pcount_insert _ _ _ _ _ H); simpl; [rewrite Ha; simpl|..]; lia. Qed.
Lemma wsteps_total n l l' : rtc (wstep n) l l' → total l' ≤ total l.
Proof. induction 1 as [|l1 l2 l3 H _ IH]; [lia|]. apply wstep_total in H. lia. Qed.

(** ** The relation between the variables and the specification *)

Definition phase_of (f : file) : phase :=
  if f_flags f =? 0 then Pending else if f_flags f =? F_CONNECTING then Connecting
  else if f_flags f =? F_READING then Reading else Done.
Definition phases (s : web) : list phase := phase_of <$> files s.

(** The counters count, the sets hold the descriptors of the connections in
    progress and of those not yet complete, each of its own, and besides [base]
    they are the open descriptors. *)
Record web_inv (base : gset Z) (maxnconn : Z) (s : web) (p : proc) : Prop := {
  wi_flags : Forall (λ f, f_flags f ∈ [0; F_CONNECTING; F_READING; F_DONE]) (files s);
  wi_names : Forall (λ f, strlen (GET_CMD (f_name f)) ≤ MAXLINE) (files s);
  wi_nconn : nconn s = pcount active (phases s);
  wi_toconn : nlefttoconn s = pcount (is_phase Pending) (phases s);
  wi_toread : nlefttoread s = pcount (λ ph, negb (is_phase Done ph)) (phases s);
  wi_max : nconn s ≤ Z.max 0 maxnconn;
  wi_rset : ∀ fd, fd ∈ w_rset s ↔ ∃ i f, files s !! i = Some f ∧ active (phase_of f) = true ∧ f_fd f = fd;
  wi_wset : ∀ fd, fd ∈ w_wset s ↔ ∃ i f, files s !! i = Some f ∧ phase_of f = Connecting ∧ f_fd f = fd;
  wi_own : ∀ i j f g, files s !! i = Some f → files s !! j = Some g → active (phase_of f) = true →
    active (phase_of g) = true → f_fd f = f_fd g → i = j;
  wi_fds : fds p = w_rset s ∪ base;
  wi_base : w_rset s ## base;
  wi_heap : heap_ok p
}.

(** The ways a part of the program ends: by [exit(1)], or because a descriptor
    does not fit in an [fd_set]; [fuel] bounds a write, up to interruptions. *)
Definition web_post {A} (fuel : nat) (p : proc) (Q : A → proc → Prop) (o : outcome A) (p' : proc) : Prop :=
  later p p' ∧
  match o with
  | Ret a => Q a p'
  | Exit st => st = 1
  | UB => ∃ fd, fd ∈ fds p' ∧ FD_SETSIZE ≤ fd
  | NoFuel => Z.of_nat fuel ≤ MAXLINE + Z.of_nat (interrupted (p_trace p') - interrupted (p_trace p))
  | Abort => False
  end.

Section facts.
Context {K : Kernel} {R : Resolver} {RL : ResolverLaws R} {KOk : ReadWriteOk K} {KSock : SocketOk K}.

Lemma web_bind {A B} fuel p0 p (m : M A) (k : A → M B) Q1 Q :
  post m p (web_post fuel p0 Q1) →
  (∀ a p', later p0 p' → Q1 a p' → post (k a) p' (web_post fuel p0 Q)) →
  post (m ≫= k) p (web_post fuel p0 Q).
Proof.
  intros Hm Hk. post_step. eapply post_weaken; [exact Hm|]. intros o p' [Hl Ho].
  destruct o; cbn [through]; [by apply Hk|..]; done.
Qed.
Lemma web_ret {A} fuel p0 p (a : A) (Q : A → proc → Prop) :
  later p0 p → Q a p → post (mret a) p (web_post fuel p0 Q).
Proof. intros Hl HQ. by post_step. Qed.
Lemma web_exit {A} fuel p0 p (m : M A) Q :
  later p0 p → post m p (λ o p', o = Exit 1 ∧ reported p p') → post m p (web_post fuel p0 Q).
Proof.
  intros Hl Hm. eapply exits_unmoved; [exact Hm|]. intros p' [Hl' _]. split; [by etransitivity|done].
Qed.

Lemma web_exit_through {A B} fuel p0 p (m : M A) Q (k : A → proc → Prop) :
  later p0 p → post m p (λ o p', o = Exit 1 ∧ reported p p') →
  post m p (through (B := B) (web_post fuel p0 Q) k).
Proof.
  intros Hl Hm. eapply exits_unmoved; [exact Hm|]. intros p' [Hl' _]. split; [by etransitivity|done].
Qed.

Lemma printf_unmoved s p (Q : outcome unit → proc → Prop) :
  (∀ p', unmoved p p' → Q (Ret tt) p') → post (printf s) p Q.
Proof.
  intros HQ. unfold printf. post_step. apply syscall_unmoved; [done|]. intros r p' Hu. cbn [through].
  by apply post_ret, HQ.
Qed.

Lemma unmoved_fds p p' : unmoved p p' → fds p' = fds p.
Proof. by intros (_ & ? & _). Qed.
Lemma unmoved_heap p p' : unmoved p p' → heap_ok p → heap_ok p'.
Proof. intros (_ & _ & _ & _ & _ & H1 & H2). unfold heap_ok. by rewrite H1, H2. Qed.
Lemma unmoved_reads p p' : unmoved p p' → data_reads (p_trace p') = data_reads (p_trace p).
Proof. by intros (_ & _ & _ & ? & _). Qed.
Lemma unmoved_later p p' : unmoved p p' → later p p'.
Proof. by intros [? _]. Qed.

Lemma get_line_length name p :
  strlen (GET_CMD name) ≤ MAXLINE → ∃ line, get_line name p = (Ret line, p) ∧ Z.of_nat (List.length line) ≤ MAXLINE.
Proof.
  intros H. unfold get_line. destruct (Z.ltb_spec MAXLINE (strlen (GET_CMD name))); [lia|].
  eexists. split; [done|]. rewrite length_take. pose proof (strlen_nonneg (GET_CMD name)). lia.
Qed.

(** [write_get_cmd] on a file whose descriptor is open. *)
Lemma write_get_cmd_post fuel i s f p0 p :
  files s !! i = Some f → strlen (GET_CMD (f_name f)) ≤ MAXLINE → f_fd f ∈ fds p → later p0 p →
  post (write_get_cmd fuel i s) p (web_post fuel p0 (λ s' p', unmoved p p' ∧
    s' = Web (<[i := File (f_name f) (f_host f) (f_fd f) F_READING]> (files s)) (nconn s) (nlefttoconn s)
           (nlefttoread s) (if w_maxfd s <? f_fd f then f_fd f else w_maxfd s) ({[f_fd f]} ∪ w_rset s) (w_wset s))).
Proof.
  intros Hi Hn Hfd Hl. unfold write_get_cmd. rewrite (list_lookup_total_correct _ _ _ Hi).
  destruct (get_line_length _ p Hn) as (line & Hline & Hlen).
  post_step. eapply post_eq; [exact Hline|]. cbn [through]. post_step.
  apply Writen_unmoved.
  - intros p1 Hu1. cbn [through]. post_step. apply printf_unmoved. intros p2 Hu2. cbn [through].
    assert (Hu : unmoved p p2) by by etransitivity.
    unfold fd_set_add. cbn [f_name f_host f_fd f_flags]. destruct (Z.leb_spec FD_SETSIZE (f_fd f)); post_steps.
    + split; [by etransitivity; [|by apply unmoved_later]|]. exists (f_fd f).
      by rewrite (unmoved_fds _ _ Hu).
    + split; [by etransitivity; [|by apply unmoved_later]|]. done.
  - intros p1 Hu. split; [by etransitivity; [|by apply unmoved_later]|done].
  - intros p1 Hu Hf. split; [by etransitivity; [|by apply unmoved_later]|].
    pose proof (later_counts _ _ Hl). pose proof (later_counts _ _ (unmoved_later _ _ Hu)). lia.
Qed.

(** [Host_serv]: a nonempty list, or the end of the process. *)
Lemma Host_serv_post host serv family t fuel p0 p :
  heap_ok p → later p0 p →
  post (Host_serv host serv family t) p (web_post fuel p0 (λ res p', res ≠ [] ∧
    Forall (λ ai, is_Some (ai_addr ai)) res ∧ fds p' = fds p ∧ heap_ok p')).
Proof.
  intros Hp Hl. unfold Host_serv. post_step. eapply post_weaken; [by apply gai_result|].
  intros o p1 [He Ho]. assert (Hl1 : later p0 p1).
  { etransitivity; [exact Hl|]. destruct He as (u & Hu & _). by exists u. }
  destruct o as [[n res]|st| | |]; cbn [through]; try done.
  destruct (Z.eqb_spec n 0) as [Hn|]; cbn [negb]; [|by apply web_exit, err_quit_exits].
  destruct (Ho Hn) as (Hne & (Hh & _) & Ha). apply web_ret; [done|].
  split_and!; try done. by apply extends_fds.
Qed.

(** The state and the process after a connection was started for file [i]. *)
Definition started (i : nat) (f : file) (s : web) (p : proc) (s' : web) (p' : proc) : Prop :=
  ∃ fd fl, 0 ≤ fd ∧ (fd ∉ fds p) ∧ (fl = F_CONNECTING ∨ fl = F_READING) ∧
    s' = Web (<[i := File (f_name f) (f_host f) fd fl]> (files s)) (nconn s) (nlefttoconn s) (nlefttoread s)
           (if w_maxfd s <? fd then fd else w_maxfd s) ({[fd]} ∪ w_rset s)
           (if fl =? F_CONNECTING then {[fd]} ∪ w_wset s else w_wset s) ∧
    fds p' = {[fd]} ∪ fds p ∧ heap_ok p'.

Lemma start_connect_post fuel i s f p0 p :
  files s !! i = Some f → strlen (GET_CMD (f_name f)) ≤ MAXLINE → heap_ok p → later p0 p →
  post (start_connect fuel i s) p (web_post fuel p0 (started i f s p)).
Proof.
  intros Hi Hn Hp Hl. unfold start_connect. rewrite (list_lookup_total_correct _ _ _ Hi).
  eapply web_bind; [by apply Host_serv_post|]. intros res p1 Hl1 (Hne & Ha & Hf1 & Hh1).
  destruct res as [|ai res]; [done|]. apply Forall_cons in Ha as [[[q sa] Ha] _].
  unfold Socket, or_err_sys at 1. do 2 post_step. post_step.
  2: { apply web_exit_through, err_sys_exits. etransitivity; [exact Hl1|]. by eexists [_]. }
  rename a into fd. destruct (socket_fresh _ _ _ _ _ H) as [Hpos Hfr].
  fold (fds p1) in Hfr. rewrite Hf1 in Hfr. set (p2 := add_event _ _ p1).
  assert (Hl2 : later p0 p2) by (etransitivity; [exact Hl1|]; by eexists [_]).
  assert (Hf2 : fds p2 = {[fd]} ∪ fds p) by (rewrite <- Hf1; done).
  assert (Hh2 : heap_ok p2) by exact Hh1. clearbody p2. clear H.
  do 2 post_step. apply printf_unmoved. intros p3 Hu3. cbn [through].
  post_step. apply or_err_sys_unmoved; [done| |].
  2: { intros p4 Hu4. split; [|done]. do 2 (etransitivity; [|by apply unmoved_later]). done. }
  intros flags p4 _ Hu4. cbn [through]. post_step. apply or_err_sys_unmoved; [done| |].
  2: { intros p5 Hu5. split; [|done]. do 3 (etransitivity; [|by apply unmoved_later]). done. }
  intros r p5 _ Hu5. cbn [through]. unfold with_addr. rewrite Ha.
  assert (Hu : unmoved p2 p5) by (etransitivity; [exact Hu3|]; by etransitivity).
  clear Hu3 Hu4 Hu5 p3 p4. post_step. post_step.
  - (* connected at once *)
    set (p6 := add_event _ _ p5). assert (Hu6 : unmoved p2 p6) by (etransitivity; [exact Hu|by apply unmoved_event]).
    assert (Hf6 : fds p6 = {[fd]} ∪ fds p) by (by rewrite (unmoved_fds _ _ Hu6)).
    cbn [through]. eapply post_weaken.
    { eapply (write_get_cmd_post _ _ _ (File (f_name f) (f_host f) fd (f_flags f)) p0).
      - cbn [files]. apply list_lookup_insert_eq. by eapply lookup_lt_Some.
      - done.
      - rewrite Hf6. set_solver.
      - etransitivity; [exact Hl2|]. by apply unmoved_later. }
    intros o p7 [Hl7 Ho]. split; [done|]. destruct o; try done. destruct Ho as [Hu7 ->].
    exists fd, F_READING. cbn [files nconn nlefttoconn nlefttoread w_maxfd w_rset w_wset f_name f_host f_fd].
    rewrite list_insert_insert_eq. split_and!; try done; [by right|by rewrite (unmoved_fds _ _ Hu7)|].
    eapply unmoved_heap; [exact Hu7|]. by eapply unmoved_heap.
  - post_steps. ztest; cbn [negb].
    2: { apply web_exit, err_sys_exits. etransitivity; [exact Hl2|]. etransitivity; [by apply unmoved_later|].
         by eexists [_]. }
    set (p6 := with_errno _ _). assert (Hu6 : unmoved p2 p6).
    { etransitivity; [exact Hu|]. etransitivity; [|apply unmoved_errno].
      by apply (unmoved_event (sys_connect fd sa (ai_addrlen ai)) (Err e)). }
    assert (Hf6 : fds p6 = {[fd]} ∪ fds p) by (by rewrite (unmoved_fds _ _ Hu6)).
    assert (Hl6 : later p0 p6) by (etransitivity; [exact Hl2|by apply unmoved_later]).
    unfold fd_set_add. destruct (Z.leb_spec FD_SETSIZE fd); post_steps.
    + split; [done|]. exists fd. rewrite Hf6. set_solver.
    + split; [done|]. exists fd, F_CONNECTING. cbn [files f_name f_host]. rewrite list_insert_insert_eq.
      split_and!; try done; [by left|]. by eapply unmoved_heap.
Qed.

Lemma phase_of_flags f :
  f_flags f ∈ [0; F_CONNECTING; F_READING; F_DONE] →
  f_flags f = match phase_of f with Pending => 0 | Connecting => F_CONNECTING | Reading => F_READING | Done => F_DONE end.
Proof.
  intros H. unfold phase_of. repeat ztest; try done.
  repeat (apply elem_of_cons in H as [H|H]; [done|]). by apply not_elem_of_nil in H.
Qed.

Lemma lookup_phases s i f : files s !! i = Some f → phases s !! i = Some (phase_of f).
Proof. intros H. unfold phases. by rewrite list_lookup_fmap, H. Qed.

(** A file whose flags and descriptor change, the descriptor being its own. *)
Lemma lookup_insert_file (fs : list file) i j f g :
  <[i := g]> fs !! j = Some f → (i = j ∧ f = g) ∨ (i ≠ j ∧ fs !! j = Some f).
Proof. intros H. apply list_lookup_insert_Some in H as [(-> & -> & _)|[? ?]]; auto. Qed.

Lemma web_inv_start base n s p i f s1 p1 :
  web_inv base n s p → files s !! i = Some f → phase_of f = Pending → nconn s < n →
  started i f s p s1 p1 →
  let s' := Web (files s1) (nconn s1 + 1) (nlefttoconn s1 - 1) (nlefttoread s1) (w_maxfd s1) (w_rset s1) (w_wset s1) in
  web_inv base n s' p1 ∧ wstep n (phases s) (phases s').
Proof.
  intros [Hfl Hna Hnc Htc Htr Hmax Hrs Hws Hown Hfds Hbase Hheap] Hi Hph Hlt (fd & fl & Hpos & Hnew & Hcase & -> & Hf1 & Hh1).
  set (g := File (f_name f) (f_host f) fd fl).
  assert (Hg : active (phase_of g) = true) by (by destruct Hcase as [Hcase|Hcase]; unfold g; rewrite Hcase).
  assert (Hf : active (phase_of f) = false) by by rewrite Hph.
  assert (Hps : phases s !! i = Some Pending) by (rewrite (lookup_phases _ _ _ Hi); by rewrite Hph).
  pose proof (lookup_lt_Some _ _ _ Hi) as Hlen.
  assert (Hnr : fd ∉ w_rset s) by (intros Hx; apply Hnew; rewrite Hfds; set_solver).
  assert (Hphases : phase_of <$> <[i := g]> (files s) = <[i := phase_of g]> (phases s)).
  { unfold phases. by rewrite list_fmap_insert. }
  cbn zeta. split.
  - split; unfold phases; cbn [files nconn nlefttoconn nlefttoread w_maxfd w_rset w_wset]; rewrite ?Hphases;
      rewrite ?(pcount_insert _ _ _ _ _ Hps), ?Hg.
    + apply Forall_insert; [done|]. destruct Hcase as [->| ->]; set_solver.
    + apply Forall_insert; [done|]. exact (Forall_lookup_1 _ _ _ _ Hna Hi).
    + rewrite Hnc. simpl. lia.
    + rewrite Htc. destruct (phase_of g); try done; simpl; lia.
    + rewrite Htr. destruct (phase_of g); try done; simpl; lia.
    + lia.
    + intros x. rewrite elem_of_union, elem_of_singleton, Hrs. split.
      * intros [->|(j & h & Hj & Ha & Hx)]; [exists i, g; by rewrite list_lookup_insert_eq|].
        exists j, h. rewrite list_lookup_insert_ne; [done|]. intros ->. simplify_eq. congruence.
      * intros (j & h & Hj & Ha & Hx). apply lookup_insert_file in Hj as [(-> & ->)|[Hne Hj]]; [by left|]. right. by exists j, h.
    + intros x. assert (Hc : phase_of g = Connecting ↔ fl = F_CONNECTING).
      { unfold g. destruct Hcase as [->| ->]; by split. }
      destruct Hcase as [Hc1|Hc1]; rewrite Hc1; simpl.
      * rewrite elem_of_union, elem_of_singleton, Hws. split.
        -- intros [->|(j & h & Hj & Ha & Hx)]; [exists i, g; rewrite list_lookup_insert_eq by done; by rewrite Hc|].
           exists j, h. rewrite list_lookup_insert_ne; [done|]. intros ->. simplify_eq. by rewrite Hph in Ha.
        -- intros (j & h & Hj & Ha & Hx). apply lookup_insert_file in Hj as [(-> & ->)|[Hne Hj]]; [by left|]. right. by exists j, h.
      * rewrite Hws. split; intros (j & h & Hj & Ha & Hx); exists j, h.
        -- rewrite list_lookup_insert_ne; [done|]. intros ->. simplify_eq. by rewrite Hph in Ha.
        -- apply lookup_insert_file in Hj as [(-> & ->)|[Hne Hj]]; [|done]. apply Hc in Ha. by rewrite Hc1 in Ha.
    + intros j k h1 h2 Hj Hk Ha1 Ha2 He.
      apply lookup_insert_file in Hj as [(-> & ->)|[Hne Hj]]; apply lookup_insert_file in Hk as [(-> & ->)|[Hne' Hk]]; [done|..].
      * destruct Hnr. apply Hrs. by exists k, h2.
      * destruct Hnr. apply Hrs. exists j, h1. split_and!; try done.
      * by eapply Hown.
    + rewrite Hf1, Hfds. set_solver.
    + set_solver.
    + done.
  - unfold phases at 2. cbn [files]. rewrite Hphases. apply wstep_start; [done|done|]. by rewrite <- Hnc.
Qed.

Lemma web_fill_post fuel n base p0 : ∀ todo s p,
  web_inv base n s p → later p0 p →
  post (web_fill fuel todo n s) p (web_post fuel p0 (λ s' p',
    web_inv base n s' p' ∧ rtc (wstep n) (phases s) (phases s'))).
Proof.
  induction todo as [|todo IH]; intros s p Hs Hl; cbn [web_fill].
  { apply web_ret; [done|]. split; [done|reflexivity]. }
  destruct (Z.ltb_spec (nconn s) n); cbn [andb].
  2: { apply web_ret; [done|]. split; [done|reflexivity]. }
  destruct (Z.ltb_spec 0 (nlefttoconn s)).
  2: { apply web_ret; [done|]. split; [done|reflexivity]. }
  destruct (find_file (files s)) as [i|] eqn:Ef.
  2: { (* nothing found: impossible *)
    exfalso. rewrite (wi_toconn _ _ _ _ Hs) in *. destruct (pcount_pos _ _ H0) as (i & x & Hi & Hx).
    unfold phases in Hi. rewrite list_lookup_fmap in Hi. apply fmap_Some in Hi as (f & Hi & ->).
    unfold find_file in Ef. apply fmap_None, list_find_None in Ef.
    pose proof (Forall_lookup_1 _ _ _ _ Ef Hi) as Hf. apply bool_decide_eq_true in Hx.
    pose proof (phase_of_flags f (Forall_lookup_1 _ _ _ _ (wi_flags _ _ _ _ Hs) Hi)) as Hg. by rewrite Hx in Hg. }
  unfold find_file in Ef. apply fmap_Some in Ef as ([j f] & Ef & ->). apply list_find_Some in Ef as (Hi & Hf & _).
  cbn [fst]. eapply web_bind.
  { eapply start_connect_post; [exact Hi| |apply Hs|exact Hl]. exact (Forall_lookup_1 _ _ _ _ (wi_names _ _ _ _ Hs) Hi). }
  intros s1 p1 Hl1 Hst. assert (Hph : phase_of f = Pending) by (unfold phase_of; by rewrite Hf).
  destruct (web_inv_start _ _ _ _ _ _ _ _ Hs Hi Hph H Hst) as [Hs1 Hw].
  eapply post_weaken; [by apply IH|]. intros o p2 [Hl2 Ho]. split; [done|].
  destruct o as [s2| | | |]; try done. destruct Ho as (Hs2 & Hr). split; [done|]. by eapply rtc_l.
Qed.

Lemma web_inv_same base n s p p' : fds p' = fds p → heap_ok p' → web_inv base n s p → web_inv base n s p'.
Proof. intros Hf Hh []. split; try done. by rewrite Hf. Qed.

Lemma web_inv_connected base n s p i f p1 m :
  web_inv base n s p → files s !! i = Some f → phase_of f = Connecting → fds p1 = fds p → heap_ok p1 →
  let s' := Web (<[i := File (f_name f) (f_host f) (f_fd f) F_READING]> (files s)) (nconn s) (nlefttoconn s)
              (nlefttoread s) m ({[f_fd f]} ∪ w_rset s) (w_wset s ∖ {[f_fd f]}) in
  web_inv base n s' p1 ∧ wstep n (phases s) (phases s').
Proof.
  intros [Hfl Hna Hnc Htc Htr Hmax Hrs Hws Hown Hfds Hbase Hheap] Hi Hph Hf1 Hh1.
  set (g := File (f_name f) (f_host f) (f_fd f) F_READING).
  assert (Hps : phases s !! i = Some Connecting) by (rewrite (lookup_phases _ _ _ Hi); by rewrite Hph).
  pose proof (lookup_lt_Some _ _ _ Hi) as Hlen.
  assert (Ha : active (phase_of f) = true) by by rewrite Hph.
  assert (Hr : f_fd f ∈ w_rset s) by (apply Hrs; by exists i, f).
  assert (Hphases : phase_of <$> <[i := g]> (files s) = <[i := Reading]> (phases s)).
  { unfold phases. by rewrite list_fmap_insert. }
  cbn zeta. split.
  - split; unfold phases; cbn [files nconn nlefttoconn nlefttoread w_maxfd w_rset w_wset]; rewrite ?Hphases;
      rewrite ?(pcount_insert _ _ _ _ _ Hps); try done.
    + apply Forall_insert; [done|]. set_solver.
    + apply Forall_insert; [done|]. exact (Forall_lookup_1 _ _ _ _ Hna Hi).
    + rewrite Hnc. simpl. lia.
    + rewrite Htc. simpl. lia.
    + rewrite Htr. simpl. lia.
    + intros x. rewrite elem_of_union, elem_of_singleton, Hrs. split.
      * intros Hx. destruct (decide (x = f_fd f)) as [->|Hne]; [exists i, g; by rewrite list_lookup_insert_eq|].
        destruct Hx as [?|(j & h & Hj & Hah & Hx)]; [done|]. exists j, h. rewrite list_lookup_insert_ne; [done|].
        intros ->. simplify_eq.
      * intros (j & h & Hj & Hah & Hx). apply lookup_insert_file in Hj as [(-> & ->)|[Hne Hj]]; [by left|]. right. by exists j, h.
    + intros x. rewrite elem_of_difference, elem_of_singleton, Hws. split.
      * intros [(j & h & Hj & Hah & Hx) Hne]. exists j, h. rewrite list_lookup_insert_ne; [done|]. intros ->. simplify_eq.
      * intros (j & h & Hj & Hah & Hx). apply lookup_insert_file in Hj as [(-> & ->)|[Hne Hj]]; [done|].
        split; [by exists j, h|]. intros ->. apply Hne. eapply Hown; [done|done|done| |done]. by rewrite Hah.
    + intros j k h1 h2 Hj Hk Ha1 Ha2 He.
      apply lookup_insert_file in Hj as [(-> & ->)|[Hne Hj]]; apply lookup_insert_file in Hk as [(-> & ->)|[Hne' Hk]]; [done|..].
      * by eapply (Hown j k f h2).
      * by eapply (Hown j k h1 f).
      * by eapply Hown.
    + rewrite Hf1, Hfds. set_solver.
    + set_solver.
  - unfold phases at 2. cbn [files]. rewrite Hphases. by apply wstep_connected.
Qed.

Lemma web_inv_done base n s p i f p1 :
  web_inv base n s p → files s !! i = Some f → phase_of f = Reading → fds p1 = fds p ∖ {[f_fd f]} → heap_ok p1 →
  let s' := Web (<[i := File (f_name f) (f_host f) (f_fd f) F_DONE]> (files s)) (nconn s - 1) (nlefttoconn s)
              (nlefttoread s - 1) (w_maxfd s) (w_rset s ∖ {[f_fd f]}) (w_wset s) in
  web_inv base n s' p1 ∧ wstep n (phases s) (phases s').
Proof.
  intros [Hfl Hna Hnc Htc Htr Hmax Hrs Hws Hown Hfds Hbase Hheap] Hi Hph Hf1 Hh1.
  set (g := File (f_name f) (f_host f) (f_fd f) F_DONE).
  assert (Hps : phases s !! i = Some Reading) by (rewrite (lookup_phases _ _ _ Hi); by rewrite Hph).
  assert (Ha : active (phase_of f) = true) by by rewrite Hph.
  assert (Hr : f_fd f ∈ w_rset s) by (apply Hrs; by exists i, f).
  assert (Hphases : phase_of <$> <[i := g]> (files s) = <[i := Done]> (phases s)).
  { unfold phases. by rewrite list_fmap_insert. }
  cbn zeta. split.
  - split; unfold phases; cbn [files nconn nlefttoconn nlefttoread w_maxfd w_rset w_wset]; rewrite ?Hphases;
      rewrite ?(pcount_insert _ _ _ _ _ Hps); try done.
    + apply Forall_insert; [done|]. set_solver.
    + apply Forall_insert; [done|]. exact (Forall_lookup_1 _ _ _ _ Hna Hi).
    + rewrite Hnc. simpl. lia.
    + rewrite Htc. simpl. lia.
    + rewrite Htr. simpl. lia.
    + lia.
    + intros x. rewrite elem_of_difference, elem_of_singleton, Hrs. split.
      * intros [(j & h & Hj & Hah & Hx) Hne]. exists j, h. rewrite list_lookup_insert_ne; [done|]. intros ->. simplify_eq.
      * intros (j & h & Hj & Hah & Hx). apply lookup_insert_file in Hj as [(-> & ->)|[Hne Hj]]; [done|].
        split; [by exists j, h|]. intros ->. apply Hne. by eapply Hown.
    + intros x. rewrite Hws. split; intros (j & h & Hj & Hah & Hx); exists j, h.
      * rewrite list_lookup_insert_ne; [done|]. intros ->. simplify_eq. congruence.
      * by apply lookup_insert_file in Hj as [(-> & ->)|[Hne Hj]].
    + intros j k h1 h2 Hj Hk Ha1 Ha2 He.
      apply lookup_insert_file in Hj as [(-> & ->)|[Hne Hj]]; apply lookup_insert_file in Hk as [(-> & ->)|[Hne' Hk]]; try done.
      by eapply Hown.
    + rewrite Hf1, Hfds. set_solver.
    + set_solver.
  - unfold phases at 2. cbn [files]. rewrite Hphases. by apply wstep_done.
Qed.

(** What is left to do: the steps of the files, less the reads that brought data. *)
Definition potential (s : web) (p : proc) : Z := total (phases s) - Z.of_nat (data_reads (p_trace p)).

(** A part of the loop takes steps of the specification and never adds work. *)
Definition progress (base : gset Z) (n : Z) (s : web) (p : proc) (s' : web) (p' : proc) : Prop :=
  web_inv base n s' p' ∧ rtc (wstep n) (phases s) (phases s') ∧ potential s' p' ≤ potential s p.

Lemma progress_trans base n s p s1 p1 s2 p2 :
  progress base n s p s1 p1 → progress base n s1 p1 s2 p2 → progress base n s p s2 p2.
Proof. intros (_ & H2 & H3) (H4 & H5 & H6). split; [done|]. split; [by etransitivity|lia]. Qed.
Lemma progress_same base n s p p' :
  web_inv base n s p → unmoved p p' → progress base n s p s p'.
Proof.
  intros Hs Hu. split; [|split; [reflexivity|]].
  - eapply web_inv_same; [by apply unmoved_fds|eapply unmoved_heap; [exact Hu|apply Hs]|exact Hs].
  - unfold potential. rewrite (unmoved_reads _ _ Hu). lia.
Qed.

Lemma web_connected_post fuel n base i f s p0 p :
  web_inv base n s p → later p0 p → files s !! i = Some f → phase_of f = Connecting →
  post (web_connected fuel i s) p (web_post fuel p0 (λ s' p', progress base n s p s' p' ∧
    potential s' p' < potential s p ∧ ∃ g, files s' = <[i := g]> (files s))).
Proof.
  intros Hs Hl Hi Hph. unfold web_connected. rewrite (list_lookup_total_correct _ _ _ Hi).
  post_step. apply syscall_unmoved; [done|]. intros error p1 Hu1. cbn [through].
  assert (Hmid : post (if match error with None => true | Some e => negb (e =? 0) end
      then err_ret ("nonblocking connect failed for " +:+ f_name f) else mret tt) p1
      (λ o p', o = Ret tt ∧ unmoved p p')).
  { case_match; [|by apply post_ret]. apply err_ret_unmoved. intros p' Hu'. split; [done|by etransitivity]. }
  post_step. eapply post_weaken; [exact Hmid|]. intros o p2 [-> Hu2]. cbn [through].
  post_step. apply printf_unmoved. intros p3 Hu3. cbn [through].
  assert (Hu : unmoved p p3) by by etransitivity. clear Hu1 Hu2 Hu3 Hmid p1 p2.
  assert (Hfd : f_fd f ∈ fds p3).
  { rewrite (unmoved_fds _ _ Hu), (wi_fds _ _ _ _ Hs). apply elem_of_union_l, (wi_rset _ _ _ _ Hs).
    exists i, f. by rewrite Hph. }
  eapply post_weaken.
  { eapply (write_get_cmd_post fuel i _ f p0); [exact Hi| |exact Hfd|].
    - exact (Forall_lookup_1 _ _ _ _ (wi_names _ _ _ _ Hs) Hi).
    - etransitivity; [exact Hl|by apply unmoved_later]. }
  intros o p4 [Hl4 Ho]. split; [done|]. destruct o; try done. destruct Ho as [Hu4 ->].
  assert (Hu' : unmoved p p4) by by etransitivity.
  destruct (web_inv_connected base n s p i f p4 (if w_maxfd s <? f_fd f then f_fd f else w_maxfd s))
    as [Hinv Hw]; [done|done|done|by apply unmoved_fds|eapply unmoved_heap; [exact Hu'|apply Hs]|].
  pose proof (wstep_total _ _ _ Hw). cbn [files nconn nlefttoconn nlefttoread w_maxfd w_rset w_wset] in *.
  assert (Hpot : data_reads (p_trace p4) = data_reads (p_trace p)) by by apply unmoved_reads.
  unfold potential. rewrite Hpot.
  split; [split; [done|split; [by apply rtc_once|unfold potential; rewrite Hpot; lia]]|split; [lia|by eexists]].
Qed.

Lemma web_read_post fuel n base i f s p0 p :
  web_inv base n s p → later p0 p → files s !! i = Some f → phase_of f = Reading →
  post (web_read i s) p (web_post fuel p0 (λ s' p', progress base n s p s' p' ∧
    potential s' p' < potential s p ∧ (files s' = files s ∨ ∃ g, files s' = <[i := g]> (files s)))).
Proof.
  intros Hs Hl Hi Hph. unfold web_read. rewrite (list_lookup_total_correct _ _ _ Hi).
  unfold Read, or_err_sys. do 2 post_step. post_step.
  2: { apply web_exit_through, err_sys_exits. etransitivity; [exact Hl|]. by eexists [_]. }
  set (p1 := add_event _ _ p). assert (Hl1 : later p0 p1) by (etransitivity; [exact Hl|]; by eexists [_]).
  assert (Hinv1 : web_inv base n s p1) by (eapply web_inv_same; [..|exact Hs]; [done|apply Hs]).
  post_step. destruct (Z.eqb_spec (Z.of_nat (List.length a)) 0).
  - destruct a; [|simpl in *; lia].
    assert (Hr1 : data_reads (p_trace p1) = data_reads (p_trace p)) by (simpl; lia). clearbody p1. clear H.
    post_step. apply printf_unmoved. intros p2 Hu2. cbn [through].
    unfold Close, or_err_sys. do 2 post_step. post_step.
    2: { apply web_exit_through, err_sys_exits. etransitivity; [exact Hl1|].
         etransitivity; [by apply unmoved_later|]. by eexists [_]. }
    destruct a. post_steps. set (p3 := add_event _ _ p2).
    assert (Hf3 : fds p3 = fds p1 ∖ {[f_fd f]}) by (rewrite <- (unmoved_fds _ _ Hu2); done).
    assert (Hr3 : data_reads (p_trace p3) = data_reads (p_trace p)).
    { rewrite <- Hr1, <- (unmoved_reads _ _ Hu2). simpl. lia. }
    assert (Hh3 : heap_ok p3) by (apply (unmoved_heap _ _ Hu2); apply Hinv1).
    assert (Hl3 : later p0 p3).
    { etransitivity; [exact Hl1|]. etransitivity; [by apply unmoved_later|]. by eexists [_]. }
    clearbody p3. split; [done|].
    destruct (web_inv_done base n s p1 i f p3) as [Hinv3 Hw]; try done. pose proof (wstep_total _ _ _ Hw).
    split; [split; [done|split; [by apply rtc_once|]]|split]; [unfold potential; lia|unfold potential; lia|].
    right. by eexists.
  - destruct a as [|b a]; [done|]. post_step. apply printf_unmoved. intros p2 Hu2. cbn [through]. post_step.
    split; [etransitivity; [exact Hl1|by apply unmoved_later]|].
    assert (Hr1 : data_reads (p_trace p1) = S (data_reads (p_trace p))) by (simpl; lia).
    pose proof (unmoved_reads _ _ Hu2) as Hr2.
    destruct (progress_same _ _ _ _ _ Hinv1 Hu2) as (? & ? & ?).
    split; [split; [done|split; [done|]]|split]; unfold potential; rewrite ?Hr2, ?Hr1; [lia|lia|by left].
Qed.

(** The test of the scan: whether the system reported the descriptor. *)
Definition ready (rs ws : list Z) (f : file) : bool :=
  match phase_of f with
  | Connecting => FD_ISSET (f_fd f) rs || FD_ISSET (f_fd f) ws
  | Reading => FD_ISSET (f_fd f) rs
  | _ => false
  end.

Lemma web_scan_post fuel n base rs ws p0 : ∀ todo i s p,
  web_inv base n s p → later p0 p → (i + todo = List.length (files s))%nat →
  post (web_scan fuel todo i rs ws s) p (web_post fuel p0 (λ s' p', progress base n s p s' p' ∧
    ((∃ j f, (i ≤ j)%nat ∧ files s !! j = Some f ∧ ready rs ws f = true) → potential s' p' < potential s p))).
Proof.
  induction todo as [|todo IH]; intros i s p Hs Hl Hlen; cbn [web_scan].
  { apply web_ret; [done|]. split; [by apply progress_same|]. intros (j & f & Hj & Hf & _).
    apply lookup_lt_Some in Hf. lia. }
  destruct (lookup_lt_is_Some_2 (files s) i) as [f Hi]; [lia|].
  rewrite (list_lookup_total_correct _ _ _ Hi).
  pose proof (phase_of_flags f (Forall_lookup_1 _ _ _ _ (wi_flags _ _ _ _ Hs) Hi)) as Hfl.
  (* the rest of the scan, after a step on file [i] *)
  assert (Hrest : ∀ s1 p1, progress base n s p s1 p1 → later p0 p1 →
    (files s1 = files s ∨ ∃ g, files s1 = <[i := g]> (files s)) →
    (ready rs ws f = true → potential s1 p1 < potential s p) →
    post (web_scan fuel todo (S i) rs ws s1) p1 (web_post fuel p0 (λ s' p', progress base n s p s' p' ∧
      ((∃ j f, (i ≤ j)%nat ∧ files s !! j = Some f ∧ ready rs ws f = true) → potential s' p' < potential s p)))).
  { intros s1 p1 Hp1 Hl1 Hfs Hr. eapply post_weaken; [apply IH; [apply Hp1|done|]|].
    - destruct Hfs as [->|[g ->]]; rewrite ?length_insert; lia.
    - intros o p2 [Hl2 Ho]. split; [done|]. destruct o as [s2| | | |]; try done. destruct Ho as [Hp2 Hst].
      split; [by eapply progress_trans|]. intros (j & h & Hj & Hh & Hrh).
      destruct Hp1 as (_ & _ & Hd1), Hp2 as (_ & _ & Hd2).
      destruct (decide (j = i)) as [->|Hne]; [simplify_eq; specialize (Hr Hrh); lia|].
      assert (potential s2 p2 < potential s1 p1); [|lia]. apply Hst. exists j, h. split; [lia|]. split; [|done].
      destruct Hfs as [->|[g ->]]; [done|]. by rewrite list_lookup_insert_ne. }
  assert (Hskip : (ready rs ws f = true → False) → post (web_scan fuel todo (S i) rs ws s) p
    (web_post fuel p0 (λ s' p', progress base n s p s' p' ∧
      ((∃ j f, (i ≤ j)%nat ∧ files s !! j = Some f ∧ ready rs ws f = true) → potential s' p' < potential s p)))).
  { intros Hr. apply Hrest; [by apply progress_same|done|by left|]. intros H. by apply Hr in H. }
  rewrite Hfl. destruct (phase_of f) eqn:Hph.
  - apply Hskip. unfold ready. by rewrite Hph.
  - change ((F_CONNECTING =? 0) || has F_CONNECTING F_DONE) with false.
    change (has F_CONNECTING F_CONNECTING) with true. change (has F_CONNECTING F_READING) with false.
    cbn [andb]. destruct (FD_ISSET (f_fd f) rs || FD_ISSET (f_fd f) ws) eqn:Er.
    + eapply web_bind; [by eapply web_connected_post|]. intros s1 p1 Hl1 (Hp1 & Hlt & Hg).
      apply Hrest; try done. by right.
    + do 2 post_step. apply Hskip. unfold ready. rewrite Hph, Er. done.
  - change ((F_READING =? 0) || has F_READING F_DONE) with false.
    change (has F_READING F_CONNECTING) with false. change (has F_READING F_READING) with true.
    cbn [andb]. destruct (FD_ISSET (f_fd f) rs) eqn:Er.
    + eapply web_bind; [by eapply web_read_post|]. intros s1 p1 Hl1 (Hp1 & Hlt & Hg). by apply Hrest.
    + do 2 post_step. apply Hskip. unfold ready. rewrite Hph, Er. done.
  - change ((F_DONE =? 0) || has F_DONE F_DONE) with true. cbn iota. apply Hskip. unfold ready. by rewrite Hph.
Qed.

(** [select] without a time limit reports something. *)
Class SelectBlocks (Ks : Kernel) : Prop := {
  select_some : ∀ t r w r' w', answer t (sys_select r w None) = Ok (r', w') → r' ≠ [] ∨ w' ≠ []
}.

Lemma web_post_earlier {A} fuel p0 p (Q : A → proc → Prop) o p' :
  later p0 p → web_post fuel p Q o p' → web_post fuel p0 Q o p'.
Proof.
  intros Hl [Hl' Ho]. pose proof (later_counts _ _ Hl). split; [by etransitivity|].
  destruct o; try done. lia.
Qed.

Lemma web_step_post fuel n base p0 s p {KSel : SelectOk K} {KBl : SelectBlocks K} :
  web_inv base n s p → later p0 p →
  post (web_step fuel n s) p (web_post fuel p0 (λ s' p', progress base n s p s' p' ∧
    potential s' p' < potential s p)).
Proof.
  intros Hs Hl. unfold web_step.
  eapply (web_bind _ _ _ _ _ (λ s1 p1, progress base n s p s1 p1)).
  { eapply post_weaken; [apply (web_fill_post fuel n base p); [done|reflexivity]|].
    intros o p1 Ho. eapply web_post_earlier; [exact Hl|]. destruct Ho as [Hl1 Ho]. split; [done|].
    destruct o as [s1| | | |]; try done. destruct Ho as [Hs1 Hr]. split; [done|]. split; [done|].
    apply wsteps_total in Hr. apply later_counts in Hl1. unfold potential. lia. }
  intros s1 p1 Hl1 Hp1. unfold Select. post_step. apply or_err_sys_unmoved; [done| |].
  2: { intros p2 Hu. split; [etransitivity; [exact Hl1|by apply unmoved_later]|done]. }
  intros [rs ws] p2 Hsel Hu. cbn [through].
  destruct (select_asked _ _ _ _ _ _ Hsel) as [Hrs Hws]. pose proof (select_some _ _ _ _ _ Hsel) as Hne.
  destruct Hp1 as (Hs1 & Hr1 & Hd1). destruct (progress_same _ _ _ _ _ Hs1 Hu) as (Hs2 & _ & Hd2).
  eapply post_weaken; [eapply web_scan_post; [exact Hs2| |done]|].
  { etransitivity; [exact Hl1|by apply unmoved_later]. }
  intros o p3 [Hl3 Ho]. split; [done|]. destruct o as [s3| | | |]; try done.
  destruct Ho as ((Hs3 & Hr3 & Hd3) & Hst).
  split; [split; [done|split; [by etransitivity|lia]]|].
  assert (potential s3 p3 < potential s1 p2); [|lia]. apply Hst.
  assert (Hex : (∃ x, x ∈ rs ∧ x ∈ w_rset s1) ∨ (∃ x, x ∈ ws ∧ x ∈ w_wset s1)).
  { destruct Hne as [Hne|Hne]; [left|right].
    - destruct rs as [|x rs]; [done|]. exists x. split; [by left|]. apply elem_of_elements, Hrs. by left.
    - destruct ws as [|x ws]; [done|]. exists x. split; [by left|]. apply elem_of_elements, Hws. by left. }
  destruct Hex as [(x & Hx & Hin)|(x & Hx & Hin)].
  - apply (wi_rset _ _ _ _ Hs1) in Hin as (j & f & Hj & Ha & <-). exists j, f. split; [lia|]. split; [done|].
    unfold ready, FD_ISSET. destruct (phase_of f); try done; by rewrite bool_decide_true.
  - apply (wi_wset _ _ _ _ Hs1) in Hin as (j & f & Hj & Ha & <-). exists j, f. split; [lia|]. split; [done|].
    unfold ready, FD_ISSET. rewrite Ha. rewrite (bool_decide_true (_ ∈ ws)) by done. apply orb_true_r.
Qed.

(** The turns of the loop are bounded by what is left to do and the reads that
    bring data; at the end every file is done. *)
Lemma web_loop_post fuel n base p0 {KSel : SelectOk K} {KBl : SelectBlocks K} : ∀ turns s p,
  web_inv base n s p → later p0 p →
  post (web_loop turns fuel n s) p (λ o p',
    (o = NoFuel ∧ Z.of_nat turns ≤ total (phases s) + Z.of_nat (data_reads (p_trace p') - data_reads (p_trace p)) ∧ later p p') ∨
    web_post fuel p0 (λ s' p', web_inv base n s' p' ∧ rtc (wstep n) (phases s) (phases s') ∧ nlefttoread s' ≤ 0) o p').
Proof.
  induction turns as [|t IH]; intros s p Hs Hl; cbn [web_loop].
  { post_step. left. pose proof (total_nonneg (phases s)). split; [done|]. split; [lia|reflexivity]. }
  destruct (Z.ltb_spec 0 (nlefttoread s)); [|post_step; by right].
  post_step. eapply post_weaken; [apply post_and; [by apply web_step_post|by apply (web_step_post fuel n base p)]|].
  intros o p1 [[Hl1 Ho] [Hl2 _]]. destruct o as [s1| | | |]; cbn [through]; try (right; done).
  destruct Ho as ((Hs1 & Hr1 & _) & Hlt). eapply post_weaken; [by apply IH|].
  unfold potential in Hlt. pose proof (later_counts _ _ Hl2).
  intros o p2 [(-> & Ht & Hl3)|[Hl3 Ho]].
  - left. pose proof (later_counts _ _ Hl3). split; [done|]. split; [lia|by etransitivity].
  - right. split; [done|]. destruct o as [s2| | | |]; try done. destruct Ho as (Hs2 & Hr2 & Hn).
    split; [done|]. split; [by etransitivity|done].
Qed.
End facts.

(** ** The initial state *)

Lemma pcount_replicate P ph n : pcount P (replicate n ph) = Z.of_nat n * Z.b2z (P ph).
Proof. induction n as [|n IH]; simpl; lia. Qed.

Lemma total_replicate ph n : total (replicate n ph) = Z.of_nat n * weight ph.
Proof. induction n as [|n IH]; simpl; lia. Qed.
Lemma wsteps_length n l l' : rtc (wstep n) l l' → List.length l' = List.length l.
Proof. induction 1 as [|l1 l2 l3 Hw _ IH]; [done|]. rewrite IH. destruct Hw; apply length_insert. Qed.

Lemma phases_init host names : phases (web_init host names) = replicate (List.length names) Pending.
Proof.
  unfold phases, web_init. cbn [files]. induction names as [|x l IH]; [done|].
  rewrite !fmap_cons, IH. done.
Qed.

Lemma web_init_inv n host names p :
  heap_ok p → Forall (λ name, strlen (GET_CMD name) ≤ MAXLINE) names →
  web_inv (fds p) n (web_init host names) p.
Proof.
  intros Hp Hn.
  assert (Hpend : ∀ i f, files (web_init host names) !! i = Some f → phase_of f = Pending).
  { intros i f Hi. apply lookup_phases in Hi. rewrite phases_init in Hi. by apply lookup_replicate in Hi as [-> _]. }
  assert (Hlen : Z.of_nat (List.length ((λ name, File name host 0 0) <$> names)) = Z.of_nat (List.length names)).
  { by rewrite length_fmap. }
  split; rewrite ?phases_init, ?pcount_replicate; try done;
    cbn [web_init files nconn nlefttoconn nlefttoread w_maxfd w_rset w_wset]; rewrite ?Hlen; simpl; try lia.
  - apply Forall_fmap, Forall_forall. intros x _. simpl. set_solver.
  - apply Forall_fmap. exact Hn.
  - intros fd. split; [set_solver|]. intros (i & f & Hi & Ha & _). apply Hpend in Hi. by rewrite Hi in Ha.
  - intros fd. split; [set_solver|]. intros (i & f & Hi & Ha & _). apply Hpend in Hi. by rewrite Hi in Ha.
  - intros i j f g Hi _ Ha. apply Hpend in Hi. by rewrite Hi in Ha.
  - set_solver.
Qed.

Lemma all_done base n s p :
  web_inv base n s p → nlefttoread s ≤ 0 →
  phases s = replicate (List.length (files s)) Done ∧ fds p = base.
Proof.
  intros Hs Hn. rewrite (wi_toread _ _ _ _ Hs) in Hn.
  pose proof (pcount_nonneg (λ ph, negb (is_phase Done ph)) (phases s)).
  assert (Hz : pcount (λ ph, negb (is_phase Done ph)) (phases s) = 0) by lia.
  assert (Hd : ∀ i f, files s !! i = Some f → phase_of f = Done).
  { intros i f Hi. pose proof (pcount_zero _ _ i _ Hz (lookup_phases _ _ _ Hi)) as Hp.
    by apply negb_false_iff, bool_decide_eq_true in Hp. }
  split.
  - apply list_eq. intros i. unfold phases. rewrite list_lookup_fmap.
    destruct (files s !! i) as [f|] eqn:Hi; simpl.
    + rewrite (Hd _ _ Hi). symmetry. apply lookup_replicate. split; [done|]. by eapply lookup_lt_Some.
    + symmetry. apply lookup_replicate_None. by apply lookup_ge_None.
  - rewrite (wi_fds _ _ _ _ Hs). apply set_eq. intros x. rewrite elem_of_union, (wi_rset _ _ _ _ Hs).
    split; [|by right]. intros [(i & f & Hi & Ha & _)|]; [|done]. apply Hd in Hi. by rewrite Hi in Ha.
Qed.

(** ** Properties *)

Section properties.
Context {K : Kernel} {R : Resolver} {RL : ResolverLaws R} {KOk : ReadWriteOk K} {KSock : SocketOk K}
  {KSel : SelectOk K} {KBl : SelectBlocks K}.

(** C10: the web client refines the transition system of the phases: one turn of
    its loop (start connections, wait, handle every ready descriptor) is a
    sequence of its steps, so never more than [maxnconn] connections are in
    progress; it keeps the counters equal to the numbers of files they count
    (so that a file to start is always found), [rset] and [wset] equal to the
    descriptors of the connections in progress and not yet complete, and these
    the only descriptors it holds open. *)
Theorem web_step_refines fuel n base s p :
  web_inv base n s p →
  post (web_step fuel n s) p (web_post fuel p (λ s' p',
    web_inv base n s' p' ∧ rtc (wstep n) (phases s) (phases s') ∧
    (pcount active (phases s) ≤ n → pcount active (phases s') ≤ n))).
Proof.
  intros Hs. eapply post_weaken; [by apply (web_step_post fuel n base p)|].
  intros o p' [Hl Ho]. split; [done|]. destruct o as [s'| | | |]; try done.
  destruct Ho as ((H1 & H2 & _) & _). split; [done|]. split; [done|].
  clear -H2. induction H2 as [|l1 l2 l3 Hw _ IH]; [done|]. intros Hb. apply IH. by eapply wstep_bound.
Qed.

(** C11: the web client terminates, for any files whose GET commands fit the line of MAXLINE bytes they are
    written to (a longer one is written beyond it), and a positive number [n] of connections at a time
    (with none, [select] is asked about nothing and blocks).  The turns of its loop are at most three for
    each file (start, connection, end) and one for each read that brought data;
    when it ends every file was fetched to its end and every descriptor it
    opened is closed again.  Otherwise it exits with status 1, or, the
    behaviour being undefined, holds a descriptor of FD_SETSIZE or more; fuel runs out only beyond those
    turns or by interrupted writes.  The system is supposed to resolve names to addresses of their family, to read and
    write no more than it is asked to, to give new descriptors, and to report, from [select] without a time limit, some of the
    descriptors it was asked about. *)
Theorem web_terminates turns fuel n host names p :
  heap_ok p → 0 < n → Forall (λ name, strlen (GET_CMD name) ≤ MAXLINE) names →
  let nfiles := List.length names in
  post (web_loop turns fuel n (web_init host names)) p (λ o p',
    match o with
    | Ret s => phases s = replicate nfiles Done ∧ fds p' = fds p ∧
        rtc (wstep n) (replicate nfiles Pending) (replicate nfiles Done)
    | Exit st => st = 1
    | UB => ∃ fd, fd ∈ fds p' ∧ FD_SETSIZE ≤ fd
    | NoFuel =>
        (turns ≤ 3 * nfiles + (data_reads (p_trace p') - data_reads (p_trace p)))%nat ∨
        Z.of_nat fuel ≤ MAXLINE + Z.of_nat (interrupted (p_trace p') - interrupted (p_trace p))
    | Abort => False
    end).
Proof.
  intros Hp _ Hn nfiles. eapply post_weaken.
  { apply (web_loop_post fuel n (fds p) p turns _ p); [by apply web_init_inv|reflexivity]. }
  rewrite phases_init, total_replicate. fold nfiles. intros o p' [(-> & Ht & _)|[Hl Ho]].
  - left. change (weight Pending) with 3 in Ht. lia.
  - destruct o as [s| | | |]; try done; [|by right].
    destruct Ho as (Hs & Hr & Hz). destruct (all_done _ _ _ _ Hs Hz) as [Hd Hf].
    assert (Hlen : List.length (files s) = nfiles).
    { apply wsteps_length in Hr. unfold phases in Hr. by rewrite length_fmap, length_replicate in Hr. }
    rewrite Hlen in Hd. rewrite Hd in Hr. done.
Qed.
End properties.

(** A system for the witnesses: the names of [net], connections that complete
    later, servers that send one byte and close. *)
Definition slow_net : Kernel := λ A t c,
  (match c in sys A return A → A with
   | sys_connect fd _ _ => λ _, if Z.even fd then Err EINPROGRESS else Ok tt
   | sys_select r w tm => λ a, match r, w, tm with [], [], None => Err 4 | _, _, _ => a end
   | sys_read fd n => λ _, if bool_decide (received fd t = []) then Ok (take (Z.to_nat n) [120]) else Ok []
   | _ => λ a, a
   end) (net A t c).

Lemma slow_net_ok : ResolverOk slow_net ∧ ReadWriteOk slow_net ∧ SocketOk slow_net ∧ SelectOk slow_net ∧ SelectBlocks slow_net.
Proof.
  destruct net_ok as [H1 H2]. split_and!; split.
  - intros t o n h. exact (@gethostbyname_ok _ H1 t o n h).
  - intros t o n f h. exact (@gethostbyname2_ok _ H1 t o n f h).
  - intros t fd n bs Hn. unfold answer, slow_net. case_bool_decide; intros [= <-]; simpl; [|lia].
    rewrite length_take. simpl. lia.
  - intros t fd buf n [= <-]. lia.
  - intros t f s p fd. exact (@socket_fresh _ H2 t f s p fd).
  - intros t r w tm r' w'. unfold answer, slow_net. simpl. destruct r, w, tm; intros [= <- <-]; done.
  - intros t r w r' w'. unfold answer, slow_net. simpl. destruct r, w; intros [= <- <-]; [by right|by left|by left].
Qed.

#[local] Existing Instance slow_net.

Lemma web_step_refines_witness :
  post (web_step 5 2 (web_init "www" ["a"; "b"; "c"]%string)) proc0 (web_post 5 proc0 (λ s' p',
    web_inv ∅ 2 s' p' ∧ rtc (wstep 2) (replicate 3 Pending) (phases s') ∧ (0 ≤ 2 → pcount active (phases s') ≤ 2))) ∧
  match web_step 5 2 (web_init "www" ["a"; "b"; "c"]%string) proc0 with
  | (Ret s, _) => phases s = [Reading; Reading; Pending]
  | _ => False
  end.
Proof.
  destruct slow_net_ok as (H1 & H2 & H3 & H4 & H5). split; [|by vm_compute].
  apply (web_step_refines 5 2 ∅ (web_init "www" ["a"; "b"; "c"]%string)).
  apply (web_init_inv 2 "www" _ proc0); [apply proc0_heap_ok|]. by repeat constructor.
Defined.

Lemma web_terminates_witness :
  post (web_loop 20 5 2 (web_init "www" ["a"; "b"; "c"]%string)) proc0 (λ o p',
    match o with
    | Ret s => phases s = replicate 3 Done ∧ fds p' = fds proc0 ∧
        rtc (wstep 2) (replicate 3 Pending) (replicate 3 Done)
    | Exit st => st = 1
    | UB => ∃ fd, fd ∈ fds p' ∧ FD_SETSIZE ≤ fd
    | NoFuel =>
        (20 ≤ 3 * 3 + (data_reads (p_trace p') - data_reads (p_trace proc0)))%nat ∨
        5 ≤ MAXLINE + Z.of_nat (interrupted (p_trace p') - interrupted (p_trace proc0))
    | Abort => False
    end) ∧
  (web_main 20 20 ["web"; "2"; "www"; "/"; "a"; "b"; "c"]%string proc0).1 = Exit 0.
Proof.
  destruct slow_net_ok as (H1 & H2 & H3 & H4 & H5). split; [|by vm_compute].
  apply (web_terminates 20 5 2 "www" ["a"; "b"; "c"]%string proc0); [apply proc0_heap_ok|done|].
  by repeat constructor.
Defined.
