(* ===== verification/FdPass.v ===== *)
(** Passing descriptors between processes: src/unpv13e/lib/read_fd.c and
    write_fd.c, with [msg_control] (HAVE_MSGHDR_MSG_CONTROL).

    A control message is a [cmsghdr]; the system hands the receiver a message
    with the same header and a descriptor of its own for the same open file. *)
From S2P Require Import Prelude Machine Posix Wrap.

Definition CMSG_LEN_INT : Z := CMSG_LEN_INTS 1.   (** [CMSG_LEN(sizeof(int))] *)

Section fd_pass.
Context {K : Kernel}.

(** ** read_fd.c

    The return value, the bytes stored at [ptr], and [*recvfd] after the call;
    [None] while it is not initialised. *)
Definition read_fd (fd nbytes : Z) (recvfd : option Z) : M (Z * list Z * option Z) :=
  r ← syscall (sys_recvmsg_ctl fd nbytes);
  match r with
  | None => mret (-1, [], recvfd)
  | Some (buf, ctl) =>
      let n := Z.of_nat (List.length buf) in
      if n <=? 0 then mret (n, buf, recvfd)
      else match ctl with
           | Some cm =>
               if cmsg_len cm =? CMSG_LEN_INT then
                 if negb (cmsg_level cm =? SOL_SOCKET) then err_quit "control level != SOL_SOCKET"
                 else if negb (cmsg_type cm =? SCM_RIGHTS) then err_quit "control type != SCM_RIGHTS"
                 else mret (n, buf, Some (cmsg_fd cm))
               else mret (n, buf, Some (-1))
           | None => mret (n, buf, Some (-1))
           end
  end.
Definition Read_fd (fd nbytes : Z) (recvfd : option Z) : M (Z * list Z * option Z) :=
  '(n, buf, recvfd) ← read_fd fd nbytes recvfd;
  if n <? 0 then err_sys "read_fd error" else mret (n, buf, recvfd).

(** ** write_fd.c *)

Definition write_fd (fd : Z) (buf : list Z) (sendfd : Z) : M Z :=
  r ← syscall (sys_sendmsg_ctl fd buf (CMsg CMSG_LEN_INT SOL_SOCKET SCM_RIGHTS sendfd []));
  match r with Some n => mret n | None => mret (-1) end.
Definition Write_fd (fd : Z) (buf : list Z) (sendfd : Z) : M Z :=
  n ← write_fd fd buf sendfd;
  if n <? 0 then err_sys "write_fd error" else mret n.
End fd_pass.

(** ** Properties *)

(** A message long enough for one integer carries one descriptor. *)
Lemma one_fd {K : Kernel} {KRecv : ReceiveOk K} t fd n bs cm :
  answer t (sys_recvmsg_ctl fd n) = Ok (bs, Some cm) → cmsg_len cm = CMSG_LEN_INT →
  (cmsg_level cm =? SOL_SOCKET) = true → (cmsg_type cm =? SCM_RIGHTS) = true → cmsg_fds cm = [cmsg_fd cm].
Proof.
  intros Hr Hlen Hlevel Htype. pose proof (receive_len _ _ _ _ _ Hr) as H. rewrite Hlen in H. unfold cmsg_fds in *.
  rewrite Hlevel, Htype in *. cbn [andb] in *. specialize (H ltac:(done)). unfold CMSG_LEN_INT, CMSG_LEN_INTS in H.
  destruct (cmsg_more cm); [done|]. cbn [List.length] in H. lia.
Qed.

(** The messages sent, newest first: descriptor, bytes accepted, control message. *)
Definition message1 (e : event) : list (Z * list Z * cmsghdr) :=
  match e with
  | Event c a =>
      match c in sys A return A → list (Z * list Z * cmsghdr) with
      | sys_sendmsg_ctl fd buf ctl => λ r, match r with
          | Ok n => [(fd, take (Z.to_nat n) buf, ctl)]
          | Err _ => [] end
      | _ => λ _, []
      end a
  end.
Definition messages (t : trace) : list (Z * list Z * cmsghdr) := t ≫= message1.

(** What a receiver gets of a message: at most [nbytes] bytes, and the control
    message with its own descriptor [newfd]. *)
Definition delivered (nbytes newfd : Z) (m : Z * list Z * cmsghdr) : list Z * option cmsghdr :=
  let '(_, buf, ctl) := m in
  (take (Z.to_nat nbytes) buf, Some (CMsg (cmsg_len ctl) (cmsg_level ctl) (cmsg_type ctl) newfd [])).

(** [read_fd] understands what [write_fd] sends.  When [write_fd] succeeds in
    one process with at least one byte, and the system delivers that message to a process
    where the descriptor gets the number [newfd], [read_fd] there returns the
    bytes and [newfd]; it does not take the message for one without a descriptor
    nor for a malformed one. *)
Theorem write_fd_read_fd (Ks Kr : Kernel) fd buf sendfd fd' nbytes old newfd ps pr n ps' :
  write_fd (K := Ks) fd buf sendfd ps = (Ret n, ps') → 0 < n → 0 < nbytes → buf ≠ [] →
  ∃ m, messages (p_trace ps') = m :: messages (p_trace ps) ∧
    (answer (p_trace pr) (sys_recvmsg_ctl fd' nbytes) = Ok (delivered nbytes newfd m) →
     let got := take (Z.to_nat nbytes) (take (Z.to_nat n) buf) in
     ∃ pr', read_fd (K := Kr) fd' nbytes old pr = (Ret (Z.of_nat (List.length got), got, Some newfd), pr') ∧ got ≠ []).
Proof.
  intros Hw Hn Hb Hbuf. unfold write_fd, syscall, mbind, M_bind, mret, M_ret, call in Hw. cbn in Hw.
  destruct (@answer Ks _ (p_trace ps) _) as [k|e] eqn:E; cbn in Hw; simplify_eq; try lia.
  eexists. split; [unfold messages; cbn; rewrite ?E; reflexivity|].
  intros Hr got. cbn [delivered] in Hr. subst got.
  assert (Hgot : take (Z.to_nat nbytes) (take (Z.to_nat n) buf) ≠ []).
  { destruct (Z.to_nat nbytes) eqn:E1; [lia|]. destruct (Z.to_nat n) eqn:E2; [lia|]. by destruct buf. }
  unfold read_fd, syscall, mbind, M_bind, call. rewrite Hr. cbn [mret M_ret].
  assert (Hpos : (Z.of_nat (List.length (take (Z.to_nat nbytes) (take (Z.to_nat n) buf))) <=? 0) = false).
  { destruct (take (Z.to_nat nbytes) (take (Z.to_nat n) buf)); [done|]. apply Z.leb_gt. cbn [List.length]. lia. }
  rewrite Hpos. cbn. eexists. split; [reflexivity|done].
Qed.

(** Descriptor 7 is sent over 3 and arrives as 9. *)
Definition passed : list Z * option cmsghdr :=
  delivered 1 9 (3, [0], CMsg CMSG_LEN_INT SOL_SOCKET SCM_RIGHTS 7 []).
Definition receiver : Kernel := λ A t c,
  (match c in sys A return A → A with
   | sys_recvmsg_ctl _ _ => λ _, Ok passed
   | _ => λ a, a
   end) (plain t c).
Lemma write_fd_read_fd_witness :
  (read_fd (K := receiver) 4 1 None proc0).1 = Ret (1, [0], Some 9) ∧
  ∃ m, messages (p_trace (write_fd (K := plain_kernel) 3 [0] 7 proc0).2) = m :: messages (p_trace proc0).
Proof.
  destruct (write_fd_read_fd plain_kernel receiver 3 [0] 7 4 1 None 9 proc0 proc0 1
              (write_fd (K := plain_kernel) 3 [0] 7 proc0).2) as (m & Hm & H);
    [vm_compute; reflexivity|lia|lia|discriminate|].
  split; [|exists m; exact Hm].
  assert (E : m = (3, [0], CMsg CMSG_LEN_INT SOL_SOCKET SCM_RIGHTS 7 [])).
  { vm_compute in Hm. injection Hm as Hm. rewrite <- Hm. reflexivity. }
  subst m. destruct H as (pr' & -> & _); reflexivity.
Defined.
