(* ===== verification/Child.v ===== *)
(** A child of the preforked server: src/unpv13e/server (web_child.c, and
    [child_main] of child05.c).  [web_child] also serves the threads of
    serv06.c, serv07.c and serv08.c. *)
From S2P Require Import Prelude Machine Posix Wrap Stream Frame Servers FdPass.

Definition MAXN : Z := 16384.

Section child.
Context {K : Kernel}.

(** ** web_child.c

    [result] is an array the function never initialises: its contents are an
    argument.  The statics of readline.c are threaded through. *)
Fixpoint web_child (fuel : nat) (sockfd : Z) (result : list Z) (s : rl) : M rl :=
  match fuel with
  | O => stop NoFuel
  | S f =>
      '(nread, line, s) ← Readline fuel sockfd MAXLINE s;
      if nread =? 0 then mret s
      else
        let ntowrite := atoi (to_string (cstr_bytes line)) in
        if (ntowrite <=? 0) || (MAXN <? ntowrite)
        then err_quit ("client request for " +:+ fmt_d ntowrite +:+ " bytes")
        else
          Writen fuel sockfd (take (Z.to_nat ntowrite) result) ;;
          web_child f sockfd result s
  end.

(** ** child05.c *)

(** The loop of [child_main], for [turns] requests. *)
Fixpoint child_loop (turns fuel : nat) (result : list Z) (s : rl) : M rl :=
  match turns with
  | O => mret s
  | S t =>
      '(n, _, connfd) ← Read_fd STDERR_FILENO 1 None;
      if n =? 0 then err_quit "read_fd returned 0"
      else match connfd with
           | None => stop UB
           | Some connfd =>
               if connfd <? 0 then err_quit "no descriptor from read_fd"
               else
                 s ← web_child fuel connfd result s;
                 Close connfd ;;
                 Write STDERR_FILENO [0] ;;
                 child_loop t fuel result s
           end
  end.
Definition child_main (turns fuel : nat) (result : list Z) : M rl :=
  pid ← call sys_getpid;
  printf ("child " +:+ fmt_d pid +:+ " starting" +:+ nl) ;;
  child_loop turns fuel result rl0.
End child.

(** ** Specification of [web_child] *)

(** The number of bytes a line asks for, and the reply. *)
Definition request (line : list Z) : Z := atoi (to_string (cstr_bytes line)).
Definition reply (result line : list Z) : list Z := take (Z.to_nat (request line)) result.
Definition valid (line : list Z) : Prop := line ≠ [] ∧ 0 < request line ≤ MAXN.

(** The lines that came in were answered in order, each by the number of bytes it
    asks for, except for the last one when the process stops. *)
Definition web_post (fuel : nat) (fd : Z) (result : list Z) (s : rl) (p : proc) (o : outcome rl) (p' : proc) : Prop :=
  ∃ new lines partial rest,
    received fd (p_trace p') = received fd (p_trace p) ++ new ∧
    written fd (p_trace p') = written fd (p_trace p) ++ mjoin (reply result <$> lines) ++ partial ∧
    Forall valid lines ∧ unread s ++ new = mjoin lines ++ rest ∧
    (partial = [] ∨ ∃ line rest', rest = line ++ rest' ∧ valid line ∧ partial `prefix_of` reply result line) ∧
    (interrupted (p_trace p) ≤ interrupted (p_trace p'))%nat ∧
    match o with
    | Ret s' => rl_ok s' ∧ unread s' = [] ∧ rest = [] ∧ partial = [] ∧ at_eof fd (p_trace p')
    | Exit st => st = 1
    | NoFuel => (fuel ≤ Z.to_nat MAXN + List.length (unread s ++ new) +
                   (interrupted (p_trace p') - interrupted (p_trace p)))%nat
    | _ => False
    end.

Section web_facts.
Context {K : Kernel} {KOk : ReadWriteOk K} (fd : Z) (result : list Z).

(** The stream of replies is not touched while a line is read. *)
Definition no_write (e : event) : Prop := written1 fd e = [].
Lemma no_write_written p p' : frame no_write p p' → written fd (p_trace p') = written fd (p_trace p).
Proof.
  intros [(t & Ht & Hq) _]. rewrite Ht. clear Ht. induction Hq as [|e t He _ IH]; [done|].
  cbn [app written]. by rewrite He, app_nil_r.
Qed.
Lemma quiet_no_write e : quiet e → no_write e.
Proof. destruct e as [A c a]. unfold no_write. by destruct c. Qed.

Lemma received_later p p' : later p p' → ∃ new, received fd (p_trace p') = received fd (p_trace p) ++ new.
Proof.
  intros (t & ->). induction t as [|e t (new & IH)]; [exists []; by rewrite app_nil_r|].
  exists (new ++ received1 fd e). cbn [app received]. by rewrite IH, app_assoc.
Qed.

(** What a line read by [Readline] is. *)
Lemma Readline_post fuel s p :
  rl_ok s →
  post (Readline fuel fd MAXLINE s) p (λ o p', written fd (p_trace p') = written fd (p_trace p) ∧
    (interrupted (p_trace p) ≤ interrupted (p_trace p'))%nat ∧
    ∃ new, received fd (p_trace p') = received fd (p_trace p) ++ new ∧
    match o with
    | Ret (n, line, s') => rl_ok s' ∧ unread s ++ new = line ++ unread s' ∧
        (n = 0 ∧ line = [] ∧ unread s' = [] ∧ at_eof fd (p_trace p') ∨ n ≠ 0 ∧ line ≠ [])
    | Exit st => st = 1
    | NoFuel => runs_out fuel p p'
    | _ => False
    end).
Proof.
  intros Hok. eapply post_weaken.
  { apply post_and; [|apply (framed_post no_write), framed_readline; [apply quiet_no_write|intros n r; done]].
    instantiate (1 := λ o p', later p p' → ∃ new, received fd (p_trace p') = received fd (p_trace p) ++ new ∧
      match o with
      | Ret (n, line, s') => rl_ok s' ∧ unread s ++ new = line ++ unread s' ∧
          (n = 0 ∧ line = [] ∧ unread s' = [] ∧ at_eof fd (p_trace p') ∨ n ≠ 0 ∧ line ≠ [])
      | Exit st => st = 1
      | NoFuel => runs_out fuel p p'
      | _ => False
      end).
    apply post_bind. eapply post_weaken; [by apply readline_correct|].
    intros o p1 Ho. destruct o as [[[n line] s']| | | |]; cbn [through]; try done.
    - destruct Ho as (Hok' & new & Hr & Hu & Hlen & Hcase). destruct (Z.ltb_spec n 0).
      + eapply post_weaken; [apply err_sys_exits|]. intros o p2 [-> Hrep].
        intros _. exists new. by rewrite (proj1 (reported_streams _ _ fd Hrep)).
      + apply post_ret. intros _. exists new. split; [done|]. split; [done|]. split; [done|].
        destruct Hcase as [(-> & l & -> & _)|[(-> & _ & He & Heof)|[(-> & Hl & _)|(-> & _)]]]; [right|..|right|lia].
        * split; [rewrite length_app; simpl; lia|]. by destruct l.
        * destruct line as [|c line]; [by left|]. right. split; [simpl; lia|done].
        * split; [done|]. intros ->. simpl in Hl. done.
    - intros Hgrow. destruct (received_later p p1 Hgrow) as [new Hr]. by exists new. }
  intros o p' [Ho Hf]. assert (Hl : later p p') by (destruct Hf as [(t & Ht & _) _]; by exists t).
  split; [by apply no_write_written|]. split; [by apply later_counts|]. by apply Ho.
Qed.

Lemma Writen_post fuel buf p :
  post (Writen fuel fd buf) p (λ o p', ∃ dn rest, buf = dn ++ rest ∧
    written fd (p_trace p') = written fd (p_trace p) ++ dn ∧ received fd (p_trace p') = received fd (p_trace p) ∧
    (interrupted (p_trace p) ≤ interrupted (p_trace p'))%nat ∧
    match o with
    | Ret _ => rest = []
    | Exit st => st = 1
    | NoFuel => (fuel ≤ List.length buf + (interrupted (p_trace p') - interrupted (p_trace p)))%nat
    | _ => False
    end).
Proof.
  unfold Writen. apply post_bind. eapply post_weaken.
  { apply post_and; [apply (writen_correct fuel fd buf p)|apply (writen_receives_nothing fuel fd fd buf p)]. }
  intros o p1 [(dn & rest & Hb & Hw & Ho) [Hr Hi]]. destruct o as [[]| | | |]; cbn [through]; try done.
  - apply post_ret. by exists dn, rest.
  - eapply post_weaken; [apply err_sys_exits|]. intros o p2 [-> Hrep].
    destruct (reported_streams _ _ fd Hrep) as (E1 & E2 & E3). exists dn, rest. rewrite E1, E2, E3. done.
  - exists dn, rest. split_and!; try done. lia.
Qed.

Lemma web_child_post fuel : ∀ s p, rl_ok s → post (web_child fuel fd result s) p (web_post fuel fd result s p).
Proof.
  induction fuel as [|f IH]; intros s p Hok; cbn [web_child].
  { apply post_stop. exists [], [], [], (unread s). rewrite !app_nil_r. split_and!; try done; [by left|lia]. }
  apply post_bind. eapply post_weaken; [by apply Readline_post|].
  intros o p1 (Hw1 & Hi1 & new & Hr1 & Ho). destruct o as [[[n line] s1]| | | |]; cbn [through]; try done.
  2: { exists new, [], [], (unread s ++ new). rewrite !app_nil_r. split_and!; try done. by left. }
  2: { exists new, [], [], (unread s ++ new). rewrite !app_nil_r. split_and!; try done; [by left|].
       unfold runs_out in Ho. lia. }
  destruct Ho as (Hok1 & Hu & [(-> & -> & He & Heof)|[Hn Hline]]).
  { apply post_ret. exists new, [], [], []. rewrite !app_nil_r. rewrite He in Hu. split_and!; try done. by left. }
  rewrite (proj2 (Z.eqb_neq n 0)) by done. fold (request line).
  destruct (Z.leb_spec (request line) 0); [|destruct (Z.ltb_spec MAXN (request line))]; cbn [orb].
  1,2: eapply post_weaken; [apply err_quit_exits|]; intros o p2 [-> Hrep];
    destruct (reported_streams _ _ fd Hrep) as (E1 & E2 & E3); exists new, [], [], (unread s ++ new);
    rewrite E1, E2, E3, !app_nil_r; split_and!; try done; by left.
  assert (Hv : valid line) by (split; [done|lia]). fold (reply result line).
  apply post_bind. eapply post_weaken; [apply Writen_post|].
  intros o p2 (dn & rest & Hb & Hw2 & Hr2 & Hi2 & Ho). destruct o as [[]| | | |]; cbn [through]; try done.
  - subst rest. rewrite app_nil_r in Hb. eapply post_weaken; [by apply IH|].
    intros o p3 (new2 & lines & partial & rest & Hr3 & Hw3 & Hlines & Hu3 & Hpart & Hi3 & Ho).
    exists (new ++ new2), (line :: lines), partial, rest.
    rewrite Hr3, Hr2, Hr1, Hw3, Hw2, Hw1, <- Hb. cbn [fmap list_fmap]. change (mjoin (?x :: ?l)) with (x ++ mjoin l).
    assert (Hun : unread s ++ new ++ new2 = line ++ mjoin lines ++ rest) by (by rewrite app_assoc, Hu, <- app_assoc, Hu3).
    split; [by rewrite app_assoc|]. split; [by rewrite <- !app_assoc|]. split; [by constructor|].
    split; [by rewrite <- app_assoc|]. split; [done|]. split; [lia|].
    destruct o; try done. rewrite Hun, length_app. rewrite Hu3 in Ho. destruct line as [|c0 line0]; [by destruct Hline|]. cbn [List.length app]. lia.
  - exists new, [], dn, (line ++ unread s1). rewrite Hr2, Hw2, Hw1. cbn [fmap list_fmap mjoin list_join app].
    split_and!; try done; [|lia]. right. exists line, (unread s1). split_and!; try done. by exists rest.
  - exists new, [], dn, (line ++ unread s1). rewrite Hr2, Hw2, Hw1. cbn [fmap list_fmap mjoin list_join app].
    split_and!; try done; [|lia|].
    + right. exists line, (unread s1). split_and!; try done. by exists rest.
    + assert (List.length (reply result line) ≤ Z.to_nat MAXN)%nat.
      { unfold reply. rewrite length_take. destruct Hv as [_ Hv]. lia. }
      lia.
Qed.
End web_facts.

(** ** Properties *)

(** [web_child] answers every line it is sent, in order, by exactly the
    number of bytes the line asks for, from 1 to [MAXN], until the client
    closes the connection; all of the stream is then consumed.  When it
    stops by [exit(1)] all that is missing is a tail of one reply, and what
    had not been read as a line.  Its fuel is bounded by what the client sent. *)
Theorem web_child_correct {K : Kernel} {KOk : ReadWriteOk K} fuel fd result s p :
  rl_ok s → Z.of_nat (List.length result) = MAXN →
  post (web_child fuel fd result s) p (web_post fuel fd result s p) ∧
  ∀ line, valid line → Z.of_nat (List.length (reply result line)) = request line.
Proof.
  intros Hok Hres. split; [by apply web_child_post|]. intros line [_ Hv].
  unfold reply. rewrite length_take. lia.
Qed.

(** Clients that ask for three bytes. *)
Definition three : list Z := [51; 10].
Lemma web_child_correct_witness :
  post (web_child (K := tape_kernel three 1 []) 20000 5 (replicate (Z.to_nat MAXN) 7) rl0) proc0
    (web_post 20000 5 (replicate (Z.to_nat MAXN) 7) rl0 proc0) ∧
  request three = 3.
Proof.
  split; [|vm_compute; reflexivity].
  apply (web_child_correct (KOk := tape_ok _ _ _)); [apply rl0_ok|]. rewrite length_replicate. reflexivity.
Defined.

Definition clients : Kernel := λ A t c,
  (match c in sys A return A → A with
   | sys_recvmsg_ctl _ _ => λ _, Ok ([0], Some (CMsg CMSG_LEN_INT SOL_SOCKET SCM_RIGHTS (next_fd (open_fds t)) []))
   | sys_read fd n => λ _, if bool_decide (received fd t = []) then Ok (take (Z.to_nat n) three) else Ok []
   | _ => λ a, a
   end) (plain t c).
Lemma clients_ok : ReadWriteOk clients ∧ ReceiveOk clients.
Proof.
  split; split.
  - intros t fd n bs Hn. unfold answer, clients. case_bool_decide; intros [= <-]; simpl; [|lia].
    rewrite length_take. lia.
  - intros t fd buf n [= <-]. lia.
  - intros t fd n bs cm [= _ <-]. repeat constructor; apply next_fd_fresh.
  - by intros t fd n bs cm [= _ <-] _.
Qed.
