(* ===== verification/Rounds.v ===== *)
(** What the children and threads of the servers of src/unpv13e/server show of themselves: the
    acts of [act], read off the trace.

    [service] is the specification of a served connection: the requests that were read and the
    replies that were written, in the order in which it happened.  [Service] is the interface of a
    function that serves, which web_child.c implements here and, with the other readline, in
    Lockserv.v.  A round is a connection from the call that gives it to the call that ends it;
    [rounds_post] says that a child shows rounds, one after the other.  The child of the
    preforked server (child05.c) is proved here, those of the others in Lockserv.v. *)
From S2P Require Import Prelude Machine Posix Wrap Stream Frame Servers FdPass Child.

Definition F_SETLKW : Z := 7.
Definition F_WRLCK : Z := 1.
Definition F_UNLCK : Z := 2.

(** [Ended] is the end of the process, which gives up what it holds. *)
Inductive act :=
| Acquire | Release
| Accepted (connfd : Z)
| Received (connfd : Z)            (** the descriptor of a message that carries one *)
| Input (fd : Z) (bs : list Z)     (** [\[\]] is the end of the stream *)
| Output (fd : Z) (bs : list Z)
| Closed (connfd : Z)
| Report (s : string)              (** on the standard error stream *)
| Ended.

(** The acts of an event; [lfd] is the listening socket. *)
Definition act1 (lfd : Z) (e : event) : list act :=
  match e with
  | Event c a =>
      match c in sys A return A → list act with
      | sys_fcntl_lock _ cmd l_type _ _ _ => λ r,
          match r with
          | Ok _ => if cmd =? F_SETLKW then
                      if l_type =? F_WRLCK then [Acquire] else if l_type =? F_UNLCK then [Release] else []
                    else []
          | Err _ => []
          end
      | sys_pthread_mutex_lock _ => λ r, match r with Ok _ => [Acquire] | Err _ => [] end
      | sys_pthread_mutex_unlock _ => λ r, match r with Ok _ => [Release] | Err _ => [] end
      | sys_accept fd => λ r, match r with Ok (connfd, _) => if fd =? lfd then [Accepted connfd] else [] | Err _ => [] end
      | sys_recvmsg_ctl _ _ => λ r, match r with
          | Ok (_, Some cm) => match cmsg_fds cm with [fd] => [Received fd] | _ => [] end
          | _ => [] end
      | sys_read fd _ => λ r, match r with Ok bs => [Input fd bs] | Err _ => [] end
      | sys_write fd buf => λ r, match r with
          | Ok n => if n <=? 0 then [] else [Output fd (take (Z.to_nat n) buf)]
          | Err _ => [] end
      | sys_close fd => λ r, match r with Ok _ => [Closed fd] | Err _ => [] end
      | sys_fputs stream s => λ r, match r with Ok _ => if stream =? STDERR_FILENO then [Report s] else [] | Err _ => [] end
      | _ => λ _, []
      end a
  end.

(** When the fuel runs out, a stream went on or calls were interrupted. *)
Definition spent (fuel : nat) (p : proc) : Prop :=
  ∃ fd, (fuel ≤ Z.to_nat MAXN + List.length (received fd (p_trace p)) + interrupted (p_trace p))%nat.
Definition tires {A} (fuel : nat) (m : M A) : Prop := ∀ p, post m p (λ o p', o = NoFuel → spent fuel p').

(** ** A served connection *)

Definition bytes1 (a : act) : list Z := match a with Input _ bs | Output _ bs => bs | _ => [] end.
Definition bytes (l : list act) : list Z := l ≫= bytes1.
(** The report of a process that gives up, if it could be written. *)
Definition last_words (w : list act) : Prop := w = [] ∨ ∃ s, w = [Report s].

Section service.
Context (result : list Z) (fd : Z).

Definition is_input (a : act) : Prop := ∃ bs, a = Input fd bs.
Definition is_output (a : act) : Prop := ∃ bs, a = Output fd bs.

(** A line ends at its newline, unless it fills the buffer or the stream ends; [ins] is
    what was read to complete it. *)
Definition line_read (line : list Z) (ins : list act) : Prop :=
  line ≠ [] ∧ NEWLINE ∉ removelast line ∧
  (last line = Some NEWLINE ∨ Z.of_nat (List.length line) = MAXLINE - 1 ∨ last ins = Some (Input fd [])).

(** A complete service, to the end of the stream: after what is read [ahead], each line is read, then
    answered by the bytes it asks for, before the next is. *)
Inductive service : list Z → list act → Prop :=
| service_end ahead ins :
    Forall is_input ins → ahead ++ bytes ins = [] → last ins = Some (Input fd []) → service ahead ins
| service_line ahead ins line rest outs l :
    Forall is_input ins → ahead ++ bytes ins = line ++ rest → line_read line ins → valid line →
    Forall is_output outs → bytes outs = reply result line →
    service rest l → service ahead (ins ++ outs ++ l).

(** One that stops while it reads a line or writes a reply. *)
Inductive service_cut : list Z → list act → Prop :=
| cut_reading ahead ins : Forall is_input ins → service_cut ahead ins
| cut_writing ahead ins line rest outs :
    Forall is_input ins → ahead ++ bytes ins = line ++ rest → line_read line ins → valid line →
    Forall is_output outs → bytes outs `prefix_of` reply result line →
    service_cut ahead (ins ++ outs)
| cut_line ahead ins line rest outs l :
    Forall is_input ins → ahead ++ bytes ins = line ++ rest → line_read line ins → valid line →
    Forall is_output outs → bytes outs = reply result line →
    service_cut rest l → service_cut ahead (ins ++ outs ++ l).
End service.

(** What is known of a computation that serves what follows [ahead]. *)
Definition service_post {A} (result : list Z) (fd : Z) (I : A → Prop) (ahead : list Z) (o : outcome A) (new : list act) : Prop :=
  match o with
  | Ret s => I s ∧ service result fd ahead new
  | Exit st => st = 1 ∧ ∃ l w, new = l ++ w ∧ service_cut result fd ahead l ∧ last_words w
  | NoFuel => service_cut result fd ahead new
  | _ => False
  end.
(** The interface: [I] is what holds between two connections. *)
Class Service {K : Kernel} {A : Type} (I : A → Prop) (result : list Z) (fuel : nat) (serve : Z → A → M A) : Prop := {
  serve_shows : ∀ lfd fd s, I s → runs (act1 lfd) (serve fd s) (service_post result fd I []);
  serve_tires : ∀ fd s, I s → tires fuel (serve fd s)
}.

(** ** Rounds *)

Section rounds_spec.
Context (result : list Z) (start finish : Z → list act).

Definition round (fd : Z) (l : list act) : Prop := ∃ sv, service result fd [] sv ∧ l = start fd ++ sv ++ finish fd.
(** A round that has not come to its end. *)
Inductive begun (fd : Z) : list act → Prop :=
| begun_start l : l `prefix_of` start fd → begun fd l
| begun_service sv : service_cut result fd [] sv → begun fd (start fd ++ sv)
| begun_finish sv k : service result fd [] sv → k `prefix_of` finish fd → k ≠ finish fd → begun fd (start fd ++ sv ++ k).

(** [I k s]: the state after [k] connections; [bad k]: when the next one is
    undefined behaviour. *)
Context {B : Type} (I : nat → B → Prop) (bad : nat → Prop).

(** Complete rounds, then the beginning of one. *)
Definition rounds_post (k turns : nat) (o : outcome B) (new : list act) : Prop :=
  ∃ (rs : list (Z * list act)) rest fd w,
    new = mjoin rs.*2 ++ rest ++ w ∧ Forall (λ r, round r.1 r.2) rs ∧ begun fd rest ∧
    match o with
    | Ret s => I (k + turns)%nat s ∧ rest = [] ∧ w = [] ∧ List.length rs = turns
    | Exit st => st = 1 ∧ last_words w
    | UB => bad (k + List.length rs)%nat ∧ w = []
    | NoFuel => w = []
    | Abort => False
    end.
End rounds_spec.

(** ** Lemmas *)

#[export] Hint Unfold last_words : core.

Lemma last_words_nil : last_words [].
Proof. by left. Qed.
#[export] Hint Resolve last_words_nil : core.

Section shows.
Context {K : Kernel} (lfd : Z).

(** Reports show at most their line. *)
Lemma err_doit_shows b level msg : runs (act1 lfd) (err_doit b level msg) (λ o new, o = Ret tt ∧ last_words new).
Proof.
  assert (Hu : ∀ u : unit, Ret u = Ret tt) by by intros [].
  unfold err_doit. apply runs_bind, runs_get_errno. intros e. cbn [passes]. apply runs_bind.
  apply runs_weaken with (Q := λ o new, new = [] ∧ ∃ s, o = Ret s).
  { destruct b; repeat runs_step; eauto. }
  intros o new (-> & s & ->). cbn [passes]. apply runs_bind, runs_get_daemon_proc. intros [|]; cbn [passes app].
  - apply runs_call. intros u. split; [apply Hu|by left].
  - apply runs_bind, runs_call. intros u. cbn [passes act1 app].
    apply runs_bind, runs_syscall; [intros u'|intros e']; cbn [passes]; apply runs_call; intros u2; (split; [apply Hu|]);
      cbn; [right; by eexists|by left].
Qed.
Lemma err_sys_shows {A} msg (Q : outcome A → list act → Prop) :
  (∀ w, last_words w → Q (Exit 1) w) → runs (act1 lfd) (err_sys msg) Q.
Proof.
  intros HQ. apply runs_bind. eapply runs_weaken; [apply err_doit_shows|]. intros o new [-> Hw]. cbn [passes].
  apply runs_stop. rewrite app_nil_r. by apply HQ.
Qed.
Lemma err_quit_shows {A} msg (Q : outcome A → list act → Prop) :
  (∀ w, last_words w → Q (Exit 1) w) → runs (act1 lfd) (err_quit msg) Q.
Proof.
  intros HQ. apply runs_bind. eapply runs_weaken; [apply err_doit_shows|]. intros o new [-> Hw]. cbn [passes].
  apply runs_stop. rewrite app_nil_r. by apply HQ.
Qed.
Lemma or_err_sys_shows {A} (c : sys (res A)) msg (Q : outcome A → list act → Prop) :
  (∀ a, Q (Ret a) (act1 lfd (Event c (Ok a)))) → (∀ e, act1 lfd (Event c (Err e)) = []) → (∀ w, last_words w → Q (Exit 1) w) →
  runs (act1 lfd) (or_err_sys c msg) Q.
Proof.
  intros H1 H2 H3. unfold or_err_sys. runs_steps.
  - rewrite app_nil_r. apply H1.
  - rewrite H2. by apply err_sys_shows.
Qed.
Lemma or_errno_shows {A} (c : sys (res A)) msg (Q : outcome A → list act → Prop) :
  (∀ a, Q (Ret a) (act1 lfd (Event c (Ok a)))) → (∀ e, act1 lfd (Event c (Err e)) = []) → (∀ w, last_words w → Q (Exit 1) w) →
  runs (act1 lfd) (or_errno c msg) Q.
Proof.
  intros H1 H2 H3. unfold or_errno. apply runs_bind, runs_call. intros [a|e]; cbn [passes].
  - apply runs_ret. rewrite app_nil_r. apply H1.
  - rewrite H2. apply runs_bind, runs_set_errno. cbn [passes]. by apply err_sys_shows.
Qed.
Lemma Accept_shows fuel (Q : outcome (Z * sockaddr) → list act → Prop) :
  (∀ connfd sa, Q (Ret (connfd, sa)) [Accepted connfd]) → (∀ w, last_words w → Q (Exit 1) w) → Q NoFuel [] →
  runs (act1 lfd) (Accept fuel lfd) Q.
Proof.
  intros H1 H2 H3. induction fuel as [|f IH]; cbn [Accept]; [by apply runs_stop|].
  apply runs_bind, runs_syscall; intros; cbn [passes].
  - apply runs_ret. rewrite app_nil_r. destruct a as [connfd sa]. cbn. rewrite Z.eqb_refl. apply H1.
  - apply runs_bind, runs_get_errno. intros e'. cbn [passes app act1]. case_match; [exact IH|by apply err_sys_shows].
Qed.

(** What was read and written is in the acts. *)
Definition ins_of (fd : Z) (l : list act) : list Z :=
  l ≫= λ a, match a with Input f bs => if f =? fd then bs else [] | _ => [] end.
Definition outs_of (fd : Z) (l : list act) : list Z :=
  l ≫= λ a, match a with Output f bs => if f =? fd then bs else [] | _ => [] end.
Lemma received_seen fd t : received fd t = ins_of fd (seen (act1 lfd) t).
Proof.
  induction t as [|[A c a] t IH]; [done|]. cbn [received seen]. unfold ins_of in *. rewrite bind_app, <- IH. f_equal.
  destruct c; try done; cbn [received1 act1]; repeat case_match; cbn; rewrite ?app_nil_r; try done; by repeat case_match.
Qed.
Lemma written_seen fd t : written fd t = outs_of fd (seen (act1 lfd) t).
Proof.
  induction t as [|[A c a] t IH]; [done|]. cbn [written seen]. unfold outs_of in *. rewrite bind_app, <- IH. f_equal.
  destruct c; try done; cbn [written1 act1]; repeat case_match; cbn; rewrite ?app_nil_r; try done; zbool;
    repeat case_match; try done; zbool; by rewrite Z2Nat.nonpos by lia.
Qed.
Lemma ins_of_inputs fd new : Forall (is_input fd) new → ins_of fd new = bytes new.
Proof. induction 1 as [|a l [bs ->] _ IH]; [done|]. cbn. rewrite Z.eqb_refl. by f_equal. Qed.
Lemma outs_of_outputs fd new : Forall (is_output fd) new → outs_of fd new = bytes new.
Proof. induction 1 as [|a l [bs ->] _ IH]; [done|]. cbn. rewrite Z.eqb_refl. by f_equal. Qed.
Lemma inputs_received fd p p' new r : Forall (is_input fd) new → seen (act1 lfd) (p_trace p') = seen (act1 lfd) (p_trace p) ++ new →
  received fd (p_trace p') = received fd (p_trace p) ++ r → r = bytes new.
Proof.
  intros Hn Hs Hr. rewrite !received_seen, Hs in Hr. unfold ins_of in Hr. rewrite bind_app in Hr.
  apply app_inv_head in Hr. rewrite <- Hr. by apply ins_of_inputs.
Qed.
Lemma outputs_written fd p p' new r : Forall (is_output fd) new → seen (act1 lfd) (p_trace p') = seen (act1 lfd) (p_trace p) ++ new →
  written fd (p_trace p') = written fd (p_trace p) ++ r → r = bytes new.
Proof.
  intros Hn Hs Hr. rewrite !written_seen, Hs in Hr. unfold outs_of in Hr. rewrite bind_app in Hr.
  apply app_inv_head in Hr. rewrite <- Hr. by apply outs_of_outputs.
Qed.
End shows.

Section tires.
Context {K : Kernel} (fuel : nat).

Lemma tires_bind {A B} (m : M A) (k : A → M B) : tires fuel m → (∀ a, tires fuel (k a)) → tires fuel (m ≫= k).
Proof.
  intros Hm Hk p. apply post_bind. eapply post_weaken; [apply Hm|].
  intros [a|st| | |] p' Ho; cbn [through]; try done; [apply Hk|auto].
Qed.
Lemma tires_fine {A} (m : M A) : fine_run True m → tires fuel m.
Proof. intros H p. eapply post_weaken; [apply H|]. intros [] p'; done. Qed.
Lemma tires_Accept fd : tires fuel (Accept fuel fd).
Proof.
  assert (HR : PreOrder (λ _ _ : proc, True)) by done.
  intros p. eapply post_weaken; [apply (Accept_run (λ _ _, True) fd fuel p) with (k := fuel); try done; lia|].
  intros o p' [_ Ho] ->. exists 0. lia.
Qed.
End tires.

(** *** web_child.c *)

Section web_child_shows.
Context {K : Kernel} {KOk : ReadWriteOk K} (lfd fd : Z) (result : list Z).

Lemma fill_shows fuel : ∀ s, runs (act1 lfd) (my_read_fill fuel fd s) (λ o new,
  Forall (is_input fd) new ∧ ∀ s', o = Ret (0, s') → last new = Some (Input fd [])).
Proof.
  induction fuel as [|f IH]; intros s; cbn [my_read_fill]; [by apply runs_stop|].
  apply runs_bind, runs_syscall; [intros bs|intros e]; cbn [passes act1].
  - assert (Hin : Forall (is_input fd) [Input fd bs]) by (repeat constructor; by eexists).
    destruct (Z.eqb_spec (Z.of_nat (List.length bs)) 0) as [E|E]; apply runs_ret; (split; [done|]); [|done].
    by destruct bs.
  - apply runs_bind, runs_get_errno. intros e'. cbn [passes app]. case_match; [apply IH|by apply runs_ret].
Qed.
Lemma my_read_shows fuel s : runs (act1 lfd) (my_read fuel fd s) (λ o new,
  Forall (is_input fd) new ∧ ∀ c s', o = Ret (0, c, s') → last new = Some (Input fd [])).
Proof.
  assert (Hfin : ∀ rc s new, Forall (is_input fd) new → (rc = 0 → last new = Some (Input fd [])) →
    runs (act1 lfd) (if rc =? 1 then mret (1, read_buf s !!! read_ptr s, RL (read_cnt s - 1) (S (read_ptr s)) (read_buf s))
                     else mret (rc, 0, s))
      (λ o new', Forall (is_input fd) (new ++ new') ∧ ∀ c s', o = Ret (0, c, s') → last (new ++ new') = Some (Input fd []))).
  { intros rc s1 new Hn Hl. case_match; apply runs_ret; rewrite app_nil_r; (split; [done|]); [done|].
    intros c s' [= -> _ _]. by apply Hl. }
  unfold my_read. apply runs_bind. case_match.
  - eapply runs_weaken; [apply fill_shows|]. intros [[rc s1]| | | |] new [Hn Hl]; cbn [passes]; try done.
    apply Hfin; [done|]. intros ->. by eapply Hl.
  - apply runs_ret. cbn [passes]. apply runs_ret. by split.
Qed.
Lemma readline_loop_shows fuel todo : ∀ n stored s, runs (act1 lfd) (readline_loop fuel fd n todo stored s) (λ o new,
  Forall (is_input fd) new ∧ ∀ m line s', o = Ret (m, line, s') → 0 ≤ m →
    last line = Some NEWLINE ∨ List.length line = (List.length stored + todo)%nat ∨ last new = Some (Input fd [])).
Proof.
  induction todo as [|todo IH]; intros n stored s; cbn [readline_loop].
  { apply runs_ret. split; [done|]. intros m line s' [= _ <- _] _. right. left. lia. }
  apply runs_bind. eapply runs_weaken; [apply my_read_shows|].
  intros [[[rc c] s1]| | | |] new [Hn Hl]; cbn [passes]; try (by split).
  destruct (Z.eqb_spec rc 1) as [->|H1].
  - cbn zeta. destruct (Z.eqb_spec c NEWLINE) as [->|Hc].
    + apply runs_ret. rewrite app_nil_r. split; [done|]. intros m line s' [= _ <- _] _. left. apply last_snoc.
    + eapply runs_weaken; [apply IH|]. intros o new2 [Hn2 Ho]. split; [by apply Forall_app|].
      intros m line s' E Hm. destruct (Ho m line s' E Hm) as [?|[El|El]]; [by left|right; left|right; right].
      * rewrite length_app in El. cbn in El. lia.
      * rewrite last_app. by rewrite El.
  - destruct (Z.eqb_spec rc 0) as [->|H0]; apply runs_ret; rewrite app_nil_r; (split; [done|]); intros m line s' [= <- _ _] Hm; [|lia].
    right. right. by eapply Hl.
Qed.
(** A line, and what was read to complete it. *)
Lemma Readline_acts fuel s p : rl_ok s → post (Readline fuel fd MAXLINE s) p (λ o p', ∃ new,
  seen (act1 lfd) (p_trace p') = seen (act1 lfd) (p_trace p) ++ new ∧
  match o with
  | Ret (n, line, s') => Forall (is_input fd) new ∧ rl_ok s' ∧ unread s ++ bytes new = line ++ unread s' ∧
      (n = 0 ∧ line = [] ∧ unread s' = [] ∧ last new = Some (Input fd []) ∨ n ≠ 0 ∧ line_read fd line new)
  | Exit st => st = 1 ∧ ∃ l w, new = l ++ w ∧ Forall (is_input fd) l ∧ last_words w
  | NoFuel => Forall (is_input fd) new
  | _ => False
  end).
Proof.
  intros Hok. unfold Readline. apply post_bind. eapply post_weaken.
  { apply (runs_post (act1 lfd)); [by apply (readline_correct fuel fd MAXLINE s p)|apply (readline_loop_shows fuel _ 1 [] s)]. }
  intros o p1 [Ho (new & Hs & Hn & Hl)]. destruct o as [[[n line] s']| | | |]; cbn [through]; try done; [|by exists new].
  destruct Ho as (Hok' & r & Hr & Hu & Hlen & Hcase).
  assert (E : r = bytes new) by by eapply inputs_received. subst r.
  destruct (Z.ltb_spec n 0) as [Hneg|Hpos].
  - eapply post_weaken; [exact (err_sys_shows lfd _ (λ o w, o = Exit 1 ∧ last_words w) (λ w Hw, conj eq_refl Hw) p1)|].
    intros o p2 (w & Hs2 & -> & Hw). exists (new ++ w). rewrite Hs2, Hs, app_assoc. split; [done|]. split; [done|]. by exists new, w.
  - apply post_ret. exists new. split; [done|]. split; [done|]. split; [done|]. split; [done|].
    assert (Hlast := Hl n line s' eq_refl Hpos). cbn [List.length] in Hlast.
    assert (Hread : line ≠ [] → (∀ l, line = l ++ [NEWLINE] → NEWLINE ∉ l) → (NEWLINE ∉ line ∨ ∃ l, line = l ++ [NEWLINE]) → line_read fd line new).
    { intros H1 H2 H3. split; [done|]. split.
      - destruct H3 as [H3|[l ->]]; [|rewrite removelast_last; by apply H2].
        destruct (exists_last H1) as (l & a & ->). rewrite removelast_last. set_solver.
      - destruct Hlast as [?|[E|?]]; [by left|right; left|by right; right]. rewrite E. done. }
    destruct Hcase as [(-> & l & -> & Hnl)|[(-> & Hnl & He & _)|[(-> & Hl2 & Hnl)|(-> & _)]]]; [right|..|right|lia].
    + split; [rewrite length_app; cbn; lia|]. apply Hread; [by destruct l| |right; by eexists].
      intros l' E. by apply app_inj_tail in E as [<- _].
    + destruct line as [|c line].
      * left. split_and!; try done. destruct Hlast as [?|[E|?]]; [done|discriminate E|done].
      * right. split; [cbn; lia|]. apply Hread; [done| |by left]. intros l' E. rewrite E in Hnl. set_solver.
    + split; [done|]. apply Hread; [by intros ->| |by left]. intros l' ->. set_solver.
Qed.
Lemma writen_loop_shows fuel : ∀ rest, runs (act1 lfd) (writen_loop fuel fd rest) (λ _ new, Forall (is_output fd) new).
Proof.
  induction fuel as [|f IH]; intros rest; cbn [writen_loop]; [by apply runs_stop|].
  case_match; [|by apply runs_ret].
  apply runs_bind, runs_syscall; [intros n|intros e]; cbn [passes act1].
  - destruct (n <=? 0); [by apply runs_ret|]. eapply runs_weaken; [apply IH|]. intros o new Hn. apply Forall_app. split; [|done].
    repeat constructor. by eexists.
  - apply runs_bind, runs_get_errno. intros e'. cbn [passes app]. case_match; [apply IH|by apply runs_ret].
Qed.
Lemma Writen_acts fuel buf p : post (Writen fuel fd buf) p (λ o p', ∃ new w,
  seen (act1 lfd) (p_trace p') = seen (act1 lfd) (p_trace p) ++ new ++ w ∧ Forall (is_output fd) new ∧
  bytes new `prefix_of` buf ∧
  match o with
  | Ret _ => bytes new = buf ∧ w = []
  | Exit st => st = 1 ∧ last_words w
  | NoFuel => w = []
  | _ => False
  end).
Proof.
  unfold Writen. apply post_bind. eapply post_weaken.
  { apply (runs_post (act1 lfd)); [apply (writen_correct fuel fd buf p)|apply writen_loop_shows]. }
  intros o p1 [(dn & rest & Hb & Hw & Ho) (new & Hs & Hn)].
  assert (E : dn = bytes new) by by eapply outputs_written. subst dn.
  assert (Hpre : bytes new `prefix_of` buf) by by exists rest.
  destruct o as [[]| | | |]; cbn [through]; try done.
  - subst rest. rewrite app_nil_r in Hb. apply post_ret. exists new, []. by rewrite app_nil_r.
  - eapply post_weaken; [exact (err_sys_shows lfd _ (λ o w, o = Exit 1 ∧ last_words w) (λ w Hw, conj eq_refl Hw) p1)|].
    intros o p2 (w & Hs2 & -> & Hw2). exists new, w. by rewrite Hs2, Hs, app_assoc.
  - exists new, []. by rewrite app_nil_r.
Qed.
End web_child_shows.

Section web_child_serves.
Context {K : Kernel} {KOk : ReadWriteOk K}.

Definition between (s : rl) : Prop := rl_ok s ∧ unread s = [].

(** What is served after a line that has been answered. *)
Lemma service_post_line {A} result fd (I : A → Prop) ahead ins line rest outs o new :
  Forall (is_input fd) ins → ahead ++ bytes ins = line ++ rest → line_read fd line ins → valid line →
  Forall (is_output fd) outs → bytes outs = reply result line →
  service_post result fd I rest o new → service_post result fd I ahead o (ins ++ outs ++ new).
Proof.
  intros H1 H2 H3 H4 H5 H6 Ho. destruct o; cbn [service_post] in *; try done.
  - destruct Ho as [Hs Ho]. split; [done|]. by eapply service_line.
  - destruct Ho as (-> & l & w & -> & Hc & Hw). split; [done|]. exists (ins ++ outs ++ l), w.
    split; [by rewrite <- !app_assoc|]. split; [by eapply cut_line|done].
  - by eapply cut_line.
Qed.
(** A line that cannot be read or is refused, and a reply that is cut. *)
Lemma service_post_refused {A} result fd (I : A → Prop) ahead ins w :
  Forall (is_input fd) ins → last_words w → service_post result fd I ahead (Exit 1) (ins ++ w).
Proof. intros H1 Hw. split; [done|]. exists ins, w. split; [done|]. split; [by apply cut_reading|done]. Qed.

Lemma web_child_acts lfd fd result fuel : ∀ s p, rl_ok s → post (web_child fuel fd result s) p (λ o p', ∃ new,
  seen (act1 lfd) (p_trace p') = seen (act1 lfd) (p_trace p) ++ new ∧ service_post result fd between (unread s) o new).
Proof.
  induction fuel as [|f IH]; intros s p Hok; cbn [web_child].
  { apply post_stop. exists []. rewrite app_nil_r. split; [done|]. by apply cut_reading. }
  apply post_bind. eapply post_weaken; [by apply (Readline_acts lfd fd)|].
  intros o p1 (ins & Hs1 & Ho). destruct o as [[[n line] s1]| | | |]; cbn [through]; try done.
  2: { destruct Ho as (-> & l & w & -> & Hl & Hw). exists (l ++ w). split; [done|]. by apply service_post_refused. }
  2: { exists ins. split; [done|]. by apply cut_reading. }
  destruct Ho as (Hin & Hok1 & Hu & [(-> & -> & He & Hlast)|[Hn Hline]]).
  { apply post_ret. exists ins. split; [done|]. split; [done|]. apply service_end; [done|by rewrite Hu, He|done]. }
  rewrite (proj2 (Z.eqb_neq n 0)) by done. fold (request line).
  assert (Hquit : ∀ msg, post (err_quit msg) p1 (λ o p', ∃ new,
    seen (act1 lfd) (p_trace p') = seen (act1 lfd) (p_trace p) ++ new ∧ service_post result fd between (unread s) o new)).
  { intros msg. eapply post_weaken; [exact (err_quit_shows lfd msg (λ o w, o = Exit 1 ∧ last_words w) (λ w Hw, conj eq_refl Hw) p1)|].
    intros o p2 (w & Hs2 & -> & Hw). exists (ins ++ w). rewrite Hs2, Hs1, app_assoc. split; [done|]. by apply service_post_refused. }
  destruct (Z.leb_spec (request line) 0); [|destruct (Z.ltb_spec MAXN (request line))]; cbn [orb]; [apply Hquit|apply Hquit|].
  assert (Hv : valid line) by (split; [apply Hline|lia]). fold (reply result line).
  apply post_bind. eapply post_weaken; [apply (Writen_acts lfd)|].
  intros o p2 (outs & w & Hs2 & Hout & Hpre & Ho). destruct o as [[]| | | |]; cbn [through]; try done.
  - destruct Ho as [Hb ->]. eapply post_weaken; [by apply IH|]. intros o p3 (new & Hs3 & Hpost).
    exists (ins ++ outs ++ new). rewrite Hs3, Hs2, Hs1, app_nil_r, <- !app_assoc. split; [done|].
    by eapply service_post_line.
  - destruct Ho as [-> Hw]. exists ((ins ++ outs) ++ w). rewrite Hs2, Hs1, <- !app_assoc. split; [done|]. split; [done|].
    exists (ins ++ outs), w. split; [by rewrite <- app_assoc|]. split; [by eapply cut_writing|done].
  - subst w. exists (ins ++ outs). rewrite Hs2, Hs1, app_nil_r, <- !app_assoc. split; [done|]. by eapply cut_writing.
Qed.
Lemma web_child_tires result fuel fd s : between s → tires fuel (web_child fuel fd result s).
Proof.
  intros [Hok Hun] p. eapply post_weaken; [by apply (web_child_post fd result fuel s p)|].
  intros o p' (new & lines & partial & rest & Hr & _ & _ & _ & _ & Hi & Ho) ->. exists fd. rewrite Hr, length_app.
  rewrite Hun in Ho. cbn [app] in Ho. lia.
Qed.
#[global] Instance web_child_service fuel result : Service between result fuel (λ fd s, web_child fuel fd result s).
Proof.
  split.
  - intros lfd fd s [Hok Hun] p. rewrite <- Hun. by apply web_child_acts.
  - intros fd s Hs. by apply web_child_tires.
Qed.
End web_child_serves.

(** ** The child of the preforked server *)

Section child05.
Context (result : list Z).

Definition child05_start (connfd : Z) : list act := [Received connfd].
Definition child05_finish (connfd : Z) : list act := [Closed connfd; Output STDERR_FILENO [0]].

(** The pipe is the standard error stream of the child: what it shows there. *)
Definition pipe1 (a : act) : list Z :=
  match a with
  | Output fd bs => if fd =? STDERR_FILENO then bs else []
  | Report s => to_bytes s
  | _ => []
  end.
Definition pipe_bytes (l : list act) : list Z := l ≫= pipe1.

(** Rounds, each told by one byte on the pipe, and at most one report there at the end. *)
Definition child_post (lfd : Z) (turns fuel : nat) (p : proc) (o : outcome rl) (p' : proc) : Prop :=
  ∃ (rs : list (Z * list act)) rest fd w,
    seen (act1 lfd) (p_trace p') = seen (act1 lfd) (p_trace p) ++ mjoin rs.*2 ++ rest ++ w ∧
    Forall (λ r, round result child05_start child05_finish r.1 r.2) rs ∧
    begun result child05_start child05_finish fd rest ∧ last_words w ∧
    pipe_bytes (mjoin rs.*2 ++ rest) = replicate (List.length rs) 0 ∧
    match o with
    | Ret s => between s ∧ rest = [] ∧ w = [] ∧ List.length rs = turns ∧ open_fds (p_trace p') = open_fds (p_trace p)
    | Exit st => st = 1
    | NoFuel => w = [] ∧ spent fuel p'
    | _ => False
    end.
End child05.

(** Serving shows nothing but what goes over the connection. *)
Lemma service_on result fd ahead l : service result fd ahead l → Forall (λ a, is_input fd a ∨ is_output fd a) l.
Proof.
  induction 1 as [ahead ins Hi _ _|ahead ins line rest outs l Hi _ _ _ Ho _ _ IH].
  - eapply Forall_impl; [exact Hi|]. by left.
  - apply Forall_app. split; [eapply Forall_impl; [exact Hi|]; by left|].
    apply Forall_app. split; [eapply Forall_impl; [exact Ho|]; by right|done].
Qed.
Lemma service_cut_on result fd ahead l : service_cut result fd ahead l → Forall (λ a, is_input fd a ∨ is_output fd a) l.
Proof.
  assert (Hins : ∀ ins, Forall (is_input fd) ins → Forall (λ a, is_input fd a ∨ is_output fd a) ins)
    by (intros ins Hi; eapply Forall_impl; [exact Hi|]; by left).
  assert (Houts : ∀ outs, Forall (is_output fd) outs → Forall (λ a, is_input fd a ∨ is_output fd a) outs)
    by (intros outs Ho; eapply Forall_impl; [exact Ho|]; by right).
  induction 1; rewrite ?Forall_app; auto.
Qed.

Section child05_shows.
Context {K : Kernel} {KOk : ReadWriteOk K} {KRecv : ReceiveOk K} (result : list Z) (lfd : Z).

Lemma pipe_app l1 l2 : pipe_bytes (l1 ++ l2) = pipe_bytes l1 ++ pipe_bytes l2.
Proof. apply bind_app. Qed.
Lemma pipe_service fd l : fd ≠ STDERR_FILENO → Forall (λ a, is_input fd a ∨ is_output fd a) l → pipe_bytes l = [].
Proof.
  intros Hne. induction 1 as [|a l [[bs ->]|[bs ->]] _ IH]; [done|exact IH|]. cbn. by rewrite (proj2 (Z.eqb_neq fd _)) by done.
Qed.

(** Serving opens and closes nothing. *)
Lemma web_child_keeps fuel fd s p :
  post (web_child fuel fd result s) p (λ _ p', open_fds (p_trace p') = open_fds (p_trace p)).
Proof.
  assert (Hq : ∀ e, quiet e → open_after e = λ fds, fds) by (intros [A c a] H; by destruct c).
  assert (Hf : ∀ s, framed (λ e, open_after e = λ fds, fds) (web_child fuel fd result s)).
  { induction fuel as [|f IH]; intros s'; cbn [web_child]; [framed_tac|].
    apply framed_bind; [by apply framed_readline|].
    intros [[n line] s2]. case_match; [framed_tac|]. cbn zeta. case_match; [by apply framed_err_quit|].
    apply framed_bind; [by apply framed_Writen|]. intros _. apply IH. }
  eapply post_weaken; [apply (framed_post _ _ p (Hf s))|]. intros o p' [(t & -> & Ht) _].
  induction Ht as [|e t He _ IH]; [done|]. cbn [app open_fds]. by rewrite He.
Qed.

(** A request over the pipe. *)
Definition request_post (p : proc) (o : outcome (Z * list Z * option Z)) (p' : proc) : Prop :=
  ∃ new w, seen (act1 lfd) (p_trace p') = seen (act1 lfd) (p_trace p) ++ new ++ w ∧ (new = [] ∨ ∃ c, new = [Received c]) ∧
  match o with
  | Ret (n, buf, connfd) => w = [] ∧
      (n = 0 ∨ n ≠ 0 ∧ ∃ c, connfd = Some c ∧
         (c < 0 ∨ new = [Received c] ∧ c ∉ open_fds (p_trace p) ∧ open_fds (p_trace p') = {[c]} ∪ open_fds (p_trace p)))
  | Exit st => st = 1 ∧ last_words w
  | _ => False
  end.
Lemma gives_up {A} (m : M A) p (Q : outcome A → proc → Prop) :
  runs (act1 lfd) m (λ o w, o = Exit 1 ∧ last_words w) →
  (∀ p' w, seen (act1 lfd) (p_trace p') = seen (act1 lfd) (p_trace p) ++ w → last_words w → Q (Exit 1) p') → post m p Q.
Proof. intros Hm HQ. eapply post_weaken; [apply Hm|]. intros o p' (w & Hs & -> & Hw). by apply (HQ p' w). Qed.
Lemma err_sys_ends {A} msg : runs (act1 lfd) (err_sys (A := A) msg) (λ o w, o = Exit 1 ∧ last_words w).
Proof. by apply err_sys_shows. Qed.
Lemma err_quit_ends {A} msg : runs (act1 lfd) (err_quit (A := A) msg) (λ o w, o = Exit 1 ∧ last_words w).
Proof. by apply err_quit_shows. Qed.

Lemma Read_fd_post p : post (Read_fd STDERR_FILENO 1 None) p (request_post p).
Proof.
  unfold Read_fd, read_fd. apply post_bind, post_bind, post_syscall; intros r Hr; cbn [through].
  2: { apply post_ret. cbn [through]. cbn [Z.ltb Z.compare].
       eapply gives_up; [apply err_sys_ends|]. intros p' w Hs Hw. exists [], w. cbn in Hs. rewrite app_nil_r in Hs. auto. }
  destruct r as [buf ctl]. set (p1 := add_event _ _ p).
  assert (Hs1 : ∃ new, seen (act1 lfd) (p_trace p1) = seen (act1 lfd) (p_trace p) ++ new ∧ (new = [] ∨ ∃ c, new = [Received c]) ∧
    ∀ cm fd, ctl = Some cm → cmsg_fds cm = [fd] → new = [Received fd]).
  { eexists. split; [reflexivity|]. cbn [act1]. destruct ctl as [cm|]; [|split; [by left|done]].
    split; [case_match; [by left|]; case_match; eauto|]. by intros ? fd [= <-] ->. }
  destruct Hs1 as (new & Hs1 & Hnew & Hrec).
  assert (Hexit : ∀ (A : Type) (m : M A) k, runs (act1 lfd) m (λ o w, o = Exit 1 ∧ last_words w) → post m p1 (through (request_post p) k)).
  { intros A m k Hm. eapply gives_up; [exact Hm|]. intros p' w Hs Hw. exists new, w. by rewrite Hs, Hs1, app_assoc. }
  set (n := Z.of_nat (List.length buf)). destruct (Z.leb_spec n 0) as [Hn|Hn].
  { apply post_ret. cbn [through]. destruct (Z.ltb_spec n 0); [lia|]. apply post_ret.
    exists new, []. rewrite app_nil_r. split; [done|]. split; [done|]. split; [done|]. left. lia. }
  assert (Hfin : ∀ c, c < 0 ∨ (∃ cm, ctl = Some cm ∧ cmsg_fds cm = [c]) →
    post (if n <? 0 then err_sys "read_fd error" else mret (n, buf, Some c)) p1 (request_post p)).
  { intros c Hc. destruct (Z.ltb_spec n 0); [lia|]. apply post_ret. exists new, []. rewrite app_nil_r.
    split; [done|]. split; [done|]. split; [done|]. right. split; [lia|]. exists c. split; [done|].
    destruct Hc as [?|(cm & -> & Hcm)]; [by left|]. right. split; [by eapply Hrec|].
    pose proof (receive_fresh _ _ _ _ _ Hr) as Hf. rewrite Hcm in Hf. apply Forall_singleton in Hf as [_ Hf].
    split; [done|]. unfold p1. cbn. rewrite Hcm. set_solver. }
  destruct ctl as [cm|]; [|apply post_ret; cbn [through]; apply Hfin; left; lia].
  destruct (Z.eqb_spec (cmsg_len cm) CMSG_LEN_INT) as [Hlen|]; [|apply post_ret; cbn [through]; apply Hfin; left; lia].
  destruct (negb (cmsg_level cm =? SOL_SOCKET)) eqn:E1; [apply Hexit, err_quit_ends|].
  destruct (negb (cmsg_type cm =? SCM_RIGHTS)) eqn:E2; [apply Hexit, err_quit_ends|].
  apply post_ret. cbn [through]. apply Hfin. right. exists cm. split; [done|].
  apply negb_false_iff in E1, E2. by eapply one_fd.
Qed.

(** What a turn shows before it is complete, and a turn put before others. *)
Lemma child_post_stop turns fuel p (o : outcome rl) p' c rest w :
  seen (act1 lfd) (p_trace p') = seen (act1 lfd) (p_trace p) ++ rest ++ w →
  begun result child05_start child05_finish c rest → pipe_bytes rest = [] →
  (o = Exit 1 ∧ last_words w ∨ o = NoFuel ∧ w = [] ∧ spent fuel p') → child_post result lfd turns fuel p o p'.
Proof.
  intros Hs Hb Hpipe Ho. exists [], rest, c, w. cbn [List.length fmap list_fmap mjoin list_join app replicate].
  split; [done|]. split; [by apply Forall_nil|]. split; [done|].
  destruct Ho as [[-> Hw]|(-> & -> & Hsp)]; (split; [done|]); split; done.
Qed.
Lemma child_post_round turns fuel p p1 c sv (o : outcome rl) p' : c ≠ STDERR_FILENO →
  service result c [] sv → open_fds (p_trace p1) = open_fds (p_trace p) →
  seen (act1 lfd) (p_trace p1) = seen (act1 lfd) (p_trace p) ++ child05_start c ++ sv ++ child05_finish c →
  child_post result lfd turns fuel p1 o p' → child_post result lfd (S turns) fuel p o p'.
Proof.
  intros Hne Hsv Hop Hs1 (rs & rest & fd & w & Hs & Hrs & Hb & Hw & Hpipe & Ho).
  exists ((c, child05_start c ++ sv ++ child05_finish c) :: rs), rest, fd, w.
  cbn [fmap list_fmap snd]. change (mjoin (?x :: ?l)) with (x ++ mjoin l).
  split; [rewrite Hs, Hs1, <- !app_assoc; done|]. split; [constructor; [by exists sv|done]|]. split; [done|]. split; [done|].
  split.
  - rewrite !pipe_app, (pipe_service c sv) by (done || by eapply service_on).
    cbn [List.length replicate]. rewrite <- Hpipe, pipe_app. done.
  - destruct o; try done. destruct Ho as (? & ? & ? & ? & ?). cbn [List.length]. split_and!; [done|done|done|lia|congruence].
Qed.

Lemma child_loop_post fuel : ∀ turns s p, between s → STDERR_FILENO ∈ open_fds (p_trace p) →
  post (child_loop turns fuel result s) p (child_post result lfd turns fuel p).
Proof.
  induction turns as [|turns IH]; intros s p Hbet Herr; cbn [child_loop].
  { apply post_ret. exists [], [], 0, []. rewrite !app_nil_r. split; [done|]. split; [by apply Forall_nil|].
    split; [apply begun_start, prefix_nil|]. by split_and!. }
  apply post_bind. eapply post_weaken; [apply Read_fd_post|]. intros o p1 (new & w & Hs1 & Hnew & Ho).
  assert (Hnew2 : ∃ c, begun result child05_start child05_finish c new ∧ pipe_bytes new = []).
  { destruct Hnew as [->|[c ->]]; [exists 0|exists c]; (split; [apply begun_start|done]); [apply prefix_nil|done]. }
  destruct Hnew2 as (c0 & Hbeg & Hpipe).
  destruct o as [[[n buf] connfd]| | | |]; cbn [through]; try done.
  2: { destruct Ho as [-> Hw]. eapply child_post_stop; eauto. }
  destruct Ho as [-> Ho]. rewrite app_nil_r in Hs1.
  assert (Hquit : ∀ msg, post (err_quit msg) p1 (child_post result lfd (S turns) fuel p)).
  { intros msg. eapply gives_up; [apply err_quit_ends|]. intros p' w Hs Hw. eapply (child_post_stop _ _ _ _ _ c0 new w); eauto.
    by rewrite Hs, Hs1, app_assoc. }
  destruct Ho as [->|(Hn & c & -> & Hc)]; [apply Hquit|].
  rewrite (proj2 (Z.eqb_neq n 0)) by done. destruct (Z.ltb_spec c 0); [apply Hquit|].
  destruct Hc as [?|(-> & Hfresh & Hop)]; [lia|]. clear Hnew Hbeg Hpipe Hquit.
  assert (Hne : c ≠ STDERR_FILENO) by (intros ->; done).
  apply post_bind. eapply post_weaken.
  { apply post_and; [apply (web_child_acts lfd c result fuel s p1), Hbet|].
    apply post_and; [apply (web_child_tires result fuel c s Hbet p1)|apply web_child_keeps]. }
  intros o p2 [(sv & Hs2 & Ho) [Htire Hop2]]. rewrite (proj2 Hbet), Hs1 in *.
  destruct o as [s2| | | |]; cbn [through service_post] in *; try done.
  2: { destruct Ho as (-> & l & w & -> & Hcut & Hw). eapply (child_post_stop _ _ _ _ _ c ([Received c] ++ l) w).
       - by rewrite Hs2, <- !app_assoc.
       - by apply begun_service.
       - rewrite pipe_app, (pipe_service c l) by (done || by eapply service_cut_on). done.
       - by left. }
  2: { eapply (child_post_stop _ _ _ _ _ c ([Received c] ++ sv) []).
       - by rewrite Hs2, <- !app_assoc, app_nil_r.
       - by apply begun_service.
       - rewrite pipe_app, (pipe_service c sv) by (done || by eapply service_cut_on). done.
       - right. auto. }
  destruct Ho as [Hbet2 Hsv]. assert (Hpsv : pipe_bytes sv = []) by (eapply pipe_service; [exact Hne|by eapply service_on]).
  (* a round that stops after the service *)
  assert (Hstop : ∀ p3 k, seen (act1 lfd) (p_trace p3) = seen (act1 lfd) (p_trace p2) ++ k → k = [] ∨ k = [Closed c] →
    ∀ msg (Q : outcome unit → proc → Prop), (∀ p', child_post result lfd (S turns) fuel p (Exit 1) p' → Q (Exit 1) p') →
    post (err_sys msg) p3 Q).
  { intros p3 k Hs3 Hk msg Q HQ. eapply gives_up; [apply err_sys_ends|]. intros p' w Hs Hw. apply HQ.
    eapply (child_post_stop _ _ _ _ _ c (child05_start c ++ sv ++ k) w).
    - by rewrite Hs, Hs3, Hs2, <- !app_assoc.
    - apply begun_finish; [done| |]; destruct Hk as [->| ->]; try done; [apply prefix_nil|by eexists].
    - rewrite !pipe_app, Hpsv. by destruct Hk as [->| ->].
    - by left. }
  apply post_bind, post_bind, post_syscall; intros u Hu; cbn [through].
  2: { apply (Hstop _ []); [done|by left|done]. }
  apply post_ret. cbn [through]. set (p3 := add_event (sys_close c) (Ok u) p2).
  assert (Hs3 : seen (act1 lfd) (p_trace p3) = seen (act1 lfd) (p_trace p2) ++ [Closed c]) by done.
  apply post_bind. unfold Write. apply post_bind, post_syscall; intros m Hm; cbn [through].
  2: { apply (Hstop _ [Closed c]); [|by right|done]. cbn. by rewrite app_nil_r. }
  pose proof (write_at_most _ _ _ _ Hm) as Hm1. cbn [List.length] in Hm1.
  destruct (Z.eqb_spec m (Z.of_nat (List.length [0]))) as [->|Hm2]; cbn [List.length] in *.
  2: { apply (Hstop _ [Closed c]); [|by right|done]. cbn [add_event p_trace seen act1].
       rewrite (proj2 (Z.leb_le m 0)) by lia. by rewrite app_nil_r. }
  apply post_ret. cbn [through]. set (p4 := add_event _ _ p3).
  assert (Hop4 : open_fds (p_trace p4) = open_fds (p_trace p)).
  { unfold p4, p3. cbn [p_trace add_event open_fds open_after]. rewrite Hop2, Hop. set_solver. }
  eapply post_weaken; [apply IH; [done|by rewrite Hop4]|]. intros o p' Ho.
  eapply (child_post_round turns fuel p p4 c sv); try done.
  unfold p4. cbn [add_event p_trace seen]. fold (seen (act1 lfd)). unfold p3. cbn [add_event p_trace seen act1]. rewrite Hs2, <- !app_assoc. done.
Qed.
End child05_shows.

(** ** Properties *)

(** C12: a child of the preforked server does rounds: it receives a connection over its pipe, serves
    it to the end of its stream (each line that comes in is answered, before the next is read, by the bytes
    it asks for), closes it, and only then writes its byte to the pipe.  The pipe, which is also the
    standard error stream of the child, carries exactly one byte for every complete round and nothing else, but the
    text of the report of a child that gives up; that child exits with status 1 within a round.
    Between two rounds it has no connection open and no input left in its buffer.  Fuel runs
    out only on a connection that goes on sending or on interrupted calls.  The standard error stream
    is open at the start, and the system is supposed to read and write no more than it is asked to and to
    give new descriptors, and control messages whose length tells how many they carry. *)
Theorem child_main_correct {K : Kernel} {KOk : ReadWriteOk K} {KRecv : ReceiveOk K} lfd turns fuel result p :
  STDERR_FILENO ∈ open_fds (p_trace p) → post (child_main turns fuel result) p (child_post result lfd turns fuel p).
Proof.
  intros Herr. unfold child_main. apply post_bind, post_call. intros pid _. cbn [through].
  assert (Hpost : ∀ q, seen (act1 lfd) (p_trace q) = seen (act1 lfd) (p_trace p) → open_fds (p_trace q) = open_fds (p_trace p) →
    post (child_loop turns fuel result rl0) q (child_post result lfd turns fuel p)).
  { intros q Hs Hop. eapply post_weaken; [apply (child_loop_post result lfd fuel turns rl0 q); [split; [apply rl0_ok|done]|by rewrite Hop]|].
    intros o p' (rs & rest & fd & w & Hs' & H). exists rs, rest, fd, w. rewrite <- Hs, <- Hop. by split. }
  apply post_bind, post_bind, post_syscall; intros; cbn [through]; apply post_ret; cbn [through]; apply Hpost; try done;
    cbn; by rewrite !app_nil_r.
Qed.

Definition in_child : proc := add_event (sys_dup2 5 STDERR_FILENO) (Ok STDERR_FILENO) proc0.
Lemma child_main_correct_witness :
  post (child_main (K := clients) 1 20 [1; 2; 3; 4]) in_child (child_post [1; 2; 3; 4] 0 1 20 in_child) ∧
  seen (act1 0) (p_trace (child_main (K := clients) 1 20 [1; 2; 3; 4] in_child).2) =
    [Received 3; Input 3 three; Output 3 [1; 2; 3]; Input 3 []; Closed 3; Output STDERR_FILENO [0]].
Proof.
  destruct clients_ok as [H1 H2]. split; [|vm_compute; reflexivity].
  apply (child_main_correct (KOk := H1) (KRecv := H2)). vm_compute. reflexivity.
Defined.
