(* ===== verification/Prefork.v ===== *)
(** The parent of the preforked server that passes connections to its children:
    src/unpv13e/server (serv05.c, child05.c, child.h).

    The parent and a child are two processes, with a system each.  Nothing is supposed of what the
    children write to their pipes: a byte that comes when its child owes no reply is
    counted by [unowed].  What a child does write, one byte for each round and the text of
    its report when it gives up, is proved in Rounds.v. *)
From S2P Require Import Prelude Machine Posix Wrap Stream Frame Servers FdPass Child Rounds.

Definition SIGINT : Z := 2.
Definition SIZEOF_CHILD : Z := 24.

(** ** child.h *)

Record Child := mkChild {
  child_pid : Z;
  child_pipefd : Z;
  child_status : Z;     (** 0 = ready *)
  child_count : Z
}.
#[global] Instance Child_inhabited : Inhabited Child := populate (mkChild 0 0 0 0).

Section prefork.
Context {K : Kernel}.

(** ** child05.c *)

(** In the parent, the new element of [cptr]; the child does not return. *)
Definition child_make (turns fuel : nat) (result : list Z) (listenfd : Z) : M Child :=
  '(sockfd0, sockfd1) ← Socketpair AF_LOCAL SOCK_STREAM 0;
  pid ← Fork;
  if 0 <? pid then
    Close sockfd1 ;;
    mret (mkChild pid sockfd0 0 0)
  else
    Dup2 sockfd1 STDERR_FILENO ;;
    Close sockfd0 ;;
    Close sockfd1 ;;
    Close listenfd ;;
    child_main turns fuel result ;;
    stop NoFuel.

(** ** serv05.c *)

Record parent := Parent {
  cptr : list Child;
  navail : Z;
  maxfd : Z;
  masterset : gset Z
}.

(** [child_make(i, ...)] for the children that are left. *)
Fixpoint make_children (turns fuel : nat) (result : list Z) (listenfd : Z) (todo : nat) (s : parent) : M parent :=
  match todo with
  | O => mret s
  | S todo' =>
      c ← child_make turns fuel result listenfd;
      masterset ← fd_set_add (child_pipefd c) (masterset s);
      make_children turns fuel result listenfd todo'
        (Parent (cptr s ++ [c]) (navail s) (Z.max (maxfd s) (child_pipefd c)) masterset)
  end.

(** The first available child. *)
Definition available (l : list Child) : option nat := fst <$> list_find (λ c, child_status c = 0) l.

Definition sp_accept (fuel : nat) (listenfd : Z) (s : parent) : M parent :=
  '(connfd, _) ← Accept fuel listenfd;
  match available (cptr s) with
  | None => err_quit "no available children"
  | Some i =>
      let cptr := alter (λ c, mkChild (child_pid c) (child_pipefd c) 1 (child_count c + 1)) i (cptr s) in
      Write_fd (child_pipefd (cptr !!! i)) [0] connfd ;;
      Close connfd ;;
      mret (Parent cptr (navail s - 1) (maxfd s) (masterset s))
  end.

(** The [for] loop over the children from the [i]-th on. *)
Fixpoint sp_scan (todo i : nat) (rset : list Z) (nsel : Z) (s : parent) : M parent :=
  match todo with
  | O => mret s
  | S todo' =>
      let pipefd := child_pipefd (cptr s !!! i) in
      if bool_decide (pipefd ∈ rset) then
        rc ← Read pipefd 1;
        if Z.of_nat (List.length rc) =? 0
        then err_quit ("child " +:+ fmt_d (Z.of_nat i) +:+ " terminated unexpectedly")
        else
          let s := Parent (alter (λ c, mkChild (child_pid c) (child_pipefd c) 0 (child_count c)) i (cptr s))
                     (navail s + 1) (maxfd s) (masterset s) in
          if nsel - 1 =? 0 then mret s else sp_scan todo' (S i) rset (nsel - 1) s
      else sp_scan todo' (S i) rset nsel s
  end.

(** One turn of the loop. *)
Definition sp_step (fuel : nat) (listenfd : Z) (s : parent) : M parent :=
  let rset := if navail s <=? 0 then masterset s ∖ {[listenfd]} else masterset s in
  '(rset, _) ← Select (elements rset) [] None;
  let nsel := Z.of_nat (List.length rset) in
  if bool_decide (listenfd ∈ rset) then
    s ← sp_accept fuel listenfd s;
    if nsel - 1 =? 0 then mret s
    else sp_scan (List.length (cptr s)) 0 rset (nsel - 1) s
  else sp_scan (List.length (cptr s)) 0 rset nsel s.

Fixpoint sp_loop (turns fuel : nat) (listenfd : Z) (s : parent) : M parent :=
  match turns with
  | O => mret s
  | S t => s ← sp_step fuel listenfd s; sp_loop t fuel listenfd s
  end.

(** [main] from the listening socket on; [sig_int] is the handler's address. *)
Definition serv05 (turns fuel : nat) (result : list Z) (sig_int listenfd addrlen : Z) (nchildren : nat) : M parent :=
  masterset ← fd_set_add listenfd ∅;
  Malloc addrlen ;;
  Calloc (Z.of_nat nchildren * SIZEOF_CHILD) ;;
  s ← make_children turns fuel result listenfd nchildren (Parent [] (Z.of_nat nchildren) listenfd masterset);
  Signal SIGINT sig_int ;;
  sp_loop turns fuel listenfd s.
End prefork.

(** ** Observations on the parent's trace *)

(** The parent's ends of the stream pipes. *)
Definition pipes1 (e : event) : list Z :=
  match e with
  | Event c a =>
      match c in sys A return A → list Z with
      | sys_socketpair _ _ _ => λ r, match r with Ok (fd, _) => [fd] | Err _ => [] end
      | _ => λ _, []
      end a
  end.
Definition pipes (t : trace) : list Z := t ≫= pipes1.

(** How many descriptors were sent over a pipe, and how many replies came back. *)
Definition handed1 (fd : Z) (e : event) : Z :=
  match e with
  | Event c a =>
      match c in sys A return A → Z with
      | sys_sendmsg_ctl fd' _ _ => λ r, match r with Ok _ => Z.b2z (fd' =? fd) | Err _ => 0 end
      | _ => λ _, 0
      end a
  end.
Fixpoint handed (fd : Z) (t : trace) : Z :=
  match t with [] => 0 | e :: t' => handed fd t' + handed1 fd e end.
Definition replied1 (fd : Z) (e : event) : Z :=
  match e with
  | Event c a =>
      match c in sys A return A → Z with
      | sys_read fd' _ => λ r, match r with Ok (_ :: _) => Z.b2z (fd' =? fd) | _ => 0 end
      | _ => λ _, 0
      end a
  end.
Fixpoint replied (fd : Z) (t : trace) : Z :=
  match t with [] => 0 | e :: t' => replied fd t' + replied1 fd e end.

(** The replies that came when nothing was owed: every connection handed over the pipe had been
    answered already. *)
Fixpoint unowed (fd : Z) (t : trace) : Z :=
  match t with
  | [] => 0
  | e :: t' => unowed fd t' + (if handed fd t' <=? replied fd t' - unowed fd t' then replied1 fd e else 0)
  end.

(** socketpair(2), fork(2): a pipe has two new ends; [fork] returns to a parent the identity of
    the child. *)
Class ParentOk (K : Kernel) : Prop := {
  socketpair_fresh : ∀ t f ty pr a b, answer t (sys_socketpair f ty pr) = Ok (a, b) →
    0 ≤ a ∧ 0 ≤ b ∧ a ≠ b ∧ a ∉ open_fds t ∧ b ∉ open_fds t;
  fork_parent : ∀ t pid, answer t sys_fork = Ok pid → 0 < pid
}.

(** ** Specification of the parent *)

(** The children that are available. *)
Definition ready (c : Child) : bool := child_status c =? 0.
Fixpoint nready (l : list Child) : Z :=
  match l with [] => 0 | c :: l' => Z.b2z (ready c) + nready l' end.

(** A child has been handed the connections [child_count] counts; it has
    replied to all of them or, when it is busy, to all but the last, and
    said what it did not owe besides. *)
Definition child_ok (c : Child) (p : proc) : Prop :=
  (child_status c = 0 ∨ child_status c = 1) ∧
  child_pipefd c ∈ pipes (p_trace p) ∧
  handed (child_pipefd c) (p_trace p) = child_count c ∧
  replied (child_pipefd c) (p_trace p) - unowed (child_pipefd c) (p_trace p) = child_count c - child_status c ∧
  0 ≤ unowed (child_pipefd c) (p_trace p).
(** What all of them have said besides. *)
Definition surplus (l : list Child) (t : trace) : Z := sumz (λ fd, unowed fd t) (child_pipefd <$> l).

Record sp_inv (base : gset Z) (listenfd : Z) (s : parent) (p : proc) : Prop := {
  sp_children : ∀ i c, cptr s !! i = Some c → child_ok c p;
  sp_distinct : NoDup (child_pipefd <$> cptr s);
  sp_navail : navail s = nready (cptr s) + surplus (cptr s) (p_trace p);
  sp_master : masterset s = {[listenfd]} ∪ list_to_set (child_pipefd <$> cptr s);
  sp_open : open_fds (p_trace p) = base ∪ list_to_set (child_pipefd <$> cptr s);
  sp_base : ∀ c, c ∈ cptr s → child_pipefd c ∉ base;
  sp_listen : listenfd ∈ base
}.

(** The last thing that happened, before the report, was a failure: an error,
    or the end of file of a child's pipe. *)
Definition failure (e : event) : Prop :=
  match e with
  | Event c a =>
      match c in sys A return A → Prop with
      | sys_read _ _ => λ r, r = Ok [] ∨ ∃ e, r = Err e
      | sys_accept _ => λ r, ∃ e, r = Err e
      | sys_close _ => λ r, ∃ e, r = Err e
      | sys_sendmsg_ctl _ _ _ => λ r, (∃ e, r = Err e) ∨ ∃ n, r = Ok n ∧ n < 0
      | sys_select _ _ _ => λ r, ∃ e, r = Err e
      | sys_socketpair _ _ _ => λ r, ∃ e, r = Err e
      | sys_fork => λ r, ∃ e, r = Err e
      | sys_sigaction _ _ _ => λ r, ∃ e, r = Err e
      | sys_malloc _ => λ r, r = false
      | _ => λ _, False
      end a
  end.
Definition after_failure (p : proc) : Prop :=
  ∃ t e t0, p_trace p = t ++ e :: t0 ∧ Forall quiet t ∧ failure e.

(** A child has written to its pipe more than it owed. *)
Definition spoke_out (p : proc) : Prop := ∃ fd, fd ∈ pipes (p_trace p) ∧ 0 < unowed fd (p_trace p).

(** The outcomes of the parent: it stops by [exit(1)] only after a failure, or where a child
    spoke out; while it starts, at a pipe that does not fit in an [fd_set]; [fuel] bounds the
    connections aborted before [accept]. *)
Definition sp_post {A} (fuel : nat) (p : proc) (Q : A → proc → Prop) (o : outcome A) (p' : proc) : Prop :=
  (interrupted (p_trace p) ≤ interrupted (p_trace p'))%nat ∧
  match o with
  | Ret a => Q a p'
  | Exit st => st = 1 ∧ (after_failure p' ∨ spoke_out p')
  | NoFuel => (fuel ≤ interrupted (p_trace p') - interrupted (p_trace p))%nat
  | UB => ∃ fd, FD_SETSIZE ≤ fd ∧ fd ∈ open_fds (p_trace p')
  | Abort => False
  end.

(** ** Lemmas *)

Lemma nready_alter f l i c :
  l !! i = Some c → nready (alter f i l) = nready l - Z.b2z (ready c) + Z.b2z (ready (f c)).
Proof.
  revert i. induction l as [|x l IH]; intros [|i] H; simplify_eq/=; [lia|]. rewrite (IH i) by done. lia.
Qed.
Lemma nready_available l : 0 < nready l → ∃ i c, available l = Some i ∧ l !! i = Some c ∧ child_status c = 0.
Proof.
  intros H. destruct (list_find (λ c, child_status c = 0) l) as [[i c]|] eqn:E.
  - pose proof E as (Hi & Hc & _)%list_find_Some. exists i, c. split; [|done]. unfold available. by rewrite E.
  - apply list_find_None in E. exfalso. revert H. induction E as [|c l Hc _ IH]; simpl; [lia|].
    unfold ready at 1. destruct (Z.eqb_spec (child_status c) 0); [done|]. simpl. lia.
Qed.
Lemma pipefds_alter f i (l : list Child) :
  (∀ c, child_pipefd (f c) = child_pipefd c) → child_pipefd <$> alter f i l = child_pipefd <$> l.
Proof.
  intros Hf. revert i. induction l as [|c l IH]; intros [|i]; cbn; try done; [by rewrite Hf|].
  f_equal. apply IH.
Qed.

Lemma distinct_children (l : list Child) i j c d :
  NoDup (child_pipefd <$> l) → l !! i = Some c → l !! j = Some d → child_pipefd c = child_pipefd d → i = j.
Proof.
  intros Hd Hi Hj E. eapply (NoDup_lookup _ i j); [exact Hd| |]; rewrite list_lookup_fmap, ?Hi, ?Hj; [done|].
  cbn. by rewrite E.
Qed.
Lemma same_pipefds (l l' : list Child) d :
  child_pipefd <$> l' = child_pipefd <$> l → d ∈ l' → ∃ d', child_pipefd d = child_pipefd d' ∧ d' ∈ l.
Proof.
  intros E Hd. apply list_elem_of_fmap. rewrite <- E. apply list_elem_of_fmap. eauto.
Qed.

(** Nothing that concerns the children or the descriptors happens. *)
Definition apart (e : event) : Prop :=
  (∀ fds, open_after e fds = fds) ∧ pipes1 e = [] ∧ (∀ fd, handed1 fd e = 0) ∧ (∀ fd, replied1 fd e = 0).
Definition aside (p p' : proc) : Prop :=
  open_fds (p_trace p') = open_fds (p_trace p) ∧ pipes (p_trace p') = pipes (p_trace p) ∧
  (∀ fd, handed fd (p_trace p') = handed fd (p_trace p)) ∧
  (∀ fd, replied fd (p_trace p') = replied fd (p_trace p)) ∧
  (∀ fd, unowed fd (p_trace p') = unowed fd (p_trace p)) ∧
  (interrupted (p_trace p) ≤ interrupted (p_trace p'))%nat.
#[global] Instance aside_preorder : PreOrder aside.
Proof.
  split; [done|]. intros p1 p2 p3 (H1 & H2 & H3 & H4 & H5 & H6) (G1 & G2 & G3 & G4 & G5 & G6).
  split; [congruence|]. split; [congruence|]. split; [intros fd; by rewrite G3|]. split; [intros fd; by rewrite G4|].
  split; [intros fd; by rewrite G5|lia].
Qed.
Lemma aside_event {A} (c : sys A) a p : apart (Event c a) → aside p (add_event c a p).
Proof.
  intros (H1 & H2 & H3 & H4). unfold aside, pipes. cbn [p_trace add_event open_fds handed replied unowed interrupted mbind list_bind].
  rewrite H1, H2. split; [done|]. split; [done|]. split; [intros fd; rewrite H3; lia|]. split; [intros fd; rewrite H4; lia|].
  split; [intros fd; rewrite H4; case_match; lia|lia].
Qed.
Lemma aside_errno e p : aside p (with_errno e p).
Proof. split_and!; done. Qed.
Lemma reported_aside p p' : reported p p' → aside p p'.
Proof.
  intros [(t & Ht & Hq & _) _]. unfold aside, pipes. rewrite Ht. clear Ht.
  induction Hq as [|[A c a] t Hc _ (H1 & H2 & H3 & H4 & H5 & H6)]; [done|].
  cbn [app open_fds handed replied unowed interrupted mbind list_bind].
  destruct c; try done;
    (split; [done|split; [done|split; [intros fd; rewrite H3; simpl; lia|split; [intros fd; rewrite H4; simpl; lia|
      split; [intros fd; rewrite H5; cbn [replied1]; case_match; lia|lia]]]]]).
Qed.
Lemma sp_inv_aside base listenfd s p p' : aside p p' → sp_inv base listenfd s p → sp_inv base listenfd s p'.
Proof.
  intros (H1 & H2 & H3 & H4 & H5 & _) []. split; try done; try (by rewrite H1).
  - intros i c Hi. destruct (sp_children0 i c Hi) as (? & ? & ? & ? & ?). unfold child_ok. by rewrite H2, H3, H4, H5.
  - rewrite sp_navail0. f_equal. apply sumz_ext. intros fd _. by rewrite H5.
Qed.

(** A report ends the process after a failure. *)
Lemma exits_with {A} (m : M A) p (R : outcome A → proc → Prop) :
  post m p (λ o p', o = Exit 1 ∧ reported p p') → (∀ p', reported p p' → R (Exit 1) p') → post m p R.
Proof. intros Hm HR. eapply post_weaken; [exact Hm|]. intros o p' [-> Hr]. by apply HR. Qed.
Lemma sp_failed {A} fuel (Q : A → proc → Prop) p0 p p' e t0 :
  reported p p' → (interrupted (p_trace p0) ≤ interrupted (p_trace p))%nat →
  p_trace p = e :: t0 → failure e → sp_post fuel p0 Q (Exit 1) p'.
Proof.
  intros Hr Hi He Hf. split; [apply reported_aside in Hr as (_ & _ & _ & _ & _ & ?); lia|]. split; [done|]. left.
  destruct Hr as [(t & Ht & Hq & _) _]. exists t, e, t0. by rewrite Ht, He.
Qed.
Ltac sp_fail :=
  eapply exits_with; [lazymatch goal with |- post (err_quit _) _ _ => apply err_quit_exits | _ => apply err_sys_exits end|];
  intros ? ?; cbn [through]; eapply sp_failed; [eassumption|cbn [p_trace add_event with_errno with_block interrupted interrupted1] in *; lia|cbn; reflexivity|].

Section parent_facts.
Context {K : Kernel} {KAcc : AcceptOk K} {KSel : SelectOk K} {KPar : ParentOk K}.
Context (base : gset Z) (listenfd : Z) (fuel : nat) (p0 : proc).
Abbreviation inv := (sp_inv base listenfd).
Abbreviation since p := (interrupted (p_trace p0) ≤ interrupted (p_trace p))%nat.

Lemma pipes_add {A} (c : sys A) a p : pipes1 (Event c a) = [] → pipes (p_trace (add_event c a p)) = pipes (p_trace p).
Proof. intros H. unfold pipes. cbn [p_trace add_event mbind list_bind]. by rewrite H. Qed.

(** A connection has been accepted, passed to the available child [i] and closed here. *)
Lemma sp_inv_hand s p i c lfd connfd sa buf ctl n :
  inv s p → cptr s !! i = Some c → child_status c = 0 → connfd ∉ open_fds (p_trace p) →
  inv (Parent (alter (λ c, mkChild (child_pid c) (child_pipefd c) 1 (child_count c + 1)) i (cptr s))
         (navail s - 1) (maxfd s) (masterset s))
      (add_event (sys_close connfd) (Ok tt)
         (add_event (sys_sendmsg_ctl (child_pipefd c) buf ctl) (Ok n)
            (add_event (sys_accept lfd) (Ok (connfd, sa)) p))).
Proof.
  intros [] Hi Hst Hfresh. set (f := λ c, mkChild (child_pid c) (child_pipefd c) 1 (child_count c + 1)).
  set (p' := add_event (sys_close connfd) _ _).
  assert (Hun : ∀ fd, unowed fd (p_trace p') = unowed fd (p_trace p)) by (intros fd; unfold p'; cbn; repeat case_match; lia).
  assert (Hpf : child_pipefd <$> alter f i (cptr s) = child_pipefd <$> cptr s) by by apply pipefds_alter.
  split; cbn [cptr navail masterset]; rewrite ?Hpf; try done.
  - intros j d Hj. destruct (decide (i = j)) as [<-|Hne].
    + rewrite list_lookup_alter_eq, Hi in Hj. injection Hj as <-.
      destruct (sp_children0 i c Hi) as (_ & H2 & H3 & H4 & H5). unfold child_ok. rewrite Hun. unfold p'.
      rewrite !pipes_add by done. cbn [f child_status child_pipefd child_count p_trace add_event handed replied].
      split_and!; [by right|done| | |done]; cbn; rewrite ?Z.eqb_refl; cbn; lia.
    + rewrite list_lookup_alter_ne in Hj by done. destruct (sp_children0 j d Hj) as (H1 & H2 & H3 & H4 & H5). unfold child_ok.
      rewrite Hun. unfold p'. rewrite !pipes_add by done. split_and!; try done; cbn; [|lia].
      destruct (Z.eqb_spec (child_pipefd c) (child_pipefd d)) as [E|]; [|cbn; lia].
      destruct Hne. by eapply distinct_children.
  - unfold surplus in *. rewrite Hpf, (sumz_ext _ (λ fd, unowed fd (p_trace p))) by (intros fd _; apply Hun).
    rewrite (nready_alter f _ i c Hi). cbn. unfold ready. rewrite Hst. cbn. lia.
  - unfold p'. cbn [p_trace add_event open_fds open_after]. rewrite <- sp_open0. set_solver.
  - intros d Hd. destruct (same_pipefds _ _ _ Hpf Hd) as (d' & -> & Hd'). by apply sp_base0.
Qed.

(** Child [i] has replied. *)
Lemma sp_inv_reply s p i c n b bs :
  inv s p → cptr s !! i = Some c → answer (p_trace p) (sys_read (child_pipefd c) n) = Ok (b :: bs) →
  inv (Parent (alter (λ c, mkChild (child_pid c) (child_pipefd c) 0 (child_count c)) i (cptr s))
         (navail s + 1) (maxfd s) (masterset s))
      (add_event (sys_read (child_pipefd c) n) (Ok (b :: bs)) p).
Proof.
  intros [] Hi Hread. set (f := λ c, mkChild (child_pid c) (child_pipefd c) 0 (child_count c)).
  assert (Hpf : child_pipefd <$> alter f i (cptr s) = child_pipefd <$> cptr s) by by apply pipefds_alter.
  destruct (sp_children0 i c Hi) as (Hst & H2 & H3 & H4 & H5). set (p' := add_event _ _ p).
  assert (Hun : unowed (child_pipefd c) (p_trace p') = unowed (child_pipefd c) (p_trace p) + (1 - child_status c)).
  { unfold p'. cbn. rewrite Z.eqb_refl. cbn. case_match; zbool; lia. }
  assert (Hother : ∀ fd, fd ≠ child_pipefd c → unowed fd (p_trace p') = unowed fd (p_trace p)).
  { intros fd Hne. unfold p'. cbn. rewrite (proj2 (Z.eqb_neq (child_pipefd c) fd)) by done. cbn. case_match; lia. }
  split; cbn [cptr navail masterset]; rewrite ?Hpf; try done.
  - intros j d Hj. destruct (decide (i = j)) as [<-|Hne].
    + rewrite list_lookup_alter_eq, Hi in Hj. injection Hj as <-. unfold child_ok.
      cbn [f child_status child_pipefd child_count]. rewrite Hun. unfold p'.
      rewrite !pipes_add by done. cbn [p_trace add_event handed replied].
      split_and!; [by left|done| | |lia]; cbn; rewrite ?Z.eqb_refl; cbn; lia.
    + rewrite list_lookup_alter_ne in Hj by done. destruct (sp_children0 j d Hj) as (G1 & G2 & G3 & G4 & G5). unfold child_ok.
      assert (Hne2 : child_pipefd d ≠ child_pipefd c) by (intros E; destruct Hne; by eapply distinct_children).
      rewrite (Hother _ Hne2). unfold p'. rewrite !pipes_add by done. split_and!; try done; cbn; [lia|].
      destruct (Z.eqb_spec (child_pipefd c) (child_pipefd d)) as [E|]; [|cbn; lia].
      destruct Hne. by eapply distinct_children.
  - unfold surplus in *. rewrite Hpf. rewrite (sumz_update (λ fd, unowed fd (p_trace p)) _ _ (child_pipefd c)) by
      (done || by apply list_elem_of_fmap_2, list_elem_of_lookup_2 with i).
    rewrite (nready_alter f _ i c Hi), Hun. cbn. unfold ready. cbn. destruct Hst as [-> | ->]; cbn; lia.
  - intros d Hd. destruct (same_pipefds _ _ _ Hpf Hd) as (d' & -> & Hd'). by apply sp_base0.
Qed.

Lemma sp_accept_post s p k :
  inv s p → 0 < navail s → since p →
  (∀ s' p', inv s' p' → List.length (cptr s') = List.length (cptr s) → since p' → k s' p') →
  post (sp_accept fuel listenfd s) p (through (sp_post fuel p0 inv) k).
Proof.
  intros Hs Hav Hi Hk. apply post_bind. eapply post_weaken.
  { apply (Accept_run aside listenfd fuel p); [|reflexivity|lia|lia].
    intros e q _. etransitivity; [by apply (aside_event (sys_accept listenfd) (Err e))|apply aside_errno]. }
  intros o p1 [Hi1 Ho]. destruct o as [[connfd sa]| | | |]; cbn [through]; try done.
  2: { destruct Ho as (-> & p2 & e & Hr2 & Hr). split; [lia|]. split; [done|]. left.
       destruct Hr as [(t & Ht & Hq & _) _]. eexists t, _, _. split; [exact Ht|]. split; [done|]. by eexists. }
  2: { split; [lia|lia]. }
  destruct Ho as (p2 & Ha & Hans & ->). pose proof (sp_inv_aside _ _ _ _ _ Ha Hs) as Hs2.
  destruct (accept_fresh _ _ _ _ Hans) as [_ Hfresh].
  rewrite (sp_navail _ _ _ _ Hs2) in Hav.
  destruct (available (cptr s)) as [i|] eqn:Hi2.
  2: { apply (exits_with _ _ (through _ k)); [apply err_quit_exits|]. intros p' Hr%reported_aside. cbn [through].
       destruct Hr as (_ & Hpip & _ & _ & Hun & Hint). split; [cbn in *; lia|]. split; [done|]. right.
       assert (Hs3 : 0 < surplus (cptr s) (p_trace p2)).
       { destruct (Z.ltb_spec 0 (nready (cptr s))) as [Hn|]; [|lia]. destruct (nready_available _ Hn) as (i & c & E & _). congruence. }
       apply sumz_pos in Hs3 as (fd & Hfd & Hpos). exists fd. rewrite Hpip, Hun.
       apply list_elem_of_fmap in Hfd as (c & -> & [i Hc]%list_elem_of_lookup).
       destruct (sp_children _ _ _ _ Hs2 i c Hc) as (_ & Hp & _). split; [done|]. cbn. case_match; lia. }
  assert (Hav2 : ∃ c, cptr s !! i = Some c ∧ child_status c = 0).
  { unfold available in Hi2. destruct (list_find _ _) as [[i' c]|] eqn:E; [|done]. injection Hi2 as <-.
    apply list_find_Some in E as (? & ? & _). eauto. }
  destruct Hav2 as (c & Hc & Hst). cbn zeta.
  set (l' := alter _ i (cptr s)).
  assert (Hl' : child_pipefd (l' !!! i) = child_pipefd c).
  { unfold l'. rewrite (list_lookup_total_correct _ _ (mkChild (child_pid c) (child_pipefd c) 1 (child_count c + 1))); [done|].
    by rewrite list_lookup_alter_eq, Hc. }
  rewrite Hl'. apply post_bind. unfold Write_fd, write_fd. apply post_bind, post_bind, post_syscall; intros n Hn; cbn [through].
  2: { apply post_ret. cbn [through]. sp_fail. left. by eexists. }
  apply post_ret. cbn [through]. destruct (Z.ltb_spec n 0).
  { sp_fail. right. by eexists. }
  apply post_ret. cbn [through]. apply post_bind, post_bind, post_syscall; intros r Hr; cbn [through].
  2: { sp_fail. by eexists. }
  apply post_ret. cbn [through]. apply post_ret. destruct r. apply Hk.
  - by eapply sp_inv_hand.
  - cbn [cptr]. apply length_alter.
  - cbn in *. lia.
Qed.

Lemma sp_scan_post rset : ∀ todo i nsel s p,
  inv s p → (i + todo ≤ List.length (cptr s))%nat → since p →
  post (sp_scan todo i rset nsel s) p (sp_post fuel p0 inv).
Proof.
  induction todo as [|todo IH]; intros i nsel s p Hs Hlen Hi; cbn [sp_scan]; [by apply post_ret|].
  case_bool_decide as Hin; [|apply IH; [done|lia|done]].
  destruct (lookup_lt_is_Some_2 (cptr s) i ltac:(lia)) as [c Hc].
  rewrite (list_lookup_total_correct _ _ _ Hc).
  apply post_bind, post_bind, post_syscall; intros bs Hread; cbn [through].
  2: { sp_fail. right. by eexists. }
  apply post_ret. cbn [through].
  destruct (Z.eqb_spec (Z.of_nat (List.length bs)) 0) as [E|E]; destruct bs as [|b bs]; try (simpl in E; lia).
  { sp_fail. by left. }
  pose proof (sp_inv_reply s p i c 1 b bs Hs Hc Hread) as Hs'. cbn zeta.
  case_match; [apply post_ret; split; [cbn; lia|done]|].
  apply IH; [done|cbn [cptr]; rewrite length_alter; lia|cbn; lia].
Qed.

Lemma sp_step_post s p : inv s p → since p → post (sp_step fuel listenfd s) p (sp_post fuel p0 inv).
Proof.
  intros Hs Hi. unfold sp_step. cbn zeta. set (rset0 := if navail s <=? 0 then _ else _).
  apply post_bind, post_bind, post_syscall; intros a Hsel; cbn [through].
  2: { sp_fail. by eexists. }
  apply post_ret. destruct a as [rset wset]. cbn [through]. cbn zeta.
  destruct (select_asked _ _ _ _ _ _ Hsel) as [Hsub _].
  assert (Hs1 : inv s (add_event (sys_select (elements rset0) [] None) (Ok (rset, wset)) p)).
  { eapply sp_inv_aside; [|exact Hs]. by apply aside_event. }
  case_bool_decide as Hl; [|apply sp_scan_post; [done|lia|cbn; lia]].
  apply post_bind, sp_accept_post; [done| |cbn; lia|].
  - apply Hsub, elem_of_elements in Hl. unfold rset0 in Hl. destruct (Z.leb_spec (navail s) 0); [set_solver|done].
  - intros s' p' Hs' Hlen Hi'. case_match; [by apply post_ret|]. apply sp_scan_post; [done|lia|done].
Qed.

Lemma sp_loop_post turns s p : inv s p → since p → post (sp_loop turns fuel listenfd s) p (sp_post fuel p0 inv).
Proof.
  revert s p. induction turns as [|t IH]; intros s p Hs Hi; cbn [sp_loop]; [by apply post_ret|].
  apply post_bind. eapply post_weaken; [by apply sp_step_post|].
  intros o p1 Ho. destruct o as [s1| | | |]; cbn [through]; try apply Ho. destruct Ho. by apply IH.
Qed.
End parent_facts.

(** ** Starting the children *)

(** While the children are created, [todo] of them are left. *)
Definition starting (base : gset Z) (listenfd : Z) (todo : nat) (s : parent) (p : proc) : Prop :=
  sp_inv base listenfd (Parent (cptr s) (navail s - Z.of_nat todo) (maxfd s) (masterset s)) p ∧
  (∀ fd, fd ∉ child_pipefd <$> cptr s → handed fd (p_trace p) = 0 ∧ replied fd (p_trace p) = 0) ∧
  ∀ fd, unowed fd (p_trace p) = 0.

Lemma nready_app l1 l2 : nready (l1 ++ l2) = nready l1 + nready l2.
Proof. induction l1 as [|c l1 IH]; [done|]. simpl. lia. Qed.

Lemma starting_add base listenfd todo s p a b pid :
  starting base listenfd (S todo) s p → a ∉ open_fds (p_trace p) → b ∉ open_fds (p_trace p) → a ≠ b →
  let p' := add_event (sys_close b) (Ok tt) (add_event sys_fork (Ok pid)
              (add_event (sys_socketpair AF_LOCAL SOCK_STREAM 0) (Ok (a, b)) p)) in
  starting base listenfd todo
    (Parent (cptr s ++ [mkChild pid a 0 0]) (navail s) (Z.max (maxfd s) a) ({[a]} ∪ masterset s)) p'.
Proof.
  intros [[] [Hzero Hunz]] Ha Hb Hab p'. cbn [cptr navail maxfd masterset] in *.
  assert (Hfresh : a ∉ child_pipefd <$> cptr s) by (rewrite sp_open0 in Ha; set_solver).
  assert (Hpip : pipes (p_trace p') = a :: pipes (p_trace p)) by done.
  assert (Hh : ∀ fd, handed fd (p_trace p') = handed fd (p_trace p)) by (intros fd; cbn; lia).
  assert (Hr : ∀ fd, replied fd (p_trace p') = replied fd (p_trace p)) by (intros fd; cbn; lia).
  assert (Hu : ∀ fd, unowed fd (p_trace p') = 0) by (intros fd; cbn; rewrite Hunz; repeat case_match; lia).
  split; [split|]; cbn [cptr navail maxfd masterset]; rewrite ?fmap_app; cbn [fmap list_fmap child_pipefd].
  - intros i c Hi. unfold child_ok. rewrite Hpip, Hh, Hr, Hu.
    apply lookup_app_Some in Hi as [Hi|[_ Hi]].
    + destruct (sp_children0 i c Hi) as (? & ? & ? & H4 & ?). rewrite Hunz in H4. split_and!; try done. by right.
    + apply list_lookup_singleton_Some in Hi as [_ <-]. cbn. destruct (Hzero a Hfresh) as [-> ->].
      by split_and!; [left|left|..].
  - apply NoDup_app. split; [done|]. split; [|apply NoDup_singleton].
    intros x Hx ->%list_elem_of_singleton. done.
  - rewrite nready_app. unfold surplus in *. rewrite fmap_app, sumz_app. cbn [sumz fmap list_fmap child_pipefd]. rewrite Hu.
    rewrite (sumz_ext _ (λ fd, unowed fd (p_trace p))) by (intros fd _; by rewrite Hu, Hunz). cbn. lia.
  - rewrite sp_master0, list_to_set_app_L. set_solver.
  - cbn [p' p_trace add_event open_fds open_after]. rewrite sp_open0, list_to_set_app_L. rewrite sp_open0 in Hb. set_solver.
  - intros c. rewrite elem_of_app, list_elem_of_singleton. intros [Hc| ->]; [by apply sp_base0|].
    cbn. rewrite sp_open0 in Ha. set_solver.
  - done.
  - split; [|done]. intros fd. rewrite elem_of_app. intros Hfd. rewrite Hh, Hr. apply Hzero. tauto.
Qed.

Lemma starting_init listenfd n base p :
  listenfd ∈ base → open_fds (p_trace p) = base →
  (∀ fd, handed fd (p_trace p) = 0 ∧ replied fd (p_trace p) = 0) → (∀ fd, unowed fd (p_trace p) = 0) →
  starting base listenfd n (Parent [] (Z.of_nat n) listenfd ({[listenfd]} ∪ ∅)) p.
Proof.
  intros Hl Ho Hz Hu. split; [split|]; cbn; try done; try lia.
  - by constructor.
  - rewrite Ho. by rewrite (right_id_L ∅ (∪)).
  - by intros c ?%not_elem_of_nil.
Qed.

(** Where nobody has replied, nobody has spoken out. *)
Lemma replied1_nonneg fd e : 0 ≤ replied1 fd e.
Proof.
  destruct e as [A c a]. destruct c; cbn; try lia. destruct a as [[|b bs]|]; [lia| |lia]. by destruct (_ =? _).
Qed.
Lemma idle_unowed t : (∀ fd, replied fd t = 0) → ∀ fd, unowed fd t = 0.
Proof.
  intros Ht fd. assert (H : ∀ t, 0 ≤ unowed fd t ≤ replied fd t).
  { clear. induction t as [|e t IH]; cbn [unowed replied]; [lia|]. pose proof (replied1_nonneg fd e). case_match; lia. }
  specialize (H t). rewrite Ht in H. lia.
Qed.

Section start_facts.
Context {K : Kernel} {KPar : ParentOk K}.

Lemma make_children_post base turns fuel result listenfd p0 : ∀ todo s p,
  starting base listenfd todo s p → (interrupted (p_trace p0) ≤ interrupted (p_trace p))%nat →
  post (make_children turns fuel result listenfd todo s) p (sp_post fuel p0 (starting base listenfd 0)).
Proof.
  induction todo as [|todo IH]; intros s p Hs Hi; cbn [make_children]; [by apply post_ret|].
  apply post_bind. unfold child_make. apply post_bind, post_bind, post_syscall; intros r Hr; cbn [through].
  2: { sp_fail. by eexists. }
  apply post_ret. destruct r as [a b]. cbn [through].
  destruct (socketpair_fresh _ _ _ _ _ _ Hr) as (_ & _ & Hab & Ha & Hb).
  apply post_bind, post_bind, post_syscall; intros pid Hpid; cbn [through].
  2: { sp_fail. by eexists. }
  apply post_ret. cbn [through]. rewrite (proj2 (Z.ltb_lt 0 pid)) by (by apply fork_parent in Hpid).
  apply post_bind, post_bind, post_syscall; intros u Hu; cbn [through].
  2: { sp_fail. by eexists. }
  apply post_ret. cbn [through]. apply post_ret. cbn [through child_pipefd]. destruct u.
  apply post_bind. unfold fd_set_add. destruct (Z.leb_spec FD_SETSIZE a).
  - apply post_stop. split; [cbn; lia|]. exists a. split; [done|]. cbn. set_solver.
  - apply post_ret. cbn [through]. apply IH; [by apply (starting_add base listenfd todo s p a b pid)|cbn; lia].
Qed.
End start_facts.

(** ** Properties *)


(** Children that reply at once and clients that keep coming. *)
Definition crowd : Kernel := λ A t c,
  (match c in sys A return A → A with
   | sys_socketpair _ _ _ => λ _, Ok (next_fd (open_fds t), next_fd (open_fds t) + 1)
   | sys_fork => λ _, Ok 100
   | sys_accept _ => λ _, Ok (next_fd (open_fds t), SaOther 0 [])
   | sys_select r _ _ => λ _, Ok (filter (λ fd, fd = 3 ∨ replied fd t < handed fd t) r, [])
   | sys_read fd _ => λ _, if replied fd t <? handed fd t then Ok [0] else Err 11
   | _ => λ a, a
   end) (plain t c).
Lemma crowd_ok : AcceptOk crowd ∧ SelectOk crowd ∧ ParentOk crowd.
Proof.
  assert (Hmax : ∀ fds : gset Z, next_fd fds + 1 ∉ fds).
  { intros fds Hin. pose proof (next_fd_above fds (next_fd fds + 1) Hin). lia. }
  split_and!; split.
  - intros t f fd sa [= <- _]. apply next_fd_fresh.
  - intros t r w tm r' w' [= <- <-]. split; [intros x [_ ?]%list_elem_of_filter; done|intros x Hx; by apply not_elem_of_nil in Hx].
  - intros t f ty pr a b [= <- <-]. destruct (next_fd_fresh (open_fds t)). split; [done|split; [lia|split; [lia|split; [done|apply Hmax]]]].
  - intros t pid [= <-]. done.
Qed.
Definition listening : proc := add_event (sys_socket AF_INET SOCK_STREAM 0) (Ok 3) proc0.
