(* ===== verification/Pool.v ===== *)
(** The prethreaded server whose main thread accepts: src/unpv13e/server
    (serv08.c, pthread08.c, pthread08.h).

    The main thread puts accepted descriptors in the ring [clifd], the other
    threads take them out, under one mutex and one condition variable.  A state
    is the shared variables with the program counter of every thread; a step
    executes one statement of one thread, so that the executions are all the
    interleavings.  The threads are created before the first step; a call that
    fails ends the process and has no step. *)
From S2P Require Import Prelude.

Definition MAXNCLI : nat := 32.

(** Where the main thread is in its loop. *)
Inductive main_pc :=
| M_accept                 (** [connfd = Accept(...)] *)
| M_lock (connfd : Z)      (** [Pthread_mutex_lock(&clifd_mutex)] *)
| M_store (connfd : Z)     (** [clifd\[iput\] = connfd] *)
| M_advance (connfd : Z)   (** [++iput] and the two tests *)
| M_signal                 (** [Pthread_cond_signal(&clifd_cond)] *)
| M_unlock.                (** [Pthread_mutex_unlock(&clifd_mutex)] *)

(** Where a thread is in [thread_main]. *)
Inductive worker_pc :=
| W_lock                   (** [Pthread_mutex_lock(&clifd_mutex)] *)
| W_test                   (** [while (iget == iput)] *)
| W_wait                   (** blocked in [Pthread_cond_wait] *)
| W_relock                 (** woken, about to lock the mutex again *)
| W_get                    (** [connfd = clifd\[iget\]] *)
| W_advance (connfd : Z)   (** [++iget] and its test *)
| W_unlock (connfd : Z)    (** [Pthread_mutex_unlock(&clifd_mutex)] *)
| W_count (connfd : Z)     (** [tptr\[i\].thread_count++] *)
| W_serve (connfd : Z)     (** [web_child(connfd)] *)
| W_close (connfd : Z).    (** [Close(connfd)] *)

Inductive tid := Main | Worker (i : nat).

Record worker := Wk { pc : worker_pc; thread_count : Z }.

Record pool := Pool {
  clifd : list Z;
  iget : nat;
  iput : nat;
  clifd_mutex : option tid;     (** the thread that holds it *)
  main : main_pc;
  tptr : list worker
}.

(** What a step does that is visible outside: a connection is accepted, taken
    by a thread, closed by a thread. *)
Inductive label := Accepted (connfd : Z) | Taken (i : nat) (connfd : Z) | Closed (i : nat) (connfd : Z) | Tau.

(** A statement executed, or the end of the process by [err_quit]. *)
Inductive result := Next (l : label) (s : pool) | Quit.

(** [++i] with its test. *)
Definition advance (i : nat) : nat := if Nat.eqb (S i) MAXNCLI then 0%nat else S i.

Definition set_main (m : main_pc) (s : pool) : pool :=
  Pool (clifd s) (iget s) (iput s) (clifd_mutex s) m (tptr s).
Definition set_mutex (o : option tid) (s : pool) : pool :=
  Pool (clifd s) (iget s) (iput s) o (main s) (tptr s).
Definition set_pc (i : nat) (p : worker_pc) (s : pool) : pool :=
  Pool (clifd s) (iget s) (iput s) (clifd_mutex s) (main s) (alter (λ w, Wk p (thread_count w)) i (tptr s)).

Definition is_waiting (w : worker) : bool := match pc w with W_wait => true | _ => false end.

(** ** serv08.c

    [connfd] is what [Accept] returns; [woken] is the thread that
    [Pthread_cond_signal] wakes, one if any waits.  [None]: blocked. *)
Definition main_step (connfd : Z) (woken : option nat) (s : pool) : option result :=
  match main s with
  | M_accept => Some (Next (Accepted connfd) (set_main (M_lock connfd) s))
  | M_lock c =>
      match clifd_mutex s with
      | None => Some (Next Tau (set_main (M_store c) (set_mutex (Some Main) s)))
      | Some _ => None
      end
  | M_store c =>
      Some (Next Tau (Pool (<[iput s := c]> (clifd s)) (iget s) (iput s) (clifd_mutex s) (M_advance c) (tptr s)))
  | M_advance c =>
      let iput := advance (iput s) in
      if Nat.eqb iput (iget s) then Some Quit
      else Some (Next Tau (Pool (clifd s) (iget s) iput (clifd_mutex s) M_signal (tptr s)))
  | M_signal =>
      match woken with
      | None => if existsb is_waiting (tptr s) then None else Some (Next Tau (set_main M_unlock s))
      | Some i =>
          match tptr s !! i with
          | Some w => if is_waiting w then Some (Next Tau (set_main M_unlock (set_pc i W_relock s))) else None
          | None => None
          end
      end
  | M_unlock => Some (Next Tau (set_main M_accept (set_mutex None s)))
  end.

(** ** pthread08.c *)

Definition worker_step (i : nat) (s : pool) : option result :=
  match tptr s !! i with
  | None => None
  | Some w =>
      match pc w with
      | W_lock | W_relock =>
          match clifd_mutex s with
          | None => Some (Next Tau (set_pc i W_test (set_mutex (Some (Worker i)) s)))
          | Some _ => None
          end
      | W_test =>
          if Nat.eqb (iget s) (iput s) then Some (Next Tau (set_pc i W_wait (set_mutex None s)))
          else Some (Next Tau (set_pc i W_get s))
      | W_wait => None
      | W_get => Some (Next Tau (set_pc i (W_advance (clifd s !!! iget s)) s))
      | W_advance c =>
          Some (Next (Taken i c) (set_pc i (W_unlock c)
                  (Pool (clifd s) (advance (iget s)) (iput s) (clifd_mutex s) (main s) (tptr s))))
      | W_unlock c => Some (Next Tau (set_pc i (W_count c) (set_mutex None s)))
      | W_count c =>
          Some (Next Tau (Pool (clifd s) (iget s) (iput s) (clifd_mutex s) (main s)
                  (alter (λ w, Wk (W_serve c) (thread_count w + 1)) i (tptr s))))
      | W_serve c => Some (Next Tau (set_pc i (W_close c) s))
      | W_close c => Some (Next (Closed i c) (set_pc i W_lock s))
      end
  end.

(** The steps of the process; a thread may also wake up without a signal. *)
Inductive step : pool → label → pool → Prop :=
| step_main connfd woken s l s' : main_step connfd woken s = Some (Next l s') → step s l s'
| step_worker i s l s' : worker_step i s = Some (Next l s') → step s l s'
| step_spurious i w s : tptr s !! i = Some w → pc w = W_wait → step s Tau (set_pc i W_relock s).

(** Executions, with the labels of their steps in order. *)
Inductive steps : pool → list label → pool → Prop :=
| steps_nil s : steps s [] s
| steps_snoc s1 tr s2 l s3 : steps s1 tr s2 → step s2 l s3 → steps s1 (tr ++ [l]) s3.

(** Executions from a schedule: who moves next, and what [Accept] returns or
    whom the signal wakes. *)
Inductive turn := T_main (connfd : Z) (woken : option nat) | T_worker (i : nat).
Definition run1 (t : turn) (s : pool) : option result :=
  match t with T_main c woken => main_step c woken s | T_worker i => worker_step i s end.
Fixpoint run (ts : list turn) (s : pool) : option (list label * pool) :=
  match ts with
  | [] => Some ([], s)
  | t :: ts' =>
      match run1 t s with
      | Some (Next l s1) =>
          match run ts' s1 with Some (tr, s2) => Some (l :: tr, s2) | None => None end
      | _ => None
      end
  end.

Definition pool_init (nthreads : nat) : pool :=
  Pool (replicate MAXNCLI 0) 0 0 None M_accept (replicate nthreads (Wk W_lock 0)).

(** ** Specification: a queue *)

(** The connections accepted, taken (by anyone, by thread [i]) and closed in an
    execution. *)
Definition accepted1 (l : label) : list Z := match l with Accepted c => [c] | _ => [] end.
Definition taken1 (l : label) : list Z := match l with Taken _ c => [c] | _ => [] end.
Definition taken_by1 (i : nat) (l : label) : list Z :=
  match l with Taken j c => if Nat.eqb j i then [c] else [] | _ => [] end.
Definition closed_by1 (i : nat) (l : label) : list Z :=
  match l with Closed j c => if Nat.eqb j i then [c] else [] | _ => [] end.
Definition accepted (tr : list label) : list Z := tr ≫= accepted1.
Definition taken (tr : list label) : list Z := tr ≫= taken1.
Definition taken_by (i : nat) (tr : list label) : list Z := tr ≫= taken_by1 i.
Definition closed_by (i : nat) (tr : list label) : list Z := tr ≫= closed_by1 i.

(** The number of descriptors in the ring, and the ring from [iget] on. *)
Definition pending_count (s : pool) : nat :=
  if (iget s <=? iput s)%nat then (iput s - iget s)%nat else (iput s + MAXNCLI - iget s)%nat.
Definition slot (g k : nat) : nat := if (g + k <? MAXNCLI)%nat then (g + k)%nat else (g + k - MAXNCLI)%nat.
Definition ring (clifd : list Z) (g n : nat) : list Z := (λ k, clifd !!! slot g k) <$> seq 0 n.
Definition queue (s : pool) : list Z := ring (clifd s) (iget s) (pending_count s).

(** The connection the main thread has accepted and not yet put in the queue,
    and the one a thread has taken and not yet closed. *)
Definition in_hand (m : main_pc) : list Z :=
  match m with M_lock c | M_store c | M_advance c => [c] | _ => [] end.
Definition holding (p : worker_pc) : list Z :=
  match p with W_unlock c | W_count c | W_serve c | W_close c => [c] | _ => [] end.

(** The critical sections. *)
Definition main_inside (m : main_pc) : bool :=
  match m with M_store _ | M_advance _ | M_signal | M_unlock => true | _ => false end.
Definition worker_inside (p : worker_pc) : bool :=
  match p with W_test | W_get | W_advance _ | W_unlock _ => true | _ => false end.

(** Threads that will look at the queue without being woken. *)
Definition awake (p : worker_pc) : bool :=
  match p with W_lock | W_test | W_relock | W_get | W_advance _ => true | _ => false end.

(** How many threads are at a point that satisfies [P]. *)
Abbreviation wcount P := (countb (λ w, P (pc w))).
Definition waiting (p : worker_pc) : bool := match p with W_wait => true | _ => false end.

(** ** The invariant *)

Record pool_inv (n : nat) (tr : list label) (s : pool) : Prop := {
  pi_clifd : List.length (clifd s) = MAXNCLI;
  pi_iget : (iget s < MAXNCLI)%nat;
  pi_iput : (iput s < MAXNCLI)%nat;
  pi_threads : List.length (tptr s) = n;
  pi_main : main_inside (main s) = true ↔ clifd_mutex s = Some Main;
  pi_worker : ∀ i w, tptr s !! i = Some w → worker_inside (pc w) = true ↔ clifd_mutex s = Some (Worker i);
  pi_owner : ∀ i, clifd_mutex s = Some (Worker i) → is_Some (tptr s !! i);
  pi_stored : ∀ c, main s = M_advance c → clifd s !!! iput s = c;
  pi_get : ∀ i w, tptr s !! i = Some w → pc w = W_get → iget s ≠ iput s;
  pi_got : ∀ i w c, tptr s !! i = Some w → pc w = W_advance c → iget s ≠ iput s ∧ clifd s !!! iget s = c;
  pi_fifo : accepted tr = taken tr ++ queue s ++ in_hand (main s);
  pi_taken : ∀ i w, tptr s !! i = Some w → taken_by i tr = closed_by i tr ++ holding (pc w);
  pi_count : ∀ i w, tptr s !! i = Some w →
    Z.of_nat (List.length (taken_by i tr)) =
      thread_count w + match pc w with W_unlock _ | W_count _ => 1 | _ => 0 end
}.

(** No lost wakeup: when threads wait, enough others are awake, or about to be
    woken, to take what the queue holds. *)
Definition alert (s : pool) : Prop :=
  wcount waiting (tptr s) = 0 ∨
  Z.of_nat (pending_count s) ≤ wcount awake (tptr s) + match main s with M_signal => 1 | _ => 0 end.

(** ** The ring *)

Lemma slot_bound g k : (g < MAXNCLI → k < MAXNCLI → slot g k < MAXNCLI)%nat.
Proof. unfold slot, MAXNCLI. intros. destruct (Nat.ltb_spec (g + k) 32); lia. Qed.
Lemma pending_bound s : (iget s < MAXNCLI → iput s < MAXNCLI → pending_count s < MAXNCLI)%nat.
Proof. unfold pending_count, MAXNCLI. intros. destruct (Nat.leb_spec (iget s) (iput s)); lia. Qed.
Lemma slot_pending s : (iget s < MAXNCLI → iput s < MAXNCLI → slot (iget s) (pending_count s) = iput s)%nat.
Proof.
  unfold slot, pending_count, MAXNCLI. intros.
  destruct (Nat.leb_spec (iget s) (iput s)); case_match eqn:E;
    [apply Nat.ltb_lt in E|apply Nat.ltb_ge in E|apply Nat.ltb_lt in E|apply Nat.ltb_ge in E]; lia.
Qed.
Lemma pending_zero s : (iget s < MAXNCLI → iput s < MAXNCLI → pending_count s = 0 ↔ iget s = iput s)%nat.
Proof. unfold pending_count, MAXNCLI. intros. destruct (Nat.leb_spec (iget s) (iput s)); lia. Qed.
Lemma advance_bound i : (i < MAXNCLI → advance i < MAXNCLI)%nat.
Proof. unfold advance, MAXNCLI. intros. destruct (Nat.eqb_spec (S i) 32); lia. Qed.

Lemma ring_snoc l g n : ring l g (S n) = ring l g n ++ [l !!! slot g n].
Proof. unfold ring. rewrite seq_S, fmap_app. done. Qed.
Lemma ring_cons l g n : (g < MAXNCLI → n < MAXNCLI → ring l g (S n) = l !!! g :: ring l (advance g) n)%nat.
Proof.
  intros Hg. induction n as [|n IH]; intros Hn.
  - unfold ring, slot. simpl. rewrite Nat.add_0_r. by destruct (Nat.ltb_spec g MAXNCLI); [|lia].
  - rewrite ring_snoc, IH by lia. rewrite (ring_snoc l (advance g)). assert (slot (advance g) n = slot g (S n)) as ->; [|done].
    unfold slot, advance, MAXNCLI in *.
    destruct (Nat.eqb_spec (S g) 32), (Nat.ltb_spec (g + S n) 32); case_match eqn:E;
      (apply Nat.ltb_lt in E || apply Nat.ltb_ge in E); lia.
Qed.
Lemma ring_insert l g n c i :
  (∀ k, (k < n)%nat → slot g k ≠ i) → ring (<[i := c]> l) g n = ring l g n.
Proof.
  intros H. unfold ring. apply list_fmap_ext. intros k x Hk. apply lookup_seq in Hk as [-> Hk].
  rewrite list_lookup_total_insert_ne; [done|]. intros E. by apply (H k).
Qed.

(** The queue after a store at [iput], and when the indices advance. *)
Lemma queue_store s c :
  (iget s < MAXNCLI → iput s < MAXNCLI →
   ring (<[iput s := c]> (clifd s)) (iget s) (pending_count s) = queue s)%nat.
Proof.
  intros Hg Hp. apply ring_insert. intros k Hk E. pose proof (pending_bound s Hg Hp).
  rewrite <- (slot_pending s Hg Hp) in E. unfold slot, MAXNCLI in *.
  destruct (Nat.ltb_spec (iget s + k) 32), (Nat.ltb_spec (iget s + pending_count s) 32); lia.
Qed.
Lemma pending_put s l o m t :
  (iget s < MAXNCLI → iput s < MAXNCLI → advance (iput s) ≠ iget s →
   pending_count (Pool l (iget s) (advance (iput s)) o m t) = S (pending_count s))%nat.
Proof.
  unfold pending_count, advance, MAXNCLI. cbn [iget iput]. intros.
  destruct (Nat.eqb_spec (S (iput s)) 32), (Nat.leb_spec (iget s) (iput s)); case_match eqn:E;
    (apply Nat.leb_le in E || apply Nat.leb_gt in E); lia.
Qed.
Lemma pending_get s l o m t :
  (iget s < MAXNCLI → iput s < MAXNCLI → iget s ≠ iput s →
   pending_count s = S (pending_count (Pool l (advance (iget s)) (iput s) o m t)))%nat.
Proof.
  unfold pending_count, advance, MAXNCLI. cbn [iget iput]. intros.
  destruct (Nat.eqb_spec (S (iget s)) 32), (Nat.leb_spec (iget s) (iput s)); case_match eqn:E;
    (apply Nat.leb_le in E || apply Nat.leb_gt in E); lia.
Qed.

(** ** The threads *)

Lemma bind_snoc {A} (f : label → list A) tr l : (tr ++ [l]) ≫= f = (tr ≫= f) ++ f l.
Proof. rewrite bind_app. simpl. by rewrite app_nil_r. Qed.

Definition uncounted (p : worker_pc) : Z := match p with W_unlock _ | W_count _ => 1 | _ => 0 end.

(** A step of the main thread that leaves the others alone. *)
Lemma main_inv n tr s l s' :
  pool_inv n tr s → iget s' = iget s → tptr s' = tptr s →
  List.length (clifd s') = MAXNCLI → (iput s' < MAXNCLI)%nat →
  (main_inside (main s') = true ↔ clifd_mutex s' = Some Main) →
  (∀ j, clifd_mutex s' = Some (Worker j) ↔ clifd_mutex s = Some (Worker j)) →
  (∀ c, main s' = M_advance c → clifd s' !!! iput s' = c) →
  ((clifd s' = clifd s ∧ iput s' = iput s) ∨ clifd_mutex s = Some Main) →
  accepted tr ++ accepted1 l = taken tr ++ queue s' ++ in_hand (main s') →
  taken1 l = [] → (∀ j, taken_by1 j l = [] ∧ closed_by1 j l = []) →
  pool_inv n (tr ++ [l]) s'.
Proof.
  intros [] Eg Et Hl Hp Hm Hw Hs Hsame Hf Ht Hj.
  assert (Hno : clifd_mutex s = Some Main → ∀ i w, tptr s !! i = Some w → worker_inside (pc w) = false).
  { intros Hmm i w Hi. destruct (worker_inside (pc w)) eqn:E; [|done]. apply (pi_worker0 i w Hi) in E. congruence. }
  split; unfold accepted, taken, taken_by, closed_by; rewrite ?Eg, ?Et, ?bind_snoc, ?Ht, ?app_nil_r; try done.
  - intros i w Hi. by rewrite (pi_worker0 i w Hi), Hw.
  - intros i Hi. by apply pi_owner0, Hw.
  - intros i w Hi Hpc. destruct Hsame as [[_ ->]|Hmm]; [by eapply pi_get0|].
    specialize (Hno Hmm i w Hi). by rewrite Hpc in Hno.
  - intros i w c Hi Hpc. destruct Hsame as [[-> ->]|Hmm]; [by eapply pi_got0|].
    specialize (Hno Hmm i w Hi). by rewrite Hpc in Hno.
  - intros i w Hi. rewrite !bind_snoc. destruct (Hj i) as [-> ->]. rewrite !app_nil_r. by apply pi_taken0.
  - intros i w Hi. rewrite bind_snoc. destruct (Hj i) as [-> _]. rewrite app_nil_r. by apply pi_count0.
Qed.

(** A step of thread [i], from [w] to [f w]. *)
Lemma worker_inv n tr s l s' i w f :
  pool_inv n tr s → tptr s !! i = Some w →
  clifd s' = clifd s → iput s' = iput s → main s' = main s → tptr s' = alter f i (tptr s) →
  (iget s' < MAXNCLI)%nat → (iget s' = iget s ∨ clifd_mutex s = Some (Worker i)) →
  (clifd_mutex s' = Some Main ↔ clifd_mutex s = Some Main) →
  (∀ j, j ≠ i → clifd_mutex s' = Some (Worker j) ↔ clifd_mutex s = Some (Worker j)) →
  (worker_inside (pc (f w)) = true ↔ clifd_mutex s' = Some (Worker i)) →
  (pc (f w) = W_get → iget s' ≠ iput s) →
  (∀ c, pc (f w) = W_advance c → iget s' ≠ iput s ∧ clifd s !!! iget s' = c) →
  accepted1 l = [] → queue s = taken1 l ++ queue s' →
  (∀ j, j ≠ i → taken_by1 j l = [] ∧ closed_by1 j l = []) →
  holding (pc w) ++ taken_by1 i l = closed_by1 i l ++ holding (pc (f w)) →
  Z.of_nat (List.length (taken_by1 i l)) + thread_count w + uncounted (pc w) =
    thread_count (f w) + uncounted (pc (f w)) →
  pool_inv n (tr ++ [l]) s'.
Proof.
  intros [] Hi Ec Ep Em Et Hg Hgs Hmm Hmw Hin Hget Hgot Ha Hq Hother Hhold Hcount.
  assert (Hno : clifd_mutex s = Some (Worker i) → ∀ j v, j ≠ i → tptr s !! j = Some v → worker_inside (pc v) = false).
  { intros Hmi j v Hne Hj. destruct (worker_inside (pc v)) eqn:E; [|done]. apply (pi_worker0 j v Hj) in E. congruence. }
  split; unfold accepted, taken, taken_by, closed_by; rewrite ?Ec, ?Ep, ?Em, ?Et, ?bind_snoc, ?Ha, ?app_nil_r; try done.
  - by rewrite length_alter.
  - by rewrite pi_main0.
  - intros j v Hj. apply lookup_alter_inv in Hj as [(<- & w' & Hw & ->)|[Hne Hj]]; [by simplify_eq|].
    by rewrite (pi_worker0 j v Hj), Hmw.
  - intros j Hj. destruct (decide (j = i)) as [->|Hne]; [rewrite list_lookup_alter_eq, Hi; by eexists|].
    rewrite list_lookup_alter_ne by done. by apply pi_owner0, Hmw.
  - intros j v Hj Hpc. apply lookup_alter_inv in Hj as [(<- & w' & Hw & ->)|[Hne Hj]]; [simplify_eq; by apply Hget|].
    destruct Hgs as [->|Hmi]; [by eapply pi_get0|]. specialize (Hno Hmi j v ltac:(done) Hj). by rewrite Hpc in Hno.
  - intros j v c Hj Hpc. apply lookup_alter_inv in Hj as [(<- & w' & Hw & ->)|[Hne Hj]]; [simplify_eq; by apply Hgot|].
    destruct Hgs as [->|Hmi]; [by eapply pi_got0|]. specialize (Hno Hmi j v ltac:(done) Hj). by rewrite Hpc in Hno.
  - unfold accepted, taken in pi_fifo0. rewrite pi_fifo0, Hq, <- !app_assoc. done.
  - intros j v Hj. rewrite !bind_snoc.
    apply lookup_alter_inv in Hj as [(<- & w' & Hw & ->)|[Hne Hj]].
    + simplify_eq. pose proof (pi_taken0 _ _ Hi) as E. unfold taken_by, closed_by in E.
      rewrite E, <- !app_assoc. by rewrite Hhold.
    + destruct (Hother j) as [-> ->]; [done|]. rewrite !app_nil_r. by apply pi_taken0.
  - intros j v Hj. rewrite bind_snoc.
    apply lookup_alter_inv in Hj as [(<- & w' & Hw & ->)|[Hne Hj]].
    + simplify_eq. pose proof (pi_count0 _ _ Hi) as E. unfold taken_by in E.
      rewrite length_app. unfold uncounted in Hcount. lia.
    + destruct (Hother j) as [-> _]; [done|]. rewrite app_nil_r. by apply pi_count0.
Qed.

Lemma worker_alert s s' i w f :
  alert s → tptr s !! i = Some w → main s' = main s → tptr s' = alter f i (tptr s) →
  (pending_count s' = 0%nat ∨
   waiting (pc (f w)) = false ∧
   Z.of_nat (pending_count s') - Z.of_nat (pending_count s) ≤ Z.b2z (awake (pc (f w))) - Z.b2z (awake (pc w))) →
  alert s'.
Proof.
  intros Ha Hi Em Et Hp. unfold alert. rewrite Em.
  pose proof (countb_nonneg (λ w, awake (pc w)) (tptr s')). destruct Hp as [->|[Hw Hp]]; [right; case_match; lia|].
  rewrite Et, !(countb_alter _ _ _ _ _ Hi), Hw.
  destruct Ha as [H0|Ha]; [left; pose proof (countb_zero _ _ _ _ H0 Hi : waiting (pc w) = false) as E; by rewrite H0, E|].
  right. lia.
Qed.

(** The side conditions of a step that does not touch the ring. *)
Ltac worker_tac s i f Hs Ha Hi Em :=
  split;
  [ eapply (worker_inv _ _ _ _ _ i _ f Hs Hi);
    cbn; rewrite ?Em, ?Nat.eqb_refl; try done; try (by left); try lia; try naive_solver
  | eapply (worker_alert s _ i _ f Ha Hi); try done;
    right; split; [done|]; unfold pending_count; cbn -[Nat.leb Nat.sub Z.of_nat]; lia ].

(** The step of thread [i] at each point of its loop. *)
Lemma worker_step_inv n tr s i l s' :
  pool_inv n tr s → alert s → worker_step i s = Some (Next l s') → pool_inv n (tr ++ [l]) s' ∧ alert s'.
Proof.
  intros Hs Ha Hstep. unfold worker_step in Hstep. destruct (tptr s !! i) as [[p k]|] eqn:Hi; [|done].
  pose proof (pi_worker _ _ _ Hs i _ Hi) as Hin. pose proof (pi_iget _ _ _ Hs) as Hg. pose proof (pi_iput _ _ _ Hs) as Hp.
  cbn [pc] in *.
  destruct p as [| | | | |c|c|c|c|c].
  - destruct (clifd_mutex s) as [t|] eqn:Em; simplify_eq.
    worker_tac s i (λ w, Wk W_test (thread_count w)) Hs Ha Hi Em.
  - assert (Em : clifd_mutex s = Some (Worker i)) by by apply Hin.
    destruct (Nat.eqb_spec (iget s) (iput s)) as [He|He]; simplify_eq.
    + apply (pending_zero s Hg Hp) in He.
      split; [|eapply (worker_alert s _ i _ (λ w, Wk W_wait (thread_count w)) Ha Hi); try done; by left].
      eapply (worker_inv _ _ _ _ _ i _ (λ w, Wk W_wait (thread_count w)) Hs Hi);
        cbn; rewrite ?Em, ?Nat.eqb_refl; try done; try (by left); try naive_solver.
    + worker_tac s i (λ w, Wk W_get (thread_count w)) Hs Ha Hi Em.
  - done.
  - destruct (clifd_mutex s) as [t|] eqn:Em; simplify_eq.
    worker_tac s i (λ w, Wk W_test (thread_count w)) Hs Ha Hi Em.
  - assert (Em : clifd_mutex s = Some (Worker i)) by by apply Hin. simplify_eq.
    pose proof (pi_get _ _ _ Hs i _ Hi eq_refl).
    worker_tac s i (λ w, Wk (W_advance (clifd s !!! iget s)) (thread_count w)) Hs Ha Hi Em.
  - assert (Em : clifd_mutex s = Some (Worker i)) by by apply Hin. simplify_eq.
    destruct (pi_got _ _ _ Hs i _ c Hi eq_refl) as [Hne Hc].
    pose proof (pending_get s (clifd s) (clifd_mutex s) (main s) (alter (λ w, Wk (W_unlock c) (thread_count w)) i (tptr s)) Hg Hp Hne) as Hpend.
    assert (Hq : queue s = c :: ring (clifd s) (advance (iget s))
        (pending_count (Pool (clifd s) (advance (iget s)) (iput s) (clifd_mutex s) (main s) (alter (λ w, Wk (W_unlock c) (thread_count w)) i (tptr s))))).
    { unfold queue at 1. pose proof (pending_bound s Hg Hp). rewrite Hpend, ring_cons by lia. by rewrite Hc. }
    pose proof (advance_bound _ Hg).
    split; [eapply (worker_inv _ _ _ _ _ i _ (λ w, Wk (W_unlock c) (thread_count w)) Hs Hi)
           |eapply (worker_alert s _ i _ (λ w, Wk (W_unlock c) (thread_count w)) Ha Hi)];
      cbn; rewrite ?Em, ?Nat.eqb_refl; try done; try (by right); try lia.
    + intros j Hj. by destruct (Nat.eqb_spec i j); [congruence|].
    + cbn [List.length]. lia.
    + right. split; [done|]. unfold pending_count in *. cbn [iget iput set_pc] in *. lia.
  - assert (Em : clifd_mutex s = Some (Worker i)) by by apply Hin. simplify_eq.
    worker_tac s i (λ w, Wk (W_count c) (thread_count w)) Hs Ha Hi Em.
  - simplify_eq. worker_tac s i (λ w, Wk (W_serve c) (thread_count w + 1)) Hs Ha Hi Hin.
  - simplify_eq. worker_tac s i (λ w, Wk (W_close c) (thread_count w)) Hs Ha Hi Hin.
  - simplify_eq. worker_tac s i (λ w, Wk W_lock (thread_count w)) Hs Ha Hi Hin.
    intros j Hj. by destruct (Nat.eqb_spec i j); [congruence|].
Qed.

Lemma queue_put s c o m t :
  (iget s < MAXNCLI)%nat → (iput s < MAXNCLI)%nat → advance (iput s) ≠ iget s → clifd s !!! iput s = c →
  queue (Pool (clifd s) (iget s) (advance (iput s)) o m t) = queue s ++ [c].
Proof.
  intros Hg Hp Hne Hc. unfold queue. rewrite pending_put by done. cbn [clifd iget].
  by rewrite ring_snoc, slot_pending, Hc.
Qed.

Lemma alert_main s s' :
  alert s → tptr s' = tptr s → 
  Z.of_nat (pending_count s') + match main s with M_signal => 1 | _ => 0 end ≤
  Z.of_nat (pending_count s) + match main s' with M_signal => 1 | _ => 0 end → alert s'.
Proof. intros [H|H] Et Hp; unfold alert; rewrite Et; [by left|right; lia]. Qed.

(** The queue and the other threads are as before. *)
Ltac alert_same s Epc :=
  eapply (alert_main s); [done|done|rewrite Epc; unfold pending_count; cbn -[Nat.leb Nat.sub Z.of_nat]; lia].

(** A label that shows nothing leaves the invariant as it is. *)
Lemma pool_inv_tau n tr s : pool_inv n (tr ++ [Tau]) s → pool_inv n tr s.
Proof.
  intros []. unfold accepted, taken, taken_by, closed_by in *.
  split; unfold accepted, taken, taken_by, closed_by; try done.
  - by rewrite !bind_snoc, !app_nil_r in pi_fifo0.
  - intros i w Hi. specialize (pi_taken0 i w Hi). by rewrite !bind_snoc, !app_nil_r in pi_taken0.
  - intros i w Hi. specialize (pi_count0 i w Hi). by rewrite !bind_snoc, !app_nil_r in pi_count0.
Qed.

(** A waiting thread wakes up, by itself or by the signal. *)
Lemma wake_inv n tr s i w :
  pool_inv n tr s → tptr s !! i = Some w → pc w = W_wait → pool_inv n (tr ++ [Tau]) (set_pc i W_relock s).
Proof.
  intros Hs Hi Hw. pose proof (pi_worker _ _ _ Hs i _ Hi) as Hin. pose proof (pi_iget _ _ _ Hs) as Hg.
  rewrite Hw in Hin. eapply (worker_inv _ _ _ _ _ i _ (λ w, Wk W_relock (thread_count w)) Hs Hi);
    cbn; rewrite ?Hw; try done; try (by left); try lia.
Qed.

(** The main thread has sent its signal. *)
Lemma signalled_inv n tr s :
  pool_inv n tr s → main s = M_signal → pool_inv n (tr ++ [Tau]) (set_main M_unlock s).
Proof.
  intros Hs Hm. pose proof (pi_main _ _ _ Hs) as Hin. rewrite Hm in Hin.
  assert (Em : clifd_mutex s = Some Main) by by apply Hin.
  eapply (main_inv _ _ _ _ _ Hs); cbn; try done; try (by left).
  - apply (pi_clifd _ _ _ Hs).
  - apply (pi_iput _ _ _ Hs).
  - pose proof (pi_fifo _ _ _ Hs) as Hf. rewrite Hm in Hf. by rewrite app_nil_r.
Qed.

Lemma no_waiter l : existsb is_waiting l = false → wcount waiting l = 0.
Proof.
  induction l as [|w l IH]; [done|]. cbn [existsb countb]. intros [Hw Hl]%orb_false_iff. rewrite (IH Hl).
  unfold is_waiting in Hw. by destruct (pc w).
Qed.
Lemma waiting_pc w : is_waiting w = true → pc w = W_wait.
Proof. unfold is_waiting. by destruct (pc w). Qed.

Lemma main_step_inv n tr s connfd woken l s' :
  pool_inv n tr s → alert s → main_step connfd woken s = Some (Next l s') → pool_inv n (tr ++ [l]) s' ∧ alert s'.
Proof.
  intros Hs Ha Hstep. unfold main_step in Hstep.
  pose proof (pi_main _ _ _ Hs) as Hin. pose proof (pi_iget _ _ _ Hs) as Hg. pose proof (pi_iput _ _ _ Hs) as Hp.
  pose proof (pi_fifo _ _ _ Hs) as Hf. pose proof (pi_clifd _ _ _ Hs) as Hl.
  destruct (main s) as [|c|c|c| |] eqn:Epc; cbn [main_inside in_hand] in *.
  - simplify_eq. split; [|alert_same s Epc].
    eapply (main_inv _ _ _ _ _ Hs); cbn; try done; try naive_solver.
    rewrite Hf, app_nil_r, <- app_assoc. done.
  - destruct (clifd_mutex s) as [t|] eqn:Em; simplify_eq.
    split; [|alert_same s Epc].
    eapply (main_inv _ _ _ _ _ Hs); cbn; rewrite ?Em; try done; try naive_solver. by rewrite app_nil_r.
  - assert (Em : clifd_mutex s = Some Main) by by apply Hin. simplify_eq.
    split; [|alert_same s Epc].
    eapply (main_inv _ _ _ _ _ Hs); cbn; rewrite ?Em; try done; try naive_solver.
    + by rewrite length_insert.
    + intros c' [= ->]. apply list_lookup_total_insert_eq. lia.
    + unfold queue. cbn [clifd iget]. rewrite app_nil_r.
      change (pending_count _) with (pending_count s) at 1. by rewrite queue_store.
  - assert (Em : clifd_mutex s = Some Main) by by apply Hin.
    destruct (Nat.eqb_spec (advance (iput s)) (iget s)) as [|Hne]; simplify_eq.
    pose proof (pi_stored _ _ _ Hs c Epc) as Hc.
    split.
    + eapply (main_inv _ _ _ _ _ Hs); cbn; rewrite ?Em; try done; try naive_solver.
      * by apply advance_bound.
      * rewrite (queue_put s c) by done. rewrite !app_nil_r, <- ?app_assoc. exact Hf.
    + eapply (alert_main s); [done|done|]. rewrite pending_put by done. rewrite Epc. cbn [main]. lia.
  - assert (Em : clifd_mutex s = Some Main) by by apply Hin.
    destruct woken as [i|].
    + destruct (tptr s !! i) as [w|] eqn:Hi; [|done]. destruct (is_waiting w) eqn:Hw; simplify_eq.
      apply waiting_pc in Hw. pose proof (wake_inv _ _ _ i w Hs Hi Hw) as Hs'. split.
      * by apply pool_inv_tau, signalled_inv.
      * destruct Ha as [H0|Ha]; unfold alert; cbn; rewrite !(countb_alter _ _ _ _ _ Hi), Hw; cbn.
        { left. pose proof (countb_zero _ _ _ _ H0 Hi : waiting (pc w) = false) as Hz. by rewrite Hw in Hz. }
        right. rewrite Epc in Ha. unfold pending_count in *. cbn in *. lia.
    + destruct (existsb is_waiting (tptr s)) eqn:Ew; simplify_eq.
      split; [by apply signalled_inv|]. left. cbn. by apply no_waiter.
  - assert (Em : clifd_mutex s = Some Main) by by apply Hin. simplify_eq.
    split; [|alert_same s Epc].
    eapply (main_inv _ _ _ _ _ Hs); cbn; rewrite ?Em; try done; try naive_solver. by rewrite app_nil_r.
Qed.

Lemma pool_init_inv n : pool_inv n [] (pool_init n) ∧ alert (pool_init n).
Proof.
  assert (Hpc : ∀ i w, replicate n (Wk W_lock 0) !! i = Some w → w = Wk W_lock 0).
  { intros i w Hi. by apply lookup_replicate in Hi as [-> _]. }
  split.
  - split; cbn; try done; try (unfold MAXNCLI; lia); try (by rewrite length_replicate);
      try (intros i w Hi; apply Hpc in Hi; subst; done).
    intros i w c Hi Hw. apply Hpc in Hi. by subst.
  - left. cbn. induction n as [|n IH]; [done|]. simpl. apply IH.
    intros i w Hi. by apply lookup_replicate in Hi as [-> _].
Qed.

Lemma step_inv n tr s l s' :
  pool_inv n tr s → alert s → step s l s' → pool_inv n (tr ++ [l]) s' ∧ alert s'.
Proof.
  intros Hs Ha H. destruct H as [c woken s l s' H|i s l s' H|i w s Hi Hw].
  - by eapply main_step_inv.
  - by eapply worker_step_inv.
  - split; [by eapply wake_inv|].
    eapply (worker_alert s _ i _ (λ w, Wk W_relock (thread_count w)) Ha Hi); try done.
    right. split; [done|]. rewrite Hw. unfold pending_count. cbn -[Nat.leb Nat.sub Z.of_nat]. lia.
Qed.

Lemma steps_inv n tr s : steps (pool_init n) tr s → pool_inv n tr s ∧ alert s.
Proof.
  intros H. remember (pool_init n) as s0. induction H as [|s1 tr s2 l s3 _ IH Hstep]; subst.
  - apply pool_init_inv.
  - destruct IH as [Hs Ha]; [done|]. by eapply step_inv.
Qed.

(** ** Draining the queue *)

(** A step of a thread that is not the arrival of a connection, nor a wakeup
    without a signal. *)
Inductive calm : pool → label → pool → Prop :=
| calm_main woken s s' : main s ≠ M_accept → main_step 0 woken s = Some (Next Tau s') → calm s Tau s'
| calm_worker i s l s' : worker_step i s = Some (Next l s') → calm s l s'.

Inductive calms : pool → list label → pool → Prop :=
| calms_nil s : calms s [] s
| calms_snoc s1 tr s2 l s3 : calms s1 tr s2 → calm s2 l s3 → calms s1 (tr ++ [l]) s3.

(** How many steps are left for a thread when the queue is empty; a descriptor
    in the queue is worth one round of a thread, unless a thread is already
    about to take it. *)
Definition main_weight (m : main_pc) : Z :=
  match m with M_accept => 0 | M_unlock => 1 | M_signal => 4 | M_advance _ => 13 | M_store _ => 14 | M_lock _ => 15 end.
Definition worker_weight (p : worker_pc) : Z :=
  match p with
  | W_wait => 0 | W_test => 1 | W_lock | W_relock => 2 | W_close _ => 3 | W_serve _ => 4
  | W_count _ => 5 | W_unlock _ => 6 | W_advance _ => -1 | W_get => 0
  end.
Abbreviation weights := (sumz (λ w, worker_weight (pc w))).
Definition weight (s : pool) : Z :=
  8 * Z.of_nat (pending_count s) + weights (tptr s) + main_weight (main s).

(** Everything accepted has been served. *)
Definition drained (s : pool) : Prop :=
  main s = M_accept ∧ queue s = [] ∧ ∀ i w, tptr s !! i = Some w → pc w = W_wait.

Definition taking (p : worker_pc) : bool := match p with W_advance _ => true | _ => false end.
Lemma weights_lower l : - wcount taking l ≤ weights l.
Proof. induction l as [|w l IH]; simpl; [lia|]. destruct (pc w); simpl; lia. Qed.
Lemma weight_nonneg n tr s : pool_inv n tr s → 0 ≤ weight s.
Proof.
  intros Hs. unfold weight. pose proof (weights_lower (tptr s)).
  assert (0 ≤ main_weight (main s)) by (by destruct (main s)).
  assert (wcount taking (tptr s) ≤ 1).
  { apply countb_unique. intros i j v w Hi Hj Hv Hw.
    assert (∀ k u, tptr s !! k = Some u → taking (pc u) = true → clifd_mutex s = Some (Worker k)) as Hm.
    { intros k u Hk Hu. apply (pi_worker _ _ _ Hs k u Hk). by destruct (pc u). }
    pose proof (Hm i v Hi Hv). pose proof (Hm j w Hj Hw). congruence. }
  destruct (Z.eq_dec (wcount taking (tptr s)) 0); [lia|]. pose proof (countb_nonneg (λ w, taking (pc w)) (tptr s)).
  destruct (countb_pos (λ w, taking (pc w)) (tptr s)) as (i & w & Hi & Hw); [lia|].
  destruct w as [[] k]; try done. destruct (pi_got _ _ _ Hs i _ connfd Hi eq_refl) as [Hne _].
  pose proof (pending_zero s (pi_iget _ _ _ Hs) (pi_iput _ _ _ Hs)). lia.
Qed.

Lemma calm_step s l s' : calm s l s' → step s l s'.
Proof. intros [woken ? ? _ H|i ? l' ? H]; [by eapply step_main|by eapply step_worker]. Qed.
Lemma steps_calms s0 tr s tr' s' : steps s0 tr s → calms s tr' s' → steps s0 (tr ++ tr') s'.
Proof.
  intros H Hc. induction Hc as [|s1 tr' s2 l s3 _ IH Hc]; [by rewrite app_nil_r|].
  rewrite app_assoc. eapply steps_snoc; [by apply IH|by apply calm_step].
Qed.

Lemma calm_weight n tr s l s' : pool_inv n tr s → calm s l s' → weight s' < weight s.
Proof.
  intros Hs Hc. revert Hs. destruct Hc as [woken s0 s1 Hm Hstep|i s0 l0 s1 Hstep]; intros Hs;
    pose proof (pi_iget _ _ _ Hs) as Hg; pose proof (pi_iput _ _ _ Hs) as Hp.
  - unfold main_step in Hstep. destruct (main s0) as [|c|c|c| |] eqn:Epc; try done.
    + destruct (clifd_mutex s0); simplify_eq. unfold weight. rewrite Epc. unfold pending_count. cbn -[Nat.leb Nat.sub Z.of_nat]. lia.
    + simplify_eq. unfold weight. rewrite Epc. unfold pending_count. cbn -[Nat.leb Nat.sub Z.of_nat]. lia.
    + destruct (Nat.eqb_spec (advance (iput s0)) (iget s0)) as [|Hne]; simplify_eq.
      unfold weight. rewrite pending_put, Epc by done. cbn -[Z.of_nat]. lia.
    + destruct woken as [i|].
      * destruct (tptr s0 !! i) as [w|] eqn:Hi; [|done]. destruct (is_waiting w) eqn:Hw; simplify_eq.
        apply waiting_pc in Hw. unfold weight. rewrite Epc. unfold pending_count. cbn -[Nat.leb Nat.sub Z.of_nat Z.mul].
        rewrite (sumz_alter _ _ _ _ _ Hi), Hw. cbn -[Nat.leb Nat.sub Z.of_nat Z.mul]. lia.
      * destruct (existsb is_waiting (tptr s0)); simplify_eq.
        unfold weight. rewrite Epc. unfold pending_count. cbn -[Nat.leb Nat.sub Z.of_nat Z.mul]. lia.
    + simplify_eq. unfold weight. rewrite Epc. unfold pending_count. cbn -[Nat.leb Nat.sub Z.of_nat Z.mul]. lia.
  - unfold worker_step in Hstep. destruct (tptr s0 !! i) as [w|] eqn:Hi; [|done].
    assert (Hw : ∀ f s', tptr s' = alter f i (tptr s0) → main s' = main s0 →
      8 * Z.of_nat (pending_count s') + worker_weight (pc (f w)) < 8 * Z.of_nat (pending_count s0) + worker_weight (pc w) →
      weight s' < weight s0).
    { intros f s' Et Em Hlt. unfold weight. rewrite Et, Em, (sumz_alter _ _ _ _ _ Hi). lia. }
    destruct w as [[| | | | |c|c|c|c|c] k]; cbn [pc] in *; try done;
      try (destruct (clifd_mutex s0); [done|]);
      try (match type of Hstep with context [if ?b then _ else _] => destruct b end); simplify_eq;
      try (eapply (Hw (λ w, Wk _ _)); [done|done|]; unfold pending_count; cbn -[Nat.leb Nat.sub Z.of_nat Z.mul]; lia).
    destruct (pi_got _ _ _ Hs i _ c Hi eq_refl) as [Hne _].
    eapply (Hw (λ w, Wk (W_unlock c) (thread_count w))); [done|done|].
    rewrite (pending_get s0 (clifd s0) (clifd_mutex s0) (main s0) (tptr s0) Hg Hp Hne).
    unfold pending_count. cbn -[Nat.leb Nat.sub Z.of_nat Z.mul]. lia.
Qed.

Lemma worker_progress n tr s i w :
  pool_inv n tr s → tptr s !! i = Some w → is_waiting w = false →
  (clifd_mutex s = None ∨ clifd_mutex s = Some (Worker i)) → ∃ l s', calm s l s'.
Proof.
  intros Hs Hi Hw Hm.
  assert (∃ r, worker_step i s = Some r) as [[l s'|] H].
  { unfold worker_step. rewrite Hi. unfold is_waiting in Hw.
    pose proof (pi_worker _ _ _ Hs i w Hi) as Hin.
    destruct (pc w); try done; try (by eexists); try (case_match; by eexists);
      destruct Hm as [->|E]; try (by eexists); by apply Hin in E. }
  - exists l, s'. by eapply calm_worker.
  - unfold worker_step in H. rewrite Hi in H. by repeat case_match.
Qed.

Lemma pool_progress n tr s :
  (0 < n)%nat → pool_inv n tr s → alert s →
  drained s ∨ main_step 0 None s = Some Quit ∨ ∃ l s', calm s l s'.
Proof.
  intros Hn Hs Ha. destruct (clifd_mutex s) as [[|i]|] eqn:Em.
  - apply (pi_main _ _ _ Hs) in Em as Hin. right. destruct (main s) eqn:E; try done.
    + right. do 2 eexists. eapply (calm_main None); [by rewrite E|]. by unfold main_step; rewrite E.
    + unfold main_step at 1. rewrite E. destruct (Nat.eqb (advance (iput s)) (iget s)) eqn:Eq; [by left|right].
      do 2 eexists. eapply (calm_main None); [by rewrite E|]. unfold main_step. by rewrite E, Eq.
    + right. destruct (existsb is_waiting (tptr s)) eqn:Ew.
      * apply existsb_exists in Ew as (w & Hw & Hwait). apply list_elem_of_In, list_elem_of_lookup in Hw as [i Hi].
        do 2 eexists. eapply (calm_main (Some i)); [by rewrite E|]. unfold main_step. by rewrite E, Hi, Hwait.
      * do 2 eexists. eapply (calm_main None); [by rewrite E|]. unfold main_step. by rewrite E, Ew.
    + right. do 2 eexists. eapply (calm_main None); [by rewrite E|]. by unfold main_step; rewrite E.
  - right. right. destruct (pi_owner _ _ _ Hs i Em) as [w Hi]. eapply worker_progress; [done|done| |by right].
    apply (pi_worker _ _ _ Hs i w Hi) in Em. unfold is_waiting. by destruct (pc w).
  - destruct (decide (Exists (λ w, is_waiting w = false) (tptr s))) as [Hex|Hall].
    { right. right. apply Exists_exists in Hex as (w & [i Hi]%list_elem_of_lookup & Hw).
      eapply worker_progress; [done|done|done|by left]. }
    assert (Hpc : ∀ i w, tptr s !! i = Some w → pc w = W_wait).
    { intros i w Hi. apply waiting_pc. destruct (is_waiting w) eqn:Hw; [done|]. destruct Hall.
      apply Exists_exists. exists w. split; [|done]. apply list_elem_of_lookup. eauto. }
    destruct (main s) eqn:E; try (by assert (clifd_mutex s = Some Main) by (apply (pi_main _ _ _ Hs); by rewrite E); congruence).
    + left. split; [done|split; [|done]]. destruct Ha as [H0|Ha].
      { pose proof (pi_threads _ _ _ Hs) as Hlen. destruct (tptr s) as [|w l] eqn:Et; [simpl in Hlen; lia|].
        pose proof (countb_zero _ _ 0 w H0 eq_refl : waiting (pc w) = false) as Hw. by rewrite (Hpc 0%nat w eq_refl) in Hw. }
      rewrite E, (countb_none (λ w, awake (pc w))) in Ha; [|intros i w Hi; by rewrite (Hpc i w Hi)].
      unfold queue. by replace (pending_count s) with 0%nat by lia.
    + right. right. do 2 eexists. eapply (calm_main None); [by rewrite E|]. unfold main_step. by rewrite E, Em.
Qed.

Lemma calms_weight n tr s tr' s' :
  steps (pool_init n) tr s → calms s tr' s' → weight s' + Z.of_nat (List.length tr') ≤ weight s.
Proof.
  intros Hs Hc. induction Hc as [|s1 tr' s2 l s3 Hc' IH Hc]; [simpl; lia|].
  pose proof (steps_inv _ _ _ (steps_calms _ _ _ _ _ Hs Hc')) as [Hs2 _].
  pose proof (calm_weight _ _ _ _ _ Hs2 Hc). specialize (IH Hs). rewrite length_app. simpl. lia.
Qed.

Lemma quit_full connfd woken s :
  main_step connfd woken s = Some Quit → (iget s < MAXNCLI)%nat → (iput s < MAXNCLI)%nat → pending_count s = 31%nat.
Proof.
  unfold main_step. destruct (main s); try done; try (by repeat case_match); [].
  destruct (Nat.eqb_spec (advance (iput s)) (iget s)) as [He|]; [|done]. intros _.
  revert He. unfold pending_count, advance, MAXNCLI.
  destruct (Nat.eqb_spec (S (iput s)) 32), (Nat.leb_spec (iget s) (iput s)); lia.
Qed.

Lemma steps_cons s1 l s2 tr s3 : step s1 l s2 → steps s2 tr s3 → steps s1 (l :: tr) s3.
Proof.
  intros H Hs. induction Hs as [s2|s2 tr s3 l' s4 _ IH H'].
  - eapply (steps_snoc _ []); [constructor|done].
  - apply (steps_snoc _ (l :: tr) s3); [by apply IH|done].
Qed.
Lemma run_steps ts s tr s' : run ts s = Some (tr, s') → steps s tr s'.
Proof.
  revert s tr. induction ts as [|t ts IH]; intros s tr H; simplify_eq/=; [constructor|].
  destruct (run1 t s) as [[l s1|]|] eqn:E; try done. destruct (run ts s1) as [[tr1 s2]|] eqn:E2; simplify_eq.
  eapply steps_cons; [|by apply IH]. by destruct t; [eapply step_main|eapply step_worker].
Qed.

(** ** The properties *)

(** C6: in every execution of the prethreaded server, whatever the
    interleaving and the order of wakeups, the connections accepted are, in
    order, those the threads have taken, then those in the ring, then the one
    the main thread is about to add; every thread has closed what it took but
    the one connection it is serving, and its counter is the number it took;
    at most one thread is inside the critical section; and the server quits on a full
    ring only when 31 descriptors are really waiting in it. *)
Theorem pool_queue_safe (n : nat) (tr : list label) (s : pool) :
  steps (pool_init n) tr s →
  accepted tr = taken tr ++ queue s ++ in_hand (main s) ∧
  (∀ i w, tptr s !! i = Some w →
     taken_by i tr = closed_by i tr ++ holding (pc w) ∧
     Z.of_nat (List.length (taken_by i tr)) = thread_count w + uncounted (pc w) ∧
     (worker_inside (pc w) = true → main_inside (main s) = false ∧
        ∀ j v, j ≠ i → tptr s !! j = Some v → worker_inside (pc v) = false)) ∧
  (List.length (queue s) < MAXNCLI)%nat ∧
  (∀ connfd woken, main_step connfd woken s = Some Quit → List.length (queue s) = 31%nat).
Proof.
  intros [Hs _]%steps_inv. pose proof (pending_bound s (pi_iget _ _ _ Hs) (pi_iput _ _ _ Hs)) as Hb.
  assert (Hq : List.length (queue s) = pending_count s) by (unfold queue, ring; by rewrite length_fmap, length_seq).
  split; [apply (pi_fifo _ _ _ Hs)|split; [|split; [lia|]]].
  - intros i w Hi. split; [by apply (pi_taken _ _ _ Hs)|split; [by apply (pi_count _ _ _ Hs)|]].
    intros Hw. apply (pi_worker _ _ _ Hs i w Hi) in Hw. split.
    + destruct (main_inside (main s)) eqn:E; [|done]. apply (pi_main _ _ _ Hs) in E. congruence.
    + intros j v Hne Hj. destruct (worker_inside (pc v)) eqn:E; [|done].
      apply (pi_worker _ _ _ Hs j v Hj) in E. congruence.
  - intros c woken Hquit. rewrite Hq. apply quit_full in Hquit; [done|apply (pi_iget _ _ _ Hs)|apply (pi_iput _ _ _ Hs)].
Qed.

(** A thread waits before the first connection arrives. *)
Definition early_thread : list turn :=
  [T_worker 0; T_worker 0; T_main 7 None; T_main 0 None; T_main 0 None; T_main 0 None;
   T_main 0 (Some 0%nat); T_main 0 None; T_worker 0; T_worker 0; T_worker 0; T_main 8 None].

Lemma pool_queue_safe_witness :
  ∃ tr s, run early_thread (pool_init 2) = Some (tr, s) ∧
          accepted tr = [7; 8] ∧ accepted tr = taken tr ++ queue s ++ in_hand (main s).
Proof.
  eexists _, _. split; [vm_compute; reflexivity|]. split; [reflexivity|].
  apply (pool_queue_safe 2). apply (run_steps early_thread). vm_compute. reflexivity.
Defined.


