(* ===== verification/Packet.v ===== *)
(** Packets in memory: loads and stores of the fields of protocol headers, as
    the programs of src/unpv13e/ping, traceroute, udpcksum, ssntp and icmpd make them.

    A received packet is the list of its bytes; [pkt !! i] is [None] beyond its
    end, where a program reads what earlier packets left in its buffer, or
    what was never initialised. *)
From S2P Require Import Prelude Machine Posix Wrap Frame Sockaddr Rtt.

Definition IPPROTO_ICMP : Z := 1.
Definition IPPROTO_UDP : Z := 17.
Definition IPPROTO_ICMPV6 : Z := 58.
Definition SIZEOF_IP : Z := 20.
Definition SIZEOF_IP6 : Z := 40.
Definition SIZEOF_UDP : Z := 8.
Definition BUFSIZE : Z := 1500.
Definition ICMP_ECHOREPLY : Z := 0.
Definition ICMP_UNREACH : Z := 3.
Definition ICMP_UNREACH_PORT : Z := 3.
Definition ICMP_ECHO : Z := 8.
Definition ICMP_TIMXCEED : Z := 11.
Definition ICMP_TIMXCEED_INTRANS : Z := 0.
Definition ICMP6_DST_UNREACH : Z := 1.
Definition ICMP6_DST_UNREACH_NOPORT : Z := 4.
Definition ICMP6_TIME_EXCEEDED : Z := 3.
Definition ICMP6_TIME_EXCEED_TRANSIT : Z := 0.
Definition ICMP6_ECHO_REQUEST : Z := 128.
Definition ICMP6_ECHO_REPLY : Z := 129.

(** The header length of an IPv4 header whose first byte is [b]:
    [ip_hl << 2]; its version. *)
Definition ip_hlen (b : Z) : Z := Z.shiftl (Z.land b 15) 2.
Definition ip_version (b : Z) : Z := Z.shiftr b 4.

(** Loads of the host: little-endian integers of 16, 32 and 64 bits. *)
Definition u8_at (pkt : list Z) (i : Z) : option Z := if 0 <=? i then pkt !! Z.to_nat i else None.
Fixpoint le_at (pkt : list Z) (i : Z) (size : nat) : option Z :=
  match size with
  | O => Some 0
  | S size' =>
      match u8_at pkt i, le_at pkt (i + 1) size' with
      | Some b, Some v => Some (b + 256 * v)
      | _, _ => None
      end
  end.
Definition u16_at (pkt : list Z) (i : Z) : option Z := le_at pkt i 2.
Definition u32_at (pkt : list Z) (i : Z) : option Z := le_at pkt i 4.
Definition i64_of (v : Z) : Z := (v + 2 ^ 63) mod 2 ^ 64 - 2 ^ 63.

(** The bytes a store of [size] bytes puts in memory. *)
Fixpoint le_bytes (size : nat) (v : Z) : list Z :=
  match size with O => [] | S size' => v mod 256 :: le_bytes size' (v / 256) end.

(** [n] bytes at offset [i]. *)
Definition bytes_at (pkt : list Z) (i n : Z) : option (list Z) :=
  if (0 <=? i) && (i + n <=? Z.of_nat (List.length pkt))
  then Some (take (Z.to_nat n) (drop (Z.to_nat i) pkt)) else None.

(** [memcpy] of [bs] at offset [i] of a buffer. *)
Definition put (buf : list Z) (i : nat) (bs : list Z) : list Z :=
  take i buf ++ bs ++ drop (i + List.length bs) buf.

(** [struct sockaddr_in] and [struct sockaddr_in6] in memory. *)
Definition sockaddr_in_bytes (port : Z) (addr : list Z) : list Z :=
  le_bytes 2 AF_INET ++ le_bytes 2 port ++ addr ++ replicate 8 0.
Definition sockaddr_in6_bytes (port : Z) (addr : list Z) : list Z :=
  le_bytes 2 AF_INET6 ++ le_bytes 2 port ++ replicate 4 0 ++ addr ++ replicate 4 0.

(** [%.3f] of [tv_sec * 1000.0 + tv_usec / 1000.0]. *)
Definition fmt_rtt (tv : Z * Z) : string :=
  fmt_f3 (dadd (dmul (double_of_Z tv.1) (double_of_Z 1000)) (ddiv (double_of_Z tv.2) (double_of_Z 1000))).

(** [IN6_IS_ADDR_V4MAPPED]. *)
Definition v4_mapped (addr : list Z) : bool :=
  bool_decide (take 12 addr = replicate 10 0 ++ [255; 255]).

Definition ICMP6_FILTER : Z := 1.
(** [ICMP6_FILTER_SETBLOCKALL], then [ICMP6_FILTER_SETPASS] of some types below
    32. *)
Definition icmp6_filter (pass : list Z) : list Z :=
  le32_bytes (foldr (λ type w, Z.clearbit w type) (2 ^ 32 - 1) pass) ++ replicate 28 255.

(** A load outside the packet has no defined value. *)
Definition ld {A} (o : option A) : M A := match o with Some a => mret a | None => stop UB end.

(** ** What the system delivers *)

(** recvfrom(2): at most the requested number of bytes, from an Internet
    address on an Internet socket. *)
Class RecvfromOk (K : Kernel) : Prop := {
  recvfrom_at_most : ∀ t fd n bs sa, 0 ≤ n → answer t (sys_recvfrom fd n) = Ok (bs, sa) → Z.of_nat (List.length bs) ≤ n;
  recvfrom_inet : ∀ t fd n bs sa, answer t (sys_recvfrom fd n) = Ok (bs, sa) → is_inet sa ∧ sockaddr_ok sa
}.

(** The packets received on a socket, in order, and the number of calls that
    asked for one. *)
Definition packets1 (fd : Z) (e : event) : list (list Z) :=
  match e with
  | Event c a =>
      match c in sys A return A → list (list Z) with
      | sys_recvfrom fd' _ => λ r, match r with Ok (bs, _) => if fd' =? fd then [bs] else [] | Err _ => [] end
      | _ => λ _, []
      end a
  end.
Fixpoint packets (fd : Z) (t : trace) : list (list Z) :=
  match t with [] => [] | e :: t' => packets fd t' ++ packets1 fd e end.
Definition asked1 (fd : Z) (e : event) : nat :=
  match e with
  | Event c _ => match c with sys_recvfrom fd' _ => Nat.b2n (fd' =? fd) | _ => 0%nat end
  end.
Fixpoint asked (fd : Z) (t : trace) : nat :=
  match t with [] => 0%nat | e :: t' => (asked fd t' + asked1 fd e)%nat end.
(** Events that receive nothing on the socket. *)
Definition no_packet (fd : Z) (e : event) : Prop := packets1 fd e = [] ∧ asked1 fd e = 0%nat.
Lemma extends_no_packet fd p p' : extends (no_packet fd) p p' →
  packets fd (p_trace p') = packets fd (p_trace p) ∧ asked fd (p_trace p') = asked fd (p_trace p).
Proof.
  intros (t & -> & Ht). induction Ht as [|e t [H1 H2] _ [IH1 IH2]]; [done|]. cbn [app packets asked].
  rewrite H1, H2, app_nil_r. split; [done|]. lia.
Qed.

(** ** Lemmas *)


Lemma u8_at_some pkt i : 0 ≤ i < Z.of_nat (List.length pkt) → is_Some (u8_at pkt i).
Proof.
  intros H. unfold u8_at. rewrite (proj2 (Z.leb_le 0 i)) by lia. apply lookup_lt_is_Some. lia.
Qed.
Lemma u8_at_lookup pkt i b : 0 ≤ i → pkt !! Z.to_nat i = Some b → u8_at pkt i = Some b.
Proof. intros H Hb. unfold u8_at. by rewrite (proj2 (Z.leb_le 0 i)). Qed.
Lemma le_at_some pkt size : ∀ i, 0 ≤ i → i + Z.of_nat size ≤ Z.of_nat (List.length pkt) → is_Some (le_at pkt i size).
Proof.
  induction size as [|size IH]; intros i Hi Hlen; cbn [le_at]; [by eexists|].
  destruct (u8_at_some pkt i ltac:(lia)) as [b ->]. destruct (IH (i + 1) ltac:(lia) ltac:(lia)) as [v ->]. by eexists.
Qed.
Lemma u8_at_byte pkt i b : bytes_ok pkt → u8_at pkt i = Some b → 0 ≤ b < 256.
Proof.
  unfold u8_at. intros Hp. destruct (0 <=? i); [|done]. intros Hb. by eapply (Forall_lookup_1 _ _ _ _ Hp).
Qed.
Lemma ip_hlen_bound b : 0 ≤ ip_hlen b ≤ 60.
Proof.
  unfold ip_hlen. rewrite Z.shiftl_mul_pow2 by lia. change 15 with (Z.ones 4). rewrite Z.land_ones by lia.
  pose proof (Z.mod_pos_bound b (2 ^ 4)). lia.
Qed.
Lemma length_le_bytes size v : List.length (le_bytes size v) = size.
Proof. revert v. induction size as [|size IH]; intros v; [done|]. cbn. by rewrite IH. Qed.
Lemma le_bytes_ok size v : bytes_ok (le_bytes size v).
Proof.
  revert v. induction size as [|size IH]; intros v; cbn [le_bytes]; constructor; [apply Z.mod_pos_bound; lia|apply IH].
Qed.

(** A load finds what a store left. *)
Lemma le_at_le_bytes size : ∀ pre v post,
  le_at (pre ++ le_bytes size v ++ post) (Z.of_nat (List.length pre)) size = Some (v mod 256 ^ Z.of_nat size).
Proof.
  induction size as [|size IH]; intros pre v post; cbn [le_at le_bytes].
  - by rewrite Z.mod_1_r.
  - rewrite (u8_at_lookup _ _ (v mod 256)); [|lia|].
    2: { rewrite Nat2Z.id, lookup_app_r, Nat.sub_diag by lia. done. }
    specialize (IH (pre ++ [v mod 256]) (v / 256) post). rewrite length_app in IH. cbn [List.length] in IH.
    rewrite <- app_assoc in IH. replace (Z.of_nat (List.length pre) + 1) with (Z.of_nat (List.length pre + 1)) by lia.
    cbn [app] in *. rewrite IH. f_equal.
    replace (Z.of_nat (S size)) with (Z.of_nat size + 1) by lia. rewrite Z.pow_add_r by lia. change (256 ^ 1) with 256.
    rewrite (Z.mul_comm (256 ^ Z.of_nat size)), Z.rem_mul_r by lia. lia.
Qed.

Lemma length_put buf i bs : (i + List.length bs ≤ List.length buf)%nat → List.length (put buf i bs) = List.length buf.
Proof. intros H. unfold put. rewrite !length_app, length_take, length_drop. lia. Qed.

Lemma put_app a b bs : (List.length bs ≤ List.length b)%nat → put (a ++ b) (List.length a) bs = a ++ bs ++ drop (List.length bs) b.
Proof.
  intros H. unfold put. rewrite take_app_length. do 2 f_equal. rewrite <- drop_drop, drop_app_length. done.
Qed.

(** Loads from the concatenation of two pieces. *)
Lemma u8_at_app_r a b i : Z.of_nat (List.length a) ≤ i → u8_at (a ++ b) i = u8_at b (i - Z.of_nat (List.length a)).
Proof.
  intros H. unfold u8_at. rewrite !(proj2 (Z.leb_le _ _)) by lia. rewrite lookup_app_r by lia. f_equal. lia.
Qed.
Lemma u8_at_app_l a b i : i < Z.of_nat (List.length a) → u8_at (a ++ b) i = u8_at a i.
Proof. intros H. unfold u8_at. destruct (Z.leb_spec 0 i); [|done]. apply lookup_app_l. lia. Qed.
Lemma le_at_app_r a b size : ∀ i, Z.of_nat (List.length a) ≤ i →
  le_at (a ++ b) i size = le_at b (i - Z.of_nat (List.length a)) size.
Proof.
  induction size as [|size IH]; intros i H; cbn [le_at]; [done|]. rewrite u8_at_app_r, IH by lia.
  by replace (i + 1 - Z.of_nat (List.length a)) with (i - Z.of_nat (List.length a) + 1) by lia.
Qed.
Lemma le_at_app_l a b size : ∀ i, i + Z.of_nat size ≤ Z.of_nat (List.length a) → le_at (a ++ b) i size = le_at a i size.
Proof.
  induction size as [|size IH]; intros i H; cbn [le_at]; [done|]. by rewrite u8_at_app_l, IH by lia.
Qed.

Lemma bytes_at_app_r a b i n : Z.of_nat (List.length a) ≤ i →
  bytes_at (a ++ b) i n = bytes_at b (i - Z.of_nat (List.length a)) n.
Proof.
  intros H. unfold bytes_at. rewrite !(proj2 (Z.leb_le 0 _)), length_app by lia. cbn [andb].
  rewrite drop_app_ge by lia. replace (Z.to_nat i - List.length a)%nat with (Z.to_nat (i - Z.of_nat (List.length a))) by lia.
  destruct (Z.leb_spec (i + n) (Z.of_nat (List.length a + List.length b))), (Z.leb_spec (i - Z.of_nat (List.length a) + n) (Z.of_nat (List.length b)));
    done || lia.
Qed.
Lemma bytes_at_app_l a b i n : 0 ≤ n → i + n ≤ Z.of_nat (List.length a) → bytes_at (a ++ b) i n = bytes_at a i n.
Proof.
  intros Hn H. unfold bytes_at. destruct (Z.leb_spec 0 i); [|done]. cbn [andb].
  rewrite !(proj2 (Z.leb_le _ _)) by (rewrite ?length_app; lia). rewrite drop_app_le by lia.
  by rewrite take_app_le by (rewrite length_drop; lia).
Qed.
Lemma bytes_at_some pkt i n : 0 ≤ i → i + n ≤ Z.of_nat (List.length pkt) →
  bytes_at pkt i n = Some (take (Z.to_nat n) (drop (Z.to_nat i) pkt)).
Proof. intros H1 H2. unfold bytes_at. by rewrite !(proj2 (Z.leb_le _ _)) by lia. Qed.
Lemma u8_at_total pkt i : 0 ≤ i < Z.of_nat (List.length pkt) → u8_at pkt i = Some (pkt !!! Z.to_nat i).
Proof. intros H. apply u8_at_lookup; [lia|]. apply list_lookup_lookup_total_lt. lia. Qed.

(** Loads from a buffer after a [memcpy]: inside what was stored, or apart from
    it. *)
Lemma u8_at_put buf i bs j : (i + List.length bs ≤ List.length buf)%nat →
  u8_at (put buf i bs) j =
    if (Z.of_nat i <=? j) && (j <? Z.of_nat (i + List.length bs)) then u8_at bs (j - Z.of_nat i) else u8_at buf j.
Proof.
  intros H. unfold u8_at, put. destruct (Z.leb_spec 0 j); [|by rewrite (proj2 (Z.leb_gt _ _)) by lia].
  destruct (Z.leb_spec (Z.of_nat i) j); cbn [andb].
  2: { rewrite lookup_app_l by (rewrite length_take; lia). by rewrite lookup_take_lt by lia. }
  rewrite lookup_app_r by (rewrite length_take; lia). rewrite length_take, Nat.min_l by lia.
  destruct (Z.ltb_spec j (Z.of_nat (i + List.length bs))).
  - rewrite (proj2 (Z.leb_le _ _)) by lia. rewrite lookup_app_l by lia. f_equal. lia.
  - rewrite lookup_app_r by lia. rewrite lookup_drop. f_equal. lia.
Qed.
Lemma le_at_put buf i bs size : (i + List.length bs ≤ List.length buf)%nat → ∀ j,
  (Z.of_nat i ≤ j → j + Z.of_nat size ≤ Z.of_nat (i + List.length bs) →
     le_at (put buf i bs) j size = le_at bs (j - Z.of_nat i) size) ∧
  (j + Z.of_nat size ≤ Z.of_nat i ∨ Z.of_nat (i + List.length bs) ≤ j →
     le_at (put buf i bs) j size = le_at buf j size).
Proof.
  intros H. induction size as [|size IH]; intros j; [done|]. cbn [le_at]. rewrite (u8_at_put buf i bs j H).
  destruct (IH (j + 1)) as [IH1 IH2]. split.
  - intros H1 H2. rewrite IH1 by lia. rewrite (proj2 (Z.leb_le _ _)), (proj2 (Z.ltb_lt _ _)) by lia. cbn [andb].
    by replace (j + 1 - Z.of_nat i) with (j - Z.of_nat i + 1) by lia.
  - intros H1. rewrite IH2 by lia. destruct (Z.leb_spec (Z.of_nat i) j), (Z.ltb_spec j (Z.of_nat (i + List.length bs)));
      done || lia.
Qed.
Lemma bytes_at_put buf i bs j n : (i + List.length bs ≤ List.length buf)%nat → 0 ≤ n →
  Z.of_nat i ≤ j → j + n ≤ Z.of_nat (i + List.length bs) →
  bytes_at (put buf i bs) j n = bytes_at bs (j - Z.of_nat i) n.
Proof.
  intros H Hn H1 H2. unfold put. rewrite bytes_at_app_r by (rewrite length_take; lia).
  rewrite length_take, Nat.min_l by lia. by rewrite bytes_at_app_l by lia.
Qed.
Lemma bytes_at_put_other buf i bs j n : (i + List.length bs ≤ List.length buf)%nat →
  Z.of_nat (i + List.length bs) ≤ j → bytes_at (put buf i bs) j n = bytes_at buf j n.
Proof.
  intros H Hj. unfold put. rewrite app_assoc. set (k := (i + List.length bs)%nat) in *.
  assert (Hk : List.length (take i buf ++ bs) = k) by (rewrite length_app, length_take; lia).
  rewrite bytes_at_app_r, Hk by lia. rewrite <- (take_drop k buf) at 2.
  rewrite bytes_at_app_r; rewrite length_take; [|lia]. by rewrite Nat.min_l by lia.
Qed.
(** All of an integer that was stored. *)
Lemma le_at_stored size v : 0 ≤ v < 256 ^ Z.of_nat size → le_at (le_bytes size v) 0 size = Some v.
Proof.
  intros Hv. pose proof (le_at_le_bytes size [] v []) as H. rewrite app_nil_r in H. cbn [app] in H.
  change (Z.of_nat (List.length [])) with 0 in H. rewrite H, Z.mod_small by done. done.
Qed.

(** A 16-bit integer in network byte order, and what a load finds there. *)
Definition be16 (v : Z) : list Z := [v / 256 mod 256; v mod 256].
Lemma htons_swap v : 0 ≤ v < 2 ^ 16 → htons v = v / 256 + 256 * (v mod 256).
Proof.
  intros Hv. apply Z.eqb_eq. apply (zrange_forall (λ v, htons v =? v / 256 + 256 * (v mod 256)) 65536); [by vm_compute|].
  change (Z.of_nat 65536) with (2 ^ 16). lia.
Qed.
Lemma u16_at_be16 v rest : 0 ≤ v < 2 ^ 16 → u16_at (be16 v ++ rest) 0 = Some (htons v).
Proof.
  intros Hv. unfold u16_at, be16. cbn. f_equal. rewrite (htons_swap v Hv).
  change (Z.pow_pos 2 16) with (2 ^ 16) in *. change (2 ^ 16) with 65536 in Hv. Z.to_euclidean_division_equations. lia.
Qed.
Lemma htons_mod v : htons v = htons (v mod 2 ^ 16).
Proof.
  unfold htons. rewrite !Z.shiftr_div_pow2, !Z.shiftl_mul_pow2 by lia. change 255 with (Z.ones 8).
  rewrite !Z.land_ones by lia. change (2 ^ 16) with 65536. change (2 ^ 8) with 256. f_equal; [f_equal|];
    Z.to_euclidean_division_equations; lia.
Qed.
Lemma htons_inj v w : 0 ≤ v < 2 ^ 16 → 0 ≤ w < 2 ^ 16 → htons v = htons w → v = w.
Proof. intros Hv Hw H. rewrite <- (htons_involutive v), <- (htons_involutive w) by done. by rewrite H. Qed.
Lemma htons_eqb v w : 0 ≤ v < 2 ^ 16 → (htons v =? htons w) = (v =? w mod 2 ^ 16).
Proof.
  intros Hv. rewrite (htons_mod w). pose proof (Z.mod_pos_bound w (2 ^ 16) ltac:(lia)).
  destruct (Z.eqb_spec v (w mod 2 ^ 16)) as [->|Hne]; [apply Z.eqb_refl|]. apply Z.eqb_neq. intros E. by apply htons_inj in E.
Qed.

(** ** ICMP errors as they are laid out *)

(** An IP header, with its options. *)
Definition ip_header (h : list Z) : Prop :=
  SIZEOF_IP ≤ Z.of_nat (List.length h) ∧ Z.of_nat (List.length h) = ip_hlen (h !!! 0%nat).
(** The error [type], [code] with the header and the ports of the datagram it
    is about. *)
Definition icmp_error (type code : Z) (unused inner : list Z) (src dst : Z) (data : list Z) : list Z :=
  [type; code] ++ unused ++ inner ++ be16 src ++ be16 dst ++ data.

Section errors.
Context (type code : Z) (unused inner : list Z) (src dst : Z) (data : list Z).
Context (Hunused : List.length unused = 6%nat) (Hsrc : 0 ≤ src < 2 ^ 16) (Hdst : 0 ≤ dst < 2 ^ 16).
Abbreviation size := (Z.of_nat (List.length inner)).

Lemma length_icmp_error : Z.of_nat (List.length (icmp_error type code unused inner src dst data)) =
  8 + size + 4 + Z.of_nat (List.length data).
Proof. unfold icmp_error, be16. repeat (rewrite length_app || cbn [List.length]). lia. Qed.

Lemma error_inner i : 0 ≤ i < size → u8_at (icmp_error type code unused inner src dst data) (8 + i) = u8_at inner i.
Proof.
  intros Hi. unfold icmp_error. rewrite !u8_at_app_r by (cbn [List.length]; lia). rewrite u8_at_app_l by (cbn [List.length]; lia).
  f_equal. cbn [List.length]. lia.
Qed.
Lemma error_src outer : u16_at (outer ++ icmp_error type code unused inner src dst data)
    (Z.of_nat (List.length outer) + 8 + size) = Some (htons src).
Proof.
  unfold u16_at, icmp_error. repeat rewrite le_at_app_r by (cbn [List.length]; lia). cbn [List.length].
  rewrite <- (u16_at_be16 src (be16 dst ++ data) Hsrc). unfold u16_at. f_equal. lia.
Qed.
Lemma error_dst outer : u16_at (outer ++ icmp_error type code unused inner src dst data)
    (Z.of_nat (List.length outer) + 8 + size + 2) = Some (htons dst).
Proof.
  unfold u16_at, icmp_error. repeat rewrite le_at_app_r by (unfold be16; cbn [List.length]; lia). cbn [List.length be16].
  rewrite <- (u16_at_be16 dst data Hdst). unfold u16_at. f_equal. lia.
Qed.
End errors.

(** ** Loads and texts in computations *)

Lemma framed_ld {A} (P : event → Prop) (o : option A) : framed P (ld o).
Proof. unfold ld. framed_tac. Qed.
Lemma fine_ld {A} (ub : Prop) (o : option A) : (o = None → ub) → fine_run ub (ld o).
Proof. intros Hu. unfold ld. destruct o; [apply fine_ret|by apply fine_ub, Hu]. Qed.
(** A load that finds its bytes. *)
Lemma ld_bind {A B} (o : option A) a (k : A → M B) : o = Some a → (ld o ≫= k) = k a.
Proof. by intros ->. Qed.
Lemma fine_sock_ntop_host {K : Kernel} (ub : Prop) sa salen : ub ∨ is_inet sa → fine_run ub (Sock_ntop_host sa salen).
Proof.
  intros [Hu|Hu]; unfold Sock_ntop_host, sock_ntop_host, ntop_unix, ntop; destruct sa; fine_tac; done.
Qed.
Lemma fine_Inet_ntop {K : Kernel} (ub : Prop) family a b len : fine_run ub (Inet_ntop family a b len).
Proof. unfold Inet_ntop, ntop. fine_tac. Qed.
#[export] Hint Resolve framed_ld : framed.
#[export] Hint Resolve fine_ld fine_sock_ntop_host fine_Inet_ntop : fine.
