(* ===== verification/Trace.v ===== *)
(** traceroute: src/unpv13e/traceroute (trace.h, main.c, traceloop.c, recv_v4.c,
    recv_v6.c, icmpcode_v4.c, icmpcode_v6.c).

    The global [recvbuf] keeps the end of earlier packets: it is threaded
    through the calls, and a received packet overwrites its beginning.  The
    flag [gotalarm], which the handler of SIGALRM sets, is an answer of
    [sys_flag SIGALRM]. *)
From S2P Require Import Prelude Machine Posix Wrap Frame Sockaddr Rtt NetLib Packet.

Definition SIZEOF_REC : Z := 24.
Definition NI_MAXHOST : Z := 1025.

(** ** Classification of a packet *)

Inductive verdict :=
| Again                        (** [continue] *)
| Answer (ret : option Z)      (** [break]; [None]: [ret] was never assigned *)
| Other (type code : Z).       (** the end of the loop's body *)

Section classify.
Context (sport dport : Z).

(** The ports of the quoted UDP header at offset [i] are those of probe [seq]. *)
Definition ports_match (seq : Z) (buf : list Z) (i : Z) : option bool :=
  uh_sport ← u16_at buf i;
  if uh_sport =? htons sport then
    uh_dport ← u16_at buf (i + 2);
    Some (uh_dport =? htons (dport + seq))
  else Some false.

(** recv_v4.c, from the [n] bytes of a packet at the start of [recvbuf] *)
Definition classify_v4 (seq : Z) (recvbuf : list Z) (n : Z) : option verdict :=
  ip ← u8_at recvbuf 0;
  let hlen1 := ip_hlen ip in
  let icmplen := n - hlen1 in
  if icmplen <? 8 then Some Again
  else
    icmp_type ← u8_at recvbuf hlen1;
    icmp_code ← u8_at recvbuf (hlen1 + 1);
    let quoted (ret : Z) : option verdict :=
      if icmplen <? 8 + SIZEOF_IP then Some Again
      else
        hip ← u8_at recvbuf (hlen1 + 8);
        let hlen2 := ip_hlen hip in
        if icmplen <? 8 + hlen2 + 4 then Some Again
        else
          ip_p ← u8_at recvbuf (hlen1 + 8 + 9);
          ours ← (if ip_p =? IPPROTO_UDP then ports_match seq recvbuf (hlen1 + 8 + hlen2) else Some false);
          Some (if (ours : bool) then Answer (Some ret) else Other icmp_type icmp_code) in
    if (icmp_type =? ICMP_TIMXCEED) && (icmp_code =? ICMP_TIMXCEED_INTRANS) then quoted (-2)
    else if icmp_type =? ICMP_UNREACH then
      quoted (if icmp_code =? ICMP_UNREACH_PORT then -1 else icmp_code)
    else Some (Other icmp_type icmp_code).

(** recv_v6.c: the [if] on a time exceeded has no braces around its body, so
    that the [break] is not guarded by it; only packets that are neither kind
    of error are reported. *)
Definition classify_v6 (seq : Z) (recvbuf : list Z) (n : Z) : option verdict :=
  let icmp6len := n in
  if icmp6len <? 8 then Some Again
  else
    icmp6_type ← u8_at recvbuf 0;
    icmp6_code ← u8_at recvbuf 1;
    let hlen2 := SIZEOF_IP6 in
    let ours : option bool :=
      ip6_nxt ← u8_at recvbuf (8 + 6);
      if ip6_nxt =? IPPROTO_UDP then ports_match seq recvbuf (8 + hlen2) else Some false in
    if (icmp6_type =? ICMP6_TIME_EXCEEDED) && (icmp6_code =? ICMP6_TIME_EXCEED_TRANSIT) then
      if icmp6len <? 8 + SIZEOF_IP6 + 4 then Some Again
      else b ← ours; Some (Answer (if (b : bool) then Some (-2) else None))
    else if icmp6_type =? ICMP6_DST_UNREACH then
      if icmp6len <? 8 + SIZEOF_IP6 + 4 then Some Again
      else
        b ← ours;
        Some (if (b : bool)
              then Answer (Some (if icmp6_code =? ICMP6_DST_UNREACH_NOPORT then -1 else icmp6_code))
              else Again)
    else Some (Other icmp6_type icmp6_code).
End classify.

(** ** icmpcode_v4.c, icmpcode_v6.c *)

Definition unknown_code (code : Z) : string := "[unknown code " +:+ fmt_d code +:+ "]".
Definition icmpcode_v4 (code : Z) : string :=
  if code =? 0 then "network unreachable"
  else if code =? 1 then "host unreachable"
  else if code =? 2 then "protocol unreachable"
  else if code =? 3 then "port unreachable"
  else if code =? 4 then "fragmentation required but DF bit set"
  else if code =? 5 then "source route failed"
  else if code =? 6 then "destination network unknown"
  else if code =? 7 then "destination host unknown"
  else if code =? 8 then "source host isolated (obsolete)"
  else if code =? 9 then "destination network administratively prohibited"
  else if code =? 10 then "destination host administratively prohibited"
  else if code =? 11 then "network unreachable for TOS"
  else if code =? 12 then "host unreachable for TOS"
  else if code =? 13 then "communication administratively prohibited by filtering"
  else if code =? 14 then "host recedence violation"
  else if code =? 15 then "precedence cutoff in effect"
  else unknown_code code.
Definition icmpcode_v6 (code : Z) : string :=
  if code =? 0 then "no route to host"
  else if code =? 1 then "administratively prohibited"
  else if code =? 2 then "not a neighbor"
  else if code =? 3 then "address unreachable"
  else if code =? 4 then "port unreachable"
  else unknown_code code.

(** ** trace.h *)

Record proto := Proto {
  icmpcode : Z → string;
  classify : Z → Z → Z → list Z → Z → option verdict;  (** of [recv], the body of its loop *)
  icmpproto : Z;
  ttllevel : Z;
  ttloptname : Z
}.
Definition proto_v4 : proto := Proto icmpcode_v4 classify_v4 IPPROTO_ICMP IPPROTO_IP 2.
Definition proto_v6 : proto := Proto icmpcode_v6 classify_v6 IPPROTO_ICMPV6 IPPROTO_IPV6 16.

(** The [struct rec] sent: its two 16-bit integers, padding that stays zero, the
    time. *)
Definition rec_bytes (rec_seq rec_ttl : Z) (rec_tv : Z * Z) (sendbuf : list Z) : list Z :=
  put (put sendbuf 0 (le_bytes 2 rec_seq ++ le_bytes 2 rec_ttl)) 8 (le_bytes 8 rec_tv.1 ++ le_bytes 8 rec_tv.2).

(** The globals that change. *)
Record tl := Tl {
  recvbuf : list Z;
  sendbuf : list Z;
  sasend : sockaddr;
  sarecv : sockaddr;
  salast : sockaddr;
  seq : Z;
  done : Z
}.

Definition fmt_2d (n : Z) : string :=
  let s := fmt_d n in of_chars (replicate (2 - String.length s) (chr 32)) +:+ s.

Section traceloop.
Context {K : Kernel} (pr : proto) (verbose : bool) (salen sport dport : Z).

(** ** recv_v4.c and recv_v6.c *)

(** The loop, until a packet answers probe [seq] or the flag is set ([None]). *)
Fixpoint recv_loop (fuel : nat) (recvfd seq : Z) (recvbuf : list Z) (sarecv : sockaddr) :
    M (option (option Z) * list Z * sockaddr) :=
  match fuel with
  | O => stop NoFuel
  | S f =>
      gotalarm ← call (sys_flag SIGALRM);
      if (gotalarm : bool) then mret (None, recvbuf, sarecv)
      else
        r ← syscall (sys_recvfrom recvfd BUFSIZE);
        match r with
        | None =>
            e ← get_errno;
            if e =? EINTR then recv_loop f recvfd seq recvbuf sarecv else err_sys "recvfrom error"
        | Some (bs, sarecv) =>
            let n := Z.of_nat (List.length bs) in
            let recvbuf := put recvbuf 0 bs in
            match classify pr sport dport seq recvbuf n with
            | None => stop UB
            | Some Again => recv_loop f recvfd seq recvbuf sarecv
            | Some (Answer ret) => mret (Some ret, recvbuf, sarecv)
            | Some (Other type code) =>
                (if verbose then
                   host ← Sock_ntop_host sarecv salen;
                   printf (" (from " +:+ host +:+ ": type = " +:+ fmt_d type +:+ ", code = "
                             +:+ fmt_d code +:+ ")" +:+ nl)
                 else mret tt) ;;
                recv_loop f recvfd seq recvbuf sarecv
            end
        end
  end.

(** [-3] on a timeout, which leaves [*tv] as it was. *)
Definition recv (fuel : nat) (recvfd seq : Z) (tv : option (Z * Z)) (recvbuf : list Z) (sarecv : sockaddr) :
    M (Z * option (Z * Z) * list Z * sockaddr) :=
  call (sys_alarm 3) ;;
  '(r, recvbuf, sarecv) ← recv_loop fuel recvfd seq recvbuf sarecv;
  match r with
  | None => mret (-3, tv, recvbuf, sarecv)
  | Some ret =>
      call (sys_alarm 0) ;;
      tv ← Gettimeofday;
      match ret with
      | Some ret => mret (ret, Some tv, recvbuf, sarecv)
      | None => stop UB
      end
  end.

(** ** traceloop.c *)

(** One probe. *)
Definition probe_step (fuel : nat) (sendfd recvfd ttl : Z) (s : tl) : M tl :=
  let seq := seq s + 1 in
  rec_tv ← Gettimeofday;
  let sendbuf := rec_bytes seq ttl rec_tv (sendbuf s) in
  let sasend := sock_set_port (sasend s) (htons (dport + seq)) in
  Sendto sendfd (take (Z.to_nat SIZEOF_REC) sendbuf) sasend ;;
  '(code, tvrecv, recvbuf, sarecv) ← recv fuel recvfd seq None (recvbuf s) (sarecv s);
  s ← (if code =? -3 then
         printf " *" ;;
         mret (Tl recvbuf sendbuf sasend sarecv (salast s) seq (done s))
       else
         cmp ← stop (sock_cmp_addr sarecv (salast s));
         (if negb (cmp =? 0) then
            str ← call (sys_getnameinfo sarecv NI_MAXHOST);
            host ← Sock_ntop_host sarecv salen;
            match str with
            | Some str => printf (" " +:+ str +:+ " (" +:+ host +:+ ")")
            | None => printf (" " +:+ host)
            end
          else mret tt) ;;
         match tvrecv with
         | None => stop UB
         | Some tvrecv =>
             printf ("  " +:+ fmt_rtt (tv_sub tvrecv rec_tv) +:+ " ms") ;;
             let done := if code =? -1 then done s + 1 else done s in
             (if (negb (code =? -1)) && (0 <=? code) then printf (" (ICMP " +:+ icmpcode pr code +:+ ")") else mret tt) ;;
             mret (Tl recvbuf sendbuf sasend sarecv (if negb (cmp =? 0) then sarecv else salast s) seq done)
         end);
  call (sys_fflush STDOUT_FILENO) ;;
  mret s.

Fixpoint probe_loop (fuel : nat) (sendfd recvfd ttl : Z) (todo : nat) (s : tl) : M tl :=
  match todo with
  | O => mret s
  | S todo' =>
      s ← probe_step fuel sendfd recvfd ttl s;
      probe_loop fuel sendfd recvfd ttl todo' s
  end.

(** The [for] loop from [ttl] on, [todo] being [max_ttl - ttl + 1]. *)
Fixpoint ttl_loop (fuel : nat) (sendfd recvfd ttl : Z) (nprobes todo : nat) (s : tl) : M tl :=
  match todo with
  | O => mret s
  | S todo' =>
      if negb (done s =? 0) then mret s
      else
        Setsockopt sendfd (ttllevel pr) (ttloptname pr) (le32_bytes ttl) ;;
        printf (fmt_2d ttl +:+ " ") ;;
        call (sys_fflush STDOUT_FILENO) ;;
        s ← probe_loop fuel sendfd recvfd ttl nprobes
              (Tl (recvbuf s) (sendbuf s) (sasend s) (sarecv s) (SaOther AF_UNSPEC []) (seq s) (done s));
        printf nl ;;
        ttl_loop fuel sendfd recvfd (ttl + 1) nprobes todo' s
  end.
End traceloop.

(** [sport] is computed from the process's identity; [sabind] starts as zeros.
    The handler is called once to restart the flag, which every [recv] resets. *)
Definition traceloop {K : Kernel} (fuel : nat) (pr : proto) (verbose : bool) (salen dport : Z) (nprobes : nat) (max_ttl : Z)
    (sasend : sockaddr) : M tl :=
  let family := sa_family sasend in
  recvfd ← Socket family SOCK_RAW (icmpproto pr);
  uid ← call sys_getuid;
  syscall (sys_setuid uid) ;;
  (if (family =? AF_INET6) && negb verbose
   then syscall (sys_setsockopt recvfd IPPROTO_IPV6 ICMP6_FILTER
          (icmp6_filter [ICMP6_TIME_EXCEEDED; ICMP6_DST_UNREACH])) ;; mret tt
   else mret tt) ;;
  sendfd ← Socket family SOCK_DGRAM 0;
  pid ← call sys_getpid;
  let sport := Z.lor (Z.land pid 65535) 32768 in
  let sabind :=
    if family =? AF_INET then SaIn (htons sport) INADDR_ANY
    else if family =? AF_INET6 then SaIn6 (htons sport) in6addr_any
    else SaOther family [] in
  Bind sendfd sabind salen ;;
  ttl_loop pr verbose salen sport dport fuel sendfd recvfd 1 nprobes (Z.to_nat max_ttl)
    (Tl (replicate 1500 0) (replicate 1500 0) sasend (SaOther AF_UNSPEC []) (SaOther AF_UNSPEC []) 0 0).

(** main.c, from the options and the host on. *)
Definition trace_main {K : Kernel} {R : Resolver} (fuel : nat) (verbose : bool) (max_ttl sig_alrm : Z) (host : string) : M tl :=
  call sys_getpid ;;
  Signal SIGALRM sig_alrm ;;
  res ← Host_serv (Some host) None 0 0;
  match res with
  | ai :: _ =>
      match ai_addr ai with
      | Some (_, sa) =>
          h ← Sock_ntop_host sa (ai_addrlen ai);
          printf ("traceroute to " +:+ default h (snd <$> ai_canonname ai) +:+ " (" +:+ h +:+ "): " +:+
                  fmt_d max_ttl +:+ " hops max, " +:+ fmt_d SIZEOF_REC +:+ " data bytes" +:+ nl) ;;
          pr ← (if ai_family ai =? AF_INET then mret proto_v4
                else if ai_family ai =? AF_INET6 then
                  match sa with
                  | SaIn6 _ addr =>
                      if v4_mapped addr then err_quit "cannot traceroute IPv4-mapped IPv6 address"
                      else mret proto_v6
                  | _ => stop UB
                  end
                else err_quit ("unknown address family " +:+ fmt_d (ai_family ai)));
          Calloc (ai_addrlen ai) ;;
          Calloc (ai_addrlen ai) ;;
          Calloc (ai_addrlen ai) ;;
          traceloop fuel pr verbose (ai_addrlen ai) (32768 + 666) 3 max_ttl sa ;;
          exit 0
      | None => stop UB
      end
  | [] => stop UB
  end.

(** ** The classification is a function of the packet *)

Section local.
Context (sport dport seq : Z) (pkt rest : list Z).
Abbreviation n := (Z.of_nat (List.length pkt)).

Lemma u8_local i : 0 ≤ i < n → ∃ b, u8_at pkt i = Some b ∧ u8_at (pkt ++ rest) i = Some b.
Proof. intros H. destruct (u8_at_some pkt i H) as [b Hb]. exists b. by rewrite u8_at_app_l by lia. Qed.
Lemma ports_local i : 0 ≤ i → i + 4 ≤ n → ∃ b,
  ports_match sport dport seq pkt i = Some b ∧ ports_match sport dport seq (pkt ++ rest) i = Some b.
Proof.
  intros Hi Hn. unfold ports_match, u16_at. rewrite !le_at_app_l by lia.
  destruct (le_at_some pkt 2 i) as [x ->]; [lia..|]. destruct (le_at_some pkt 2 (i + 2)) as [y ->]; [lia..|].
  cbn. destruct (x =? htons sport); by eexists.
Qed.
Lemma ours_local i j : 0 ≤ i < n → 0 ≤ j → j + 4 ≤ n →
  let ours buf := (ip_p ← u8_at buf i; if ip_p =? IPPROTO_UDP then ports_match sport dport seq buf j else Some false) in
  ∃ b, ours pkt = Some b ∧ ours (pkt ++ rest) = Some b.
Proof.
  intros Hi Hj Hn. cbn zeta. destruct (u8_local i Hi) as (p & -> & ->). cbn.
  destruct (p =? IPPROTO_UDP); [by apply ports_local|by eexists].
Qed.

(** Nothing is read beyond the packet: neither what earlier packets left in
    [recvbuf] nor what lies after it. *)
Lemma classify_v4_local : pkt ++ rest ≠ [] →
  is_Some (classify_v4 sport dport seq (pkt ++ rest) n) ∧
  (pkt ≠ [] → classify_v4 sport dport seq (pkt ++ rest) n = classify_v4 sport dport seq pkt n).
Proof.
  intros Hne. unfold classify_v4. destruct pkt as [|b0 pkt'] eqn:Epkt.
  { destruct rest as [|b r]; [done|]. pose proof (ip_hlen_bound b).
    change (u8_at ([] ++ b :: r) 0) with (Some b). cbn -[Z.ltb Z.sub ip_hlen]. rewrite (proj2 (Z.ltb_lt _ _)) by lia.
    split; [by eexists|done]. }
  rewrite <- Epkt in *. assert (0 < n) by (subst; cbn; lia).
  destruct (u8_local 0) as (ip & -> & ->); [lia|]. cbn -[Z.ltb Z.eqb Z.sub Z.add ip_hlen u8_at ports_match]. pose proof (ip_hlen_bound ip).
  destruct (Z.ltb_spec (n - ip_hlen ip) 8); [split; [by eexists|done]|].
  destruct (u8_local (ip_hlen ip)) as (ty & -> & ->); [lia|]. cbn -[Z.ltb Z.eqb Z.sub Z.add ip_hlen u8_at ports_match].
  destruct (u8_local (ip_hlen ip + 1)) as (co & -> & ->); [lia|]. cbn -[Z.ltb Z.eqb Z.sub Z.add ip_hlen u8_at ports_match]. unfold SIZEOF_IP.
  destruct (Z.ltb_spec (n - ip_hlen ip) (8 + 20)); [repeat case_match; split; by try eexists|].
  destruct (u8_local (ip_hlen ip + 8)) as (hip & -> & ->); [lia|]. cbn -[Z.ltb Z.eqb Z.sub Z.add ip_hlen u8_at ports_match]. pose proof (ip_hlen_bound hip).
  destruct (Z.ltb_spec (n - ip_hlen ip) (8 + ip_hlen hip + 4)); [repeat case_match; split; by try eexists|].
  destruct (u8_local (ip_hlen ip + 8 + 9)) as (prot & -> & ->); [lia|]. cbn -[Z.ltb Z.eqb Z.sub Z.add ip_hlen u8_at ports_match].
  destruct (ports_local (ip_hlen ip + 8 + ip_hlen hip)) as (b & Hb1 & Hb2); [lia..|]. rewrite Hb1, Hb2.
  repeat case_match; split; by try eexists.
Qed.

Lemma classify_v6_local : 
  is_Some (classify_v6 sport dport seq (pkt ++ rest) n) ∧
  classify_v6 sport dport seq (pkt ++ rest) n = classify_v6 sport dport seq pkt n.
Proof.
  unfold classify_v6, SIZEOF_IP6.
  destruct (Z.ltb_spec n 8); [split; [by eexists|done]|].
  destruct (u8_local 0) as (ty & -> & ->); [lia|]. destruct (u8_local 1) as (co & -> & ->); [lia|]. cbn -[Z.add Z.ltb Z.eqb u8_at ports_match].
  destruct (Z.ltb_spec n (8 + 40 + 4)); [repeat case_match; split; by try eexists|].
  destruct (u8_local (8 + 6)) as (prot & -> & ->); [lia|]. cbn -[Z.add Z.ltb Z.eqb u8_at ports_match].
  destruct (ports_local (8 + 40)) as (b & Hb1 & Hb2); [lia..|]. rewrite Hb1, Hb2.
  repeat case_match; split; by try eexists.
Qed.
End local.

(** ** ICMP errors about a probe *)

(** The datagram is the one sent as probe [seq]. *)
Definition is_probe (sport dport seq protocol src dst : Z) : bool :=
  (protocol =? IPPROTO_UDP) && (src =? sport) && (dst =? u16 (dport + seq)).

Section errors.
Context (sport dport seq : Z) (Hsport : 0 ≤ sport < 2 ^ 16).
Context (type code : Z) (unused inner : list Z) (src dst : Z) (data : list Z).
Context (Hunused : List.length unused = 6%nat) (Hsrc : 0 ≤ src < 2 ^ 16) (Hdst : 0 ≤ dst < 2 ^ 16).
Abbreviation size := (Z.of_nat (List.length inner)).

Lemma error_ports outer : ports_match sport dport seq (outer ++ icmp_error type code unused inner src dst data)
    (Z.of_nat (List.length outer) + 8 + size) = Some ((src =? sport) && (dst =? u16 (dport + seq))).
Proof.
  unfold ports_match. rewrite error_src, error_dst by done. cbn [mbind option_bind]. rewrite !htons_eqb by done.
  rewrite (Z.mod_small sport) by done. by destruct (src =? sport).
Qed.

(** Every error about a datagram is classified by what it says. *)
Lemma classify_v4_error outer rest : ip_header outer → ip_header inner →
  classify_v4 sport dport seq (outer ++ icmp_error type code unused inner src dst data ++ rest)
    (Z.of_nat (List.length (outer ++ icmp_error type code unused inner src dst data))) =
  Some (if is_probe sport dport seq (inner !!! 9%nat) src dst &&
           ((type =? ICMP_UNREACH) || (type =? ICMP_TIMXCEED) && (code =? ICMP_TIMXCEED_INTRANS))
        then Answer (Some (if type =? ICMP_TIMXCEED then -2 else if code =? ICMP_UNREACH_PORT then -1 else code))
        else Other type code).
Proof.
  intros [Ho1 Ho2] [Hi1 Hi2]. unfold SIZEOF_IP in *. rewrite app_assoc.
  assert (Hne : ∀ l, (outer ++ icmp_error type code unused inner src dst data) ++ l ≠ []) by (by destruct outer; intros l).
  rewrite (proj2 (classify_v4_local sport dport seq _ rest (Hne rest))) by (by rewrite <- (app_nil_r (outer ++ _))).
  unfold classify_v4, SIZEOF_IP.
  rewrite length_app, Nat2Z.inj_add, length_icmp_error by done. set (pkt := outer ++ _).
  assert (Hout : ∀ i, 0 ≤ i < 8 + size → u8_at pkt (Z.of_nat (List.length outer) + i) =
    u8_at (icmp_error type code unused inner src dst data) i).
  { intros i Hi. unfold pkt. rewrite u8_at_app_r by lia. f_equal. lia. }
  assert (H0 : u8_at pkt 0 = Some (outer !!! 0%nat)) by (unfold pkt; by destruct outer).
  assert (Ht : u8_at pkt (Z.of_nat (List.length outer)) = Some type) by (rewrite <- (Z.add_0_r (Z.of_nat _)), Hout by lia; done).
  assert (Hc : u8_at pkt (Z.of_nat (List.length outer) + 1) = Some code) by (rewrite Hout by lia; done).
  assert (Hh : u8_at pkt (Z.of_nat (List.length outer) + 8) = Some (inner !!! 0%nat)).
  { rewrite Hout by lia. change 8 with (8 + 0). rewrite error_inner by lia. by destruct inner. }
  assert (Hp : u8_at pkt (Z.of_nat (List.length outer) + 8 + 9) = Some (inner !!! 9%nat)).
  { rewrite <- Z.add_assoc, Hout, error_inner by lia. unfold u8_at. cbn -[lookup]. 
    apply list_lookup_lookup_total_lt. lia. }
  pose proof (error_ports outer) as Hpm. fold pkt in Hpm.
  rewrite H0. cbn [mbind option_bind]. rewrite <- Ho2. rewrite (proj2 (Z.ltb_ge _ 8)) by lia.
  rewrite Ht, Hc. cbn [mbind option_bind]. rewrite (proj2 (Z.ltb_ge _ (8 + 20))) by lia.
  rewrite Hh. cbn [mbind option_bind]. rewrite <- Hi2. rewrite (proj2 (Z.ltb_ge _ _)) by lia.
  rewrite Hp. cbn [mbind option_bind]. rewrite Hpm. unfold is_probe.
  assert (Hty : (type =? ICMP_TIMXCEED) = true → (type =? ICMP_UNREACH) = false) by (intros E; zbool; by apply Z.eqb_neq; rewrite E).
  destruct (inner !!! 9%nat =? IPPROTO_UDP), (src =? sport), (dst =? u16 (dport + seq)), (type =? ICMP_TIMXCEED);
    rewrite ?(Hty eq_refl); destruct (code =? ICMP_TIMXCEED_INTRANS), (type =? ICMP_UNREACH); done.
Qed.

Lemma classify_v6_error rest : size = SIZEOF_IP6 →
  classify_v6 sport dport seq (icmp_error type code unused inner src dst data ++ rest)
    (Z.of_nat (List.length (icmp_error type code unused inner src dst data))) =
  Some (let probe := is_probe sport dport seq (inner !!! 6%nat) src dst in
        if (type =? ICMP6_TIME_EXCEEDED) && (code =? ICMP6_TIME_EXCEED_TRANSIT)
        then Answer (if probe then Some (-2) else None)
        else if type =? ICMP6_DST_UNREACH then
          if probe then Answer (Some (if code =? ICMP6_DST_UNREACH_NOPORT then -1 else code)) else Again
        else Other type code).
Proof.
  intros Hi. destruct (classify_v6_local sport dport seq (icmp_error type code unused inner src dst data) rest) as [_ ->].
  unfold classify_v6, SIZEOF_IP6 in *. rewrite length_icmp_error by done. set (pkt := icmp_error _ _ _ _ _ _ _).
  change (u8_at pkt 0) with (Some type). change (u8_at pkt 1) with (Some code).
  assert (Hp : u8_at pkt (8 + 6) = Some (inner !!! 6%nat)).
  { unfold pkt. rewrite error_inner by lia. unfold u8_at. cbn -[lookup]. apply list_lookup_lookup_total_lt. lia. }
  pose proof (error_ports []) as Hpm. cbn [List.length app] in Hpm. fold pkt in Hpm. rewrite Hi in Hpm.
  cbn [mbind option_bind]. rewrite !(proj2 (Z.ltb_ge _ _)) by lia. rewrite Hp. cbn [mbind option_bind].
  change (Z.of_nat 0 + 8 + 40) with (8 + 40) in Hpm. rewrite Hpm. unfold is_probe.
  destruct (inner !!! 6%nat =? IPPROTO_UDP), (src =? sport), (dst =? u16 (dport + seq)), (type =? ICMP6_TIME_EXCEEDED),
    (code =? ICMP6_TIME_EXCEED_TRANSIT), (type =? ICMP6_DST_UNREACH); done.
Qed.
End errors.

(** ** Receiving *)

Section receiving.
Context {K : Kernel} {KOk : RecvfromOk K}.
Context (pr : proto) (Hpr : pr = proto_v4 ∨ pr = proto_v6) (verbose : bool) (salen sport dport : Z).

(** What a packet says of probe [seq]; one too short to say anything is
    skipped. *)
Definition verdict_of (seq : Z) (pkt : list Z) : verdict :=
  default Again (classify pr sport dport seq pkt (Z.of_nat (List.length pkt))).
Definition unanswered (seq : Z) (pkt : list Z) : Prop := ∀ ret, verdict_of seq pkt ≠ Answer ret.
Definition answers (seq : Z) (ret : option Z) (new : list (list Z)) : Prop :=
  ∃ pre pkt, new = pre ++ [pkt] ∧ Forall (unanswered seq) pre ∧ verdict_of seq pkt = Answer ret.

Lemma classify_buffer seq pkt rest : pkt ++ rest ≠ [] →
  classify pr sport dport seq (pkt ++ rest) (Z.of_nat (List.length pkt)) = Some (verdict_of seq pkt).
Proof.
  intros Hne. unfold verdict_of. destruct Hpr as [->| ->]; cbn [classify proto_v4 proto_v6].
  - destruct (classify_v4_local sport dport seq pkt rest Hne) as [[v Hv] Heq]. destruct pkt as [|b pkt].
    + destruct rest as [|b rest]; [done|]. unfold classify_v4. change (u8_at ([] ++ b :: rest) 0) with (Some b).
      cbn [mbind option_bind List.length]. pose proof (ip_hlen_bound b). by rewrite (proj2 (Z.ltb_lt _ _)) by lia.
    + rewrite Hv in *. by rewrite <- Heq.
  - destruct (classify_v6_local sport dport seq pkt rest) as [[v Hv] Heq]. by rewrite <- Heq, Hv.
Qed.

Lemma host_returns sa p : is_inet sa → sockaddr_ok sa → ∃ host, Sock_ntop_host sa salen p = (Ret host, p).
Proof.
  intros Hi Hok. destruct (ntop_host_text sa Hi Hok) as (text & _ & _ & Hs). exists text.
  unfold Sock_ntop_host, sock_ntop_host. destruct sa as [port a|port a| |]; try done; cbn [sa_family addr_of] in *;
    by rewrite Hs.
Qed.

Definition recv_loop_post (fuel : nat) (recvfd seq : Z) (p : proc) (o : outcome (option (option Z) * list Z * sockaddr)) (p' : proc) : Prop :=
  ∃ new, packets recvfd (p_trace p') = packets recvfd (p_trace p) ++ new ∧
    match o with
    | Ret (None, buf, _) => List.length buf = 1500%nat ∧ Forall (unanswered seq) new
    | Ret (Some ret, buf, sa) => List.length buf = 1500%nat ∧ answers seq ret new ∧ is_inet sa ∧ sockaddr_ok sa
    | Exit st => st = 1
    | NoFuel => (asked recvfd (p_trace p) + fuel ≤ asked recvfd (p_trace p'))%nat
    | _ => False
    end.

(** A turn of the loop that received [pkts], none of which is the answer. *)
Lemma recv_loop_post_turn fuel recvfd seq p p1 pkts o p' :
  packets recvfd (p_trace p1) = packets recvfd (p_trace p) ++ pkts → Forall (unanswered seq) pkts →
  asked recvfd (p_trace p1) = S (asked recvfd (p_trace p)) →
  recv_loop_post fuel recvfd seq p1 o p' → recv_loop_post (S fuel) recvfd seq p o p'.
Proof.
  intros Hp Hu Ha (new & Hn & H). exists (pkts ++ new). rewrite Hn, Hp, app_assoc. split; [done|].
  destruct o as [[[[ret|] buf] sa]| | | |]; try done.
  - destruct H as (Hl & (pre & pkt & -> & Hpre & Hv) & Hi). split; [done|]. split; [|done].
    exists (pkts ++ pre), pkt. rewrite app_assoc. split; [done|]. split; [by apply Forall_app|done].
  - destruct H as [Hl H]. split; [done|]. by apply Forall_app.
  - lia.
Qed.

Lemma exits_no_packet {A} recvfd (m : M A) p (Q : outcome A → proc → Prop) :
  post m p (λ o p', o = Exit 1 ∧ reported p p') →
  (∀ p', packets recvfd (p_trace p') = packets recvfd (p_trace p) → Q (Exit 1) p') → post m p Q.
Proof.
  intros Hm HQ. eapply post_weaken; [exact Hm|]. intros o p' (-> & (t & Ht & Hq & _) & _). apply HQ.
  apply (extends_no_packet recvfd). exists t. split; [done|]. eapply Forall_impl; [exact Hq|].
  intros [? [] ?]; cbn; try done; split; done.
Qed.

Lemma recv_loop_correct fuel recvfd seq : ∀ buf sarecv p, List.length buf = 1500%nat →
  post (recv_loop pr verbose salen sport dport fuel recvfd seq buf sarecv) p (recv_loop_post fuel recvfd seq p).
Proof.
  induction fuel as [|f IH]; intros buf sarecv p Hbuf; cbn [recv_loop].
  { apply post_stop. exists []. rewrite app_nil_r. split; [done|]. lia. }
  apply post_bind, post_call. intros g Hg. cbn [through]. destruct g.
  { apply post_ret. exists []. cbn [add_event p_trace packets packets1]. rewrite !app_nil_r. done. }
  apply post_bind, post_syscall.
  - intros [bs sa] Hr. cbn [through]. pose proof (recvfrom_at_most _ _ BUFSIZE _ _ ltac:(done) Hr) as Hlen. unfold BUFSIZE in Hlen.
    assert (Hput : put buf 0 bs = bs ++ drop (List.length bs) buf) by done.
    rewrite Hput, classify_buffer.
    2: { intros E. apply (f_equal List.length) in E. rewrite length_app, length_drop in E. cbn in E. lia. }
    assert (Hbuf' : List.length (bs ++ drop (List.length bs) buf) = 1500%nat) by (rewrite length_app, length_drop; lia).
    set (p1 := add_event _ _ _).
    assert (Hp1 : packets recvfd (p_trace p1) = packets recvfd (p_trace p) ++ [bs]).
    { unfold p1. cbn [add_event p_trace packets packets1]. by rewrite Z.eqb_refl, app_nil_r. }
    assert (Ha1 : asked recvfd (p_trace p1) = S (asked recvfd (p_trace p))).
    { unfold p1. cbn [add_event p_trace asked asked1]. rewrite Z.eqb_refl. cbn. lia. }
    destruct (verdict_of seq bs) as [|ret|type code] eqn:Hv.
    + eapply post_weaken; [by apply IH|]. intros o p'. apply (recv_loop_post_turn _ _ _ _ _ [bs]); try done.
      constructor; [by intros ret; rewrite Hv|constructor].
    + apply post_ret. exists [bs]. split; [done|]. split; [done|]. split; [|by eapply recvfrom_inet].
      exists [], bs. split; [done|]. split; [constructor|done].
    + assert (Hu : Forall (unanswered seq) [bs]) by (constructor; [by intros ret; rewrite Hv|constructor]).
      apply post_bind. destruct verbose.
      * destruct (recvfrom_inet _ _ _ _ _ Hr) as [Hi Hok]. destruct (host_returns sa p1 Hi Hok) as [host Hhost].
        apply post_bind. eapply post_eq; [exact Hhost|]. cbn [through]. apply post_bind, post_syscall; intros x _; cbn [through];
          apply post_ret; cbn [through]; (eapply post_weaken; [by apply IH|]); intros o p';
          apply (recv_loop_post_turn _ _ _ _ _ [bs]); try done;
          cbn [add_event with_errno p_trace packets packets1 asked asked1]; by rewrite ?app_nil_r, ?Nat.add_0_r.
      * apply post_ret. cbn [through]. eapply post_weaken; [by apply IH|]. intros o p'.
        by apply (recv_loop_post_turn _ _ _ _ _ [bs]).
  - intros e He. cbn [through]. apply post_bind, post_get_errno. cbn [through]. destruct (_ =? EINTR).
    + eapply post_weaken; [by apply IH|]. intros o p'. apply (recv_loop_post_turn _ _ _ _ _ []); [|constructor|].
      * cbn [add_event with_errno p_trace packets packets1]. by rewrite !app_nil_r.
      * cbn [add_event with_errno p_trace asked asked1]. rewrite Z.eqb_refl. cbn. lia.
    + apply (exits_no_packet recvfd); [apply err_sys_exits|]. intros p' Hp'. exists []. rewrite app_nil_r, Hp'.
      cbn [add_event with_errno p_trace packets packets1]. by rewrite !app_nil_r.
Qed.
End receiving.

(** What a call of [recv] for probe [seq] comes to. *)
Definition recv_post (pr : proto) (sport dport : Z) (fuel : nat) (recvfd seq : Z) (tv : option (Z * Z)) (p : proc)
    (o : outcome (Z * option (Z * Z) * list Z * sockaddr)) (p' : proc) : Prop :=
  ∃ new, packets recvfd (p_trace p') = packets recvfd (p_trace p) ++ new ∧
    match o with
    | Ret (code, tv', buf, sa) => List.length buf = 1500%nat ∧
        (code = -3 ∧ tv' = tv ∧ Forall (unanswered pr sport dport seq) new ∨
         is_Some tv' ∧ answers pr sport dport seq (Some code) new ∧ is_inet sa ∧ sockaddr_ok sa)
    | Exit st => st = 1
    | UB => pr = proto_v6 ∧ answers pr sport dport seq None new
    | NoFuel => (asked recvfd (p_trace p) + fuel ≤ asked recvfd (p_trace p'))%nat
    | Abort => False
    end.

Lemma classify_v4_assigned sport dport seq buf n : classify_v4 sport dport seq buf n ≠ Some (Answer None).
Proof.
  unfold classify_v4. destruct (u8_at buf 0) as [ip|]; [|done]. cbn [mbind option_bind]. case_match; [done|].
  destruct (u8_at buf (ip_hlen ip)) as [ty|]; [|done]. destruct (u8_at buf (ip_hlen ip + 1)) as [co|]; [|done].
  cbn [mbind option_bind]. destruct (u8_at buf (ip_hlen ip + 8)) as [h|], (u8_at buf (ip_hlen ip + 8 + 9)) as [pr|];
    cbn [mbind option_bind]; try (repeat case_match; congruence).
  destruct (if pr =? IPPROTO_UDP then _ else _) as [[]|]; cbn [mbind option_bind]; repeat case_match; congruence.
Qed.

Section recv.
Context {K : Kernel} {KOk : RecvfromOk K}.
Context (pr : proto) (Hpr : pr = proto_v4 ∨ pr = proto_v6) (verbose : bool) (salen sport dport : Z).

Lemma event_no_packet {A} recvfd (c : sys A) a p : no_packet recvfd (Event c a) →
  packets recvfd (p_trace (add_event c a p)) = packets recvfd (p_trace p) ∧
  asked recvfd (p_trace (add_event c a p)) = asked recvfd (p_trace p).
Proof. intros [H1 H2]. cbn [add_event p_trace packets asked]. rewrite H1, H2, app_nil_r. split; [done|lia]. Qed.

Lemma or_err_sys_no_packet {A} recvfd (c : sys (res A)) msg p (Q : outcome A → proc → Prop) :
  (∀ r, no_packet recvfd (Event c r)) →
  (∀ a p', packets recvfd (p_trace p') = packets recvfd (p_trace p) → Q (Ret a) p') →
  (∀ p', packets recvfd (p_trace p') = packets recvfd (p_trace p) → Q (Exit 1) p') →
  post (or_err_sys c msg) p Q.
Proof.
  intros Hc H1 H2. apply post_bind, post_syscall.
  - intros a _. cbn [through]. apply post_ret, H1. by apply event_no_packet.
  - intros e _. cbn [through]. apply (exits_no_packet recvfd); [apply err_sys_exits|]. intros p' Hp'. apply H2.
    rewrite Hp'. by apply event_no_packet.
Qed.

Lemma recv_returns fuel recvfd seq tv buf sarecv p : List.length buf = 1500%nat →
  post (recv pr verbose salen sport dport fuel recvfd seq tv buf sarecv) p (recv_post pr sport dport fuel recvfd seq tv p).
Proof.
  intros Hbuf. unfold recv. apply post_bind, post_call. intros a _. cbn [through].
  destruct (event_no_packet recvfd (sys_alarm 3) a p) as [Hq Ha]; [done|]. apply post_bind.
  eapply post_weaken; [by apply (recv_loop_correct pr Hpr)|].
  intros [[[[ret|] buf'] sa]|st| | |] p' (new & Hn & H); rewrite Hq in Hn; cbn [through]; rewrite ?Ha in H;
    try (by exists new).
  - destruct H as (Hl & Hans & Hi). apply post_bind, post_call. intros a0 _. cbn [through].
    destruct (event_no_packet recvfd (sys_alarm 0) a0 p') as [Hq0 _]; [done|].
    apply post_bind. apply (or_err_sys_no_packet recvfd); [done| |].
    + intros t p2 Hp2. cbn [through]. rewrite Hq0, Hn in Hp2.
      destruct ret as [ret|]; [apply post_ret|apply post_stop]; exists new; (split; [done|]); [by eauto 10|].
      split; [|done]. destruct Hans as (pre & pkt & _ & _ & Hv). destruct Hpr as [->|]; [|done].
      exfalso. revert Hv. unfold verdict_of. cbn [classify proto_v4].
      pose proof (classify_v4_assigned sport dport seq pkt (Z.of_nat (List.length pkt))).
      destruct (classify_v4 _ _ _ _ _) as [v|]; cbn; congruence.
    + intros p2 Hp2. exists new. rewrite Hp2, Hq0. done.
  - apply post_ret. exists new. split; [done|]. destruct H as [Hl H]. split; [done|]. by left.
Qed.
End recv.

(** ** The hops *)

(** What is seen of a run: the port the socket for the probes is bound to, the TTLs set, the ports
    probed, the packets received. *)
Inductive hop_act := Bound (port : Z) | Ttl (v : list Z) | Probe (port : Z) | Packet (pkt : list Z).
Definition hop1 (pr : proto) (e : event) : list hop_act :=
  match e with
  | Event c a =>
      match c in sys A return A → list hop_act with
      | sys_bind _ sa _ => λ r, match r with Ok _ => [Bound (sock_get_port sa)] | Err _ => [] end
      | sys_setsockopt _ level opt v => λ r,
          match r with
          | Ok _ => if (level =? ttllevel pr) && (opt =? ttloptname pr) then [Ttl v] else []
          | Err _ => []
          end
      | sys_sendto _ _ sa => λ r, match r with Ok _ => [Probe (sock_get_port sa)] | Err _ => [] end
      | sys_recvfrom _ _ => λ r, match r with Ok (pkt, _) => [Packet pkt] | Err _ => [] end
      | _ => λ _, []
      end a
  end.
#[global] Instance quiet_hop pr : QuietUnseen (hop1 pr).
Proof. split. by intros [? [] ?]. Qed.

Section hops.
Context (pr : proto) (sport dport : Z) (nprobes : nat).

(** What came back of probe [seq]: nothing, or an answer with its code. *)
Definition reply (seq : Z) (pkts : list (list Z)) (r : option Z) : Prop :=
  match r with
  | None => Forall (unanswered pr sport dport seq) pkts
  | Some code => answers pr sport dport seq (Some code) pkts
  end.
Definition probe_acts (seq : Z) (pkts : list (list Z)) : list hop_act := Probe (htons (dport + seq)) :: (Packet <$> pkts).

(** [n] probes from [seq] on; whether one of them reached the destination (port unreachable). *)
Inductive probes : Z → nat → bool → list hop_act → Prop :=
| probes_nil seq : probes seq 0 false []
| probes_cons seq n pkts r hit l :
    reply seq pkts r → probes (seq + 1) n hit l → probes seq (S n) (bool_decide (r = Some (-1)) || hit) (probe_acts seq pkts ++ l).
(** The hops from [ttl] on, [todo] at most: up to the first that reaches the destination. *)
Inductive route : Z → Z → nat → list hop_act → Prop :=
| route_end ttl seq : route ttl seq 0 []
| route_arrived ttl seq todo l : probes seq nprobes true l → route ttl seq (S todo) (Ttl (le32_bytes ttl) :: l)
| route_on ttl seq todo l l' :
    probes seq nprobes false l → route (ttl + 1) (seq + Z.of_nat nprobes) todo l' →
    route ttl seq (S todo) (Ttl (le32_bytes ttl) :: l ++ l').

(** The same, cut short. *)
Inductive probes_cut : Z → nat → list hop_act → Prop :=
| cut_before seq n : probes_cut seq (S n) []
| cut_waiting seq n pkts : probes_cut seq (S n) (probe_acts seq pkts)
| cut_after seq n pkts r l :
    reply seq pkts r → probes_cut (seq + 1) n l → probes_cut seq (S n) (probe_acts seq pkts ++ l).
Inductive route_cut : Z → Z → nat → list hop_act → Prop :=
| route_cut_before ttl seq todo : route_cut ttl seq (S todo) []
| route_cut_probes ttl seq todo l : probes_cut seq nprobes l → route_cut ttl seq (S todo) (Ttl (le32_bytes ttl) :: l)
| route_cut_on ttl seq todo l l' :
    probes seq nprobes false l → route_cut (ttl + 1) (seq + Z.of_nat nprobes) todo l' →
    route_cut ttl seq (S todo) (Ttl (le32_bytes ttl) :: l ++ l').
End hops.

(** Complete, or stopped: by a report, by the undefined outcome of IPv6, at the bound on the iterations. *)
Definition full_or_cut {A} (pr : proto) (full : A → list hop_act → Prop) (cut : list hop_act → Prop) (o : outcome A) (new : list hop_act) : Prop :=
  match o with
  | Ret a => full a new
  | Exit st => st = 1 ∧ cut new
  | UB => pr = proto_v6 ∧ cut new
  | NoFuel => cut new
  | Abort => False
  end.

Section asks.
Context {K : Kernel} (pr : proto).

(** When the bound on the iterations is reached, as many calls of [recvfrom] were made. *)
Definition asks (fuel : nat) {A} (m : M A) : Prop := ∀ p, post m p (λ o p', o = NoFuel → ∃ fd, (fuel ≤ asked fd (p_trace p'))%nat).
Definition bounded {A} (m : M A) : Prop := ∀ p, post m p (λ o _, o ≠ NoFuel).

Lemma bounded_asks fuel {A} (m : M A) : bounded m → asks fuel m.
Proof. intros H p. eapply post_weaken; [apply H|]. by intros o p' Ho ->. Qed.
Lemma asks_bind {A B} fuel (m : M A) (k : A → M B) : asks fuel m → (∀ a, asks fuel (k a)) → asks fuel (m ≫= k).
Proof.
  intros Hm Hk p. apply post_bind. eapply post_weaken; [apply Hm|].
  intros [a|st| | |] p' Ho; cbn [through]; try done; [apply Hk|auto].
Qed.
Lemma asks_then {A B} fuel (m : M A) (k : A → M B) (Q : outcome A → list hop_act → Prop) :
  runs (hop1 pr) m Q → asks fuel m → (∀ a new, Q (Ret a) new → asks fuel (k a)) → asks fuel (m ≫= k).
Proof.
  intros Hr Hm Hk p. apply post_bind. eapply post_weaken; [exact (post_and _ _ _ _ (Hm p) (Hr p))|].
  intros [a|st| | |] p' [Ho (new & _ & HQ)]; cbn [through]; try done; [by eapply Hk|auto].
Qed.
Lemma bounded_bind {A B} (m : M A) (k : A → M B) : bounded m → (∀ a, bounded (k a)) → bounded (m ≫= k).
Proof.
  intros Hm Hk p. apply post_bind. eapply post_weaken; [apply Hm|].
  intros [a|st| | |] p' Ho; cbn [through]; try done. apply Hk.
Qed.
Lemma bounded_ret {A} (a : A) : bounded (mret a).
Proof. by intros p. Qed.
Lemma bounded_stop {A} (o : outcome A) : o ≠ NoFuel → bounded (stop o).
Proof. by intros Ho p. Qed.
Lemma bounded_call {A} (c : sys A) : bounded (call c).
Proof. by intros p. Qed.
Lemma bounded_errno e : bounded (set_errno e) ∧ bounded get_errno ∧ bounded get_daemon_proc.
Proof. by split_and!. Qed.
Lemma bounded_cmp a b : bounded (stop (sock_cmp_addr a b)).
Proof. intros p. apply post_stop. unfold sock_cmp_addr. repeat case_match; congruence. Qed.
End asks.
Ltac bounded_tac := repeat first
  [ progress intros
  | apply bounded_bind
  | apply bounded_call
  | apply bounded_cmp
  | apply (proj1 (bounded_errno _))
  | apply (bounded_errno 0)
  | match goal with |- bounded (match ?x with _ => _ end) => destruct x end
  | apply bounded_ret
  | (apply bounded_stop; done)
  | progress unfold Sock_ntop_host, sock_ntop_host, ntop, ntop_unix, printf, syscall, exit, Gettimeofday, Sendto, Setsockopt, or_err_sys,
      err_sys, err_quit, err_doit, Socket, Bind ].

Section loops.
Context {K : Kernel} {KOk : RecvfromOk K}.
Context (pr : proto) (Hpr : pr = proto_v4 ∨ pr = proto_v6) (verbose : bool) (salen sport dport : Z).

Definition tl_ok (s : tl) : Prop :=
  List.length (recvbuf s) = 1500%nat ∧ is_inet (sasend s) ∧
  (salast s = SaOther AF_UNSPEC [] ∨ is_inet (salast s)) ∧ 0 ≤ done s.

(** Calls that are not seen, and reports. *)
Lemma hop_exits {A} msg (Q : outcome A → list hop_act → Prop) : Q (Exit 1) [] → runs (hop1 pr) (err_sys msg) Q.
Proof.
  intros HQ. apply runs_unseen; [exact (framed_unseen_err (hop1 pr) msg)|]. intros p.
  eapply post_weaken; [apply err_sys_exits|]. by intros o p' [-> _].
Qed.
Lemma hop_or_err {A} (c : sys (res A)) msg (Q : outcome A → list hop_act → Prop) :
  (∀ a, Q (Ret a) (hop1 pr (Event c (Ok a)))) → (∀ e, hop1 pr (Event c (Err e)) = []) → Q (Exit 1) [] →
  runs (hop1 pr) (or_err_sys c msg) Q.
Proof.
  intros H1 H2 H3. unfold or_err_sys. runs_steps; [rewrite app_nil_r; apply H1|]. rewrite H2. by apply hop_exits.
Qed.
Lemma hop_printf s (Q : outcome unit → list hop_act → Prop) : Q (Ret tt) [] → runs (hop1 pr) (printf s) Q.
Proof. intros HQ. unfold printf. by runs_steps. Qed.
Lemma hop_host sa (Q : outcome string → list hop_act → Prop) : is_inet sa → sockaddr_ok sa → (∀ host, Q (Ret host) []) →
  runs (hop1 pr) (Sock_ntop_host sa salen) Q.
Proof.
  intros Hi Hok HQ p. destruct (host_returns salen sa p Hi Hok) as [host Hhost]. eapply post_eq; [exact Hhost|].
  exists []. by rewrite app_nil_r.
Qed.

(** A call of [recv] shows the packets it received. *)
Definition packets_of (recvfd : Z) (e : event) : Prop := hop1 pr e = Packet <$> packets1 recvfd e.
Lemma packets_seen recvfd p p' new : frame (packets_of recvfd) p p' → packets recvfd (p_trace p') = packets recvfd (p_trace p) ++ new →
  seen (hop1 pr) (p_trace p') = seen (hop1 pr) (p_trace p) ++ (Packet <$> new).
Proof.
  intros [(t & -> & Ht) _] Hn. assert (H : ∃ new', packets recvfd (t ++ p_trace p) = packets recvfd (p_trace p) ++ new' ∧
    seen (hop1 pr) (t ++ p_trace p) = seen (hop1 pr) (p_trace p) ++ (Packet <$> new')).
  { clear Hn. induction Ht as [|e t He _ (new' & IH1 & IH2)]; [exists []; by rewrite !app_nil_r|].
    exists (new' ++ packets1 recvfd e). cbn [app packets seen]. rewrite IH1, IH2, He, fmap_app, !app_assoc. done. }
  destruct H as (new' & H1 & ->). rewrite Hn in H1. by apply app_inv_head in H1 as ->.
Qed.
Lemma framed_recv fuel recvfd seq tv buf sarecv :
  framed (packets_of recvfd) (recv pr verbose salen sport dport fuel recvfd seq tv buf sarecv).
Proof.
  assert (Hq : ∀ e, quiet e → packets_of recvfd e) by by intros [? [] ?].
  assert (Herr : ∀ A msg, framed (packets_of recvfd) (err_sys (A := A) msg)) by (intros A msg; by apply framed_err_sys).
  assert (Hrecv : ∀ n r, packets_of recvfd (Event (sys_recvfrom recvfd n) r)).
  { intros n [[bs sa]|e]; unfold packets_of; cbn; by rewrite ?Z.eqb_refl. }
  assert (Hloop : ∀ buf sa, framed (packets_of recvfd) (recv_loop pr verbose salen sport dport fuel recvfd seq buf sa)).
  { induction fuel as [|f IH]; intros b sa; cbn [recv_loop]; [framed_tac|].
    repeat first [apply IH|apply Herr|apply framed_call; intros; first [reflexivity|apply Hrecv]|progress framed_tac
      |progress unfold Sock_ntop_host, sock_ntop_host, ntop, ntop_unix, printf]. }
  unfold recv, Gettimeofday, or_err_sys.
  repeat first [apply Hloop|apply Herr|apply framed_call; intros; reflexivity|progress framed_tac].
Qed.
Lemma recv_shows fuel recvfd seq tv buf sarecv (Q : outcome (Z * option (Z * Z) * list Z * sockaddr) → list hop_act → Prop) :
  List.length buf = 1500%nat →
  (∀ pkts code tv' buf' sa, List.length buf' = 1500%nat →
     (code = -3 ∧ reply pr sport dport seq pkts None ∨
      is_Some tv' ∧ reply pr sport dport seq pkts (Some code) ∧ is_inet sa ∧ sockaddr_ok sa) →
     Q (Ret (code, tv', buf', sa)) (Packet <$> pkts)) →
  (∀ pkts, Q (Exit 1) (Packet <$> pkts)) → (∀ pkts, pr = proto_v6 → Q UB (Packet <$> pkts)) → (∀ pkts, Q NoFuel (Packet <$> pkts)) →
  runs (hop1 pr) (recv pr verbose salen sport dport fuel recvfd seq tv buf sarecv) Q.
Proof.
  intros Hbuf H1 H2 H3 H4 p. eapply post_weaken.
  { apply post_and; [by apply (recv_returns pr Hpr verbose salen sport dport fuel recvfd seq tv buf sarecv p)|apply framed_post, framed_recv]. }
  intros o p' [(new & Hn & Ho) Hf]. exists (Packet <$> new). split; [by eapply packets_seen|].
  destruct o as [[[[code tv'] buf'] sa]|st| | |]; [|subst st; auto|done|destruct Ho; auto|auto].
  destruct Ho as [Hl Ho]. apply H1; [done|]. destruct Ho as [(? & _ & ?)|?]; [by left|by right].
Qed.

Lemma set_port_inet sa port : is_inet sa → is_inet (sock_set_port sa (htons port)) ∧ sock_get_port (sock_set_port sa (htons port)) = htons port.
Proof.
  intros H. pose proof (htons_bound port). destruct sa; try done; (split; [done|]); cbn; by apply Z.mod_small.
Qed.
Lemma cmp_defined a b : is_inet a → (b = SaOther AF_UNSPEC [] ∨ is_inet b) → ∃ cmp, sock_cmp_addr a b = Ret cmp.
Proof.
  intros Ha Hb. unfold sock_cmp_addr. destruct a; try done; destruct b; destruct Hb as [Hb|Hb]; simplify_eq; try done;
    cbn; by eexists.
Qed.

(** What is printed of a reply is not seen; only -1 counts as an arrival. *)
Definition counted (s s' : tl) (hit : bool) : Prop := 0 ≤ done s' ∧ (done s' = 0 ↔ done s = 0 ∧ hit = false).
Definition probe_post (s : tl) : outcome tl → list hop_act → Prop :=
  full_or_cut pr
    (λ s' new, tl_ok s' ∧ seq s' = seq s + 1 ∧ ∃ pkts r, new = probe_acts dport (seq s + 1) pkts ∧
       reply pr sport dport (seq s + 1) pkts r ∧ counted s s' (bool_decide (r = Some (-1))))
    (λ new, new = [] ∨ ∃ pkts, new = probe_acts dport (seq s + 1) pkts).
Lemma probe_shows fuel sendfd recvfd ttl s : tl_ok s →
  runs (hop1 pr) (probe_step pr verbose salen sport dport fuel sendfd recvfd ttl s) (probe_post s).
Proof.
  intros (Hbuf & Hsend & Hlast & Hdone). unfold probe_step. cbn zeta.
  apply runs_bind, hop_or_err; [intros rec_tv|done|by (split; [done|]; left)]. cbn [passes hop1].
  destruct (set_port_inet (sasend s) (dport + (seq s + 1)) Hsend) as [Hi Hport].
  set (sasend1 := sock_set_port _ _) in *.
  assert (Hcut : ∀ pkts, probe_post s (Exit 1) (Probe (sock_get_port sasend1) :: (Packet <$> pkts))).
  { intros pkts. split; [done|]. right. exists pkts. by rewrite Hport. }
  apply runs_bind. unfold Sendto. apply runs_bind, runs_syscall; [intros n|intros e]; cbn [passes hop1 app].
  2: { apply hop_exits. cbn [passes]. split; [done|by left]. }
  case_match; [|apply hop_exits; cbn [passes]; exact (Hcut [])].
  apply runs_ret. cbn [passes app]. apply runs_bind. eapply recv_shows; [done| | | |]; cbn [passes app].
  2: { intros pkts. apply Hcut. }
  2: { intros pkts Hv6. split; [done|]. right. exists pkts. unfold probe_acts. by rewrite <- Hport. }
  2: { intros pkts. right. exists pkts. unfold probe_acts. by rewrite <- Hport. }
  intros pkts code tv' buf' sa Hbuf' Hcode.
  assert (Hfin : ∀ salast1 done1 r, (salast1 = SaOther AF_UNSPEC [] ∨ is_inet salast1) →
    reply pr sport dport (seq s + 1) pkts r → done1 = (if bool_decide (r = Some (-1)) then done s + 1 else done s) →
    runs (hop1 pr) (call (sys_fflush STDOUT_FILENO) ;; mret (Tl buf' (rec_bytes (seq s + 1) ttl rec_tv (sendbuf s)) sasend1 sa salast1 (seq s + 1) done1))
      (λ o new, probe_post s o (Probe (sock_get_port sasend1) :: (Packet <$> pkts) ++ new))).
  { intros salast1 done1 r Hl Hr ->. apply runs_bind, runs_call. intros u. cbn [passes hop1]. apply runs_ret. rewrite !app_nil_r.
    split; [split; [done|]; split; [done|]; split; [done|]; cbn; case_match; lia|]. split; [done|].
    exists pkts, r. split; [unfold probe_acts; by rewrite Hport|]. split; [done|]. unfold counted. cbn. case_bool_decide; split; try lia; split; intuition lia. }
  apply runs_bind. destruct (Z.eqb_spec code (-3)) as [->|Hne].
  - apply runs_bind, hop_printf. cbn [passes]. apply runs_ret. cbn [passes app]. destruct Hcode as [[_ Hr]|(_ & Hr & _)].
    + by apply (Hfin _ _ None).
    + by apply (Hfin _ _ (Some (-3))).
  - destruct Hcode as [[? _]|(Htv & Hr & Hsa & Hok)]; [done|]. destruct Htv as [tvrecv ->].
    destruct (cmp_defined sa (salast s) Hsa Hlast) as [cmp ->].
    change (stop (Ret cmp)) with (mret cmp : M Z). apply runs_bind, runs_ret. cbn [passes].
    apply runs_bind. apply runs_weaken with (Q := λ o new, ∃ u, o = Ret u ∧ new = []).
    { destruct (negb (cmp =? 0)); [|apply runs_ret; by exists tt].
      apply runs_bind, runs_call. intros str. cbn [passes hop1 app]. apply runs_bind, hop_host; [done|done|].
      intros host. cbn [passes]. destruct str; apply hop_printf; by exists tt. }
    intros o new (u & -> & ->). cbn [passes app]. apply runs_bind, hop_printf. cbn [passes].
    apply runs_bind. apply runs_weaken with (Q := λ o new, ∃ u, o = Ret u ∧ new = []).
    { case_match; [apply hop_printf|apply runs_ret]; by exists tt. }
    intros o new (u' & -> & ->). cbn [passes app]. apply runs_ret. cbn [passes app].
    apply (Hfin _ _ (Some code)); [case_match; [by right|done]|done|].
    destruct (Z.eqb_spec code (-1)) as [->|H1]; [done|]. by rewrite bool_decide_false by congruence.
Qed.

Lemma probe_loop_shows fuel sendfd recvfd ttl todo : ∀ s, tl_ok s →
  runs (hop1 pr) (probe_loop pr verbose salen sport dport fuel sendfd recvfd ttl todo s)
    (full_or_cut pr
       (λ s' new, tl_ok s' ∧ seq s' = seq s + Z.of_nat todo ∧ ∃ hit, probes pr sport dport (seq s + 1) todo hit new ∧ counted s s' hit)
       (probes_cut pr sport dport (seq s + 1) todo)).
Proof.
  induction todo as [|todo IH]; intros s Hs; cbn [probe_loop].
  - apply runs_ret. split; [done|]. split; [lia|]. exists false. split; [apply probes_nil|]. split; [apply Hs|]. by split; [|intros []].
  - apply runs_bind. eapply runs_weaken; [by apply probe_shows|].
    assert (Hcut : ∀ new, new = [] ∨ (∃ pkts, new = probe_acts dport (seq s + 1) pkts) → probes_cut pr sport dport (seq s + 1) (S todo) new).
    { intros new [->|[pkts ->]]; [apply cut_before|apply cut_waiting]. }
    intros o new Ho. destruct o as [s1|st| | |]; cbn [passes probe_post full_or_cut] in *; try done; [|naive_solver..].
    destruct Ho as (Hs1 & Hseq & pkts & r & -> & Hr & Hcnt). eapply runs_weaken; [by apply IH|]. rewrite Hseq.
    intros o new Ho. destruct o as [s2|st| | |]; cbn [full_or_cut] in *; try done.
    + destruct Ho as (Hs2 & Hseq2 & hit & Hp & Hcnt2). split; [done|]. split; [lia|].
      exists (bool_decide (r = Some (-1)) || hit). split; [by apply probes_cons|]. split; [apply Hcnt2|].
      rewrite (proj2 Hcnt2), (proj2 Hcnt), orb_false_iff. tauto.
    + destruct Ho as [-> Ho]. split; [done|]. by eapply cut_after.
    + destruct Ho as [-> Ho]. split; [done|]. by eapply cut_after.
    + by eapply cut_after.
Qed.

Lemma ttl_loop_shows fuel sendfd recvfd nprobes todo : ∀ ttl s, tl_ok s → done s = 0 →
  runs (hop1 pr) (ttl_loop pr verbose salen sport dport fuel sendfd recvfd ttl nprobes todo s)
    (full_or_cut pr (λ _, route pr sport dport nprobes ttl (seq s + 1) todo) (route_cut pr sport dport nprobes ttl (seq s + 1) todo)).
Proof.
  induction todo as [|todo IH]; intros ttl s Hs Hd; cbn [ttl_loop]; [apply runs_ret, route_end|].
  rewrite Hd. cbn [Z.eqb negb]. apply runs_bind, hop_or_err; [intros []|done|split; [done|apply route_cut_before]].
  cbn [passes hop1]. rewrite !Z.eqb_refl. cbn [andb]. apply runs_bind, hop_printf. cbn [passes].
  apply runs_bind, runs_call. intros u. cbn [passes hop1 app]. apply runs_bind.
  set (s0 := Tl _ _ _ _ _ _ _). assert (Hs0 : tl_ok s0) by (destruct Hs as (? & ? & ? & ?); by split_and!; [..|left|]).
  eapply runs_weaken; [by apply (probe_loop_shows fuel sendfd recvfd ttl nprobes s0)|].
  intros o l Ho. change (seq s0) with (seq s) in Ho.
  destruct o as [s1|st| | |]; cbn [passes full_or_cut] in *; try done.
  2: { destruct Ho as [-> Ho]. split; [done|by apply route_cut_probes]. }
  2: { destruct Ho as [-> Ho]. split; [done|by apply route_cut_probes]. }
  2: { by apply route_cut_probes. }
  destruct Ho as (Hs1 & Hseq & hit & Hp & _ & Hcnt). apply runs_bind, hop_printf. cbn [passes app].
  change (done s0) with 0 in Hcnt. destruct hit.
  - assert (Hd1 : done s1 ≠ 0) by (intros E; by apply Hcnt in E as [_ ?]).
    assert (Hstop : runs (hop1 pr) (mret s1) (λ o new, full_or_cut pr (λ _, route pr sport dport nprobes ttl (seq s + 1) (S todo))
      (route_cut pr sport dport nprobes ttl (seq s + 1) (S todo)) o (Ttl (le32_bytes ttl) :: l ++ new))).
    { apply runs_ret. rewrite app_nil_r. by apply route_arrived. }
    destruct todo as [|todo]; cbn [ttl_loop]; [exact Hstop|]. by rewrite (proj2 (Z.eqb_neq _ _) Hd1).
  - eapply runs_weaken; [apply IH; [done|by apply Hcnt]|]. rewrite Hseq. replace (seq s + Z.of_nat nprobes + 1) with (seq s + 1 + Z.of_nat nprobes) by lia.
    intros o l' Ho. destruct o; cbn [full_or_cut] in *; try done.
    + by eapply route_on.
    + destruct Ho as [-> Ho]. split; [done|by eapply route_cut_on].
    + destruct Ho as [-> Ho]. split; [done|by eapply route_cut_on].
    + by eapply route_cut_on.
Qed.

Lemma recv_asks fuel recvfd seq tv buf sarecv : List.length buf = 1500%nat →
  asks fuel (recv pr verbose salen sport dport fuel recvfd seq tv buf sarecv).
Proof.
  intros Hbuf p. eapply post_weaken; [by apply (recv_returns pr Hpr)|]. intros o p' (new & _ & Ho) ->. exists recvfd. lia.
Qed.
Lemma probe_asks fuel sendfd recvfd ttl s : tl_ok s → asks fuel (probe_step pr verbose salen sport dport fuel sendfd recvfd ttl s).
Proof.
  intros (Hbuf & _). unfold probe_step. cbn zeta. apply asks_bind; [apply bounded_asks; bounded_tac|]. intros rec_tv.
  apply asks_bind; [apply bounded_asks; bounded_tac|]. intros _. apply asks_bind; [by apply recv_asks|].
  intros [[[code tv] buf'] sa]. apply bounded_asks. bounded_tac.
Qed.
Lemma probe_loop_asks fuel sendfd recvfd ttl todo : ∀ s, tl_ok s →
  asks fuel (probe_loop pr verbose salen sport dport fuel sendfd recvfd ttl todo s).
Proof.
  induction todo as [|todo IH]; intros s Hs; cbn [probe_loop]; [apply bounded_asks; bounded_tac|].
  eapply (asks_then pr); [by apply probe_shows|by apply probe_asks|]. intros s1 new [Hs1 _]. by apply IH.
Qed.
Lemma ttl_loop_asks fuel sendfd recvfd nprobes todo : ∀ ttl s, tl_ok s →
  asks fuel (ttl_loop pr verbose salen sport dport fuel sendfd recvfd ttl nprobes todo s).
Proof.
  induction todo as [|todo IH]; intros ttl s Hs; cbn [ttl_loop]; [apply bounded_asks; bounded_tac|].
  case_match; [apply bounded_asks; bounded_tac|].
  do 3 (apply asks_bind; [apply bounded_asks; bounded_tac|]; intros _).
  set (s0 := Tl _ _ _ _ _ _ _). assert (Hs0 : tl_ok s0) by (destruct Hs as (? & ? & ? & ?); by split_and!; [..|left|]).
  eapply (asks_then pr); [by apply (probe_loop_shows fuel sendfd recvfd ttl nprobes s0)|by apply probe_loop_asks|].
  intros s1 new (Hs1 & _). apply asks_bind; [apply bounded_asks; bounded_tac|]. intros _. by apply IH.
Qed.
End loops.

Section traceloop_facts.
Context {K : Kernel} {KOk : RecvfromOk K}.
Context (pr : proto) (Hpr : pr = proto_v4 ∨ pr = proto_v6) (verbose : bool) (salen dport : Z).

Definition tl0 (sasend : sockaddr) : tl :=
  Tl (replicate 1500 0) (replicate 1500 0) sasend (SaOther AF_UNSPEC []) (SaOther AF_UNSPEC []) 0 0.
Lemma tl0_ok sasend : is_inet sasend → tl_ok (tl0 sasend).
Proof. intros Hs. split; [done|]. split; [done|]. by split; [left|]. Qed.
(** The filter of the IPv6 socket is not a TTL. *)
Lemma filter_hidden (m : bool) recvfd v (Q : outcome unit → list hop_act → Prop) : Q (Ret tt) [] →
  runs (hop1 pr) (if m then syscall (sys_setsockopt recvfd IPPROTO_IPV6 ICMP6_FILTER v) ;; mret tt else mret tt) Q.
Proof.
  intros HQ. destruct m; [|by apply runs_ret]. apply runs_bind, runs_syscall; intros x; cbn [passes hop1]; apply runs_ret; [|done].
  by destruct Hpr as [->| ->].
Qed.

Lemma traceloop_shows fuel nprobes max_ttl sasend : is_inet sasend →
  runs (hop1 pr) (traceloop fuel pr verbose salen dport nprobes max_ttl sasend) (λ o new, o = Exit 1 ∧ new = [] ∨
    ∃ sport l, new = Bound (htons sport) :: l ∧
      full_or_cut pr (λ _, route pr sport dport nprobes 1 1 (Z.to_nat max_ttl)) (route_cut pr sport dport nprobes 1 1 (Z.to_nat max_ttl)) o l).
Proof.
  intros Hs. unfold traceloop. cbn zeta.
  apply runs_bind, hop_or_err; [intros recvfd|done|by left]. cbn [passes hop1].
  apply runs_bind, runs_call. intros uid. cbn [passes hop1 app].
  apply runs_bind, runs_syscall; intros u; cbn [passes hop1 app]; apply runs_bind, filter_hidden; cbn [passes app];
    (apply runs_bind, hop_or_err; [intros sendfd|done|by left]); cbn [passes hop1 app];
    apply runs_bind, runs_call; intros pid; cbn [passes hop1 app];
    (apply runs_bind, hop_or_err; [intros []|done|by left]); cbn [passes hop1 app];
    set (sport := Z.lor (Z.land pid 65535) 32768);
    (assert (Hport : sock_get_port (if sa_family sasend =? AF_INET then SaIn (htons sport) INADDR_ANY
        else if sa_family sasend =? AF_INET6 then SaIn6 (htons sport) in6addr_any else SaOther (sa_family sasend) []) = htons sport)
      by by destruct sasend);
    rewrite Hport; (eapply runs_weaken; [by apply (ttl_loop_shows pr Hpr verbose salen sport dport fuel sendfd recvfd nprobes _ 1 (tl0 sasend)); [apply tl0_ok|]|]);
    intros o l Ho; right; by exists sport, l.
Qed.
Lemma traceloop_asks fuel nprobes max_ttl sasend : is_inet sasend →
  asks fuel (traceloop fuel pr verbose salen dport nprobes max_ttl sasend).
Proof.
  intros Hs. unfold traceloop. cbn zeta.
  do 7 (apply asks_bind; [apply bounded_asks; bounded_tac|]; intros ?). by apply (ttl_loop_asks pr Hpr), tl0_ok.
Qed.
End traceloop_facts.

(** ** Properties *)

(** C15: an ICMP error that traceroute receives is taken for the answer to probe [seq] exactly when
    the datagram it quotes is that probe: UDP, from our port to [dport + seq], whatever earlier
    packets left in the buffer behind it.  Over IPv4 a time exceeded in transit then gives
    -2, a port unreachable -1, another unreachable its code; over IPv6 the same,
    but a time exceeded that quotes another datagram also ends the loop, with
    no value.  The error is laid out as RFC 792 and RFC 4443 say: over IPv4 the IP header with its options, then the type,
    the code and six bytes, the quoted IP header and at least the two ports. *)
Theorem trace_classifies (sport dport seq type code : Z) (unused inner : list Z) (src dst : Z) (data rest : list Z) :
  0 ≤ sport < 2 ^ 16 → 0 ≤ src < 2 ^ 16 → 0 ≤ dst < 2 ^ 16 → List.length unused = 6%nat →
  let error := icmp_error type code unused inner src dst data in
  (∀ outer, ip_header outer → ip_header inner →
     classify_v4 sport dport seq (outer ++ error ++ rest) (Z.of_nat (List.length (outer ++ error))) =
     Some (if is_probe sport dport seq (inner !!! 9%nat) src dst &&
              ((type =? ICMP_UNREACH) || (type =? ICMP_TIMXCEED) && (code =? ICMP_TIMXCEED_INTRANS))
           then Answer (Some (if type =? ICMP_TIMXCEED then -2 else if code =? ICMP_UNREACH_PORT then -1 else code))
           else Other type code)) ∧
  (Z.of_nat (List.length inner) = SIZEOF_IP6 →
     classify_v6 sport dport seq (error ++ rest) (Z.of_nat (List.length error)) =
     Some (let probe := is_probe sport dport seq (inner !!! 6%nat) src dst in
           if (type =? ICMP6_TIME_EXCEEDED) && (code =? ICMP6_TIME_EXCEED_TRANSIT)
           then Answer (if probe then Some (-2) else None)
           else if type =? ICMP6_DST_UNREACH then
             if probe then Answer (Some (if code =? ICMP6_DST_UNREACH_NOPORT then -1 else code)) else Again
           else Other type code)).
Proof.
  intros Hsp Hs Hd Hu. cbn zeta. split.
  - intros outer Ho Hi. by apply classify_v4_error.
  - intros Hi. by apply classify_v6_error.
Qed.

(** C31: [recv_v4] and [recv_v6] wait for the answer to their probe.  A value
    other than -3 is what the last packet received says of the probe, all the
    packets before it said nothing of it, and its source is an Internet address;
    -3 is returned when none of the packets received was an answer.  No byte
    outside the packets is used.  The one undefined outcome is that of
    [recv_v6] on a time exceeded about another datagram, and the bound on the
    iterations is only reached after as many calls of [recvfrom]. *)
Theorem recv_correct {K : Kernel} {KOk : RecvfromOk K} (pr : proto) (verbose : bool) (salen sport dport : Z)
    (fuel : nat) (recvfd seq : Z) (tv : option (Z * Z)) (buf : list Z) (sarecv : sockaddr) (p : proc) :
  pr = proto_v4 ∨ pr = proto_v6 → List.length buf = 1500%nat →
  post (recv pr verbose salen sport dport fuel recvfd seq tv buf sarecv) p
    (recv_post pr sport dport fuel recvfd seq tv p).
Proof. intros Hpr. by apply recv_returns. Qed.

(** C30: [traceloop] sends its probes hop by hop, from TTL 1 on: for each hop it sets
    the TTL and sends [nprobes] datagrams to consecutive ports, numbered from [dport + 1]
    on over the whole run, each after the answer to the one before, or after
    its time is over.  A probe has reached the destination when the packet received last for it is an
    ICMP error about that very datagram, from the bound port to its own, that says port unreachable.  The run
    that returns ends with the first hop one of whose probes did, and with no hop before it; where
    no probe did it has all of [max_ttl] hops.  A run that stops before (by a report, or in the undefined outcome
    that only the IPv6 version has) has shown the beginning of such a run, in which no hop but the last
    can have reached the destination; the bound on the iterations is only reached after as many calls
    of [recvfrom].  The destination is an Internet address, and [recvfrom] gives no more bytes than
    it is asked for and the addresses of Internet hosts. *)
Theorem traceloop_correct {K : Kernel} {KOk : RecvfromOk K} (fuel : nat) (pr : proto) (verbose : bool) (salen dport : Z)
    (nprobes : nat) (max_ttl : Z) (sasend : sockaddr) (p : proc) :
  pr = proto_v4 ∨ pr = proto_v6 → is_inet sasend →
  post (traceloop fuel pr verbose salen dport nprobes max_ttl sasend) p (λ o p',
    (o = NoFuel → ∃ fd, (fuel ≤ asked fd (p_trace p'))%nat) ∧
    ∃ new, seen (hop1 pr) (p_trace p') = seen (hop1 pr) (p_trace p) ++ new ∧
      (o = Exit 1 ∧ new = [] ∨
       ∃ sport l, new = Bound (htons sport) :: l ∧
         full_or_cut pr (λ _, route pr sport dport nprobes 1 1 (Z.to_nat max_ttl)) (route_cut pr sport dport nprobes 1 1 (Z.to_nat max_ttl)) o l)).
Proof.
  intros Hpr Hs.
  apply post_and.
  { apply (traceloop_asks pr Hpr). done. }
  apply (traceloop_shows pr Hpr). done.
Qed.

(** ** Examples *)

Definition hop_header : list Z := [69; 0; 0; 56; 0; 0; 0; 0; 64; 17; 0; 0; 10; 0; 0; 1; 10; 0; 0; 2].
Lemma trace_classifies_witness :
  classify_v4 40000 33434 1 (hop_header ++ icmp_error 11 0 [0; 0; 0; 0; 0; 0] hop_header 40000 33435 [] ++ [])
    (Z.of_nat (List.length (hop_header ++ icmp_error 11 0 [0; 0; 0; 0; 0; 0] hop_header 40000 33435 []))) =
  Some (Answer (Some (-2))).
Proof.
  etransitivity; [|].
  - apply (trace_classifies 40000 33434 1 11 0 [0; 0; 0; 0; 0; 0] hop_header 40000 33435 [] []); done.
  - vm_compute. reflexivity.
Defined.

(** A router that answers every probe with a time exceeded. *)
Definition router : Kernel := λ A t c,
  match c in sys A return A with
  | sys_recvfrom _ n =>
      Ok (take (Z.to_nat n) (hop_header ++ icmp_error 11 0 [0; 0; 0; 0; 0; 0] hop_header 40000 33435 []), SaIn 0 [10; 0; 0; 1])
  | c => plain t c
  end.
#[global] Instance router_ok : RecvfromOk router.
Proof.
  split; intros t fd n bs sa; cbn.
  - intros Hn [= <- <-]. rewrite length_take. lia.
  - intros [= <- <-]. split; [done|]. split; [done|]. split; [done|]. by repeat constructor.
Qed.
Lemma recv_correct_witness :
  post (recv (K := router) proto_v4 false 16 40000 33434 5 3 1 None (replicate 1500 0) (SaOther AF_UNSPEC [])) proc0
    (recv_post proto_v4 40000 33434 5 3 1 None proc0).
Proof. apply recv_correct; [by left|done]. Defined.
Lemma traceloop_correct_witness :
  post (traceloop (K := router) 5 proto_v4 false 16 33434 1 2 (SaIn 0 [10; 0; 0; 2])) proc0 (λ o p',
    (o = NoFuel → ∃ fd, (5 ≤ asked fd (p_trace p'))%nat) ∧
    ∃ new, seen (hop1 proto_v4) (p_trace p') = seen (hop1 proto_v4) (p_trace proc0) ++ new ∧
      (o = Exit 1 ∧ new = [] ∨
       ∃ sport l, new = Bound (htons sport) :: l ∧
         full_or_cut proto_v4 (λ _, route proto_v4 sport 33434 1 1 1 (Z.to_nat 2)) (route_cut proto_v4 sport 33434 1 1 1 (Z.to_nat 2)) o l)) ∧
  take 3 (seen (hop1 proto_v4) (p_trace (traceloop (K := router) 5 proto_v4 false 16 33434 1 2 (SaIn 0 [10; 0; 0; 2]) proc0).2)) =
    [Bound (htons 32769); Ttl [1; 0; 0; 0]; Probe (htons 33435)].
Proof. split; [apply traceloop_correct; [by left|done]|vm_compute; reflexivity]. Defined.
