(* ===== verification/Ping.v ===== *)
(** ping: src/unpv13e/ping (ping.h, main.c, readloop.c, init_v6.c, send_v4.c,
    send_v6.c, proc_v4.c, proc_v6.c, sig_alrm.c).

    The handler of SIGALRM sends a request; it is taken to run when the main
    loop is about to wait ([sys_flag SIGALRM]), and shares no variable with the
    loop but [sendbuf] and [nsent], which the loop does not touch.  A load
    outside the packet received finds what an earlier packet left there, or
    what was never initialised: it is undefined here. *)
From S2P Require Import Prelude Machine Posix Wrap Frame Cksum Sockaddr Rtt NetLib Packet.

Definition PING_DATALEN : nat := 56.
Definition IPV6_RECVHOPLIMIT : Z := 51.
Definition IPV6_HOPLIMIT : Z := 52.
Definition SO_RCVBUF : Z := 8.

Inductive ping_proto := Ping4 | Ping6.

(** The globals that change. *)
Record ping := Ping {
  sendbuf : list Z;
  nsent : Z
}.

(** ** send_v4.c, send_v6.c *)

(** The ICMP header and the data: the stores of the function, in order. *)
Definition echo_header (type pid nsent : Z) (buf : list Z) : list Z :=
  let buf := put buf 0 [type] in
  let buf := put buf 1 [0] in
  let buf := put buf 4 (le_bytes 2 pid) in
  put buf 6 (le_bytes 2 nsent).
Definition echo_data (tv : Z * Z) (buf : list Z) : list Z :=
  let buf := put buf 8 (replicate PING_DATALEN 165) in
  put buf 8 (le_bytes 8 tv.1 ++ le_bytes 8 tv.2).

Section ping.
Context {K : Kernel} (pid : Z) (verbose : bool) (salen : Z) (sasend : sockaddr).

Definition send_v4 (sockfd : Z) (s : ping) : M ping :=
  let buf := echo_header ICMP_ECHO pid (nsent s) (sendbuf s) in
  tv ← Gettimeofday;
  let buf := echo_data tv buf in
  let len := (8 + PING_DATALEN)%nat in
  let buf := put buf 2 [0; 0] in
  let buf := put buf 2 (le_bytes 2 (in_cksum (take len buf))) in
  Sendto sockfd (take len buf) sasend ;;
  mret (Ping buf (nsent s + 1)).

Definition send_v6 (sockfd : Z) (s : ping) : M ping :=
  let buf := echo_header ICMP6_ECHO_REQUEST pid (nsent s) (sendbuf s) in
  tv ← Gettimeofday;
  let buf := echo_data tv buf in
  let len := (8 + PING_DATALEN)%nat in
  Sendto sockfd (take len buf) sasend ;;
  mret (Ping buf (nsent s + 1)).

Definition fsend (pr : ping_proto) : Z → ping → M ping :=
  match pr with Ping4 => send_v4 | Ping6 => send_v6 end.

(** ** sig_alrm.c *)

Definition sig_alrm (pr : ping_proto) (sockfd : Z) (s : ping) : M ping :=
  s ← fsend pr sockfd s;
  call (sys_alarm 1) ;;
  mret s.

(** ** proc_v4.c, proc_v6.c *)

Definition timeval_at (pkt : list Z) (i : Z) : option (Z * Z) :=
  tv_sec ← le_at pkt i 8;
  tv_usec ← le_at pkt (i + 8) 8;
  Some (i64_of tv_sec, i64_of tv_usec).

Definition proc_v4 (pkt : list Z) (sarecv : sockaddr) (tvrecv : Z * Z) : M unit :=
  let len := Z.of_nat (List.length pkt) in
  ip ← ld (u8_at pkt 0);
  let hlen1 := ip_hlen ip in
  ip_p ← ld (u8_at pkt 9);
  if negb (ip_p =? IPPROTO_ICMP) then mret tt
  else
    let icmplen := len - hlen1 in
    if icmplen <? 8 then mret tt
    else
      icmp_type ← ld (u8_at pkt hlen1);
      if icmp_type =? ICMP_ECHOREPLY then
        icmp_id ← ld (u16_at pkt (hlen1 + 4));
        if negb (icmp_id =? pid) then mret tt
        else if icmplen <? 16 then mret tt
        else
          tvsend ← ld (timeval_at pkt (hlen1 + 8));
          host ← Sock_ntop_host sarecv salen;
          icmp_seq ← ld (u16_at pkt (hlen1 + 6));
          ip_ttl ← ld (u8_at pkt 8);
          printf (fmt_d icmplen +:+ " bytes from " +:+ host +:+ ": seq=" +:+ fmt_u icmp_seq +:+
                  ", ttl=" +:+ fmt_d ip_ttl +:+ ", rtt=" +:+ fmt_rtt (tv_sub tvrecv tvsend) +:+ " ms" +:+ nl)
      else if verbose then
        host ← Sock_ntop_host sarecv salen;
        icmp_code ← ld (u8_at pkt (hlen1 + 1));
        printf ("  " +:+ fmt_d icmplen +:+ " bytes from " +:+ host +:+ ": type = " +:+ fmt_d icmp_type +:+
                ", code = " +:+ fmt_d icmp_code +:+ nl)
      else mret tt.

(** The hop limit among the control messages, -1 when there is none. *)
Fixpoint hop_limit (cmsgs : list cmsghdr) : Z :=
  match cmsgs with
  | [] => -1
  | cmsg :: cmsgs' =>
      if (cmsg_level cmsg =? IPPROTO_IPV6) && (cmsg_type cmsg =? IPV6_HOPLIMIT)
      then i32 (cmsg_fd cmsg) else hop_limit cmsgs'
  end.

Definition proc_v6 (pkt : list Z) (sarecv : sockaddr) (cmsgs : list cmsghdr) (tvrecv : Z * Z) : M unit :=
  let len := Z.of_nat (List.length pkt) in
  if len <? 8 then mret tt
  else
    icmp6_type ← ld (u8_at pkt 0);
    if icmp6_type =? ICMP6_ECHO_REPLY then
      icmp6_id ← ld (u16_at pkt 4);
      if negb (icmp6_id =? pid) then mret tt
      else if len <? 16 then mret tt
      else
        tvsend ← ld (timeval_at pkt 8);
        let hlim := hop_limit cmsgs in
        host ← Sock_ntop_host sarecv salen;
        icmp6_seq ← ld (u16_at pkt 6);
        printf (fmt_d len +:+ " bytes from " +:+ host +:+ ": seq=" +:+ fmt_u icmp6_seq +:+ ", hlim=") ;;
        (if hlim =? -1 then printf "???" else printf (fmt_d hlim)) ;;
        printf (", rtt=" +:+ fmt_rtt (tv_sub tvrecv tvsend) +:+ " ms" +:+ nl)
    else if verbose then
      host ← Sock_ntop_host sarecv salen;
      icmp6_code ← ld (u8_at pkt 1);
      printf ("  " +:+ fmt_d len +:+ " bytes from " +:+ host +:+ ": type = " +:+ fmt_d icmp6_type +:+
              ", code = " +:+ fmt_d icmp6_code +:+ nl)
    else mret tt.

Definition fproc (pr : ping_proto) (pkt : list Z) (sarecv : sockaddr) (cmsgs : list cmsghdr) (tvrecv : Z * Z) : M unit :=
  match pr with
  | Ping4 => proc_v4 pkt sarecv tvrecv
  | Ping6 => proc_v6 pkt sarecv cmsgs tvrecv
  end.

(** ** init_v6.c: errors are ignored *)

Definition init_v6 (sockfd : Z) : M unit :=
  (if negb verbose then
     syscall (sys_setsockopt sockfd IPPROTO_IPV6 ICMP6_FILTER
                (le32_bytes (2 ^ 32 - 1) ++ le32_bytes (2 ^ 32 - 1) ++ le32_bytes (2 ^ 32 - 1) ++ le32_bytes (2 ^ 32 - 1) ++
                 le32_bytes (Z.clearbit (2 ^ 32 - 1) (ICMP6_ECHO_REPLY - 128)) ++ replicate 12 255)) ;; mret tt
   else mret tt) ;;
  syscall (sys_setsockopt sockfd IPPROTO_IPV6 IPV6_RECVHOPLIMIT (le32_bytes 1)) ;;
  mret tt.

(** ** readloop.c *)

(** [turns] turns of the loop, in some of which the handler runs. *)
Fixpoint read_turns (turns : nat) (pr : ping_proto) (sockfd : Z) (s : ping) : M ping :=
  match turns with
  | O => mret s
  | S t =>
      alrm ← call (sys_flag SIGALRM);
      s ← (if (alrm : bool) then sig_alrm pr sockfd s else mret s);
      r ← syscall (sys_recvmsg_from sockfd BUFSIZE);
      match r with
      | None =>
          e ← get_errno;
          if e =? EINTR then read_turns t pr sockfd s else err_sys "recvmsg error"
      | Some (pkt, sarecv, cmsgs) =>
          tval ← Gettimeofday;
          fproc pr pkt sarecv cmsgs tval ;;
          read_turns t pr sockfd s
      end
  end.

Definition readloop (turns : nat) (pr : ping_proto) : M ping :=
  sockfd ← Socket (sa_family sasend) SOCK_RAW (match pr with Ping4 => IPPROTO_ICMP | Ping6 => IPPROTO_ICMPV6 end);
  uid ← call sys_getuid;
  syscall (sys_setuid uid) ;;
  (match pr with Ping4 => mret tt | Ping6 => init_v6 sockfd end) ;;
  syscall (sys_setsockopt sockfd SOL_SOCKET SO_RCVBUF (le32_bytes (60 * 1024))) ;;
  s ← sig_alrm pr sockfd (Ping (replicate 1500 0) 0);
  read_turns turns pr sockfd s.
End ping.

(** main.c, from the options and the host on. *)
Definition ping_main {K : Kernel} {R : Resolver} (turns : nat) (verbose : bool) (handler : Z) (host : string) : M ping :=
  pid ← call sys_getpid;
  let pid := Z.land pid 65535 in
  Signal SIGALRM handler ;;
  res ← Host_serv (Some host) None 0 0;
  match res with
  | ai :: _ =>
      match ai_addr ai with
      | Some (_, sa) =>
          h ← Sock_ntop_host sa (ai_addrlen ai);
          printf ("PING " +:+ default h (snd <$> ai_canonname ai) +:+ " (" +:+ h +:+ "): " +:+
                  fmt_d (Z.of_nat PING_DATALEN) +:+ " data bytes" +:+ nl) ;;
          pr ← (if ai_family ai =? AF_INET then mret Ping4
                else if ai_family ai =? AF_INET6 then
                  match sa with
                  | SaIn6 _ addr =>
                      if v4_mapped addr then err_quit "cannot ping IPv4-mapped IPv6 address" else mret Ping6
                  | _ => stop UB
                  end
                else err_quit ("unknown address family " +:+ fmt_d (ai_family ai)));
          Calloc (ai_addrlen ai) ;;
          readloop pid verbose (ai_addrlen ai) sa turns pr
      | None => stop UB
      end
  | [] => stop UB
  end.

(** ** Specification *)

(** An echo message: type and code, checksum, identifier and sequence number,
    the time it was sent, and the pattern. *)
Definition echo_message (type : Z) (cksum : list Z) (pid nsent : Z) (tv : Z * Z) : list Z :=
  [type; 0] ++ cksum ++ le_bytes 2 pid ++ le_bytes 2 nsent ++ le_bytes 8 tv.1 ++ le_bytes 8 tv.2 ++ replicate 40 165.
Definition int64 (v : Z) : Prop := - 2 ^ 63 ≤ v < 2 ^ 63.

Lemma echo_stores type pid nsent tv ck buf : List.length buf = 1500%nat → List.length ck = 2%nat →
  take 64 (put (put (echo_data tv (echo_header type pid nsent buf)) 2 [0; 0]) 2 ck) = echo_message type ck pid nsent tv ∧
  take 64 (put (echo_data tv (echo_header type pid nsent buf)) 2 [0; 0]) = echo_message type [0; 0] pid nsent tv ∧
  take 64 (echo_data tv (echo_header type pid nsent buf)) = echo_message type (take 2 (drop 2 buf)) pid nsent tv ∧
  List.length (put (put (echo_data tv (echo_header type pid nsent buf)) 2 [0; 0]) 2 ck) = 1500%nat ∧
  List.length (echo_data tv (echo_header type pid nsent buf)) = 1500%nat.
Proof.
  intros Hb Hc. assert (Hlen : ∀ i bs b, List.length b = 1500%nat → (i + List.length bs ≤ 1500)%nat → List.length (put b i bs) = 1500%nat).
  { intros i bs b H1 H2. rewrite length_put; lia. }
  assert (Hd : List.length (echo_data tv (echo_header type pid nsent buf)) = 1500%nat).
  { unfold echo_data, echo_header. repeat apply Hlen; first [exact Hb|rewrite ?length_app, ?length_le_bytes, ?length_replicate; by apply Nat.leb_le]. }
  assert (Hd2 : List.length (put (put (echo_data tv (echo_header type pid nsent buf)) 2 [0; 0]) 2 ck) = 1500%nat).
  { apply Hlen; [apply Hlen; [done|by apply Nat.leb_le]|]. rewrite Hc. by apply Nat.leb_le. }
  split_and!; [| | |done|done]; clear Hd Hd2 Hlen;
    do 64 (destruct buf as [|? buf]; [done|]); (destruct ck as [|c1 [|c2 [|]]]; try done);
    unfold echo_data, echo_header, echo_message, put; destruct tv; reflexivity.
Qed.

Lemma echo_message_bytes type ck pid nsent tv : 0 ≤ type < 256 → bytes_ok ck → bytes_ok (echo_message type ck pid nsent tv).
Proof.
  intros Ht Hc. unfold echo_message, bytes_ok. repeat (apply Forall_app; split); try apply le_bytes_ok; try done.
  - repeat constructor; lia.
  - apply Forall_replicate. lia.
Qed.
Lemma length_echo_message type ck pid nsent tv : List.length ck = 2%nat → List.length (echo_message type ck pid nsent tv) = 64%nat.
Proof. intros Hc. unfold echo_message. rewrite !length_app, !length_le_bytes, length_replicate, Hc. done. Qed.

(** The checksum of the message, computed with a zero field, makes it verify. *)
Lemma echo_cksum type pid nsent tv : 0 ≤ type < 256 →
  in_cksum (echo_message type (le_bytes 2 (in_cksum (echo_message type [0; 0] pid nsent tv))) pid nsent tv) = 0.
Proof.
  intros Ht. set (post := le_bytes 2 pid ++ le_bytes 2 nsent ++ le_bytes 8 tv.1 ++ le_bytes 8 tv.2 ++ replicate 40 165).
  set (c := in_cksum (echo_message type [0; 0] pid nsent tv)).
  assert (Hc : 0 ≤ c < 65536) by (unfold c, in_cksum; destruct (cksum_words _ 0); apply Z.mod_pos_bound; lia).
  assert (E : le_bytes 2 c = [c mod 256; c / 256]).
  { cbn [le_bytes]. rewrite (Z.mod_small (c / 256)) by (Z.to_euclidean_division_equations; lia). done. }
  rewrite E. refine (in_cksum_verifies [type; 0] post _ _ _).
  - apply (echo_message_bytes type [0; 0] pid nsent tv Ht). repeat constructor; lia.
  - by exists 1%nat.
  - change ([type; 0] ++ 0 :: 0 :: post) with (echo_message type [0; 0] pid nsent tv).
    rewrite (length_echo_message type [0; 0] pid nsent tv eq_refl). by vm_compute.
Qed.

Section properties.
Context {K : Kernel}.

(** The fields of a message where the receiver looks for them. *)
Lemma message_id type ck pid nsent tv h : List.length ck = 2%nat →
  u16_at (h ++ echo_message type ck pid nsent tv) (Z.of_nat (List.length h) + 4) = Some (pid mod 65536).
Proof.
  intros Hc. unfold u16_at, echo_message.
  replace (h ++ [type; 0] ++ ck ++ le_bytes 2 pid ++ _) with
    ((h ++ [type; 0] ++ ck) ++ le_bytes 2 pid ++ (le_bytes 2 nsent ++ le_bytes 8 tv.1 ++ le_bytes 8 tv.2 ++ replicate 40 165))
    by (by rewrite <- !app_assoc).
  replace (Z.of_nat (List.length h) + 4) with (Z.of_nat (List.length (h ++ [type; 0] ++ ck))) by (rewrite !length_app, Hc; cbn; lia).
  by rewrite le_at_le_bytes.
Qed.
Lemma message_seq type ck pid nsent tv h : List.length ck = 2%nat →
  u16_at (h ++ echo_message type ck pid nsent tv) (Z.of_nat (List.length h) + 6) = Some (nsent mod 65536).
Proof.
  intros Hc. unfold u16_at, echo_message.
  replace (h ++ [type; 0] ++ ck ++ le_bytes 2 pid ++ _) with
    ((h ++ [type; 0] ++ ck ++ le_bytes 2 pid) ++ le_bytes 2 nsent ++ (le_bytes 8 tv.1 ++ le_bytes 8 tv.2 ++ replicate 40 165))
    by (by rewrite <- !app_assoc).
  replace (Z.of_nat (List.length h) + 6) with (Z.of_nat (List.length (h ++ [type; 0] ++ ck ++ le_bytes 2 pid)))
    by (rewrite !length_app, Hc; cbn; lia).
  by rewrite le_at_le_bytes.
Qed.
Lemma i64_of_id v : int64 v → i64_of (v mod 256 ^ 8) = v.
Proof.
  unfold i64_of, int64. change (256 ^ 8) with (2 ^ 64). intros H. rewrite Zplus_mod_idemp_l, Z.mod_small; lia.
Qed.
Lemma message_time type ck pid nsent tv h : List.length ck = 2%nat → int64 tv.1 → int64 tv.2 →
  timeval_at (h ++ echo_message type ck pid nsent tv) (Z.of_nat (List.length h) + 8) = Some tv.
Proof.
  intros Hc H1 H2. unfold timeval_at, echo_message.
  set (front := h ++ [type; 0] ++ ck ++ le_bytes 2 pid ++ le_bytes 2 nsent).
  assert (Hf : Z.of_nat (List.length h) + 8 = Z.of_nat (List.length front)) by (unfold front; rewrite !length_app, Hc; cbn; lia).
  replace (h ++ [type; 0] ++ ck ++ le_bytes 2 pid ++ _) with (front ++ le_bytes 8 tv.1 ++ (le_bytes 8 tv.2 ++ replicate 40 165))
    by (unfold front; by rewrite <- !app_assoc).
  rewrite Hf, le_at_le_bytes. cbn [mbind option_bind].
  replace (front ++ le_bytes 8 tv.1 ++ _) with ((front ++ le_bytes 8 tv.1) ++ le_bytes 8 tv.2 ++ replicate 40 165)
    by (by rewrite <- !app_assoc).
  replace (Z.of_nat (List.length front) + 8) with (Z.of_nat (List.length (front ++ le_bytes 8 tv.1)))
    by (rewrite length_app, length_le_bytes; lia).
  rewrite le_at_le_bytes. cbn [mbind option_bind]. change (Z.of_nat 8) with 8. rewrite !i64_of_id by done. by destruct tv.
Qed.

(** The run of a load that finds a value. *)
Lemma ld_some {A B} (o : option A) a (k : A → M B) p : o = Some a → (ld o ≫= k) p = k a p.
Proof. by intros ->. Qed.
Lemma printf_run s p : ∃ r, printf s p =
  (Ret tt, match r with Ok _ => add_event (sys_fputs STDOUT_FILENO s) r p | Err e => with_errno e (add_event (sys_fputs STDOUT_FILENO s) r p) end).
Proof.
  exists (answer (p_trace p) (sys_fputs STDOUT_FILENO s)). unfold printf, syscall, mbind, M_bind, call.
  by destruct (answer (p_trace p) (sys_fputs STDOUT_FILENO s)).
Qed.

(** The requests sent on a socket, in order. *)
Definition requests1 (fd : Z) (e : event) : list (list Z) :=
  match e with
  | Event c a =>
      match c in sys A return A → list (list Z) with
      | sys_sendto fd' buf _ => λ r, match r with Ok _ => if fd' =? fd then [buf] else [] | Err _ => [] end
      | _ => λ _, []
      end a
  end.
Fixpoint requests (fd : Z) (t : trace) : list (list Z) :=
  match t with [] => [] | e :: t' => requests fd t' ++ requests1 fd e end.
Definition no_request (fd : Z) (e : event) : Prop := requests1 fd e = [].
Lemma frame_requests fd p p' : frame (no_request fd) p p' → requests fd (p_trace p') = requests fd (p_trace p).
Proof.
  intros [(t & -> & Ht) _]. induction Ht as [|e t He _ IH]; [done|]. cbn [app requests]. by rewrite He, app_nil_r.
Qed.

Definition echo_type (pr : ping_proto) : Z := match pr with Ping4 => ICMP_ECHO | Ping6 => ICMP6_ECHO_REQUEST end.
(** Request number [i]. *)
Definition is_request (pr : ping_proto) (pid i : Z) (bs : list Z) : Prop :=
  ∃ ck tv, List.length ck = 2%nat ∧ bs = echo_message (echo_type pr) ck pid i tv ∧ (pr = Ping4 → in_cksum bs = 0).
Definition numbered (pr : ping_proto) (pid i : Z) (new : list (list Z)) : Prop :=
  ∀ k bs, new !! k = Some bs → is_request pr pid (i + Z.of_nat k) bs.

Lemma numbered_app pr pid i new new' :
  numbered pr pid i new → numbered pr pid (i + Z.of_nat (List.length new)) new' → numbered pr pid i (new ++ new').
Proof.
  intros H1 H2 k bs Hk. apply lookup_app_Some in Hk as [Hk|[Hle Hk]]; [by apply H1|].
  replace (i + Z.of_nat k) with (i + Z.of_nat (List.length new) + Z.of_nat (k - List.length new)) by lia. by apply H2.
Qed.
Lemma numbered_one pr pid i bs : is_request pr pid i bs → numbered pr pid i [bs].
Proof. intros H [|k] bs' [= <-]. by rewrite Z.add_0_r. Qed.

(** What part of the program did: the requests it sent carry on the numbering. *)
Definition pings (pr : ping_proto) (pid fd : Z) (s : ping) (p : proc) (o : outcome ping) (p' : proc) : Prop :=
  ∃ new, requests fd (p_trace p') = requests fd (p_trace p) ++ new ∧ numbered pr pid (nsent s) new ∧
    match o with
    | Ret s' => List.length (sendbuf s') = 1500%nat ∧ nsent s' = nsent s + Z.of_nat (List.length new)
    | Exit st => st = 1
    | UB => True
    | _ => False
    end.

Context (pid : Z) (verbose : bool) (salen : Z) (sasend : sockaddr) (pr : ping_proto).

Lemma framed_no_request_err {A} fd msg : framed (no_request fd) (err_sys (A := A) msg).
Proof. apply framed_err_sys. by intros [? [] ?]. Qed.
Lemma err_sys_no_request {A} fd msg p (Q : outcome A → proc → Prop) :
  (∀ p', requests fd (p_trace p') = requests fd (p_trace p) → Q (Exit 1) p') → post (err_sys msg) p Q.
Proof.
  intros HQ. eapply post_weaken; [apply post_and; [apply err_sys_exits|apply framed_post, (framed_no_request_err fd)]|].
  intros o p' [[-> _] Hf]. by apply HQ, frame_requests.
Qed.

Lemma Sendto_requests fd bs sa p (Q : outcome unit → proc → Prop) :
  (∀ p', requests fd (p_trace p') = requests fd (p_trace p) ++ [bs] → Q (Ret tt) p') →
  (∀ p' new, new `prefix_of` [bs] → requests fd (p_trace p') = requests fd (p_trace p) ++ new → Q (Exit 1) p') →
  post (Sendto fd bs sa) p Q.
Proof.
  intros H1 H2. apply post_bind, post_syscall; intros a _; cbn [through].
  - assert (E : requests fd (p_trace (add_event (sys_sendto fd bs sa) (Ok a) p)) = requests fd (p_trace p) ++ [bs]).
    { cbn [add_event p_trace requests requests1]. by rewrite Z.eqb_refl. }
    destruct (a =? _); [by apply post_ret, H1|]. apply (err_sys_no_request fd). intros p' Hp'. apply (H2 _ [bs]); [done|].
    by rewrite Hp'.
  - apply (err_sys_no_request fd). intros p' Hp'. apply (H2 _ []); [apply prefix_nil|]. rewrite Hp'.
    cbn [add_event with_errno p_trace requests requests1]. by rewrite !app_nil_r.
Qed.

(** Sending a message, once its bytes are known to be a request. *)
Lemma send_message fd s buf p : List.length buf = 1500%nat → is_request pr pid (nsent s) (take 64 buf) →
  post (Sendto fd (take 64 buf) sasend ;; mret (Ping buf (nsent s + 1))) p (pings pr pid fd s p).
Proof.
  intros Hb Hr. apply post_bind, (Sendto_requests fd).
  - intros p' Hp'. apply post_ret. exists [take 64 buf]. split; [done|]. split; [by apply numbered_one|done].
  - intros p' new Hnew Hp'. exists new. split; [done|]. split; [|done].
    destruct Hnew as [k Hk]. destruct new as [|b [|]]; simplify_eq/=; [by intros ? ?|].
    by apply numbered_one.
Qed.

Lemma or_err_sys_no_request {A} fd (c : sys (res A)) msg p (Q : outcome A → proc → Prop) :
  (∀ a, no_request fd (Event c a)) →
  (∀ a p', requests fd (p_trace p') = requests fd (p_trace p) → Q (Ret a) p') →
  (∀ p', requests fd (p_trace p') = requests fd (p_trace p) → Q (Exit 1) p') → post (or_err_sys c msg) p Q.
Proof.
  intros Hc H1 H2. apply post_bind, post_syscall; intros a _; cbn [through].
  - apply post_ret, H1. cbn [add_event p_trace requests]. by rewrite Hc, app_nil_r.
  - apply (err_sys_no_request fd). intros p' Hp'. apply H2. rewrite Hp'. cbn [add_event with_errno p_trace requests].
    by rewrite Hc, app_nil_r.
Qed.

Lemma pings_before fd s p p1 o p' : requests fd (p_trace p1) = requests fd (p_trace p) → pings pr pid fd s p1 o p' → pings pr pid fd s p o p'.
Proof. intros H (new & Hn & Hr). exists new. by rewrite <- H. Qed.
Lemma pings_stop fd s p p' st : requests fd (p_trace p') = requests fd (p_trace p) → st = 1 → pings pr pid fd s p (Exit st) p'.
Proof. intros H ->. exists []. rewrite app_nil_r. split; [done|]. split; [by intros ? ?|done]. Qed.

Lemma fsend_pings fd s p : List.length (sendbuf s) = 1500%nat →
  post (fsend pid sasend pr fd s) p (pings pr pid fd s p).
Proof.
  intros Hb. assert (Hgo : ∀ (k : Z * Z → M ping),
    (∀ tv p1, post (k tv) p1 (pings pr pid fd s p1)) → post (tv ← Gettimeofday; k tv) p (pings pr pid fd s p)).
  { intros k Hk. apply post_bind, (or_err_sys_no_request fd); [done| |].
    - intros tv p1 Hp1. cbn [through]. eapply post_weaken; [apply Hk|]. intros o p'. by apply pings_before.
    - intros p1 Hp1. by apply pings_stop. }
  destruct pr eqn:Epr; cbn [fsend].
  - apply (Hgo (λ tv, _)). intros tv p1. set (buf := put _ 2 [0; 0]).
    destruct (echo_stores ICMP_ECHO pid (nsent s) tv (le_bytes 2 (in_cksum (take 64 buf))) (sendbuf s)) as (H1 & H2 & _ & H4 & _);
      [done|by rewrite length_le_bytes|]. fold buf in H1, H2, H4.
    pose proof (send_message fd s (put buf 2 (le_bytes 2 (in_cksum (take 64 buf)))) p1 H4) as Hsend. rewrite Epr in Hsend.
    apply Hsend. rewrite H1, H2. eexists _, tv. split; [apply length_le_bytes|]. split; [done|].
    intros _. by apply echo_cksum.
  - apply (Hgo (λ tv, _)). intros tv p1.
    destruct (echo_stores ICMP6_ECHO_REQUEST pid (nsent s) tv [0; 0] (sendbuf s)) as (_ & _ & H3 & _ & H5); [done..|].
    pose proof (send_message fd s (echo_data tv (echo_header ICMP6_ECHO_REQUEST pid (nsent s) (sendbuf s))) p1 H5) as Hsend.
    rewrite Epr in Hsend. apply Hsend. rewrite H3. eexists _, tv.
    split; [|by split]. rewrite length_take, length_drop. lia.
Qed.

Lemma pings_bind fd s p (m : M ping) (k : ping → M ping) :
  post m p (pings pr pid fd s p) →
  (∀ s' p', List.length (sendbuf s') = 1500%nat → post (k s') p' (pings pr pid fd s' p')) →
  post (m ≫= k) p (pings pr pid fd s p).
Proof.
  intros Hm Hk. apply post_bind. eapply post_weaken; [exact Hm|].
  intros [s'|st| | |] p' (new & Hn & Hnum & Ho); cbn [through]; try (by exists new); try done.
  destruct Ho as [Hb Hs']. eapply post_weaken; [by apply Hk|]. intros o p2 (new2 & Hn2 & Hnum2 & Ho2).
  exists (new ++ new2). rewrite Hn2, Hn, app_assoc. split; [done|]. split; [apply numbered_app; [done|by rewrite <- Hs']|].
  destruct o; try done. rewrite length_app. destruct Ho2. split; [done|lia].
Qed.

(** A part that sends nothing. *)
Lemma pings_framed {A} fd s p (m : M A) (k : A → M ping) :
  framed (no_request fd) m → post m p (λ o _, fine True o) →
  (∀ a p', post (k a) p' (pings pr pid fd s p')) → post (m ≫= k) p (pings pr pid fd s p).
Proof.
  intros Hf Hm Hk. apply post_bind. eapply post_weaken; [apply post_and; [exact Hm|apply (framed_post _ m p Hf)]|].
  intros o p' [Ho Hfr]. apply frame_requests in Hfr. destruct o as [a|st| | |]; cbn [through]; try done.
  - eapply post_weaken; [apply Hk|]. intros o p2. by apply pings_before.
  - by apply pings_stop.
  - exists []. rewrite app_nil_r. split; [done|]. split; [by intros ? ?|done].
Qed.
Lemma framed_or_err_sys_no_request {A} fd (c : sys (res A)) msg : (∀ a, no_request fd (Event c a)) → framed (no_request fd) (or_err_sys c msg).
Proof.
  intros Hc. apply framed_bind; [apply framed_bind; [by apply framed_call|framed_tac]|].
  intros []; [framed_tac|apply framed_no_request_err].
Qed.

Lemma fproc_fine pkt sarecv cmsgs tv : fine_run True (fproc pid verbose salen pr pkt sarecv cmsgs tv).
Proof. unfold fproc, proc_v4, proc_v6. cbn zeta. fine_tac. Qed.
Lemma fproc_framed fd pkt sarecv cmsgs tv : framed (no_request fd) (fproc pid verbose salen pr pkt sarecv cmsgs tv).
Proof.
  unfold fproc, proc_v4, proc_v6. cbn zeta.
  repeat first [apply framed_ld|apply framed_no_request_err|apply framed_call; intros; reflexivity|progress framed_tac
    |progress unfold Sock_ntop_host, sock_ntop_host, ntop, ntop_unix, printf].
Qed.

Lemma sig_alrm_pings fd s p : List.length (sendbuf s) = 1500%nat →
  post (sig_alrm pid sasend pr fd s) p (pings pr pid fd s p).
Proof.
  intros Hb. apply pings_bind; [by apply fsend_pings|]. intros s' p' Hb'.
  apply (pings_framed fd s' p' (call (sys_alarm 1)) (λ _, mret s')).
  - by apply framed_call.
  - done.
  - intros a p2. apply post_ret. exists []. rewrite app_nil_r. split; [done|]. split; [by intros ? ?|]. split; [done|cbn; lia].
Qed.

Lemma read_turns_pings fd turns : ∀ s p, List.length (sendbuf s) = 1500%nat →
  post (read_turns pid verbose salen sasend turns pr fd s) p (pings pr pid fd s p).
Proof.
  assert (Hret : ∀ s p, List.length (sendbuf s) = 1500%nat → post (mret s) p (pings pr pid fd s p)).
  { intros s p Hb. apply post_ret. exists []. rewrite app_nil_r. split; [done|]. split; [by intros ? ?|]. split; [done|cbn; lia]. }
  induction turns as [|t IH]; intros s p Hb; cbn [read_turns]; [by apply Hret|].
  apply (pings_framed fd s p); [by apply framed_call|done|]. intros alrm p1.
  apply pings_bind; [destruct alrm; [by apply sig_alrm_pings|by apply Hret]|]. intros s' p2 Hb'.
  apply (pings_framed fd s' p2); [apply framed_bind; [by apply framed_call|framed_tac]|apply fine_syscall|].
  intros [[[pkt sarecv] cmsgs]|] p3.
  - apply (pings_framed fd s' p3); [by apply framed_or_err_sys_no_request|apply fine_or_err_sys|].
    intros tval p4. apply (pings_framed fd s' p4); [apply fproc_framed|apply fproc_fine|]. intros _ p5. by apply IH.
  - apply (pings_framed fd s' p3); [framed_tac|done|]. intros e p4. destruct (e =? EINTR); [by apply IH|].
    apply (err_sys_no_request fd). intros p5 Hp5. by apply pings_stop.
Qed.
End properties.

(** ** Properties *)

(** The line [proc_v4] or [proc_v6] prints about a reply. *)
Definition reply_line (len : Z) (host : string) (seq : Z) (limit rtt : string) : string :=
  fmt_d len +:+ " bytes from " +:+ host +:+ ": seq=" +:+ fmt_u seq +:+ ", ttl=" +:+ limit +:+ ", rtt=" +:+ rtt +:+ " ms" +:+ nl.

(** The requests of a run of [readloop], whatever arrives and whenever the
    alarm goes off, are echo messages numbered from 0 without a gap, with the
    process's identifier, the time of sending and the pattern; over IPv4 each
    carries a checksum the receiver verifies.  The program ends only by an
    error report. *)
Theorem ping_requests {K : Kernel} (pid : Z) (verbose : bool) (salen : Z) (sasend : sockaddr) (turns : nat)
    (pr : ping_proto) (p : proc) :
  post (readloop pid verbose salen sasend turns pr) p (λ o p',
    match o with
    | Ret s => ∃ fd new, requests fd (p_trace p') = requests fd (p_trace p) ++ new ∧ numbered pr pid 0 new ∧
        nsent s = Z.of_nat (List.length new)
    | Exit st => st = 1
    | UB => True
    | Abort | NoFuel => False
    end).
Proof.
  unfold readloop. apply post_bind, post_bind, post_syscall; intros sockfd _; cbn [through].
  2: { eapply post_weaken; [apply err_sys_exits|]. by intros o p' [-> _]. }
  apply post_ret. cbn [through].
  enough (Hrun : ∀ p1, post (uid ← call sys_getuid; syscall (sys_setuid uid) ;;
      (match pr with Ping4 => mret tt | Ping6 => init_v6 verbose sockfd end) ;;
      syscall (sys_setsockopt sockfd SOL_SOCKET SO_RCVBUF (le32_bytes (60 * 1024))) ;;
      s ← sig_alrm pid sasend pr sockfd (Ping (replicate 1500 0) 0);
      read_turns pid verbose salen sasend turns pr sockfd s) p1 (pings pr pid sockfd (Ping (replicate 1500 0) 0) p1)).
  { eapply post_weaken; [apply Hrun|]. intros [s| | | |] p' (new & Hn & Hnum & Ho); try done.
    exists sockfd, new. split; [|split; [done|]].
    - rewrite Hn. cbn [add_event p_trace requests requests1]. by rewrite app_nil_r.
    - destruct Ho as [_ ->]. done. }
  intros p1. apply (pings_framed pid pr sockfd); [by apply framed_call|done|]. intros uid p2.
  apply (pings_framed pid pr sockfd); [apply framed_bind; [by apply framed_call|framed_tac]|apply fine_syscall|]. intros _ p3.
  apply (pings_framed pid pr sockfd).
  { unfold init_v6. repeat first [apply framed_call; intros; reflexivity|progress framed_tac]. }
  { revert p3. change (fine_run True (match pr with Ping4 => mret tt | Ping6 => init_v6 verbose sockfd end)).
    destruct pr; [apply fine_ret|]. unfold init_v6. apply fine_bind; [destruct (negb verbose); [|apply fine_ret]|];
      intros; apply fine_bind; intros; first [apply fine_syscall|apply fine_ret]. }
  intros _ p4. apply (pings_framed pid pr sockfd); [apply framed_bind; [by apply framed_call|framed_tac]|apply fine_syscall|].
  intros _ p5. apply pings_bind; [by apply sig_alrm_pings|]. intros s' p6 Hb. by apply read_turns_pings.
Qed.

(** The round trip of a request.  When the host answers with the message
    it was sent, its type changed to that of a reply, [proc_v4] (after an IP
    header of any length) and [proc_v6] print one line, with the number of the
    request and the time between the stamp in the message and the arrival; a
    reply with the identifier of another process is not reported. *)
Theorem ping_reply {K : Kernel} (pid pid' : Z) (verbose : bool) (salen : Z) (ck : list Z) (nsent : Z) (tv tvrecv : Z * Z)
    (sarecv : sockaddr) (host : string) (p : proc) :
  List.length ck = 2%nat → 0 ≤ pid < 65536 → 0 ≤ pid' < 65536 → int64 tv.1 → int64 tv.2 →
  (∀ p, Sock_ntop_host sarecv salen p = (Ret host, p)) →
  let rtt := fmt_rtt (tv_sub tvrecv tv) in
  (∀ h ttl, Z.of_nat (List.length h) = ip_hlen (h !!! 0%nat) → 20 ≤ Z.of_nat (List.length h) →
     h !! 9%nat = Some IPPROTO_ICMP → h !! 8%nat = Some ttl →
     proc_v4 pid verbose salen (h ++ echo_message ICMP_ECHOREPLY ck pid' nsent tv) sarecv tvrecv p =
     if pid' =? pid then printf (reply_line 64 host (nsent mod 65536) (fmt_d ttl) rtt) p else (Ret tt, p)) ∧
  (∀ cmsgs, let hlim := hop_limit cmsgs in
     proc_v6 pid verbose salen (echo_message ICMP6_ECHO_REPLY ck pid' nsent tv) sarecv cmsgs tvrecv p =
     if pid' =? pid
     then (printf ("64 bytes from " +:+ host +:+ ": seq=" +:+ fmt_u (nsent mod 65536) +:+ ", hlim=") ;;
           printf (if hlim =? -1 then "???" else fmt_d hlim) ;;
           printf (", rtt=" +:+ rtt +:+ " ms" +:+ nl)) p
     else (Ret tt, p)).
Proof.
  intros Hc Hpid Hpid' H1 H2 Hhost. cbn zeta. split.
  - intros h ttl Hh Hl H9 H8. set (m := echo_message _ _ _ _ _).
    assert (Hm : List.length m = 64%nat) by by apply length_echo_message.
    assert (Hu : ∀ i b, h !! i = Some b → u8_at (h ++ m) (Z.of_nat i) = Some b).
    { intros i b Hi. apply u8_at_lookup; [lia|]. rewrite Nat2Z.id. by apply lookup_app_l_Some. }
    assert (Ht : u8_at (h ++ m) (Z.of_nat (List.length h)) = Some ICMP_ECHOREPLY).
    { rewrite u8_at_app_r by lia. by rewrite Z.sub_diag. }
    unfold proc_v4. cbn zeta.
    rewrite (ld_some _ (h !!! 0%nat)) by (apply (Hu 0%nat), list_lookup_lookup_total_lt; lia).
    rewrite (ld_some _ IPPROTO_ICMP) by (by apply (Hu 9%nat)).
    rewrite <- Hh, length_app, Hm. cbn [negb Z.eqb IPPROTO_ICMP Pos.eqb].
    replace (Z.of_nat (List.length h + 64) - Z.of_nat (List.length h)) with 64 by lia. cbn [Z.ltb Z.compare Pos.compare Pos.compare_cont].
    rewrite (ld_some _ _ _ _ Ht). cbn [Z.eqb ICMP_ECHOREPLY].
    rewrite (ld_some _ pid') by (unfold m; rewrite message_id by done; f_equal; by apply Z.mod_small).
    destruct (pid' =? pid); cbn [negb]; [|done].
    rewrite (ld_some _ tv) by (by apply message_time). rewrite (run_bind _ _ _ _ _ (Hhost p)).
    rewrite (ld_some _ (nsent mod 65536)) by (by apply message_seq). by rewrite (ld_some _ ttl) by (by apply (Hu 8%nat)).
  - intros cmsgs. unfold proc_v6. cbn zeta. rewrite length_echo_message by done.
    change (Z.of_nat 64) with 64. cbn [Z.ltb Z.compare Pos.compare Pos.compare_cont].
    rewrite (ld_some _ ICMP6_ECHO_REPLY) by done. rewrite Z.eqb_refl.
    pose proof (message_id ICMP6_ECHO_REPLY ck pid' nsent tv [] Hc) as Hi. cbn [app List.length] in Hi.
    change (Z.of_nat 0 + 4) with 4 in Hi. rewrite (Z.mod_small pid') in Hi by done. rewrite (ld_some _ _ _ _ Hi).
    destruct (pid' =? pid); cbn [negb]; [|done].
    pose proof (message_time ICMP6_ECHO_REPLY ck pid' nsent tv [] Hc H1 H2) as Htv. cbn [app List.length] in Htv.
    change (Z.of_nat 0 + 8) with 8 in Htv. rewrite (ld_some _ _ _ _ Htv), (run_bind _ _ _ _ _ (Hhost p)).
    pose proof (message_seq ICMP6_ECHO_REPLY ck pid' nsent tv [] Hc) as Hs. cbn [app List.length] in Hs.
    change (Z.of_nat 0 + 6) with 6 in Hs. rewrite (ld_some _ _ _ _ Hs). by destruct (hop_limit cmsgs =? -1).
Qed.

Definition ping_header : list Z := [69; 0; 0; 84; 0; 0; 0; 0; 64; 1; 0; 0; 10; 0; 0; 1; 10; 0; 0; 2].
Lemma ping_reply_witness :
  proc_v4 (K := plain_kernel) 77 false 16 (ping_header ++ echo_message ICMP_ECHOREPLY [1; 2] 77 3 (100, 250000)) (SaIn 0 [10; 0; 0; 1]) (101, 0) proc0
  = printf (K := plain_kernel) (reply_line 64 "10.0.0.1" 3 "64" "750.000") proc0.
Proof.
  destruct (ping_reply (K := plain_kernel) 77 77 false 16 [1; 2] 3 (100, 250000) (101, 0) (SaIn 0 [10; 0; 0; 1]) "10.0.0.1" proc0)
    as [H _]; [done|lia|lia|unfold int64; cbn [fst]; lia|unfold int64; cbn [snd]; lia|by intros|].
  rewrite (H ping_header 64); [vm_compute|..]; done.
Defined.

(** A reply of sixteen bytes passes the check of its length, which is not
    enough for the time stamp. *)
Lemma proc_v4_short : 
  (proc_v4 (K := plain_kernel) 77 false 16 (ping_header ++ [0; 0; 0; 0; 77; 0; 3; 0; 1; 2; 3; 4; 5; 6; 7; 8]) (SaIn 0 [10; 0; 0; 1]) (101, 0) proc0).1 = UB.
Proof. vm_compute. reflexivity. Qed.
