(* ===== verification/UdpCksum.v ===== *)
(** udpcksum: src/unpv13e/udpcksum (udpwrite.c, senddnsquery-raw.c, udpread.c,
    udpcksum.c, and [next_pcap] of pcap.c): a UDP datagram built by hand on a raw
    socket, and the reply captured from the link.

    The handler of SIGALRM leaves [udp_read] by [siglongjmp]: a turn of
    [next_pcap] first asks [sys_flag SIGALRM].  [sys_pcap_next] is the packet
    library's answer, [None] when no packet is ready. *)
From S2P Require Import Prelude Machine Posix Wrap Frame Cksum Sockaddr Rtt Packet.

Definition SIZEOF_UDPIPHDR : nat := 28.
Definition IPVERSION : Z := 4.
Definition IP_HDRINCL : Z := 3.
Definition TTL_OUT : Z := 64.
Definition ETHERTYPE_IP : Z := 2048.
Definition DLT_NULL : Z := 0.
Definition DLT_EN10MB : Z := 1.
Definition DLT_SLIP : Z := 8.
Definition DLT_PPP : Z := 9.

(** [struct udpiphdr]: nine bytes of zeros, [ui_pr], [ui_len], [ui_src],
    [ui_dst], [ui_sport], [ui_dport], [ui_ulen], [ui_sum]; it overlays the IP
    header ([ui_len] lies on [ip_sum]) and the UDP header. *)
Definition sin_addr (sa : sockaddr) : list Z := match sa with SaIn _ a => a | _ => [] end.
Definition sin_port (sa : sockaddr) : Z := match sa with SaIn p _ => p | _ => 0 end.

Section udp.
Context {K : Kernel} (dest local : sockaddr) (verbose zerosum : bool).

(** ** udpwrite.c *)

Definition open_output : M Z :=
  rawfd ← Socket (sa_family dest) SOCK_RAW 0;
  Setsockopt rawfd IPPROTO_IP IP_HDRINCL (le32_bytes 1) ;;
  mret rawfd.

(** The stores into the buffer, in order. *)
Definition udp_header (buf : list Z) (userlen : nat) : list Z :=
  let ui_len := be16 (Z.of_nat (8 + userlen)) in
  let buf := put buf 0 (replicate SIZEOF_UDPIPHDR 0) in
  let buf := put buf 10 ui_len in
  let buf := put buf 9 [IPPROTO_UDP] in
  let buf := put buf 12 (sin_addr local) in
  let buf := put buf 16 (sin_addr dest) in
  let buf := put buf 20 (le_bytes 2 (sin_port local)) in
  let buf := put buf 22 (le_bytes 2 (sin_port dest)) in
  put buf 24 ui_len.
Definition udp_sum (buf : list Z) (userlen : nat) : list Z :=
  if zerosum then buf
  else
    let ui_sum := in_cksum (take userlen buf) in
    put buf 26 (le_bytes 2 (if ui_sum =? 0 then 65535 else ui_sum)).
Definition ip_header_stores (buf : list Z) (userlen : nat) : list Z :=
  let buf := put buf 0 [Z.lor (Z.shiftl IPVERSION 4) (Z.shiftr SIZEOF_IP 2)] in
  let buf := put buf 1 [0] in
  let buf := put buf 2 (be16 (Z.of_nat userlen)) in
  let buf := put buf 4 [0; 0] in
  let buf := put buf 6 [0; 0] in
  put buf 8 [TTL_OUT].
Definition udp_write (rawfd : Z) (buf : list Z) (userlen : nat) : M unit :=
  let buf := udp_header buf userlen in
  let userlen := (userlen + SIZEOF_UDPIPHDR)%nat in
  let buf := udp_sum buf userlen in
  let buf := ip_header_stores buf userlen in
  Sendto rawfd (take userlen buf) dest.

(** ** senddnsquery-raw.c *)

Definition dns_name : list Z :=
  [1; 97; 12; 114; 111; 111; 116; 45; 115; 101; 114; 118; 101; 114; 115; 3; 110; 101; 116; 0].
Definition dns_query : list Z :=
  be16 1234 ++ be16 256 ++ be16 1 ++ [0; 0] ++ [0; 0] ++ [0; 0] ++ dns_name ++ be16 1 ++ be16 1.
Definition send_dns_query (rawfd : Z) : M unit :=
  Malloc (Z.of_nat SIZEOF_UDPIPHDR + 100) ;;
  let nbytes := List.length dns_query in
  udp_write rawfd (replicate SIZEOF_UDPIPHDR 0 ++ dns_query) nbytes ;;
  if verbose then printf ("sent: " +:+ fmt_d (Z.of_nat nbytes) +:+ " bytes of data" +:+ nl) else mret tt.

(** ** pcap.c, udpread.c *)

(** [None]: the handler jumped. *)
Fixpoint next_pcap (fuel : nat) : M (option (list Z)) :=
  match fuel with
  | O => stop NoFuel
  | S f =>
      alrm ← call (sys_flag SIGALRM);
      if (alrm : bool) then mret None
      else
        ptr ← call sys_pcap_next;
        match ptr with Some pkt => mret (Some pkt) | None => next_pcap f end
  end.

(** The datagram at offset [off] of what was captured; [len] is [int], and
    compared as a [size_t].  [ip_sum] is overwritten. *)
Definition udp_check (pkt : list Z) (off : Z) : M (list Z) :=
  let len := Z.of_nat (List.length pkt) - off in
  if u64 len <? SIZEOF_IP + SIZEOF_UDP then err_quit ("len = " +:+ fmt_d len)
  else
    ip ← ld (u8_at pkt off);
    if negb (ip_version ip =? IPVERSION) then err_quit ("ip_v = " +:+ fmt_d (ip_version ip))
    else
      let hlen := ip_hlen ip in
      if hlen <? SIZEOF_IP then err_quit ("ip_hl = " +:+ fmt_d (Z.land ip 15))
      else if u64 len <? hlen + SIZEOF_UDP then err_quit ("len = " +:+ fmt_d len +:+ ", hlen = " +:+ fmt_d hlen)
      else
        let buf := drop (Z.to_nat off) pkt in
        let ip_sum := in_cksum (take (Z.to_nat hlen) buf) in
        if negb (ip_sum =? 0) then err_quit "ip checksum error"
        else
          ip_p ← ld (u8_at pkt (off + 9));
          if ip_p =? IPPROTO_UDP then mret (put buf 10 (le_bytes 2 ip_sum)) else err_quit "not a UDP packet".

Definition udp_read (fuel : nat) (datalink : Z) : M (option (list Z)) :=
  ptr ← next_pcap fuel;
  match ptr with
  | None => mret None
  | Some ptr =>
      if datalink =? DLT_NULL then ui ← udp_check ptr 4; mret (Some ui)
      else if datalink =? DLT_EN10MB then
        ether_type ← ld (u16_at ptr 12);
        if negb (ntohs ether_type =? ETHERTYPE_IP) then err_quit ("Ethernet type " +:+ fmt_x (ntohs ether_type) +:+ " not IP")
        else ui ← udp_check ptr 14; mret (Some ui)
      else if datalink =? DLT_SLIP then ui ← udp_check ptr 24; mret (Some ui)
      else if datalink =? DLT_PPP then ui ← udp_check ptr 24; mret (Some ui)
      else err_quit ("unsupported datalink (" +:+ fmt_d datalink +:+ ")")
  end.

(** ** udpcksum.c *)

(** From the query on, [todo] being a bound on the queries. *)
Fixpoint test_turns (todo fuel : nat) (rawfd datalink nsent timeout : Z) : M unit :=
  match todo with
  | O => stop NoFuel
  | S todo' =>
      send_dns_query rawfd ;;
      let nsent := nsent + 1 in
      call (sys_alarm timeout) ;;
      ui ← udp_read fuel datalink;
      match ui with
      | None =>
          if 3 <=? nsent then err_quit "no response"
          else
            printf ("timeout" +:+ nl) ;;
            test_turns todo' fuel rawfd datalink nsent (timeout * 2)
      | Some ui =>
          call (sys_alarm 0) ;;
          ui_sum ← ld (u16_at ui 26);
          (if ui_sum =? 0 then printf ("UDP checksums off" +:+ nl) else printf ("UDP checksums on" +:+ nl)) ;;
          if verbose then printf ("received UDP checksum = " +:+ fmt_x (ntohs ui_sum) +:+ nl) else mret tt
      end
  end.
Definition test_udp (fuel : nat) (sig_alrm rawfd datalink : Z) : M unit :=
  Signal SIGALRM sig_alrm ;;
  test_turns 3 fuel rawfd datalink 0 3.
End udp.

(** ** Specification: RFC 768 *)

(** The datagram: IP header (its checksum left to the system), UDP header, data. *)
Definition udp_part (sport dport ck data : list Z) : list Z :=
  sport ++ dport ++ be16 (8 + Z.of_nat (List.length data)) ++ ck ++ data.
Definition udp_datagram (src dst sport dport ck data : list Z) : list Z :=
  [69; 0] ++ be16 (28 + Z.of_nat (List.length data)) ++ [0; 0; 0; 0; TTL_OUT; IPPROTO_UDP] ++
  be16 (8 + Z.of_nat (List.length data)) ++ src ++ dst ++ udp_part sport dport ck data.
(** The pseudo-header a receiver puts before the UDP header. *)
Definition pseudo_header (src dst data : list Z) : list Z :=
  src ++ dst ++ [0; IPPROTO_UDP] ++ be16 (8 + Z.of_nat (List.length data)).
(** The bytes summed by [udp_write]. *)
Definition summed (src dst sport dport ck data : list Z) : list Z :=
  replicate 9 0 ++ [IPPROTO_UDP] ++ be16 (8 + Z.of_nat (List.length data)) ++ src ++ dst ++ udp_part sport dport ck data.

Section stores.
Context (sp dp : Z) (la da hdr data rest : list Z).
Context (Hla : List.length la = 4%nat) (Hda : List.length da = 4%nat) (Hhdr : List.length hdr = 28%nat).
Abbreviation n := (List.length data).
Abbreviation local := (SaIn sp la).
Abbreviation dest := (SaIn dp da).
Abbreviation stored ck := (summed la da (le_bytes 2 sp) (le_bytes 2 dp) ck data ++ rest).

Lemma header_stored : udp_header dest local (hdr ++ data ++ rest) n = stored [0; 0].
Proof.
  pose proof Hla. pose proof Hda. pose proof Hhdr. clear Hla Hda Hhdr.
  assert (E : Z.of_nat (8 + n) = 8 + Z.of_nat n) by lia. unfold udp_header, summed, udp_part. rewrite E. clear E.
  generalize (Z.of_nat n). intros L. revert la da hdr H H0 H1. intros a b h Ha Hb Hh. do 4 (destruct a as [|? a]; [done|]). destruct a; [|done].
  do 4 (destruct b as [|? b]; [done|]). destruct b; [|done]. do 28 (destruct h as [|? h]; [done|]). destruct h; [|done].
  reflexivity.
Qed.
Lemma sum_stored zerosum : ∃ ck, List.length ck = 2%nat ∧
  udp_sum zerosum (stored [0; 0]) (n + SIZEOF_UDPIPHDR) = stored ck ∧
  ck = (if zerosum then [0; 0] else
          let c := in_cksum (summed la da (le_bytes 2 sp) (le_bytes 2 dp) [0; 0] data) in
          le_bytes 2 (if c =? 0 then 65535 else c)).
Proof.
  eexists. split; [|split; [|reflexivity]]; [by destruct zerosum|]. unfold udp_sum. destruct zerosum; [done|].
  assert (Hl : List.length (summed la da (le_bytes 2 sp) (le_bytes 2 dp) [0; 0] data) = (n + SIZEOF_UDPIPHDR)%nat).
  { unfold summed, udp_part. rewrite !length_app, Hla, Hda. unfold SIZEOF_UDPIPHDR. cbn. lia. }
  rewrite <- Hl, take_app_length. generalize (le_bytes 2 (if in_cksum (summed la da (le_bytes 2 sp) (le_bytes 2 dp) [0; 0] data) =? 0
    then 65535 else in_cksum (summed la da (le_bytes 2 sp) (le_bytes 2 dp) [0; 0] data)))
    (length_le_bytes 2 (if in_cksum (summed la da (le_bytes 2 sp) (le_bytes 2 dp) [0; 0] data) =? 0
    then 65535 else in_cksum (summed la da (le_bytes 2 sp) (le_bytes 2 dp) [0; 0] data))).
  intros ck Hck. destruct ck as [|c1 [|c2 [|]]]; try done. clear Hl Hck. unfold summed, udp_part. generalize (Z.of_nat n). intros L.
  revert la da Hla Hda. intros a b Ha Hb. do 4 (destruct a as [|? a]; [done|]). destruct a; [|done].
  do 4 (destruct b as [|? b]; [done|]). destruct b; [|done]. reflexivity.
Qed.

Lemma datagram_stored ck : List.length ck = 2%nat →
  take (n + SIZEOF_UDPIPHDR) (ip_header_stores (stored ck) (n + SIZEOF_UDPIPHDR)) =
  udp_datagram la da (le_bytes 2 sp) (le_bytes 2 dp) ck data.
Proof.
  intros Hck.
  assert (Hl : List.length (udp_datagram la da (le_bytes 2 sp) (le_bytes 2 dp) ck data) = (n + SIZEOF_UDPIPHDR)%nat).
  { unfold udp_datagram, udp_part. rewrite !length_app, Hla, Hda, Hck. unfold SIZEOF_UDPIPHDR. cbn. lia. }
  assert (E : ip_header_stores (stored ck) (n + SIZEOF_UDPIPHDR) = udp_datagram la da (le_bytes 2 sp) (le_bytes 2 dp) ck data ++ rest).
  { clear Hl. unfold ip_header_stores, summed, udp_datagram, udp_part, SIZEOF_UDPIPHDR.
    replace (Z.of_nat (n + 28)) with (28 + Z.of_nat n) by lia. generalize (Z.of_nat n). intros L.
    revert la da Hla Hda. intros a b Ha Hb. do 4 (destruct a as [|? a]; [done|]). destruct a; [|done].
    do 4 (destruct b as [|? b]; [done|]). destruct b; [|done]. destruct ck as [|c1 [|c2 [|]]]; try done. }
  by rewrite E, <- Hl, take_app_length.
Qed.
End stores.

(** ** The checksum *)

Section checksum.
Context (la da sport dport data : list Z).
Context (Hla : List.length la = 4%nat) (Hda : List.length da = 4%nat) (Hs : List.length sport = 2%nat) (Hd : List.length dport = 2%nat).
Context (Bla : bytes_ok la) (Bda : bytes_ok da) (Bs : bytes_ok sport) (Bd : bytes_ok dport) (Bdata : bytes_ok data).
Context (Hdata : Z.of_nat (List.length data) < 65000).

Lemma be16_bytes v : bytes_ok (be16 v).
Proof. unfold be16. repeat constructor; apply Z.mod_pos_bound; lia. Qed.

(** The receiver's sum is that of [udp_write]. *)
Lemma same_sum c1 c2 :
  sum_of (words (pseudo_header la da data ++ udp_part sport dport [c1; c2] data)) =
  c1 + 256 * c2 + sum_of (words (summed la da sport dport [0; 0] data)) ∧
  sum_of (words (summed la da sport dport [0; 0] data)) ≠ 0.
Proof.
  assert (Hw : 0 ≤ sum_of (words data)) by (by apply sum_of_nonneg, words_bound).
  pose proof (be16_bytes (8 + Z.of_nat (List.length data))) as Bl. unfold pseudo_header, summed, udp_part, be16 in *.
  revert Bl. generalize ((8 + Z.of_nat (List.length data)) / 256 mod 256) ((8 + Z.of_nat (List.length data)) mod 256). intros l1 l2 Bl.
  revert la da sport dport Hla Hda Hs Hd Bla Bda Bs Bd. intros a b s d Ha Hb Hs' Hd' Ba Bb Bs' Bd'.
  do 4 (destruct a as [|? a]; [done|]). destruct a; [|done]. do 4 (destruct b as [|? b]; [done|]). destruct b; [|done].
  do 2 (destruct s as [|? s]; [done|]). destruct s; [|done]. do 2 (destruct d as [|? d]; [done|]). destruct d; [|done].
  unfold bytes_ok in *. repeat match goal with H : Forall _ (_ :: _) |- _ => apply Forall_cons in H as [? H] end.
  cbn [replicate app words sum_of foldr]. fold (sum_of (words data)). unfold IPPROTO_UDP. split; lia.
Qed.

Lemma udp_verifies : 
  let c := in_cksum (summed la da sport dport [0; 0] data) in
  let ck := le_bytes 2 (if c =? 0 then 65535 else c) in
  in_cksum (pseudo_header la da data ++ udp_part sport dport ck data) = 0 ∧ ck ≠ [0; 0].
Proof.
  cbn zeta. set (c := in_cksum (summed la da sport dport [0; 0] data)).
  assert (Bsum : bytes_ok (summed la da sport dport [0; 0] data)).
  { unfold summed, udp_part. repeat (apply Forall_app; split); try apply be16_bytes; try done; repeat constructor; unfold IPPROTO_UDP; lia. }
  assert (Lsum : List.length (summed la da sport dport [0; 0] data) = (28 + List.length data)%nat).
  { unfold summed, udp_part. rewrite !length_app, Hla, Hda, Hs, Hd. cbn. lia. }
  destruct (cksum_complement _ Bsum) as [Hc Hm]; [rewrite Lsum; unfold CKSUM_MAX; lia|]. fold c in Hc, Hm.
  set (w := if c =? 0 then 65535 else c). assert (Hw : 0 < w < 65536 ∧ (w + sum_of (words (summed la da sport dport [0; 0] data))) mod 65535 = 0).
  { unfold w. destruct (Z.eqb_spec c 0) as [E|E]; [|split; [lia|exact Hm]]. rewrite E in Hm. split; [lia|]. rewrite Z.add_0_l in Hm.
    rewrite Z.add_mod, Hm by lia. done. }
  clearbody w. destruct Hw as [Hw Hwm].
  assert (E : le_bytes 2 w = [w mod 256; w / 256]).
  { cbn [le_bytes]. rewrite (Z.mod_small (w / 256)) by (Z.to_euclidean_division_equations; lia). done. }
  rewrite E. destruct (same_sum (w mod 256) (w / 256)) as [Hsum Hnz]. split.
  - apply cksum_zero.
    + unfold pseudo_header, udp_part. repeat (apply Forall_app; split); try apply be16_bytes; try done; repeat constructor;
        unfold IPPROTO_UDP; Z.to_euclidean_division_equations; lia.
    + unfold pseudo_header, udp_part, CKSUM_MAX. rewrite !length_app, Hla, Hda, Hs, Hd. cbn [List.length be16]. lia.
    + rewrite Hsum. by replace (w mod 256 + 256 * (w / 256)) with w by (Z.to_euclidean_division_equations; lia).
    + rewrite Hsum. pose proof (sum_of_nonneg _ (words_bound _ Bsum)). Z.to_euclidean_division_equations. lia.
  - intros [= E1 E2]. Z.to_euclidean_division_equations. lia.
Qed.
End checksum.

(** ** Checking what was captured *)

(** The IP datagram at the start of [buf] that [udp_check] accepts. *)
Definition good_datagram (buf : list Z) : Prop :=
  let hlen := ip_hlen (buf !!! 0%nat) in
  28 ≤ Z.of_nat (List.length buf) ∧ ip_version (buf !!! 0%nat) = IPVERSION ∧
  SIZEOF_IP ≤ hlen ∧ hlen + SIZEOF_UDP ≤ Z.of_nat (List.length buf) ∧
  in_cksum (take (Z.to_nat hlen) buf) = 0 ∧ buf !!! 9%nat = IPPROTO_UDP.
#[global] Instance good_datagram_dec buf : Decision (good_datagram buf).
Proof. unfold good_datagram. cbn zeta. apply _. Defined.

Section check.
Context {K : Kernel}.

Lemma u8_at_drop pkt off i : 0 ≤ off → (i < List.length (drop (Z.to_nat off) pkt))%nat →
  u8_at pkt (off + Z.of_nat i) = Some (drop (Z.to_nat off) pkt !!! i).
Proof.
  intros Ho Hi. rewrite length_drop in Hi. apply u8_at_lookup; [lia|].
  replace (Z.to_nat (off + Z.of_nat i)) with (Z.to_nat off + i)%nat by lia. rewrite <- lookup_drop.
  apply list_lookup_lookup_total_lt. rewrite length_drop. lia.
Qed.

Lemma udp_check_spec pkt off p : 0 ≤ off < 2 ^ 31 → Z.of_nat (List.length pkt) < 2 ^ 31 →
  post (udp_check pkt off) p (λ o p',
    if off <=? Z.of_nat (List.length pkt) then
      let buf := drop (Z.to_nat off) pkt in
      if decide (good_datagram buf) then o = Ret (put buf 10 [0; 0]) ∧ p' = p else o = Exit 1 ∧ reported p p'
    else o = UB ∧ p' = p).
Proof.
  intros Ho Hp. unfold udp_check. cbn zeta. destruct (Z.leb_spec off (Z.of_nat (List.length pkt))) as [Hle|Hgt].
  - set (buf := drop (Z.to_nat off) pkt).
    assert (Hlen : Z.of_nat (List.length pkt) - off = Z.of_nat (List.length buf)) by (unfold buf; rewrite length_drop; lia).
    rewrite Hlen. unfold u64. rewrite Z.mod_small by lia. unfold SIZEOF_IP, SIZEOF_UDP.
    assert (Hbad : ∀ msg, ¬ good_datagram buf →
      post (err_quit msg) p (λ o p', if decide (good_datagram buf) then o = Ret (put buf 10 [0; 0]) ∧ p' = p else o = Exit 1 ∧ reported p p')).
    { intros msg Hn. destruct (decide (good_datagram buf)); [done|]. apply err_quit_exits. }
    destruct (Z.ltb_spec (Z.of_nat (List.length buf)) (20 + 8)) as [H1|H1].
    { apply Hbad. intros (? & _). lia. }
    assert (Hu : ∀ i, (i < 28)%nat → u8_at pkt (off + Z.of_nat i) = Some (buf !!! i)) by (intros; apply u8_at_drop; unfold buf in *; lia).
    pose proof (Hu 0%nat ltac:(lia)) as H0. pose proof (Hu 9%nat ltac:(lia)) as H9. clear Hu.
    change (Z.of_nat 0) with 0 in H0. rewrite Z.add_0_r in H0. change (Z.of_nat 9) with 9 in H9.
    rewrite H0, H9. unfold ld. apply post_bind, post_ret. cbn [through].
    destruct (Z.eqb_spec (ip_version (buf !!! 0%nat)) IPVERSION) as [H2|H2]; cbn [negb].
    2: { apply Hbad. intros (_ & ? & _). done. }
    pose proof (ip_hlen_bound (buf !!! 0%nat)) as Hh.
    destruct (Z.ltb_spec (ip_hlen (buf !!! 0%nat)) 20) as [H3|H3].
    { apply Hbad. intros (_ & _ & ? & _). unfold SIZEOF_IP in *. lia. }
    destruct (Z.ltb_spec (Z.of_nat (List.length buf)) (ip_hlen (buf !!! 0%nat) + 8)) as [H4|H4].
    { apply Hbad. intros (_ & _ & _ & ? & _). unfold SIZEOF_UDP in *. lia. }
    destruct (Z.eqb_spec (in_cksum (take (Z.to_nat (ip_hlen (buf !!! 0%nat))) buf)) 0) as [H5|H5]; cbn [negb].
    2: { apply Hbad. intros (_ & _ & _ & _ & ? & _). done. }
    apply post_bind, post_ret. cbn [through]. destruct (Z.eqb_spec (buf !!! 9%nat) IPPROTO_UDP) as [H6|H6].
    + apply post_ret. rewrite H5. destruct (decide (good_datagram buf)) as [|Hn]; [done|].
      destruct Hn. unfold good_datagram, SIZEOF_IP, SIZEOF_UDP. by split_and!.
    + apply Hbad. intros (_ & _ & _ & _ & _ & ?). done.
  - assert (Hu : u64 (Z.of_nat (List.length pkt) - off) = 2 ^ 64 + (Z.of_nat (List.length pkt) - off)).
    { unfold u64. rewrite <- (Z.mod_add _ 1) by lia. rewrite Z.mul_1_l, Z.mod_small; lia. }
    rewrite Hu. rewrite (proj2 (Z.ltb_ge _ _)) by (unfold SIZEOF_IP, SIZEOF_UDP; lia).
    assert (u8_at pkt off = None) as ->; [|done]. unfold u8_at. rewrite (proj2 (Z.leb_le _ _)) by lia.
    apply lookup_ge_None. lia.
Qed.
End check.

(** ** The retries of [test_udp] *)

(** A query ([None]) and the alarms set. *)
Definition tries1 (e : event) : list (option Z) :=
  match e with
  | Event c _ => match c with sys_sendto _ _ _ => [None] | sys_alarm sec => [Some sec] | _ => [] end
  end.
#[global] Instance quiet_tries : QuietUnseen tries1.
Proof. split. by intros [? [] ?]. Qed.
(** [k] queries, the first awaited for [timeout] seconds, each next one twice as
    long as the one before. *)
Fixpoint tries (timeout : Z) (k : nat) : list (option Z) :=
  match k with O => [] | S k' => None :: Some timeout :: tries (timeout * 2) k' end.

Section tests.
Context {K : Kernel} (dest local : sockaddr) (verbose zerosum : bool).
Abbreviation tried := (follows tries1 True).
Lemma tried_query rawfd p : post (send_dns_query dest local verbose zerosum rawfd) p (tried [None] (λ _, True) p).
Proof.
  apply (follows_bind0 _ _ _ _ _ (λ _, True)).
  { unfold Malloc. apply (follows_bind0 _ _ _ _ _ (λ _, True)).
    - apply post_malloc; intros _; exists []; cbn [with_block add_event p_trace seen tries1]; by rewrite !app_nil_r.
    - intros [q|] p' _; [by apply follows_ret|apply (follows_err_sys _ _)]. }
  intros _ p1 _. apply (follows_bind _ _ _ _ [None] [] (λ _, True)).
  - unfold udp_write. cbn zeta. set (buf := take _ _). apply (follows_bind _ _ _ _ [None] [] (λ _, True)).
    + apply post_bind, post_call. intros r _. cbn [through]. destruct r; cbn; [by exists [None]|]. by exists [None].
    + intros [n|] p2 _; [destruct (n =? _); [by apply follows_ret|]|]; apply (follows_err_sys _ _).
  - intros _ p2 _. destruct verbose; [apply (follows_printf _ _)|by apply follows_ret].
Qed.

Lemma tried_udp_read fuel datalink p : post (udp_read fuel datalink) p (tried [] (λ _, True) p).
Proof.
  assert (Hquit : ∀ A msg p, post (err_quit (A := A) msg) p (tried [] (λ _, True) p)).
  { intros A msg q. eapply follows_frame; [apply framed_err_quit, (quiet_unseen tries1)|apply err_quit_exits|]. by intros o q' [-> _]. }
  assert (Hld : ∀ A (o : option A) p, post (ld o) p (tried [] (λ _, True) p)).
  { intros A [a|] q; [by apply follows_ret|]. apply post_stop. exists []. by rewrite app_nil_r. }
  assert (Hcheck : ∀ pkt off p, post (ui ← udp_check pkt off; mret (Some ui)) p (tried [] (λ _, True) p)).
  { intros pkt off q. apply (follows_bind0 _ _ _ _ _ (λ _, True)); [|intros; by apply follows_ret].
    unfold udp_check. cbn zeta. case_match; [apply Hquit|]. apply (follows_bind0 _ _ _ _ _ (λ _, True)); [apply Hld|]. intros ip q1 _.
    repeat (case_match; [apply Hquit|]). apply (follows_bind0 _ _ _ _ _ (λ _, True)); [apply Hld|]. intros ip_p q2 _.
    case_match; [by apply follows_ret|apply Hquit]. }
  apply (follows_bind0 _ _ _ _ _ (λ _, True)).
  - revert p. induction fuel as [|f IH]; intros p; cbn [next_pcap]; [apply post_stop; exists []; by rewrite app_nil_r|].
    apply (follows_bind0 _ _ _ _ _ (λ _, True)); [by apply (follows_call _ _ _ _ (λ _, True))|]. intros [] p1 _; [by apply follows_ret|].
    apply (follows_bind0 _ _ _ _ _ (λ _, True)); [by apply (follows_call _ _ _ _ (λ _, True))|]. intros [] p2 _; [by apply follows_ret|apply IH].
  - intros [ptr|] p1 _; [|by apply follows_ret].
    repeat (case_match; [first [apply Hcheck|apply (follows_bind0 _ _ _ _ _ (λ _, True)); [apply Hld|]; intros et p2 _; case_match; [apply Hquit|apply Hcheck]]|]).
    apply Hquit.
Qed.

Lemma test_turns_tries fuel rawfd datalink todo : ∀ nsent timeout p, (1 ≤ todo)%nat → nsent + Z.of_nat todo = 3 →
  post (test_turns dest local verbose zerosum todo fuel rawfd datalink nsent timeout) p
    (λ o p', ∃ k, (1 ≤ k ≤ todo)%nat ∧ tried (tries timeout k ++ [Some 0]) (λ _, True) p o p').
Proof.
  induction todo as [|todo IH]; intros nsent timeout p H1 Hn; [lia|]. cbn [test_turns]. cbn zeta.
  set (w := λ k, tries timeout k ++ [Some 0]).
  assert (Hgoal : ∀ m : M unit, post m p (λ o p', ∃ k, (k ≤ todo)%nat ∧ tried ([None] ++ Some timeout :: tries (timeout * 2) k ++ [Some 0]) (λ _, True) p o p') →
    post m p (λ o p', ∃ k, (1 ≤ k ≤ S todo)%nat ∧ tried (tries timeout k ++ [Some 0]) (λ _, True) p o p')).
  { intros m Hm. eapply post_weaken; [exact Hm|]. intros o p' (k & Hk & H). exists (S k). split; [lia|done]. }
  apply Hgoal. clear Hgoal w.
  apply (follows_bind_ex _ _ _ _ _ [None] (λ k, Some timeout :: tries (timeout * 2) k ++ [Some 0]) (λ _, True) (λ _ _, True));
    [by exists todo|apply tried_query|]. intros _ p1 _.
  apply (follows_bind_ex _ _ _ _ _ [Some timeout] (λ k, tries (timeout * 2) k ++ [Some 0]) (λ _, True) (λ _ _, True)); [by exists todo| |].
  { apply post_call. intros a _. by exists [Some timeout]. }
  intros _ p2 _.
  apply (follows_bind_ex _ _ _ _ _ [] (λ k, tries (timeout * 2) k ++ [Some 0]) (λ _, True) (λ _ _, True));
    [by exists todo|apply tried_udp_read|]. intros [ui|] p3 _.
  - assert (H0 : post (call (sys_alarm 0) ;; ui_sum ← ld (u16_at ui 26);
        (if ui_sum =? 0 then printf ("UDP checksums off" +:+ nl) else printf ("UDP checksums on" +:+ nl)) ;;
        if verbose then printf ("received UDP checksum = " +:+ fmt_x (ntohs ui_sum) +:+ nl) else mret tt) p3
        (tried ([Some 0] ++ []) (λ _, True) p3)).
    { apply (follows_bind _ _ _ _ [Some 0] [] (λ _, True)); [apply post_call; intros a _; by exists [Some 0]|]. intros _ p4 _.
      apply (follows_bind0 _ _ _ _ _ (λ _, True)).
      { destruct (u16_at ui 26); [by apply follows_ret|]. apply post_stop. exists []. by rewrite app_nil_r. }
      intros s p5 _. apply (follows_bind0 _ _ _ _ _ (λ _, True)); [case_match; apply (follows_printf _ _)|]. intros _ p6 _.
      destruct verbose; [apply (follows_printf _ _)|by apply follows_ret]. }
    eapply post_weaken; [exact H0|]. intros o p' HX. exists 0%nat. split; [lia|done].
  - destruct (Z.leb_spec 3 (nsent + 1)).
    + eapply post_weaken; [apply post_and; [apply err_quit_exits|apply framed_post, framed_err_quit, (quiet_unseen tries1)]|].
      intros o p' [[-> _] [(t & Ht & Hq) _]]. exists 0%nat. split; [lia|]. exists []. rewrite app_nil_r. split; [|split; [apply prefix_nil|done]].
      rewrite Ht. clear Ht. induction Hq as [|e t He _ IHq]; [done|]. cbn [app seen]. by rewrite He, app_nil_r.
    + apply (follows_bind_ex _ _ _ _ _ [] (λ k, tries (timeout * 2) k ++ [Some 0]) (λ _, True) (λ _ _, True));
        [by exists todo|apply (follows_printf _ _)|]. intros _ p4 _.
      eapply post_weaken; [apply IH; lia|]. intros o p' (k & Hk & HX). exists k. split; [lia|done].
Qed.
End tests.

(** ** Properties *)

(** The datagram [udp_write] builds.  Whatever the buffer held before the
    data, what is sent is an IPv4 header without options and a UDP header with
    the addresses, the ports and the lengths in network byte order, then the
    data; with checksums on, the checksum is never the zero that stands for
    none, and a receiver that sums the pseudo-header of RFC 768 with the
    datagram finds it correct. *)
Theorem udp_write_correct {K : Kernel} (sp dp : Z) (la da hdr data rest : list Z) (zerosum : bool) (rawfd : Z) (p : proc) :
  List.length la = 4%nat → List.length da = 4%nat → bytes_ok la → bytes_ok da → bytes_ok data →
  List.length hdr = 28%nat → Z.of_nat (List.length data) < 65000 →
  ∃ ck, List.length ck = 2%nat ∧
    udp_write (SaIn dp da) (SaIn sp la) zerosum rawfd (hdr ++ data ++ rest) (List.length data) p =
    Sendto rawfd (udp_datagram la da (le_bytes 2 sp) (le_bytes 2 dp) ck data) (SaIn dp da) p ∧
    if zerosum then ck = [0; 0]
    else ck ≠ [0; 0] ∧ in_cksum (pseudo_header la da data ++ udp_part (le_bytes 2 sp) (le_bytes 2 dp) ck data) = 0.
Proof.
  intros Hla Hda Bla Bda Bdata Hh Hn. unfold udp_write. cbn zeta. rewrite header_stored by done.
  destruct (sum_stored sp dp la da hdr data rest Hla Hda Hh zerosum) as (ck & Hck & -> & E). rewrite (datagram_stored _ _ _ _ hdr) by done.
  exists ck. split; [done|]. split; [done|]. destruct zerosum; [done|]. rewrite E.
  destruct (udp_verifies la da (le_bytes 2 sp) (le_bytes 2 dp) data) as [H1 H2]; auto using length_le_bytes, le_bytes_ok.
Qed.

(** [udp_check] returns exactly the datagrams that are long enough for
    their headers, are IPv4 and UDP and whose header checksum is correct
    (overwriting that checksum by 0); it reports anything else and exits.  The
    exception is a capture shorter than the link's header: the negative
    length, compared as a [size_t], passes the tests, and bytes outside the
    capture are read. *)
Theorem udp_check_correct {K : Kernel} (pkt : list Z) (off : Z) (p : proc) :
  0 ≤ off < 2 ^ 31 → Z.of_nat (List.length pkt) < 2 ^ 31 →
  post (udp_check pkt off) p (λ o p',
    if off <=? Z.of_nat (List.length pkt) then
      let buf := drop (Z.to_nat off) pkt in
      if decide (good_datagram buf) then o = Ret (put buf 10 [0; 0]) ∧ p' = p else o = Exit 1 ∧ reported p p'
    else o = UB ∧ p' = p).
Proof. apply udp_check_spec. Qed.

(** [test_udp] sends at most three queries, and waits 3, then 6, then 12
    seconds for a reply; it stops the alarm when a reply came, and exits with a
    report after the third timeout. *)
Theorem test_udp_retries {K : Kernel} (dest local : sockaddr) (verbose zerosum : bool) (fuel : nat) (sig_alrm rawfd datalink : Z) (p : proc) :
  post (test_udp dest local verbose zerosum fuel sig_alrm rawfd datalink) p (λ o p',
    ∃ k, (1 ≤ k ≤ 3)%nat ∧ follows tries1 True (take (2 * k) [None; Some 3; None; Some 6; None; Some 12] ++ [Some 0]) (λ _, True) p o p').
Proof.
  unfold test_udp. apply (follows_bind_ex _ _ _ _ _ [] (λ k, take (2 * k) [None; Some 3; None; Some 6; None; Some 12] ++ [Some 0]) (λ _, True) (λ _ _, True)).
  - by exists 1%nat; lia.
  - unfold Signal, signal. apply (follows_bind0 _ _ _ _ _ (λ _, True)); [by apply (follows_syscall _ _ _ _ (λ _, True))|].
    intros [] p1 _; [by apply follows_ret|apply (follows_err_sys _ _)].
  - intros _ p1 _. eapply post_weaken; [apply test_turns_tries; lia|]. intros o p' (k & Hk & H). exists k. split; [done|].
    assert (k = 1 ∨ k = 2 ∨ k = 3)%nat as [->|[->| ->]] by lia; exact H.
Qed.

(** ** Examples *)

Lemma udp_write_correct_witness :
  ∃ ck, List.length ck = 2%nat ∧
    udp_write (K := plain_kernel) (SaIn (htons 53) [10; 0; 0; 2]) (SaIn (htons 1234) [10; 0; 0; 1]) false 3
      (replicate 28 0 ++ dns_query ++ []) (List.length dns_query) proc0 =
    Sendto (K := plain_kernel) 3 (udp_datagram [10; 0; 0; 1] [10; 0; 0; 2] (le_bytes 2 (htons 1234)) (le_bytes 2 (htons 53)) ck dns_query)
      (SaIn (htons 53) [10; 0; 0; 2]) proc0 ∧
    (ck ≠ [0; 0] ∧ in_cksum (pseudo_header [10; 0; 0; 1] [10; 0; 0; 2] dns_query ++
       udp_part (le_bytes 2 (htons 1234)) (le_bytes 2 (htons 53)) ck dns_query) = 0).
Proof.
  apply (udp_write_correct (K := plain_kernel) (htons 1234) (htons 53) [10; 0; 0; 1] [10; 0; 0; 2] (replicate 28 0) dns_query [] false 3 proc0);
    try done; apply (bool_decide_unpack _); by vm_compute.
Defined.
Lemma udp_check_correct_witness :
  post (udp_check (K := plain_kernel) [2; 0; 0] 4) proc0 (λ o _, o = UB).
Proof.
  eapply post_weaken; [apply (udp_check_correct (K := plain_kernel) [2; 0; 0] 4); done|]. cbn. by intros o p' [-> _].
Defined.
