(* ===== verification/Icmpd.v ===== *)
(** The ICMP daemon and its client: src/unpv13e/icmpd (icmpd.h, unpicmpd.h,
    icmpd.c, readable_listen.c, readable_conn.c, readable_v4.c, readable_v6.c,
    dgcli01.c).

    A client connects to the daemon's Unix domain socket and passes it a
    descriptor of its UDP socket; the daemon notes the local port and sends
    the client the ICMP errors that quote a datagram from that port.  The
    buffers of received packets are local and uninitialised: a load outside the
    packet is undefined. *)
From S2P Require Import Prelude Machine Inet Posix Wrap Frame Sockaddr Rtt Stream Servers FdPass Packet.

Definition ICMP_SOURCEQUENCH : Z := 4.
Definition ICMP_UNREACH_NEEDFRAG : Z := 4.
Definition ICMP6_PACKET_TOO_BIG : Z := 2.
Definition EMSGSIZE : Z := 90.
Definition ECONNREFUSED : Z := 111.
Definition EHOSTUNREACH : Z := 113.
Definition INET6_ADDRSTRLEN : Z := 46.
Definition ICMPD_PATH : string := "/tmp/icmpd".
Definition SIZEOF_ICMPD_ERR : nat := 144.

(** ** icmpd.h *)

Record cl := Cl {
  connfd : Z;
  family : Z;
  lport : Z      (** in network byte order *)
}.
#[global] Instance cl_inhabited : Inhabited cl := populate (Cl (-1) 0 0).

Record icmpd := Icmpd {
  client : list cl;
  maxi : Z;
  maxfd : Z;
  allset : gset Z
}.

(** ** unpicmpd.h: [struct icmpd_err]

    [icmpd_errno] at offset 0, [icmpd_type] at 4, [icmpd_code] at 5,
    [icmpd_len] at 8, [icmpd_dest] at 16; what no store reaches is as it was. *)
Definition icmpd_err (type code len : Z) (dest : list Z) (errno : Z) (stack : list Z) : list Z :=
  let e := put stack 4 [type] in
  let e := put e 5 [code] in
  let e := put e 8 (le_bytes 4 len) in
  let e := put e 16 dest in
  put e 0 (le_bytes 4 errno).

Section icmpd.
Context {K : Kernel} (stack : list Z) (listenfd fd4 fd6 : Z).

(** ** readable_listen.c *)

Definition readable_listen (fuel : nat) (s : icmpd) (nready : Z) : M (icmpd * Z) :=
  '(fd, _) ← Accept fuel listenfd;
  match first_free (connfd <$> client s) with
  | None => syscall (sys_close fd) ;; mret (s, nready - 1)
  | Some i =>
      let client := alter (λ c, Cl fd (family c) (lport c)) i (client s) in
      printf ("new connection, i = " +:+ fmt_d (Z.of_nat i) +:+ ", connfd = " +:+ fmt_d fd +:+ nl) ;;
      allset ← fd_set_add fd (allset s);
      let maxfd := if maxfd s <? fd then fd else maxfd s in
      let maxi := if maxi s <? Z.of_nat i then Z.of_nat i else maxi s in
      mret (Icmpd client maxi maxfd allset, nready - 1)
  end.

(** ** readable_conn.c *)

Definition clientdone (i : nat) (unixfd recvfd : Z) (s : icmpd) (nready : Z) : M (icmpd * Z) :=
  Close unixfd ;;
  (if 0 <=? recvfd then Close recvfd else mret tt) ;;
  mret (Icmpd (alter (λ c, Cl (-1) (family c) (lport c)) i (client s)) (maxi s) (maxfd s) (allset s ∖ {[unixfd]}), nready - 1).
Definition clienterr (i : nat) (unixfd recvfd : Z) (s : icmpd) (nready : Z) : M (icmpd * Z) :=
  Write unixfd [48] ;;
  clientdone i unixfd recvfd s nready.
Definition set_client (f : cl → cl) (i : nat) (s : icmpd) : icmpd :=
  Icmpd (alter f i (client s)) (maxi s) (maxfd s) (allset s).
Definition readable_conn (i : nat) (s : icmpd) (nready : Z) : M (icmpd * Z) :=
  let unixfd := connfd (client s !!! i) in
  '(n, _, recvfd) ← Read_fd unixfd 1 (Some (-1));
  let recvfd := default (-1) recvfd in
  if n =? 0 then
    err_msg ("client " +:+ fmt_d (Z.of_nat i) +:+ " terminated, recvfd = " +:+ fmt_d recvfd) ;;
    clientdone i unixfd recvfd s nready
  else if recvfd <? 0 then
    err_msg "read_fd did not return descriptor" ;;
    clienterr i unixfd recvfd s nready
  else
    ss ← syscall (sys_getsockname recvfd);
    match ss with
    | None => err_ret "getsockname error" ;; clienterr i unixfd recvfd s nready
    | Some ss =>
        let s := set_client (λ c, Cl (connfd c) (sa_family ss) (sock_get_port ss)) i s in
        let registered (s : icmpd) : M (icmpd * Z) :=
          Write unixfd [49] ;;
          Close recvfd ;;
          mret (s, nready - 1) in
        if sock_get_port ss =? 0 then
          port ← sock_bind_wild recvfd (sa_family ss);
          let s := set_client (λ c, Cl (connfd c) (family c) port) i s in
          if port <=? 0 then
            err_ret "error binding ephemeral port" ;;
            clienterr i unixfd recvfd s nready
          else registered s
        else registered s
    end.

(** ** readable_v4.c, readable_v6.c *)

Definition interested (fam sport : Z) (c : cl) : bool :=
  (0 <=? connfd c) && (family c =? fam) && (lport c =? sport).

(** The [for] loop over the entries [l] up to [maxi]: the error goes to the clients with that family and local
    port. *)
Fixpoint notify (fam sport : Z) (err : list Z) (l : list cl) : M unit :=
  match l with
  | [] => mret tt
  | c :: l' =>
      (if interested fam sport c then Write (connfd c) err else mret tt) ;;
      notify fam sport err l'
  end.

Definition errno_v4 (type code : Z) : Z :=
  if type =? ICMP_UNREACH then
    if code =? ICMP_UNREACH_PORT then ECONNREFUSED
    else if code =? ICMP_UNREACH_NEEDFRAG then EMSGSIZE else EHOSTUNREACH
  else EHOSTUNREACH.
Definition report_v4 (l : list cl) (buf : list Z) (from : sockaddr) : M unit :=
  let n := Z.of_nat (List.length buf) in
  host ← Sock_ntop_host from SIZEOF_SOCKADDR_IN;
  printf (fmt_d n +:+ " bytes ICMPv4 from " +:+ host +:+ ":") ;;
  ip ← ld (u8_at buf 0);
  let hlen1 := ip_hlen ip in
  let icmplen := n - hlen1 in
  if icmplen <? 8 then err_quit ("icmplen (" +:+ fmt_d icmplen +:+ ") < 8")
  else
    icmp_type ← ld (u8_at buf hlen1);
    icmp_code ← ld (u8_at buf (hlen1 + 1));
    printf (" type = " +:+ fmt_d icmp_type +:+ ", code = " +:+ fmt_d icmp_code +:+ nl) ;;
    if (icmp_type =? ICMP_UNREACH) || (icmp_type =? ICMP_TIMXCEED) || (icmp_type =? ICMP_SOURCEQUENCH) then
       if icmplen <? 8 + 20 + 8 then err_quit ("icmplen (" +:+ fmt_d icmplen +:+ ") < 8 + 20 + 8")
       else
         let hip := hlen1 + 8 in
         ip2 ← ld (u8_at buf hip);
         let hlen2 := ip_hlen ip2 in
         ip_src ← ld (bytes_at buf (hip + 12) 4);
         ip_dst ← ld (bytes_at buf (hip + 16) 4);
         srcstr ← Inet_ntop AF_INET ip_src true Ipv4.INET_ADDRSTRLEN;
         dststr ← Inet_ntop AF_INET ip_dst true Ipv4.INET_ADDRSTRLEN;
         ip_p ← ld (u8_at buf (hip + 9));
         printf (String (chr 9) EmptyString +:+ "srcip = " +:+ srcstr +:+ ", dstip = " +:+ dststr +:+ ", proto = " +:+ fmt_d ip_p +:+ nl) ;;
         if ip_p =? IPPROTO_UDP then
           sport ← ld (u16_at buf (hip + hlen2));
           if existsb (interested AF_INET sport) l then
             uh_dport ← ld (u16_at buf (hip + hlen2 + 2));
             notify AF_INET sport
               (icmpd_err icmp_type icmp_code SIZEOF_SOCKADDR_IN (sockaddr_in_bytes uh_dport ip_dst) (errno_v4 icmp_type icmp_code) stack)
               l
           else mret tt
         else mret tt
     else mret tt.
Definition readable_v4 (s : icmpd) (nready : Z) : M (icmpd * Z) :=
  '(buf, from) ← Recvfrom fd4 MAXLINE;
  report_v4 (take (Z.to_nat (maxi s + 1)) (client s)) buf from ;;
  mret (s, nready - 1).

Definition errno_v6 (type code : Z) : Z :=
  if type =? ICMP6_PACKET_TOO_BIG then EMSGSIZE
  else if (type =? ICMP6_DST_UNREACH) && (code =? ICMP6_DST_UNREACH_NOPORT) then ECONNREFUSED else EHOSTUNREACH.
Definition report_v6 (l : list cl) (buf : list Z) (from : sockaddr) : M unit :=
  let n := Z.of_nat (List.length buf) in
  host ← Sock_ntop_host from SIZEOF_SOCKADDR_IN6;
  printf (fmt_d n +:+ " bytes ICMPv6 from " +:+ host +:+ ":") ;;
  let icmp6len := n in
  if icmp6len <? 8 then err_quit ("icmp6len (" +:+ fmt_d icmp6len +:+ ") < 8")
  else
    icmp6_type ← ld (u8_at buf 0);
    icmp6_code ← ld (u8_at buf 1);
    printf (" type = " +:+ fmt_d icmp6_type +:+ ", code = " +:+ fmt_d icmp6_code +:+ nl) ;;
    if (icmp6_type =? ICMP6_DST_UNREACH) || (icmp6_type =? ICMP6_PACKET_TOO_BIG) || (icmp6_type =? ICMP6_TIME_EXCEEDED) then
       if icmp6len <? 8 + 8 then err_quit ("icmp6len (" +:+ fmt_d icmp6len +:+ ") < 8 + 8")
       else
         let hip6 := 8 in
         let hlen2 := SIZEOF_IP6 in
         ip6_src ← ld (bytes_at buf (hip6 + 8) 16);
         ip6_dst ← ld (bytes_at buf (hip6 + 24) 16);
         srcstr ← Inet_ntop AF_INET6 ip6_src true INET6_ADDRSTRLEN;
         dststr ← Inet_ntop AF_INET6 ip6_dst true INET6_ADDRSTRLEN;
         ip6_nxt ← ld (u8_at buf (hip6 + 6));
         printf (String (chr 9) EmptyString +:+ "srcip = " +:+ srcstr +:+ ", dstip = " +:+ dststr +:+ ", next hdr = " +:+ fmt_d ip6_nxt +:+ nl) ;;
         if ip6_nxt =? IPPROTO_UDP then
           sport ← ld (u16_at buf (hip6 + hlen2));
           if existsb (interested AF_INET6 sport) l then
             uh_dport ← ld (u16_at buf (hip6 + hlen2 + 2));
             notify AF_INET6 sport
               (icmpd_err icmp6_type icmp6_code SIZEOF_SOCKADDR_IN6 (sockaddr_in6_bytes uh_dport ip6_dst) (errno_v6 icmp6_type icmp6_code) stack)
               l
           else mret tt
         else mret tt
     else mret tt.
Definition readable_v6 (s : icmpd) (nready : Z) : M (icmpd * Z) :=
  '(buf, from) ← Recvfrom fd6 MAXLINE;
  report_v6 (take (Z.to_nat (maxi s + 1)) (client s)) buf from ;;
  mret (s, nready - 1).

(** ** icmpd.c *)

(** The last loop over the clients, from entry [i] on. *)
Fixpoint conn_scan (todo i : nat) (rset : list Z) (nready : Z) (s : icmpd) : M icmpd :=
  match todo with
  | O => mret s
  | S todo' =>
      let sockfd := connfd (client s !!! i) in
      if sockfd <? 0 then conn_scan todo' (S i) rset nready s
      else if bool_decide (sockfd ∈ rset) then
        '(s, nready) ← readable_conn i s nready;
        if nready <=? 0 then mret s else conn_scan todo' (S i) rset nready s
      else conn_scan todo' (S i) rset nready s
  end.

(** [if (FD_ISSET(fd, &rset)) if (readable() <= 0) continue;] *)
Definition when_ready (fd : Z) (rset : list Z) (readable : icmpd → Z → M (icmpd * Z)) (s : icmpd) (nready : Z)
    (rest : icmpd → Z → M icmpd) : M icmpd :=
  if bool_decide (fd ∈ rset) then
    '(s, nready) ← readable s nready;
    if nready <=? 0 then mret s else rest s nready
  else rest s nready.
Definition icmpd_step (fuel : nat) (s : icmpd) : M icmpd :=
  '(rset, _) ← Select (elements (allset s)) [] None;
  when_ready listenfd rset (readable_listen fuel) s (Z.of_nat (List.length rset)) (λ s nready,
  when_ready fd4 rset readable_v4 s nready (λ s nready,
  when_ready fd6 rset readable_v6 s nready (λ s nready,
  conn_scan (Z.to_nat (maxi s + 1)) 0 rset nready s))).
Fixpoint icmpd_loop (turns fuel : nat) (s : icmpd) : M icmpd :=
  match turns with
  | O => mret s
  | S t => s ← icmpd_step fuel s; icmpd_loop t fuel s
  end.
End icmpd.

(** The descriptors [listenfd], [fd4], [fd6] and the state after [turns] turns. *)
Definition icmpd_main {K : Kernel} (turns fuel : nat) (stack : list Z) : M (Z * Z * Z * icmpd) :=
  let client := replicate (Z.to_nat FD_SETSIZE) (Cl (-1) 0 0) in
  fd4 ← Socket AF_INET SOCK_RAW IPPROTO_ICMP;
  allset ← fd_set_add fd4 ∅;
  fd6 ← Socket AF_INET6 SOCK_RAW IPPROTO_ICMPV6;
  allset ← fd_set_add fd6 allset;
  listenfd ← Socket AF_UNIX SOCK_STREAM 0;
  syscall (sys_unlink ICMPD_PATH) ;;
  Bind listenfd (SaUn (char_array 108 ICMPD_PATH)) SIZEOF_SOCKADDR_UN ;;
  Listen listenfd LISTENQ ;;
  allset ← fd_set_add listenfd allset;
  s ← icmpd_loop stack listenfd fd4 fd6 turns fuel (Icmpd client (-1) (Z.max (Z.max fd4 fd6) listenfd) allset);
  mret (listenfd, fd4, fd6, s).

(** ** dgcli01.c *)

(** The fields of a [struct icmpd_err] that was read whole; [char] is signed. *)
Definition i8 (v : Z) : Z := (v + 128) mod 256 - 128.
Definition dest_at (e : list Z) : option sockaddr :=
  family ← u16_at e 16;
  if family =? AF_INET then
    port ← u16_at e 18; addr ← bytes_at e 20 4; Some (SaIn port addr)
  else if family =? AF_INET6 then
    port ← u16_at e 18; addr ← bytes_at e 24 16; Some (SaIn6 port addr)
  else if family =? AF_UNIX then path ← bytes_at e 18 108; Some (SaUn (chr <$> path))
  else data ← bytes_at e 18 126; Some (SaOther family data).

Section client.
Context {K : Kernel}.

(** The report of an error from the daemon. *)
Definition print_icmp_error (e : list Z) : M unit :=
  dest ← ld (dest_at e);
  icmpd_len ← ld (u32_at e 8);
  str ← Sock_ntop dest icmpd_len;
  errno ← ld (u32_at e 0);
  msg ← call (sys_strerror (i32 errno));
  icmpd_type ← ld (u8_at e 4);
  icmpd_code ← ld (u8_at e 5);
  printf ("ICMP error: dest = " +:+ str +:+ ", " +:+ msg +:+ ", type = " +:+ fmt_d (i8 icmpd_type) +:+
          ", code = " +:+ fmt_d (i8 icmpd_code) +:+ nl).

Fixpoint icmp_dg_loop (fuel : nat) (sockfd icmpfd : Z) (pservaddr : sockaddr) : M unit :=
  match fuel with
  | O => stop NoFuel
  | S f =>
      sendline ← Fgets MAXLINE;
      match sendline with
      | None => mret tt
      | Some sendline =>
          Sendto sockfd (to_bytes sendline) pservaddr ;;
          '(rset, _) ← Select [sockfd; icmpfd] [] (Some 5000);
          if Z.of_nat (List.length rset) =? 0 then
            syscall (sys_fputs STDERR_FILENO ("socket timeout" +:+ nl)) ;;
            icmp_dg_loop f sockfd icmpfd pservaddr
          else
            (if bool_decide (sockfd ∈ rset) then
               '(recvline, _) ← Recvfrom sockfd MAXLINE;
               Fputs (to_string (cstr_bytes recvline)) STDOUT_FILENO
             else mret tt) ;;
            (if bool_decide (icmpfd ∈ rset) then
               e ← Read icmpfd (Z.of_nat SIZEOF_ICMPD_ERR);
               let n := Z.of_nat (List.length e) in
               if n =? 0 then err_quit "ICMP daemon terminated"
               else if negb (n =? Z.of_nat SIZEOF_ICMPD_ERR)
               then err_quit ("n = " +:+ fmt_d n +:+ ", expected " +:+ fmt_d (Z.of_nat SIZEOF_ICMPD_ERR))
               else print_icmp_error e
             else mret tt) ;;
            icmp_dg_loop f sockfd icmpfd pservaddr
      end
  end.

Definition icmp_dg_cli (fuel : nat) (sockfd : Z) (pservaddr : sockaddr) : M unit :=
  Sock_bind_wild sockfd (sa_family pservaddr) ;;
  icmpfd ← Socket AF_UNIX SOCK_STREAM 0;
  Connect icmpfd (SaUn (char_array 108 ICMPD_PATH)) SIZEOF_SOCKADDR_UN ;;
  Write_fd icmpfd [49] sockfd ;;
  recvline ← Read icmpfd 1;
  let n := Z.of_nat (List.length recvline) in
  if negb (n =? 1) then
    match recvline with
    | [] => stop UB
    | c :: _ => err_quit ("error creating icmp socket, n = " +:+ fmt_d n +:+ ", char = " +:+ String (chr c) EmptyString)
    end
  else
    let c := recvline !!! 0%nat in
    if negb (c =? 49) then err_quit ("error creating icmp socket, n = " +:+ fmt_d n +:+ ", char = " +:+ String (chr c) EmptyString)
    else
      allset ← fd_set_add sockfd ∅;
      fd_set_add icmpfd allset ;;
      icmp_dg_loop fuel sockfd icmpfd pservaddr.
End client.

(** ** The invariant of the daemon *)

(** The descriptors of a message that carries no data, or not exactly one descriptor: [read_fd] takes none of
    them. *)
Definition stray1 (e : event) : list Z :=
  match e with
  | Event c a =>
      match c in sys A return A → list Z with
      | sys_recvmsg_ctl _ _ => λ r, match r with
          | Ok (bs, Some cm) => if bool_decide (bs ≠ [] ∧ cmsg_len cm = CMSG_LEN_INT) then [] else cmsg_fds cm
          | _ => [] end
      | _ => λ _, []
      end a
  end.
Definition strays (p : proc) : gset Z := list_to_set (seen stray1 (p_trace p)).

Definition opened (fd fam protocol : Z) (p : proc) : Prop :=
  Event (sys_socket fam SOCK_RAW protocol) (Ok fd) ∈ p_trace p.

(** [select] watches the three sockets and the clients, which are, with [extra] and the strays,
    the open descriptors. *)
Definition holds (listenfd fd4 fd6 : Z) (extra : gset Z) (s : icmpd) (p : proc) : Prop :=
  table {[listenfd; fd4; fd6]} (connfd <$> client s) (maxi s) (maxfd s) (allset s) ∧
  open_fds (p_trace p) = extra ∪ (allset s ∪ strays p) ∧ extra ## allset s ∪ strays p ∧ allset s ## strays p ∧
  opened fd4 AF_INET IPPROTO_ICMP p ∧ opened fd6 AF_INET6 IPPROTO_ICMPV6 p.
Definition icmpd_inv (listenfd fd4 fd6 : Z) : icmpd → proc → Prop := holds listenfd fd4 fd6 ∅.

(** The errors the daemon reports to its clients. *)
Definition v4_reported (type : Z) : bool :=
  (type =? ICMP_UNREACH) || (type =? ICMP_TIMXCEED) || (type =? ICMP_SOURCEQUENCH).
Definition v6_reported (type : Z) : bool :=
  (type =? ICMP6_DST_UNREACH) || (type =? ICMP6_PACKET_TOO_BIG) || (type =? ICMP6_TIME_EXCEEDED).

(** A datagram the daemon reads beyond its end: an empty one, or such an error about a UDP datagram whose
    IP header is so long that the ports are cut off; over IPv6, an error that quotes less than the
    IPv6 header and the ports. *)
Definition v4_cut (pkt : list Z) : Prop :=
  let n := Z.of_nat (List.length pkt) in
  let hlen1 := ip_hlen (pkt !!! 0%nat) in
  let hip := hlen1 + 8 in
  pkt = [] ∨
  (v4_reported (pkt !!! Z.to_nat hlen1) = true ∧ pkt !!! Z.to_nat (hip + 9) = IPPROTO_UDP ∧
   hlen1 + (8 + 20 + 8) ≤ n < hip + ip_hlen (pkt !!! Z.to_nat hip) + 4).
Definition v6_cut (pkt : list Z) : Prop :=
  v6_reported (pkt !!! 0%nat) = true ∧ 8 + 8 ≤ Z.of_nat (List.length pkt) < 8 + SIZEOF_IP6 + 4.
#[global] Instance v4_cut_dec pkt : Decision (v4_cut pkt).
Proof. unfold v4_cut. apply _. Defined.
#[global] Instance v6_cut_dec pkt : Decision (v6_cut pkt).
Proof. unfold v6_cut. apply _. Defined.

(** The datagram received last: descriptor and bytes. *)
Definition datagram1 (e : event) : option (Z * list Z) :=
  match e with
  | Event c a =>
      match c in sys A return A → option (Z * list Z) with
      | sys_recvfrom fd _ => λ r, match r with Ok (bs, _) => Some (fd, bs) | Err _ => None end
      | _ => λ _, None
      end a
  end.
Fixpoint last_datagram (t : trace) : option (Z * list Z) :=
  match t with
  | [] => None
  | e :: t' => match datagram1 e with Some d => Some d | None => last_datagram t' end
  end.
Definition cut_short (p : proc) : Prop :=
  ∃ fd pkt, last_datagram (p_trace p) = Some (fd, pkt) ∧
    (opened fd AF_INET IPPROTO_ICMP p ∧ v4_cut pkt ∨ opened fd AF_INET6 IPPROTO_ICMPV6 p ∧ v6_cut pkt).

(** The outcomes of the daemon. *)
Definition icmpd_post {A} (Q : A → proc → Prop) (fuel : nat) (p : proc) (o : outcome A) (p' : proc) : Prop :=
  later p p' ∧
  match o with
  | Ret a => Q a p'
  | Exit st => st = 1
  | UB => fd_too_big p' ∨ cut_short p'
  | NoFuel => (fuel ≤ interrupted (p_trace p') - interrupted (p_trace p))%nat
  | Abort => False
  end.

(** ** Lemmas *)

Section facts.
Context {K : Kernel} {KAcc : AcceptOk K} {KSel : SelectOk K} {KRecv : RecvfromOk K} {KOne : ReceiveOk K}.
Context (stack : list Z) (listenfd fd4 fd6 : Z).
Abbreviation good := (holds listenfd fd4 fd6).

Lemma icmpd_bind {A B} (m : M A) (k : A → M B) (Q1 : A → proc → Prop) (Q : B → proc → Prop) fuel p0 p :
  post m p (icmpd_post Q1 fuel p0) →
  (∀ a p', later p0 p' → Q1 a p' → post (k a) p' (icmpd_post Q fuel p0)) →
  post (m ≫= k) p (icmpd_post Q fuel p0).
Proof.
  intros Hm Hk. apply post_bind. eapply post_weaken; [exact Hm|].
  intros [a|st| | |] p' [Hl Ho]; cbn [through]; first [by apply Hk|by split].
Qed.
Lemma icmpd_exit {A B} (m : M A) (Q : B → proc → Prop) fuel p0 p (k : A → proc → Prop) :
  post m p (λ o p', o = Exit 1 ∧ reported p p') → later p0 p → post m p (through (icmpd_post Q fuel p0) k).
Proof.
  intros Hm Hl. eapply post_weaken; [exact Hm|]. intros o p' [-> Hr%reported_unmoved]. split; [|done].
  etransitivity; [exact Hl|apply Hr].
Qed.
(** What opens, closes and receives nothing. *)
Definition calm (e : event) : Prop :=
  match e with
  | Event c _ =>
      match c with
      | sys_socket _ _ _ | sys_accept _ | sys_close _ | sys_read _ _
      | sys_socketpair _ _ _ | sys_dup2 _ _ | sys_recvmsg_ctl _ _
      | sys_open _ _ _ | sys_pipe | sys_mkstemp _ | sys_recvfrom _ _ => False
      | _ => True
      end
  end.
Lemma calm_steady e : calm e → steady e.
Proof. destruct e as [A c a]. by destruct c. Qed.
Lemma calm_receives_none e : calm e → datagram1 e = None.
Proof. destruct e as [A c a]. by destruct c. Qed.
Lemma frame_calm p p' : frame calm p p' → frame steady p p'.
Proof.
  intros [(t & Ht & Hq) H]. split; [|exact H]. exists t. split; [exact Ht|]. eapply Forall_impl; [exact Hq|apply calm_steady].
Qed.
Definition still (p p' : proc) : Prop := unmoved p p' ∧ strays p' = strays p.
#[global] Instance still_preorder : PreOrder still.
Proof. split; [by intros p|]. intros p1 p2 p3 [? ?] [? ?]. split; [by etransitivity|congruence]. Qed.
Lemma stray_steady e : steady e → stray1 e = [].
Proof. destruct e as [A c a]. by destruct c. Qed.
Lemma frame_still p p' : frame steady p p' → still p p'.
Proof.
  intros H. split; [by apply frame_unmoved|]. unfold strays. f_equal. apply frame_seen.
  destruct H as [(t & Ht & Hq) H]. split; [|exact H]. exists t. split; [exact Ht|].
  eapply Forall_impl; [exact Hq|apply stray_steady].
Qed.
Lemma still_add_event {A} (c : sys A) a p : steady (Event c a) → still p (add_event c a p).
Proof. intros H. by apply frame_still, frame_event. Qed.
Lemma still_later p p' : still p p' → later p p'.
Proof. intros [(H & _) _]. exact H. Qed.
Lemma calm_bind {A B} (m : M A) (k : A → M B) (Q : B → proc → Prop) fuel p0 p :
  framed calm m → fine_run False m → later p0 p →
  (∀ a p', still p p' → later p0 p' → post (k a) p' (icmpd_post Q fuel p0)) →
  post (m ≫= k) p (icmpd_post Q fuel p0).
Proof.
  intros Hf Hm Hl Hk. apply post_bind. eapply post_weaken; [apply post_and; [apply Hm|by apply framed_post]|].
  intros o p' [Ho Hu%frame_calm%frame_still]. assert (Hl' : later p0 p') by (etransitivity; [exact Hl|by apply still_later]).
  destruct o; cbn [through]; try done. by apply Hk.
Qed.

Lemma opened_later fd fam protocol p p' : later p p' → opened fd fam protocol p → opened fd fam protocol p'.
Proof. intros (t & Ht) H. unfold opened. rewrite Ht. apply elem_of_app. by right. Qed.
Lemma good_still extra s p p' : still p p' → good extra s p → good extra s p'.
Proof.
  intros [(Hl & Ho & _) Hs] (Ht & Hop & Hd & Hd2 & H4 & H6). split; [done|]. rewrite Ho, Hs. do 3 (split; [done|]).
  split; by eapply opened_later.
Qed.
Lemma good_event {A} (c : sys A) a extra extra' s p :
  good extra s p → open_after (Event c a) (open_fds (p_trace p)) = extra' ∪ (allset s ∪ strays (add_event c a p)) →
  extra' ## allset s ∪ strays (add_event c a p) → allset s ## strays (add_event c a p) → good extra' s (add_event c a p).
Proof.
  intros (Ht & Hop & Hd & Hd2 & H4 & H6) Ho Hd' Hd2'. split; [done|]. split; [exact Ho|]. do 2 (split; [done|]).
  split; (eapply opened_later; [|done]); by exists [Event c a].
Qed.
Lemma strays_event {A} (c : sys A) a p : strays (add_event c a p) = strays p ∪ list_to_set (stray1 (Event c a)).
Proof. unfold strays. cbn [add_event p_trace seen]. by rewrite list_to_set_app_L. Qed.
Lemma strays_same {A} (c : sys A) a p : stray1 (Event c a) = [] → strays (add_event c a p) = strays p.
Proof. intros H. rewrite strays_event, H. set_solver. Qed.

(** Storing the family or the port of a client. *)
Lemma good_set_client f i extra s p : (∀ c, connfd (f c) = connfd c) → good extra s p → good extra (set_client f i s) p.
Proof.
  intros Hf (Ht & ?). split; [|done]. cbn [set_client client maxi maxfd allset].
  assert (E : connfd <$> alter f i (client s) = connfd <$> client s).
  { apply list_eq. intros j. rewrite !list_lookup_fmap. destruct (decide (i = j)) as [->|Hne].
    - rewrite list_lookup_alter_eq. destruct (client s !! j); [|done]. cbn. by rewrite Hf.
    - by rewrite list_lookup_alter_ne. }
  by rewrite E.
Qed.
Lemma fmap_alter fd (i : nat) (l : list cl) : connfd <$> alter (λ c, Cl fd (family c) (lport c)) i l = <[i := fd]> (connfd <$> l).
Proof.
  apply list_eq. intros j. rewrite list_lookup_fmap. destruct (decide (i = j)) as [->|Hne].
  - rewrite list_lookup_alter_eq. destruct (l !! j) as [c|] eqn:E.
    + rewrite list_lookup_insert_eq; [done|]. rewrite length_fmap. by eapply lookup_lt_Some.
    + symmetry. apply lookup_ge_None. rewrite length_insert, length_fmap. by apply lookup_ge_None.
  - by rewrite list_lookup_alter_ne, list_lookup_insert_ne, list_lookup_fmap by done.
Qed.

Lemma Close_exit fd p (Q : outcome unit → proc → Prop) :
  Q (Ret tt) (add_event (sys_close fd) (Ok tt) p) →
  (∀ p', later p p' → Q (Exit 1) p') → post (Close fd) p Q.
Proof.
  intros H1 H2. unfold Close, or_err_sys. apply post_bind, post_syscall; intros u _; cbn [through].
  - apply post_ret. by destruct u.
  - eapply exits_unmoved; [apply err_sys_exits|]. intros p' Hu. apply H2. etransitivity; [|apply Hu].
    by exists [Event (sys_close fd) (Err u)].
Qed.

(** Parts of the handlers that open and close nothing. *)
Lemma quiet_calm e : quiet e → calm e.
Proof. destruct e as [A c a]. by destruct c. Qed.
Lemma calm_err_msg msg : framed calm (err_msg msg).
Proof. unfold err_msg, err_ret, err_doit. framed_tac. Qed.
Lemma calm_err_ret msg : framed calm (err_ret msg).
Proof. unfold err_msg, err_ret, err_doit. framed_tac. Qed.
Lemma calm_err_sys {A} msg : framed calm (err_sys (A := A) msg).
Proof. apply framed_err_sys, quiet_calm. Qed.
Lemma calm_err_quit {A} msg : framed calm (err_quit (A := A) msg).
Proof. apply framed_err_quit, quiet_calm. Qed.
Lemma calm_printf s : framed calm (printf s).
Proof. unfold printf. framed_tac. Qed.
Hint Resolve calm_err_msg calm_err_ret calm_err_sys calm_err_quit calm_printf : framed.
Lemma calm_Write fd b : framed calm (Write fd b).
Proof. unfold Write. framed_tac. Qed.
Lemma calm_sock_ntop_host sa salen : framed calm (Sock_ntop_host sa salen).
Proof. unfold Sock_ntop_host, sock_ntop_host, ntop_unix, ntop. framed_tac. Qed.
Lemma calm_Inet_ntop fam a b len : framed calm (Inet_ntop fam a b len).
Proof. unfold Inet_ntop, ntop. framed_tac. Qed.
Hint Resolve calm_Write calm_sock_ntop_host calm_Inet_ntop : framed.
Lemma calm_notify fam sport err l : framed calm (notify fam sport err l).
Proof. induction l as [|c l IH]; cbn [notify]; framed_tac. Qed.
Lemma fine_notify ub fam sport err l : fine_run ub (notify fam sport err l).
Proof. induction l as [|c l IH]; cbn [notify]; fine_tac. Qed.
Hint Resolve calm_notify : framed.
Hint Resolve fine_notify : fine.
Lemma calm_report_v4 l buf from : framed calm (report_v4 stack l buf from).
Proof. unfold report_v4. cbn zeta. framed_tac. Qed.
Lemma calm_report_v6 l buf from : framed calm (report_v6 stack l buf from).
Proof. unfold report_v6. cbn zeta. framed_tac. Qed.
Lemma calm_sock_bind_wild fd fam : framed calm (sock_bind_wild fd fam).
Proof. unfold sock_bind_wild. framed_tac. Qed.
Lemma fine_sock_bind_wild ub fd fam : fine_run ub (sock_bind_wild fd fam).
Proof. unfold sock_bind_wild. fine_tac. Qed.
Hint Resolve calm_sock_bind_wild : framed.
Hint Resolve fine_sock_bind_wild : fine.

(** The reports are undefined only when the packet is cut. *)
Lemma fine_report_v4 l buf from : is_inet from →
  fine_run (v4_cut buf) (report_v4 stack l buf from).
Proof.
  intros Hfrom. destruct (decide (v4_cut buf)) as [Hcut|Hcut].
  { unfold report_v4. cbn zeta. fine_tac. }
  unfold v4_cut in Hcut. cbn zeta in Hcut.
  assert (0 < Z.of_nat (List.length buf)) by (destruct buf; [destruct Hcut; by left|cbn [List.length]; lia]).
  assert (Hle : v4_reported (buf !!! Z.to_nat (ip_hlen (buf !!! 0%nat))) = true →
    buf !!! Z.to_nat (ip_hlen (buf !!! 0%nat) + 8 + 9) = IPPROTO_UDP →
    ip_hlen (buf !!! 0%nat) + (8 + 20 + 8) ≤ Z.of_nat (List.length buf) →
    ip_hlen (buf !!! 0%nat) + 8 + ip_hlen (buf !!! Z.to_nat (ip_hlen (buf !!! 0%nat) + 8)) + 4 ≤ Z.of_nat (List.length buf)).
  { intros H1 H2 H3. destruct (Z_lt_le_dec (Z.of_nat (List.length buf))
      (ip_hlen (buf !!! 0%nat) + 8 + ip_hlen (buf !!! Z.to_nat (ip_hlen (buf !!! 0%nat) + 8)) + 4)); [|done].
    destruct Hcut. by right. }
  pose proof (ip_hlen_bound (buf !!! 0%nat)). pose proof (ip_hlen_bound (buf !!! Z.to_nat (ip_hlen (buf !!! 0%nat) + 8))).
  unfold report_v4. cbn zeta. apply fine_bind; [auto with fine|]. intros host. apply fine_bind; [auto with fine|]. intros _.
  rewrite (ld_bind _ _ _ (u8_at_total buf 0 ltac:(lia))). change (Z.to_nat 0) with 0%nat.
  set (hlen1 := ip_hlen (buf !!! 0%nat)) in *. case_match; zbool; [auto with fine|].
  rewrite (ld_bind _ _ _ (u8_at_total buf hlen1 ltac:(lia))), (ld_bind _ _ _ (u8_at_total buf (hlen1 + 1) ltac:(lia))).
  apply fine_bind; [auto with fine|]. intros _. fold (v4_reported (buf !!! Z.to_nat hlen1)).
  destruct (v4_reported _); [|auto with fine]. case_match; zbool; [auto with fine|].
  rewrite (ld_bind _ _ _ (u8_at_total buf (hlen1 + 8) ltac:(lia))). set (hlen2 := ip_hlen (buf !!! Z.to_nat (hlen1 + 8))) in *.
  rewrite (ld_bind _ _ _ (bytes_at_some buf (hlen1 + 8 + 12) 4 ltac:(lia) ltac:(lia))),
    (ld_bind _ _ _ (bytes_at_some buf (hlen1 + 8 + 16) 4 ltac:(lia) ltac:(lia))).
  apply fine_bind; [auto with fine|]. intros srcstr. apply fine_bind; [auto with fine|]. intros dststr.
  rewrite (ld_bind _ _ _ (u8_at_total buf (hlen1 + 8 + 9) ltac:(lia))).
  apply fine_bind; [auto with fine|]. intros _. case_match; zbool; [|auto with fine]. specialize (Hle eq_refl ltac:(done) ltac:(lia)).
  destruct (le_at_some buf 2 (hlen1 + 8 + hlen2)) as [sport Hs]; [lia..|]. rewrite (ld_bind _ _ _ Hs).
  case_match; [|auto with fine].
  destruct (le_at_some buf 2 (hlen1 + 8 + hlen2 + 2)) as [dport Hd]; [lia..|]. rewrite (ld_bind _ _ _ Hd).
  auto with fine.
Qed.
Lemma fine_report_v6 l buf from : is_inet from →
  fine_run (v6_cut buf) (report_v6 stack l buf from).
Proof.
  intros Hfrom. destruct (decide (v6_cut buf)) as [Hcut|Hcut].
  { unfold report_v6. cbn zeta. fine_tac. }
  unfold v6_cut, SIZEOF_IP6 in Hcut.
  unfold report_v6, SIZEOF_IP6. cbn zeta. apply fine_bind; [auto with fine|]. intros host. apply fine_bind; [auto with fine|]. intros _.
  case_match; zbool; [auto with fine|].
  rewrite (ld_bind _ _ _ (u8_at_total buf 0 ltac:(lia))), (ld_bind _ _ _ (u8_at_total buf 1 ltac:(lia))).
  change (Z.to_nat 0) with 0%nat. apply fine_bind; [auto with fine|]. intros _. fold (v6_reported (buf !!! 0%nat)).
  destruct (v6_reported _); [|auto with fine]. case_match; zbool; [auto with fine|].
  rewrite (ld_bind _ _ _ (bytes_at_some buf (8 + 8) 16 ltac:(lia) ltac:(lia))),
    (ld_bind _ _ _ (bytes_at_some buf (8 + 24) 16 ltac:(lia) ltac:(lia))).
  apply fine_bind; [auto with fine|]. intros srcstr. apply fine_bind; [auto with fine|]. intros dststr.
  rewrite (ld_bind _ _ _ (u8_at_total buf (8 + 6) ltac:(lia))).
  apply fine_bind; [auto with fine|]. intros _. case_match; [|auto with fine].
  destruct (le_at_some buf 2 (8 + 40)) as [sport Hs]; [lia..|]. rewrite (ld_bind _ _ _ Hs).
  case_match; [|auto with fine].
  destruct (le_at_some buf 2 (8 + 40 + 2)) as [dport Hd]; [lia..|]. rewrite (ld_bind _ _ _ Hd).
  auto with fine.
Qed.

(** ** The handlers *)

Lemma clientdone_post extra i unixfd recvfd s nready fuel p0 p :
  good extra s p → later p0 p → extra = (if 0 <=? recvfd then {[recvfd]} else ∅) →
  (connfd <$> client s) !! i = Some unixfd → 0 ≤ unixfd →
  post (clientdone i unixfd recvfd s nready) p (icmpd_post (λ '(s', _), good ∅ s') fuel p0).
Proof.
  intros (Ht & Hop & Hd & Hd2 & H4 & H6) Hl -> Hi Hpos. unfold clientdone.
  set (s' := Icmpd _ _ _ _).
  assert (Hin : unixfd ∈ allset s).
  { destruct Ht as (_ & Hall & _). apply Hall. right. split; [done|]. by eapply list_elem_of_lookup_2. }
  assert (Ht' : table {[listenfd; fd4; fd6]} (connfd <$> client s') (maxi s') (maxfd s') (allset s')).
  { unfold s'. cbn [client maxi maxfd allset]. rewrite fmap_alter. by apply table_remove. }
  assert (Hend : ∀ p', later p p' → open_fds (p_trace p') = (allset s ∖ {[unixfd]}) ∪ strays p → strays p' = strays p →
    icmpd_post (λ '(s', _), good ∅ s') fuel p0 (Ret (s', nready - 1)) p').
  { intros p' Hl' Ho Es. split; [by etransitivity|]. split; [done|]. rewrite Ho, Es.
    split; [cbn [s' allset]; set_solver|]. split; [set_solver|]. split; [cbn [s' allset]; set_solver|].
    split; by eapply opened_later. }
  apply post_bind, Close_exit; cbn [through].
  2: { intros p' Hl'. split; [by etransitivity|done]. }
  destruct (0 <=? recvfd).
  - apply post_bind, Close_exit; cbn [through].
    2: { intros p' Hl'. split; [etransitivity; [exact Hl|etransitivity; [|exact Hl']]|done]. by eexists [_]. }
    apply post_ret, Hend; [by eexists [_; _]| |by rewrite !strays_same]. cbn. rewrite Hop. set_solver.
  - apply post_ret, Hend; [by eexists [_]| |by rewrite strays_same]. cbn. rewrite Hop. set_solver.
Qed.

Lemma clienterr_post extra i unixfd recvfd s nready fuel p0 p :
  good extra s p → later p0 p → extra = (if 0 <=? recvfd then {[recvfd]} else ∅) →
  (connfd <$> client s) !! i = Some unixfd → 0 ≤ unixfd →
  post (clienterr i unixfd recvfd s nready) p (icmpd_post (λ '(s', _), good ∅ s') fuel p0).
Proof.
  intros Hg Hl He Hi Hpos. unfold clienterr. apply calm_bind; [auto with framed|apply fine_Write|done|].
  intros _ p' Hu Hl'. eapply clientdone_post; [by eapply good_still|done..].
Qed.

(** A descriptor received belongs to nobody yet. *)
Definition passed_one (s : icmpd) : Z * list Z * option Z → proc → Prop := λ '(n, _, recvfd) p,
  ∃ r, recvfd = Some r ∧ (n = 0 → r = -1) ∧ good (if 0 <=? r then {[r]} else ∅) s p.

Lemma read_fd_passes unixfd s fuel p0 p :
  good ∅ s p → later p0 p →
  post (read_fd unixfd 1 (Some (-1))) p (icmpd_post (λ a p', a.1.1 = -1 ∨ 0 ≤ a.1.1 ∧ passed_one s a p') fuel p0).
Proof.
  intros Hg Hl. unfold read_fd.
  apply post_bind, post_syscall; intros r Hr; cbn [through].
  2: { apply post_ret. split; [etransitivity; [exact Hl|by eexists [_]]|by left]. }
  destruct r as [buf ctl]. pose proof Hg as (_ & Hop & _ & Hd2 & _).
  assert (Hfresh : ∀ cm, ctl = Some cm → ∀ fd, fd ∈ cmsg_fds cm → 0 ≤ fd ∧ fd ∉ allset s ∪ strays p).
  { intros cm -> fd Hin. pose proof (receive_fresh _ _ _ _ _ Hr) as Hf. rewrite Forall_forall in Hf.
    destruct (Hf fd Hin) as [Hpos Hfd]. split; [done|]. rewrite Hop in Hfd. set_solver. }
  set (p1 := add_event _ _ p). assert (Hl1 : later p0 p1) by (etransitivity; [exact Hl|by eexists [_]]).
  assert (Hlost : ctl = None ∨ (∃ cm, ctl = Some cm ∧ ¬ (buf ≠ [] ∧ cmsg_len cm = CMSG_LEN_INT)) → good ∅ s p1).
  { intros [->|(cm & -> & Hcm)].
    - eapply good_event; [exact Hg|rewrite strays_same by done..]; [|set_solver|done]. cbn. rewrite Hop. set_solver.
    - specialize (Hfresh cm eq_refl).
      eapply good_event; [exact Hg|rewrite strays_event; cbn [stray1]; rewrite bool_decide_eq_false_2 by done..].
      + cbn. rewrite Hop. set_solver.
      + set_solver.
      + set_solver. }
  destruct (Z.leb_spec (Z.of_nat (List.length buf)) 0).
  { assert (buf = []) as -> by (destruct buf; [done|cbn [List.length] in *; lia]).
    apply post_ret. split; [done|]. right. split; [done|]. exists (-1). split; [done|]. split; [done|]. apply Hlost.
    destruct ctl as [cm|]; [|by left]. right. exists cm. split; [done|]. by intros [? _]. }
  destruct ctl as [cm|]; cycle 1.
  { apply post_ret. split; [done|]. right. split; [cbn; lia|]. exists (-1). auto. }
  destruct (Z.eqb_spec (cmsg_len cm) CMSG_LEN_INT) as [Hlen|Hlen]; cycle 1.
  { apply post_ret. split; [done|]. right. split; [cbn; lia|]. exists (-1). split; [done|]. split; [cbn; lia|]. apply Hlost.
    right. exists cm. split; [done|]. by intros [_ ?]. }
  assert (Hexit : ∀ msg (Q : Z * list Z * option Z → proc → Prop), post (err_quit msg) p1 (icmpd_post Q fuel p0)).
  { intros msg Q. eapply post_weaken; [apply err_quit_exits|]. intros o p' [-> Hu%reported_unmoved]. split; [|done].
    etransitivity; [exact Hl1|apply Hu]. }
  case_match eqn:E1; [apply Hexit|]. case_match eqn:E2; [apply Hexit|]. apply negb_false_iff in E1, E2.
  pose proof (one_fd _ _ _ _ _ Hr Hlen E1 E2) as Hone. destruct (Hfresh cm eq_refl (cmsg_fd cm)) as [Hpos Hnew].
  { rewrite Hone. by left. }
  apply post_ret. split; [done|]. right. split; [cbn; lia|]. exists (cmsg_fd cm). split; [done|]. split; [cbn; lia|].
  rewrite (proj2 (Z.leb_le _ _)) by done.
  assert (Hbuf : buf ≠ []) by (intros ->; cbn [List.length] in *; lia).
  assert (Es : strays p1 = strays p).
  { apply strays_same. cbn [stray1]. by rewrite bool_decide_eq_true_2. }
  eapply good_event; [exact Hg|fold p1; rewrite Es..].
  - cbn. rewrite Hop, Hone. set_solver.
  - set_solver.
  - done.
Qed.
Lemma Read_fd_passes unixfd s fuel p0 p :
  good ∅ s p → later p0 p → post (Read_fd unixfd 1 (Some (-1))) p (icmpd_post (passed_one s) fuel p0).
Proof.
  intros Hg Hl. unfold Read_fd. eapply icmpd_bind; [by apply read_fd_passes|].
  intros [[n buf] rf] p' Hl' Ho. destruct (Z.ltb_spec n 0).
  - eapply post_weaken; [apply err_sys_exits|]. intros o p2 [-> Hu%reported_unmoved]. split; [|done].
    etransitivity; [exact Hl'|apply Hu].
  - apply post_ret. split; [done|]. cbn [fst] in Ho. destruct Ho as [Hn|[_ Ho]]; [lia|exact Ho].
Qed.

Lemma readable_conn_post i unixfd s nready fuel p0 p :
  good ∅ s p → later p0 p → (connfd <$> client s) !! i = Some unixfd → 0 ≤ unixfd →
  post (readable_conn i s nready) p (icmpd_post (λ '(s', _), good ∅ s') fuel p0).
Proof.
  intros Hg Hl Hi Hpos. unfold readable_conn.
  assert (connfd (client s !!! i) = unixfd) as ->.
  { rewrite list_lookup_fmap in Hi. apply fmap_Some in Hi as (c & Hc & ->). by rewrite (list_lookup_total_correct _ _ _ Hc). }
  eapply icmpd_bind; [by apply Read_fd_passes|]. intros [[n buf] rf] p1 Hl1 (r & -> & Hr & Hg1).
  change (default (-1) (Some r)) with r.
  destruct (Z.eqb_spec n 0).
  { apply calm_bind; [auto with framed|apply fine_report|done|]. intros _ p2 Hu Hl2.
    eapply clientdone_post; [by eapply good_still|done..]. }
  destruct (Z.ltb_spec r 0).
  { apply calm_bind; [auto with framed|apply fine_report|done|]. intros _ p2 Hu Hl2.
    eapply clienterr_post; [by eapply good_still|done..]. }
  apply calm_bind; [unfold syscall; framed_tac|auto with fine|done|]. intros [ss|] p2 Hu2 Hl2.
  2: { apply calm_bind; [auto with framed|apply fine_report|done|]. intros _ p3 Hu Hl3.
       eapply clienterr_post; [eapply good_still; [|exact Hg1]; by etransitivity|done..]. }
  cbn zeta. set (s2 := set_client _ i s).
  assert (Hg2 : good {[r]} s2 p2).
  { apply good_set_client; [done|]. rewrite (proj2 (Z.leb_le _ _)) in Hg1 by done. by eapply good_still. }
  assert (Hreg : ∀ s' p', good {[r]} s' p' → later p0 p' →
    post (Write unixfd [49] ;; Close r ;; mret (s', nready - 1)) p' (icmpd_post (λ '(s', _), good ∅ s') fuel p0)).
  { intros s' p' Hg' Hl'. apply calm_bind; [auto with framed|auto with fine|done|]. intros _ p3 Hu3 Hl3.
    apply (good_still _ _ _ _ Hu3) in Hg'. apply post_bind, Close_exit; cbn [through].
    - apply post_ret. split; [etransitivity; [exact Hl3|by eexists [_]]|]. pose proof Hg' as (_ & Hop & Hd & Hd2 & _).
      eapply (good_event _ _ _ ∅); [exact Hg'|rewrite strays_same by done..]; [|set_solver|done]. cbn. rewrite Hop. set_solver.
    - intros p4 Hl4. split; [by etransitivity|done]. }
  destruct (sock_get_port ss =? 0); [|by apply Hreg].
  apply calm_bind; [auto with framed|auto with fine|done|]. intros port p3 Hu3 Hl3.
  set (s3 := set_client _ i s2). assert (Hg3 : good {[r]} s3 p3) by (apply good_set_client; [done|by eapply good_still]).
  assert (Hi3 : (connfd <$> client s3) !! i = Some unixfd).
  { unfold s3, s2. cbn [set_client client]. rewrite list_lookup_fmap, !list_lookup_alter_eq.
    rewrite list_lookup_fmap in Hi. apply fmap_Some in Hi as (c & -> & ->). done. }
  destruct (port <=? 0); [|by apply Hreg].
  apply calm_bind; [auto with framed|apply fine_report|done|]. intros _ p4 Hu4 Hl4.
  eapply clienterr_post; [by eapply good_still|done|by rewrite (proj2 (Z.leb_le _ _))|done|done].
Qed.

Lemma readable_listen_post s nready fuel p0 p :
  good ∅ s p → later p0 p →
  post (readable_listen listenfd fuel s nready) p (icmpd_post (λ '(s', _), good ∅ s') fuel p0).
Proof.
  intros Hg Hl. unfold readable_listen. apply post_bind. eapply post_weaken.
  { apply post_and; [|apply (framed_post (λ _, True)), framed_Accept; done].
    apply (Accept_run still listenfd fuel p); [|reflexivity|lia|done]. intros e q _. split; [apply unmoved_abort|].
    exact (strays_same (sys_accept listenfd) (Err e) q eq_refl). }
  intros o p1 [[Hi1 Ho] Hl1%frame_later]. assert (Hl01 : later p0 p1) by by etransitivity.
  destruct o as [[fd sa]|st| | |]; cbn [through]; try done.
  2: { by destruct Ho as [-> _]. }
  2: { split; [done|]. apply later_counts in Hl. lia. }
  destruct Ho as (p2 & Hu & Hans & ->). apply (good_still _ _ _ _ Hu) in Hg. set (p1 := add_event _ _ p2) in *.
  destruct (accept_fresh _ _ _ _ Hans) as [Hpos Hfresh].
  assert (Hg1 : good {[fd]} s p1).
  { pose proof Hg as (_ & Hop & _ & Hd2 & _). rewrite Hop in Hfresh.
    eapply good_event; [exact Hg|rewrite strays_same by done..]; [|set_solver|done]. cbn. rewrite Hop. set_solver. }
  destruct Hg1 as (Ht & Hop & Hd & Hd2 & H4 & H6).
  destruct (table_not_full _ _ _ _ _ Ht ltac:(set_solver)) as [i Hi]. rewrite Hi. cbn zeta.
  apply calm_bind; [auto with framed|auto with fine|done|]. intros _ p3 [(Hl3 & Ho3 & _) Es3] Hl03.
  unfold fd_set_add. destruct (Z.leb_spec FD_SETSIZE fd).
  { apply post_bind, post_stop. split; [done|]. left. exists fd. split; [rewrite Ho3, Hop; set_solver|done]. }
  apply post_bind, post_ret. cbn [through]. apply post_ret. split; [done|].
  apply first_free_spec in Hi as (c & Hi & Hc & _). split.
  { cbn [client maxi maxfd allset]. rewrite fmap_alter. eapply table_add; [done..|lia|set_solver]. }
  rewrite Ho3, Hop, Es3. cbn [allset]. split; [set_solver|]. split; [set_solver|]. split; [set_solver|].
  split; [eapply opened_later; [|exact H4]; done|eapply opened_later; [|exact H6]; done].
Qed.

(** A packet is received and reported. *)
Lemma last_calm t t' : Forall (λ e, datagram1 e = None) t → last_datagram (t ++ t') = last_datagram t'.
Proof. induction 1 as [|e t He _ IH]; [done|]. cbn [app last_datagram]. by rewrite He. Qed.
Lemma report_post fd fam protocol (cut : list Z → Prop) (report : list Z → sockaddr → M unit) s nready fuel p0 p :
  (∀ p' pkt, opened fd fam protocol p' → cut pkt → last_datagram (p_trace p') = Some (fd, pkt) → cut_short p') →
  opened fd fam protocol p → (∀ buf from, framed calm (report buf from)) →
  (∀ buf from, is_inet from → fine_run (cut buf) (report buf from)) →
  good ∅ s p → later p0 p →
  post ('(buf, from) ← Recvfrom fd MAXLINE; report buf from ;; mret (s, nready - 1)) p
    (icmpd_post (λ '(s', _), good ∅ s') fuel p0).
Proof.
  intros Hcut Hop Hs Hf Hg Hl. unfold Recvfrom, or_err_sys. apply post_bind, post_bind, post_syscall; intros r Hr; cbn [through].
  2: { eapply post_weaken; [apply err_sys_exits|]. intros o p1 [-> Hu%reported_unmoved]. split; [|done].
       etransitivity; [exact Hl|]. etransitivity; [|apply Hu]. by eexists [_]. }
  destruct r as [buf from]. destruct (recvfrom_inet _ _ _ _ _ Hr) as [Hinet _]. apply post_ret. cbn [through].
  set (p1 := add_event _ _ p). assert (Hl1 : later p p1) by by eexists [_].
  apply (good_still _ _ _ p1) in Hg; [|by apply still_add_event].
  apply post_bind. eapply post_weaken; [apply post_and; [by apply Hf|by apply framed_post]|].
  intros o p2 [Ho ((t & Ht & Hq) & Hn)].
  assert (Hu : still p1 p2).
  { apply frame_still, frame_calm. split; [|exact Hn]. by exists t. }
  assert (Hl2 : later p1 p2) by (by apply still_later). assert (Hl02 : later p0 p2) by (etransitivity; [exact Hl|by etransitivity]).
  destruct o as [[]|st| | |]; cbn [through]; try done.
  - apply post_ret. split; [done|]. by eapply good_still.
  - split; [done|]. right. apply (Hcut p2 buf); [eapply opened_later; [|exact Hop]; by etransitivity|done|].
    rewrite Ht, last_calm; [done|]. eapply Forall_impl; [exact Hq|apply calm_receives_none].
Qed.
Lemma readable_v4_post s nready fuel p0 p :
  good ∅ s p → later p0 p →
  post (readable_v4 stack fd4 s nready) p (icmpd_post (λ '(s', _), good ∅ s') fuel p0).
Proof.
  intros Hg. apply (report_post fd4 AF_INET IPPROTO_ICMP v4_cut); [|apply Hg| | |done].
  - intros p' pkt H1 H2 H3. exists fd4, pkt. auto.
  - intros. apply calm_report_v4.
  - intros. by apply fine_report_v4.
Qed.
Lemma readable_v6_post s nready fuel p0 p :
  good ∅ s p → later p0 p →
  post (readable_v6 stack fd6 s nready) p (icmpd_post (λ '(s', _), good ∅ s') fuel p0).
Proof.
  intros Hg. apply (report_post fd6 AF_INET6 IPPROTO_ICMPV6 v6_cut); [|apply Hg| | |done].
  - intros p' pkt H1 H2 H3. exists fd6, pkt. auto.
  - intros. apply calm_report_v6.
  - intros. by apply fine_report_v6.
Qed.

(** ** The loop *)

Lemma when_ready_post fd rset readable s nready rest fuel p0 p :
  good ∅ s p → later p0 p →
  post (readable s nready) p (icmpd_post (λ '(s', _), good ∅ s') fuel p0) →
  (∀ s' n p', later p0 p' → good ∅ s' p' → post (rest s' n) p' (icmpd_post (good ∅) fuel p0)) →
  post (when_ready fd rset readable s nready rest) p (icmpd_post (good ∅) fuel p0).
Proof.
  intros Hg Hl Hr Hk. unfold when_ready. case_bool_decide; [|by apply Hk].
  eapply icmpd_bind; [exact Hr|]. intros [s' n] p' Hl' Hg'. case_match; [by apply post_ret|by apply Hk].
Qed.
Lemma conn_scan_post rset fuel p0 : ∀ todo i nready s p,
  good ∅ s p → later p0 p → Z.of_nat (i + todo) ≤ FD_SETSIZE →
  post (conn_scan todo i rset nready s) p (icmpd_post (good ∅) fuel p0).
Proof.
  induction todo as [|todo IH]; intros i nready s p Hg Hl Hb; cbn [conn_scan]; [by apply post_ret|].
  destruct (Z.ltb_spec (connfd (client s !!! i)) 0); [apply IH; [done..|lia]|].
  case_bool_decide; [|apply IH; [done..|lia]].
  destruct (lookup_lt_is_Some_2 (client s) i) as [c Hc].
  { destruct Hg as ((Hlen & _) & _). rewrite length_fmap in Hlen. lia. }
  rewrite (list_lookup_total_correct _ _ _ Hc) in *. eapply icmpd_bind.
  { eapply readable_conn_post; [done..| |exact H]. by rewrite list_lookup_fmap, Hc. }
  intros [s' n] p' Hl' Hg'. case_match; [by apply post_ret|]. apply IH; [done..|lia].
Qed.
Lemma icmpd_step_post s fuel p0 p :
  good ∅ s p → later p0 p → post (icmpd_step stack listenfd fd4 fd6 fuel s) p (icmpd_post (good ∅) fuel p0).
Proof.
  intros Hg Hl. unfold icmpd_step. apply calm_bind; [|apply fine_or_err_sys|done|].
  { unfold Select, or_err_sys. framed_tac. }
  intros [rset w] p1 Hu1 Hl1. apply (good_still _ _ _ _ Hu1) in Hg.
  apply when_ready_post; [done..|by apply readable_listen_post|]. intros s2 n2 p2 Hl2 Hg2.
  apply when_ready_post; [done..|by apply readable_v4_post|]. intros s3 n3 p3 Hl3 Hg3.
  apply when_ready_post; [done..|by apply readable_v6_post|]. intros s4 n4 p4 Hl4 Hg4.
  apply conn_scan_post; [done..|]. destruct Hg4 as ((_ & _ & _ & _ & _ & Hm & _) & _). lia.
Qed.
Lemma icmpd_loop_post fuel p0 : ∀ turns s p,
  good ∅ s p → later p0 p → post (icmpd_loop stack listenfd fd4 fd6 turns fuel s) p (icmpd_post (good ∅) fuel p0).
Proof.
  induction turns as [|turns IH]; intros s p Hg Hl; cbn [icmpd_loop]; [by apply post_ret|].
  eapply icmpd_bind; [by apply icmpd_step_post|]. intros s' p' Hl' Hg'. by apply IH.
Qed.
End facts.

(** ** The start *)

Section start.
Context {K : Kernel} {KSock : SocketOk K} {B : Type} (Q : B → proc → Prop) (fuel : nat).

Lemma Socket_step fam ty protocol (k : Z → M B) p0 p : later p0 p →
  (∀ fd p', later p0 p' → p' = add_event (sys_socket fam ty protocol) (Ok fd) p → 0 ≤ fd → fd ∉ open_fds (p_trace p) →
     post (k fd) p' (icmpd_post Q fuel p0)) →
  post (Socket fam ty protocol ≫= k) p (icmpd_post Q fuel p0).
Proof.
  intros Hl Hk. unfold Socket, or_err_sys. apply post_bind, post_bind, post_syscall; intros r Hr; cbn [through].
  - destruct (socket_fresh _ _ _ _ _ Hr). apply post_ret. cbn [through]. apply Hk; try done.
    etransitivity; [exact Hl|by eexists [_]].
  - apply icmpd_exit; [apply err_sys_exits|]. etransitivity; [exact Hl|by eexists [_]].
Qed.
Lemma fd_set_step fd set (k : gset Z → M B) p0 p : later p0 p → fd ∈ open_fds (p_trace p) →
  (fd < FD_SETSIZE → post (k ({[fd]} ∪ set)) p (icmpd_post Q fuel p0)) →
  post (fd_set_add fd set ≫= k) p (icmpd_post Q fuel p0).
Proof.
  intros Hl Hfd Hk. unfold fd_set_add. destruct (Z.leb_spec FD_SETSIZE fd).
  - apply post_bind, post_stop. split; [done|]. left. by exists fd.
  - by apply post_bind, post_ret, Hk.
Qed.
End start.

(** ** What the clients are told *)

(** The writes attempted: descriptor and bytes. *)
Definition attempted1 (e : event) : list (Z * list Z) :=
  match e with
  | Event c _ => match c with sys_write fd buf => [(fd, buf)] | _ => [] end
  end.
#[global] Instance attempted_quiet : QuietUnseen attempted1.
Proof. split. intros [A c a]. by destruct c. Qed.

(** One record for every connected client with that family and port. *)
Definition records (fam sport : Z) (err : list Z) (l : list cl) : list (Z * list Z) :=
  (λ c, (connfd c, err)) <$> filter (λ c, 0 ≤ connfd c ∧ family c = fam ∧ lport c = sport) l.

Lemma interested_spec fam sport c :
  interested fam sport c = true ↔ 0 ≤ connfd c ∧ family c = fam ∧ lport c = sport.
Proof. unfold interested. rewrite !andb_true_iff, Z.leb_le, !Z.eqb_eq. tauto. Qed.
Lemma records_cons fam sport err c l :
  records fam sport err (c :: l) = (if interested fam sport c then [(connfd c, err)] else []) ++ records fam sport err l.
Proof.
  unfold records. destruct (interested fam sport c) eqn:E.
  - rewrite filter_cons_True; [done|by apply interested_spec].
  - rewrite filter_cons_False; [done|]. rewrite <- interested_spec. congruence.
Qed.
Lemma records_none fam sport err l : existsb (interested fam sport) l = false → records fam sport err l = [].
Proof.
  induction l as [|c l IH]; [done|]. cbn [existsb]. intros [Hc Hl]%orb_false_iff. rewrite records_cons, Hc. by apply IH.
Qed.

(** The entries beyond [maxi] are free: the whole array may be searched. *)
Lemma records_take base maxi maxfd allset fam sport err l : table base (connfd <$> l) maxi maxfd allset →
  records fam sport err (take (Z.to_nat (maxi + 1)) l) = records fam sport err l.
Proof.
  intros (_ & _ & _ & _ & Hb & _). unfold records. f_equal.
  rewrite <- (take_drop (Z.to_nat (maxi + 1)) l) at 2. rewrite filter_app.
  assert (E : filter (λ c, 0 ≤ connfd c ∧ family c = fam ∧ lport c = sport) (drop (Z.to_nat (maxi + 1)) l) = []).
  { destruct (filter _ _) as [|c l'] eqn:El; [done|]. exfalso.
    assert (Hin : c ∈ c :: l') by by left. rewrite <- El in Hin.
    apply list_elem_of_filter in Hin as [Hc (i & Hi)%list_elem_of_lookup]. rewrite lookup_drop in Hi.
    destruct Hc as [Hc _].
    specialize (Hb (Z.to_nat (maxi + 1) + i)%nat (connfd c)). rewrite list_lookup_fmap, Hi in Hb. specialize (Hb eq_refl Hc). lia. }
  by rewrite E, app_nil_r.
Qed.

Section reports.
Context {K : Kernel} (stack : list Z).
Abbreviation tells want := (follows attempted1 False want).

Lemma Write_tells fd buf p : post (Write fd buf) p (tells [(fd, buf)] (λ _, True) p).
Proof.
  unfold Write. change [(fd, buf)] with ([(fd, buf)] ++ @nil (Z * list Z)).
  apply (follows_bind attempted1 False _ _ _ _ (λ _, True)).
  - apply post_syscall; intros a _; exists [(fd, buf)]; done.
  - intros [n|] p' _; [case_match; [by apply follows_ret|]|]; apply (follows_err_sys _ _).
Qed.
Lemma notify_tells fam sport err l p : post (notify fam sport err l) p (tells (records fam sport err l) (λ _, True) p).
Proof.
  revert p. induction l as [|c l IH]; intros p; cbn [notify]; [by apply follows_ret|].
  rewrite records_cons. eapply follows_bind; [|intros _ p' _; apply IH].
  destruct (interested fam sport c); [apply Write_tells|by apply follows_ret].
Qed.
Lemma fine_tells {A} (m : M A) p : framed (unseen attempted1) m → fine_run False m → post m p (tells [] (λ _, True) p).
Proof. intros Hf Hm. eapply follows_frame; [done|apply Hm|]. by intros []. Qed.

Lemma framed_texts fam a b len : framed (unseen attempted1) (Inet_ntop fam a b len).
Proof. unfold Inet_ntop, ntop. framed_tac; apply framed_call; intros; reflexivity. Qed.
Lemma framed_host sa salen : framed (unseen attempted1) (Sock_ntop_host sa salen).
Proof. unfold Sock_ntop_host, sock_ntop_host, ntop_unix, ntop. framed_tac; apply framed_call; intros; reflexivity. Qed.
Lemma framed_printf s : framed (unseen attempted1) (printf s).
Proof. unfold printf. framed_tac. apply framed_call. by intros. Qed.
Lemma quits_tells {A} msg w (R : A → Prop) p : post (err_quit msg) p (tells w R p).
Proof.
  eapply post_weaken; [apply post_and; [apply err_quit_exits|apply (framed_post (unseen attempted1)), framed_err_quit, (quiet_unseen _)]|].
  intros o p' [[-> _] Hs%frame_seen]. exists []. rewrite app_nil_r. split; [done|]. split; [apply prefix_nil|done].
Qed.

(** A part that only computes a text. *)
Lemma text_bind {A B} (m : M A) (k : A → M B) w (R : B → Prop) p :
  framed (unseen attempted1) m → fine_run False m → (∀ a p', post (k a) p' (tells w R p')) →
  post (m ≫= k) p (tells w R p).
Proof. intros Hf Hm Hk. eapply follows_bind0; [by apply fine_tells|]. intros a p' _. apply Hk. Qed.
End reports.

(** A packet is received: nothing is written yet. *)
Lemma received_tells {K : Kernel} fd buf from (report : list Z → sockaddr → M unit) {B} (r : B) w p :
  answer (p_trace p) (sys_recvfrom fd MAXLINE) = Ok (buf, from) →
  (∀ p1, post (report buf from) p1 (follows attempted1 False w (λ _, True) p1)) →
  post ('(buf, from) ← Recvfrom fd MAXLINE; report buf from ;; mret r) p (follows attempted1 False w (λ a, a = r) p).
Proof.
  intros Hans Hrep. eapply (follows_bind0 _ _ _ _ _ (λ a, a = (buf, from))).
  - unfold Recvfrom, or_err_sys. apply post_bind, post_syscall; intros a Ha; rewrite Hans in Ha; simplify_eq.
    cbn [through]. apply post_ret. exists []. split; [done|]. split; [done|]. done.
  - intros ? p1 ->. rewrite <- (app_nil_r w). eapply follows_bind; [apply Hrep|]. intros _ p2 _. by apply follows_ret.
Qed.

(** What the daemon writes about an ICMP error that quotes a datagram from port
    [src] to port [dst] of the address in the header [inner]. *)
Definition v4_record (type code dst : Z) (inner : list Z) (stack : list Z) : list Z :=
  icmpd_err type code SIZEOF_SOCKADDR_IN (sockaddr_in_bytes (htons dst) (take 4 (drop 16 inner))) (errno_v4 type code) stack.
Definition v6_record (type code dst : Z) (inner : list Z) (stack : list Z) : list Z :=
  icmpd_err type code SIZEOF_SOCKADDR_IN6 (sockaddr_in6_bytes (htons dst) (take 16 (drop 24 inner))) (errno_v6 type code) stack.
Section errors.
Context {K : Kernel} (stack : list Z).
Context (type code : Z) (unused inner : list Z) (src dst : Z) (data : list Z) (l : list cl) (from : sockaddr).
Context (Hunused : List.length unused = 6%nat) (Hsrc : 0 ≤ src < 2 ^ 16) (Hdst : 0 ≤ dst < 2 ^ 16) (Hfrom : is_inet from).
Abbreviation error := (icmp_error type code unused inner src dst data).
Abbreviation tells want := (follows attempted1 False want).

(** Loads of the error that follows the bytes [outer]. *)
Lemma error_u8 outer i : 0 ≤ i → u8_at (outer ++ error) (Z.of_nat (List.length outer) + i) = u8_at error i.
Proof. intros Hi. rewrite u8_at_app_r by lia. f_equal. lia. Qed.
Lemma error_bytes outer i n : 0 ≤ i → 0 ≤ n → i + n ≤ Z.of_nat (List.length inner) →
  bytes_at (outer ++ error) (Z.of_nat (List.length outer) + 8 + i) n = Some (take (Z.to_nat n) (drop (Z.to_nat i) inner)).
Proof.
  intros Hi Hn Hlen. rewrite bytes_at_app_r by lia. unfold icmp_error.
  rewrite bytes_at_app_r by (cbn [List.length]; lia). rewrite bytes_at_app_r by (cbn [List.length]; lia).
  rewrite bytes_at_app_l by (cbn [List.length]; lia). cbn [List.length].
  replace (_ - _ - _ - _) with i by lia. by apply bytes_at_some.
Qed.
Lemma error_inner_u8 outer i : 0 ≤ i < Z.of_nat (List.length inner) →
  u8_at (outer ++ error) (Z.of_nat (List.length outer) + 8 + i) = Some (inner !!! Z.to_nat i).
Proof. intros Hi. rewrite <- Z.add_assoc, error_u8, error_inner by lia. by apply u8_at_total. Qed.

Lemma report_v4_tells outer p : ip_header outer → ip_header inner →
  post (report_v4 stack l (outer ++ error) from) p
    (tells (if v4_reported type && (inner !!! 9%nat =? IPPROTO_UDP)
            then records AF_INET (htons src) (v4_record type code dst inner stack) l else []) (λ _, True) p).
Proof.
  intros [Ho1 Ho2] [Hi1 Hi2]. unfold SIZEOF_IP in *.
  unfold report_v4. cbn zeta. apply text_bind; [apply framed_host|auto with fine|]. intros host p1.
  apply text_bind; [apply framed_printf|auto with fine|]. intros _ p2.
  assert (E0 : u8_at (outer ++ error) 0 = Some (outer !!! 0%nat)).
  { rewrite u8_at_app_l by lia. by apply (u8_at_total outer 0); lia. }
  assert (Etype : u8_at (outer ++ error) (Z.of_nat (List.length outer)) = Some type).
  { rewrite <- (Z.add_0_r (Z.of_nat _)), error_u8 by lia. done. }
  assert (Ecode : u8_at (outer ++ error) (Z.of_nat (List.length outer) + 1) = Some code) by (by rewrite error_u8 by lia).
  assert (Ehip : u8_at (outer ++ error) (Z.of_nat (List.length outer) + 8) = Some (inner !!! 0%nat)).
  { rewrite <- (Z.add_0_r (_ + 8)), error_inner_u8 by lia. done. }
  rewrite (ld_bind _ _ _ E0), <- Ho2, length_app, Nat2Z.inj_add, length_icmp_error by done.
  rewrite (proj2 (Z.ltb_ge _ 8)) by lia. rewrite (ld_bind _ _ _ Etype), (ld_bind _ _ _ Ecode).
  apply text_bind; [apply framed_printf|auto with fine|]. intros _ p3.
  fold (v4_reported type). destruct (v4_reported type); cbn [andb]; [|by apply follows_ret].
  case_match; [by apply quits_tells|].
  rewrite (ld_bind _ _ _ Ehip), <- Hi2, (ld_bind _ _ _ (error_bytes outer 12 4 ltac:(lia) ltac:(lia) ltac:(lia))),
    (ld_bind _ _ _ (error_bytes outer 16 4 ltac:(lia) ltac:(lia) ltac:(lia))).
  apply text_bind; [apply framed_texts|auto with fine|]. intros srcstr p4.
  apply text_bind; [apply framed_texts|auto with fine|]. intros dststr p5.
  rewrite (ld_bind _ _ _ (error_inner_u8 outer 9 ltac:(lia))). change (Z.to_nat 9) with 9%nat.
  apply text_bind; [apply framed_printf|auto with fine|]. intros _ p6.
  destruct (inner !!! 9%nat =? IPPROTO_UDP); [|by apply follows_ret].
  rewrite (ld_bind _ (htons src)) by (by apply error_src).
  destruct (existsb _ l) eqn:El; [|rewrite records_none by done; by apply follows_ret].
  rewrite (ld_bind _ (htons dst)) by (by apply error_dst). apply notify_tells.
Qed.

Lemma report_v6_tells p : Z.of_nat (List.length inner) = SIZEOF_IP6 →
  post (report_v6 stack l error from) p
    (tells (if v6_reported type && (inner !!! 6%nat =? IPPROTO_UDP)
            then records AF_INET6 (htons src) (v6_record type code dst inner stack) l else []) (λ _, True) p).
Proof.
  intros Hi. unfold SIZEOF_IP6 in Hi.
  unfold report_v6, SIZEOF_IP6. cbn zeta. apply text_bind; [apply framed_host|auto with fine|]. intros host p1.
  apply text_bind; [apply framed_printf|auto with fine|]. intros _ p2.
  rewrite length_icmp_error, Hi by done. rewrite (proj2 (Z.ltb_ge _ 8)) by lia.
  rewrite (ld_bind (u8_at error 0) type), (ld_bind (u8_at error 1) code) by done.
  apply text_bind; [apply framed_printf|auto with fine|]. intros _ p3.
  fold (v6_reported type). destruct (v6_reported type); cbn [andb]; [|by apply follows_ret].
  rewrite (proj2 (Z.ltb_ge _ (8 + 8))) by lia.
  rewrite (ld_bind _ _ _ (error_bytes [] 8 16 ltac:(lia) ltac:(lia) ltac:(lia))),
    (ld_bind _ _ _ (error_bytes [] 24 16 ltac:(lia) ltac:(lia) ltac:(lia))).
  apply text_bind; [apply framed_texts|auto with fine|]. intros srcstr p4.
  apply text_bind; [apply framed_texts|auto with fine|]. intros dststr p5.
  rewrite (ld_bind _ _ _ (error_inner_u8 [] 6 ltac:(lia))). change (Z.to_nat 6) with 6%nat.
  apply text_bind; [apply framed_printf|auto with fine|]. intros _ p6.
  destruct (inner !!! 6%nat =? IPPROTO_UDP); [|by apply follows_ret].
  pose proof (error_src type code unused inner src dst data Hunused Hsrc []) as Es.
  pose proof (error_dst type code unused inner src dst data Hunused Hdst []) as Ed.
  rewrite Hi in Es, Ed. rewrite (ld_bind _ _ _ Es).
  destruct (existsb _ l) eqn:El; [|rewrite records_none by done; by apply follows_ret].
  rewrite (ld_bind _ _ _ Ed). apply notify_tells.
Qed.
End errors.

(** ** What a client reads in the record *)

(** The message of the client for an error about a datagram sent to [dest]. *)
Definition icmp_message {K : Kernel} (dest : sockaddr) (len errno type code : Z) : M unit :=
  str ← Sock_ntop dest len;
  msg ← call (sys_strerror errno);
  printf ("ICMP error: dest = " +:+ str +:+ ", " +:+ msg +:+ ", type = " +:+ fmt_d (i8 type) +:+
          ", code = " +:+ fmt_d (i8 code) +:+ nl).

Section record.
Context (type code len errno : Z) (dest stack : list Z).
Context (Hstack : List.length stack = SIZEOF_ICMPD_ERR) (Hdest : (List.length dest ≤ 128)%nat).
Context (Hlen : 0 ≤ len < 2 ^ 32) (Herrno : 0 ≤ errno < 2 ^ 31).
Abbreviation e := (icmpd_err type code len dest errno stack).

(** The fields do not overlap, whatever was on the stack. *)
Lemma record_fields :
  u32_at e 0 = Some errno ∧ u8_at e 4 = Some type ∧ u8_at e 5 = Some code ∧ u32_at e 8 = Some len ∧
  (∀ j size, 0 ≤ j → j + Z.of_nat size ≤ Z.of_nat (List.length dest) → le_at e (16 + j) size = le_at dest j size) ∧
  (∀ j n, 0 ≤ j → 0 ≤ n → j + n ≤ Z.of_nat (List.length dest) → bytes_at e (16 + j) n = bytes_at dest j n) ∧
  List.length e = SIZEOF_ICMPD_ERR.
Proof.
  unfold icmpd_err, SIZEOF_ICMPD_ERR in *. set (e1 := put stack 4 [type]). set (e2 := put e1 5 [code]).
  set (e3 := put e2 8 (le_bytes 4 len)). set (e4 := put e3 16 dest).
  assert (L1 : List.length e1 = 144%nat) by (unfold e1; rewrite length_put; cbn; lia).
  assert (L2 : List.length e2 = 144%nat) by (unfold e2; rewrite length_put; cbn; lia).
  assert (L3 : List.length e3 = 144%nat) by (unfold e3; rewrite length_put; rewrite ?length_le_bytes; lia).
  assert (L4 : List.length e4 = 144%nat) by (unfold e4; rewrite length_put; lia).
  assert (Hput : ∀ size j, 4 ≤ j → le_at (put e4 0 (le_bytes 4 errno)) j size = le_at e4 j size).
  { intros size j Hj. apply le_at_put; rewrite length_le_bytes; [lia|right; lia]. }
  assert (Hu8 : ∀ j v b, le_at b j 1 = Some v → u8_at b j = Some v).
  { intros j v b. cbn [le_at]. destruct (u8_at b j); [|done]. intros [= <-]. f_equal. lia. }
  split_and!.
  - unfold u32_at. rewrite (proj1 (le_at_put e4 0 (le_bytes 4 errno) 4 ltac:(rewrite length_le_bytes; lia) 0)) by (rewrite ?length_le_bytes; lia).
    apply le_at_stored. change (256 ^ Z.of_nat 4) with (2 ^ 32). lia.
  - apply Hu8. rewrite Hput by lia. unfold e4.
    rewrite (proj2 (le_at_put e3 16 dest 1 ltac:(rewrite L3; lia) 4)) by lia. unfold e3.
    rewrite (proj2 (le_at_put e2 8 (le_bytes 4 len) 1 ltac:(rewrite L2, length_le_bytes; lia) 4)) by lia. unfold e2.
    rewrite (proj2 (le_at_put e1 5 [code] 1 ltac:(rewrite L1; cbn; lia) 4)) by lia. unfold e1.
    rewrite (proj1 (le_at_put stack 4 [type] 1 ltac:(rewrite Hstack; cbn; lia) 4)) by (cbn [List.length]; lia). cbn. f_equal. lia.
  - apply Hu8. rewrite Hput by lia. unfold e4.
    rewrite (proj2 (le_at_put e3 16 dest 1 ltac:(rewrite L3; lia) 5)) by lia. unfold e3.
    rewrite (proj2 (le_at_put e2 8 (le_bytes 4 len) 1 ltac:(rewrite L2, length_le_bytes; lia) 5)) by lia. unfold e2.
    rewrite (proj1 (le_at_put e1 5 [code] 1 ltac:(rewrite L1; cbn; lia) 5)) by (cbn [List.length]; lia). cbn. f_equal. lia.
  - unfold u32_at. rewrite Hput by lia. unfold e4.
    rewrite (proj2 (le_at_put e3 16 dest 4 ltac:(rewrite L3; lia) 8)) by lia. unfold e3.
    rewrite (proj1 (le_at_put e2 8 (le_bytes 4 len) 4 ltac:(rewrite L2, length_le_bytes; lia) 8)) by (rewrite ?length_le_bytes; lia).
    by apply le_at_stored.
  - intros j size Hj Hb. rewrite Hput by lia. unfold e4.
    rewrite (proj1 (le_at_put _ 16 dest size ltac:(rewrite L3; lia) (16 + j))) by lia. f_equal. lia.
  - intros j n Hj Hn Hb. rewrite bytes_at_put_other; rewrite ?length_le_bytes; [|lia..]. unfold e4.
    rewrite bytes_at_put by lia. f_equal. lia.
  - rewrite length_put; rewrite ?length_le_bytes; lia.
Qed.
End record.

(** Lemmas for the round trip: the address in the record. *)
Lemma sockaddr_in_fields port addr : 0 ≤ port < 2 ^ 16 → List.length addr = 4%nat →
  let d := sockaddr_in_bytes port addr in
  u16_at d 0 = Some AF_INET ∧ u16_at d 2 = Some port ∧ bytes_at d 4 4 = Some addr ∧ List.length d = 16%nat.
Proof.
  intros Hp Ha. cbn zeta. unfold sockaddr_in_bytes, u16_at. split_and!.
  - done.
  - rewrite le_at_app_r by (rewrite length_le_bytes; lia). rewrite le_at_app_l by (rewrite !length_le_bytes; lia).
    by apply le_at_stored.
  - do 2 rewrite bytes_at_app_r by (rewrite !length_le_bytes; lia). rewrite bytes_at_app_l by (rewrite ?length_le_bytes; lia).
    rewrite bytes_at_some by (rewrite ?length_le_bytes; lia). rewrite !length_le_bytes.
    change (drop (Z.to_nat (4 - Z.of_nat 2 - Z.of_nat 2)) addr) with addr. rewrite take_ge; [done|lia].
  - rewrite !length_app, !length_le_bytes, length_replicate, Ha. done.
Qed.
Lemma sockaddr_in6_fields port addr : 0 ≤ port < 2 ^ 16 → List.length addr = 16%nat →
  let d := sockaddr_in6_bytes port addr in
  u16_at d 0 = Some AF_INET6 ∧ u16_at d 2 = Some port ∧ bytes_at d 8 16 = Some addr ∧ List.length d = 28%nat.
Proof.
  intros Hp Ha. cbn zeta. unfold sockaddr_in6_bytes, u16_at. split_and!.
  - done.
  - rewrite le_at_app_r by (rewrite length_le_bytes; lia). rewrite le_at_app_l by (rewrite !length_le_bytes; lia).
    by apply le_at_stored.
  - do 3 rewrite bytes_at_app_r by (rewrite ?length_le_bytes, ?length_replicate; lia).
    rewrite bytes_at_app_l by (rewrite ?length_le_bytes, ?length_replicate; lia).
    rewrite bytes_at_some by (rewrite ?length_le_bytes, ?length_replicate; lia). rewrite !length_le_bytes, length_replicate.
    change (drop (Z.to_nat (8 - Z.of_nat 2 - Z.of_nat 2 - Z.of_nat 4)) addr) with addr. rewrite take_ge; [done|lia].
  - rewrite !length_app, !length_le_bytes, !length_replicate, Ha. done.
Qed.
Lemma i32_small v : 0 ≤ v < 2 ^ 31 → i32 v = v.
Proof. intros Hv. unfold i32. rewrite Z.mod_small; lia. Qed.
Lemma print_icmp_error_fields {K : Kernel} e dest len errno type code : 0 ≤ errno < 2 ^ 31 →
  dest_at e = Some dest → u32_at e 8 = Some len → u32_at e 0 = Some errno → u8_at e 4 = Some type → u8_at e 5 = Some code →
  print_icmp_error e = icmp_message dest len errno type code.
Proof.
  intros Hn H1 H2 H3 H4 H5. unfold print_icmp_error, icmp_message. rewrite (ld_bind _ _ _ H1), (ld_bind _ _ _ H2).
  rewrite H3, H4, H5. transitivity (icmp_message dest len (i32 errno) type code); [reflexivity|by rewrite i32_small].
Qed.

(** ** Properties *)



(** C39: the record carries the error to the client: whatever the daemon's stack
    held, the client that reads it reports the address and the port the
    datagram was sent to, the type and the code of the ICMP error, and the text of
    the [errno] the daemon chose. *)
Theorem icmp_error_roundtrip (K : Kernel) stack type code errno port addr :
  List.length stack = SIZEOF_ICMPD_ERR → 0 ≤ errno < 2 ^ 31 → 0 ≤ port < 2 ^ 16 →
  (List.length addr = 4%nat →
     print_icmp_error (icmpd_err type code SIZEOF_SOCKADDR_IN (sockaddr_in_bytes port addr) errno stack) =
     icmp_message (SaIn port addr) SIZEOF_SOCKADDR_IN errno type code) ∧
  (List.length addr = 16%nat →
     print_icmp_error (icmpd_err type code SIZEOF_SOCKADDR_IN6 (sockaddr_in6_bytes port addr) errno stack) =
     icmp_message (SaIn6 port addr) SIZEOF_SOCKADDR_IN6 errno type code).
Proof.
  intros Hst He Hp. split; intros Ha.
  - destruct (sockaddr_in_fields port addr Hp Ha) as (D1 & D2 & D3 & D4).
    destruct (record_fields type code SIZEOF_SOCKADDR_IN errno (sockaddr_in_bytes port addr) stack)
      as (F1 & F2 & F3 & F4 & F5 & F6 & _); [done|rewrite D4; lia|done|done|].
    apply print_icmp_error_fields; try done. pose proof (F5 0 2%nat ltac:(lia) ltac:(rewrite D4; lia)) as G1.
    pose proof (F5 2 2%nat ltac:(lia) ltac:(rewrite D4; lia)) as G2.
    pose proof (F6 4 4 ltac:(lia) ltac:(lia) ltac:(rewrite D4; lia)) as G3.
    change (16 + 0) with 16 in G1. change (16 + 2) with 18 in G2. change (16 + 4) with 20 in G3.
    unfold dest_at, u16_at in *. by rewrite G1, G2, G3, D1, D2, D3.
  - destruct (sockaddr_in6_fields port addr Hp Ha) as (D1 & D2 & D3 & D4).
    destruct (record_fields type code SIZEOF_SOCKADDR_IN6 errno (sockaddr_in6_bytes port addr) stack)
      as (F1 & F2 & F3 & F4 & F5 & F6 & _); [done|rewrite D4; lia|done|done|].
    apply print_icmp_error_fields; try done. pose proof (F5 0 2%nat ltac:(lia) ltac:(rewrite D4; lia)) as G1.
    pose proof (F5 2 2%nat ltac:(lia) ltac:(rewrite D4; lia)) as G2.
    pose proof (F6 8 16 ltac:(lia) ltac:(lia) ltac:(rewrite D4; lia)) as G3.
    change (16 + 0) with 16 in G1. change (16 + 2) with 18 in G2. change (16 + 8) with 24 in G3.
    unfold dest_at, u16_at in *. by rewrite G1, G2, G3, D1, D2, D3.
Qed.

(** An ICMP port unreachable about a datagram from port 5000 to port 7 of
    10.0.0.9, on a system where everything is ready, every client passes a
    descriptor of a socket bound to port 5000, and nothing fails. *)
Definition sample_outer : list Z := [69; 0; 0; 60] ++ replicate 5 0 ++ [1] ++ replicate 10 0.
Definition sample_inner : list Z := [69; 0; 0; 32] ++ replicate 5 0 ++ [17] ++ replicate 6 0 ++ [10; 0; 0; 9].
Definition sample_error : list Z := icmp_error 3 3 (replicate 6 0) sample_inner 5000 7 [0; 0; 0; 0].
Definition visited : Kernel := λ A t c,
  (match c in sys A return A → A with
   | sys_socket _ _ _ => λ _, Ok (next_fd (open_fds t))
   | sys_accept _ => λ _, Ok (next_fd (open_fds t), SaOther 0 [])
   | sys_recvmsg_ctl _ _ => λ _, Ok ([49], Some (CMsg CMSG_LEN_INT SOL_SOCKET SCM_RIGHTS (next_fd (open_fds t)) []))
   | sys_recvfrom _ n => λ _, Ok (take (Z.to_nat n) (sample_outer ++ sample_error), SaIn 0 [10; 0; 0; 1])
   | sys_getsockname _ => λ _, Ok (SaIn (htons 5000) [0; 0; 0; 0])
   | _ => λ a, a
   end) (plain t c).
Lemma visited_ok : SocketOk visited ∧ AcceptOk visited ∧ SelectOk visited ∧ RecvfromOk visited ∧ ReceiveOk visited.
Proof.
  split_and!; split.
  - intros t f s p fd [= <-]. apply next_fd_fresh.
  - intros t f fd sa [= <- _]. apply next_fd_fresh.
  - intros t r w tm r' w' [= <- <-]. done.
  - intros t fd n bs sa Hn [= <- _]. rewrite length_take. lia.
  - intros t fd n bs sa [= _ <-]. split; [done|]. split; [lia|]. split; [done|]. repeat constructor; lia.
  - intros t fd n bs cm [= _ <-]. repeat constructor; apply next_fd_fresh.
  - by intros t fd n bs cm [= _ <-] _.
Qed.


(** One client, 6, with a socket bound to port 5000, and one, 7, with port 5001. *)
Definition two_clients : icmpd :=
  Icmpd ([Cl 6 AF_INET (htons 5000); Cl 7 AF_INET (htons 5001)] ++ replicate 1022 (Cl (-1) 0 0)) 1 7 {[5; 3; 4; 6; 7]}.
Definition two_connected : proc :=
  let sock fam ty protocol fd := Event (sys_socket fam ty protocol) (Ok fd) in
  Proc [Event (sys_accept 5) (Ok (7, SaOther 0 [])); Event (sys_accept 5) (Ok (6, SaOther 0 []));
        sock AF_UNIX SOCK_STREAM 0 5; sock AF_INET6 SOCK_RAW IPPROTO_ICMPV6 4; sock AF_INET SOCK_RAW IPPROTO_ICMP 3] 0 0 false 0 1 ∅.
Lemma two_clients_inv : icmpd_inv 5 3 4 two_clients two_connected.
Proof.
  assert (Hc : ∀ i fd, (connfd <$> client two_clients) !! i = Some fd → 0 ≤ fd → i = 0%nat ∧ fd = 6 ∨ i = 1%nat ∧ fd = 7).
  { intros i fd Hi Hfd. cbn [two_clients client app fmap list_fmap connfd] in Hi.
    destruct i as [|[|i]]; [injection Hi as <-; auto|injection Hi as <-; auto|]. cbn [lookup list_lookup] in Hi.
    change ((connfd <$> replicate 1022 (Cl (-1) 0 0)) !! i = Some fd) in Hi. rewrite fmap_replicate in Hi.
    apply lookup_replicate in Hi as [-> _]. cbn in Hfd. lia. }
  assert (Hin : ∀ fd, 0 ≤ fd → fd ∈ connfd <$> client two_clients ↔ fd = 6 ∨ fd = 7).
  { intros fd Hfd. rewrite list_elem_of_lookup. split.
    - intros (i & Hi). destruct (Hc i fd Hi Hfd) as [[_ ->]|[_ ->]]; auto.
    - intros [->| ->]; [by exists 0%nat|by exists 1%nat]. }
  assert (Hall : ∀ fd, fd ∈ allset two_clients ↔ fd = 5 ∨ fd = 3 ∨ fd = 4 ∨ fd = 6 ∨ fd = 7).
  { intros fd. cbn [two_clients allset]. rewrite !elem_of_union, !elem_of_singleton. tauto. }
  assert (Hbase : ∀ fd, fd ∈ ({[5; 3; 4]} : gset Z) ↔ fd = 5 ∨ fd = 3 ∨ fd = 4).
  { intros fd. rewrite !elem_of_union, !elem_of_singleton. tauto. }
  split; [unfold table; split_and!; try done|].
  - intros fd. rewrite Hall, Hbase. split.
    + intros Hx. destruct (decide (fd = 6 ∨ fd = 7)) as [He|He]; [right|left; lia].
      split; [lia|]. apply Hin; [lia|done].
    + intros [Hx|[Hx Hy]]; [lia|]. apply Hin in Hy; [lia|done].
  - intros i j fd Hi Hj Hfd. destruct (Hc _ _ Hi Hfd), (Hc _ _ Hj Hfd); lia.
  - intros fd Hx%Hbase Hy. apply Hin in Hy; lia.
  - intros i fd Hi Hfd. cbn [two_clients maxi]. destruct (Hc _ _ Hi Hfd); lia.
  - intros fd Hx%Hall. cbn [two_clients maxfd]. unfold FD_SETSIZE. lia.
  - change (strays two_connected) with (∅ : gset Z). split; [vm_compute; done|]. do 2 (split; [set_solver|]). unfold opened. cbn [two_connected p_trace]. rewrite !elem_of_cons. auto 10.
Qed.


Lemma icmp_error_roundtrip_witness :
  print_icmp_error (K := plain_kernel)
    (icmpd_err 3 3 SIZEOF_SOCKADDR_IN (sockaddr_in_bytes (htons 7) [10; 0; 0; 9]) 111 (replicate 144 205)) =
  icmp_message (K := plain_kernel) (SaIn (htons 7) [10; 0; 0; 9]) SIZEOF_SOCKADDR_IN 111 3 3.
Proof.
  refine (proj1 (icmp_error_roundtrip plain_kernel (replicate 144 205) 3 3 111 (htons 7) [10; 0; 0; 9] _ _ _) _).
  - reflexivity.
  - lia.
  - vm_compute. split; [discriminate|reflexivity].
  - reflexivity.
Defined.
