(* ===== verification/Sigio.v ===== *)
(** A datagram echo server driven by signals: src/unpv13e/sigio/dgecho01.c.

    The handler of SIGIO reads the datagrams that have arrived into a ring; the
    main loop sends them back.  They share the ring, its indices and its
    count; the main loop blocks SIGIO where it uses the count.  The handlers run
    where the signal is not blocked: in [sigsuspend], and before and after each
    statement between the two calls of [Sigprocmask] ([deliver]); whether a
    signal has come is the system's answer. *)
From S2P Require Import Prelude Machine Posix Wrap Stream Frame Daemon.

Definition QSIZE : Z := 8.
Definition MAXDG : Z := 4096.
Definition SIGIO : Z := 29.
Definition SIG_BLOCK : Z := 0.
Definition SIG_SETMASK : Z := 2.
Definition F_SETOWN : Z := 8.
Definition FIONBIO : Z := 21537.
Definition FIOASYNC : Z := 21586.

(** [DG]: the [dg_len] bytes at [dg_data], and the address. *)
Record DG := Dg {
  dg_data : list Z;
  dg_sa : sockaddr
}.
#[global] Instance DG_inhabited : Inhabited DG := populate (Dg [] (SaOther 0 [])).

(** The static variables. *)
Record dgq := Dgq {
  dg : list DG;
  cntread : list Z;
  iget : Z;
  iput : Z;
  nqueue : Z
}.

Section sigio.
Context {K : Kernel} (sockfd : Z).

(** [if (++i >= QSIZE) i = 0;] *)
Definition next (i : Z) : Z := if QSIZE <=? i + 1 then 0 else i + 1.

(** ** The handlers *)

(** [cntread[nread]++], undefined outside the array. *)
Definition count_read (nread : Z) (s : dgq) : M dgq :=
  if nread <? Z.of_nat (List.length (cntread s))
  then mret (Dgq (dg s) (alter (Z.add 1) (Z.to_nat nread) (cntread s)) (iget s) (iput s) (nqueue s))
  else stop UB.
Fixpoint sig_io_loop (fuel : nat) (nread : Z) (s : dgq) : M dgq :=
  match fuel with
  | O => stop NoFuel
  | S f =>
      if QSIZE <=? nqueue s then err_quit "receive overflow"
      else
        r ← syscall (sys_recvfrom sockfd MAXDG);
        match r with
        | None =>
            e ← get_errno;
            if e =? EWOULDBLOCK then count_read nread s else err_sys "recvfrom error"
        | Some (buf, from) =>
            sig_io_loop f (nread + 1)
              (Dgq (<[Z.to_nat (iput s) := Dg buf from]> (dg s)) (cntread s) (iget s) (next (iput s)) (nqueue s + 1))
        end
  end.
(** The queue bounds the iterations. *)
Definition sig_io (s : dgq) : M dgq := sig_io_loop (S (Z.to_nat QSIZE)) 0 s.

Fixpoint sig_hup_loop (i : Z) (counts : list Z) : M unit :=
  match counts with
  | [] => mret tt
  | c :: counts' =>
      printf ("cntread[" +:+ fmt_d i +:+ "] = " +:+ fmt_d c +:+ nl) ;;
      sig_hup_loop (i + 1) counts'
  end.
Definition sig_hup (s : dgq) : M unit := sig_hup_loop 0 (cntread s).

(** A point where both signals may be delivered. *)
Definition deliver (s : dgq) : M dgq :=
  hup ← call (sys_flag SIGHUP);
  (if (hup : bool) then sig_hup s else mret tt) ;;
  io ← call (sys_flag SIGIO);
  if (io : bool) then sig_io s else mret s.

(** ** dg_echo *)

(** [while (nqueue == 0) sigsuspend(&zeromask);] *)
Fixpoint wait_queue (fuel : nat) (zeromask : gset Z) (s : dgq) : M dgq :=
  match fuel with
  | O => stop NoFuel
  | S f =>
      if nqueue s =? 0 then
        syscall (sys_sigsuspend zeromask) ;;
        s ← deliver s;
        wait_queue f zeromask s
      else mret s
  end.

(** One turn of the loop. *)
Definition echo_turn (fuel : nat) (zeromask newmask oldmask : gset Z) (s : dgq) : M dgq :=
  s ← wait_queue fuel zeromask s;
  Sigprocmask SIG_SETMASK oldmask ;;
  s ← deliver s;
  let d := dg s !!! Z.to_nat (iget s) in
  Sendto sockfd (dg_data d) (dg_sa d) ;;
  s ← deliver s;
  let s := Dgq (dg s) (cntread s) (next (iget s)) (iput s) (nqueue s) in
  s ← deliver s;
  Sigprocmask SIG_BLOCK newmask ;;
  mret (Dgq (dg s) (cntread s) (iget s) (iput s) (nqueue s - 1)).
Fixpoint echo_turns (turns fuel : nat) (zeromask newmask oldmask : gset Z) (s : dgq) : M dgq :=
  match turns with
  | O => mret s
  | S t => s ← echo_turn fuel zeromask newmask oldmask s; echo_turns t fuel zeromask newmask oldmask s
  end.

Fixpoint dg_init (todo : nat) (clilen : Z) : M unit :=
  match todo with
  | O => mret tt
  | S t => Malloc MAXDG ;; Malloc clilen ;; dg_init t clilen
  end.

(** SIGIO is unblocked until the first [Sigprocmask]; [hup] and [io] are the
    addresses of the handlers. *)
Definition dg_echo (turns fuel : nat) (clilen hup io : Z) : M dgq :=
  dg_init (Z.to_nat QSIZE) clilen ;;
  let s := Dgq (replicate (Z.to_nat QSIZE) inhabitant) (replicate (S (Z.to_nat QSIZE)) 0) 0 0 0 in
  Signal SIGHUP hup ;;
  Signal SIGIO io ;;
  pid ← call sys_getpid;
  Fcntl sockfd F_SETOWN pid ;;
  Ioctl sockfd FIOASYNC (le32_bytes 1) ;;
  s ← deliver s;
  Ioctl sockfd FIONBIO (le32_bytes 1) ;;
  s ← deliver s;
  zeromask ← Sigemptyset;
  Sigemptyset ;;
  newmask ← Sigemptyset;
  newmask ← Sigaddset newmask SIGIO;
  oldmask ← Sigprocmask SIG_BLOCK newmask;
  echo_turns turns fuel zeromask newmask oldmask s.
End sigio.

(** ** Specification *)

(** The datagrams received, and those sent back; the number of waits. *)
Definition arrived1 (e : event) : list (list Z * sockaddr) :=
  match e with
  | Event c a =>
      match c in sys A return A → list (list Z * sockaddr) with
      | sys_recvfrom _ _ => λ r, match r with Ok d => [d] | Err _ => [] end
      | _ => λ _, []
      end a
  end.
Definition echoed1 (e : event) : list (list Z * sockaddr) :=
  match e with
  | Event c a =>
      match c in sys A return A → list (list Z * sockaddr) with
      | sys_sendto _ buf sa => λ r, match r with Ok _ => [(buf, sa)] | Err _ => [] end
      | _ => λ _, []
      end a
  end.
Definition waited1 (e : event) : list unit :=
  match e with
  | Event c _ => match c with sys_sigsuspend _ => [tt] | _ => [] end
  end.
Abbreviation arrived p := (seen arrived1 (p_trace p)).
Abbreviation echoed p := (seen echoed1 (p_trace p)).
Abbreviation waits p := (List.length (seen waited1 (p_trace p))).

(** The ring: [nqueue] entries before [iput]. *)
Definition head (s : dgq) : Z := (iput s - nqueue s) mod QSIZE.
Definition entry (s : dgq) (i : Z) : list Z * sockaddr :=
  let d := dg s !!! Z.to_nat ((iput s - nqueue s + i) mod QSIZE) in (dg_data d, dg_sa d).
Definition queue (s : dgq) : list (list Z * sockaddr) := entry s <$> seqZ 0 (nqueue s).
Definition ring_ok (s : dgq) : Prop :=
  Z.of_nat (List.length (dg s)) = QSIZE ∧ Z.of_nat (List.length (cntread s)) = QSIZE + 1 ∧
  0 ≤ iput s < QSIZE ∧ 0 ≤ nqueue s < QSIZE.

(** Between two turns: what arrived is what was sent back, then the queue, whose
    first entry is the next to be sent. *)
Definition dgq_inv (s : dgq) (p : proc) : Prop :=
  ring_ok s ∧ iget s = head s ∧ arrived p = echoed p ++ queue s.

(** The outcomes: nothing is sent back that did not arrive, in that order. *)
Definition sigio_post (Q : dgq → proc → Prop) (fuel : nat) (p : proc) (o : outcome dgq) (p' : proc) : Prop :=
  echoed p' `prefix_of` arrived p' ∧ later p p' ∧
  match o with
  | Ret s => Q s p'
  | Exit st => st = 1
  | NoFuel => (fuel ≤ waits p' - waits p)%nat
  | _ => False
  end.

(** ** Lemmas *)

Lemma next_mod i : 0 ≤ i < QSIZE → next i = (i + 1) mod QSIZE.
Proof.
  intros Hi. unfold next, QSIZE in *. destruct (Z.leb_spec 8 (i + 1)).
  - replace i with 7 by lia. done.
  - by rewrite Z.mod_small by lia.
Qed.
Lemma queue_length s : 0 ≤ nqueue s → Z.of_nat (List.length (queue s)) = nqueue s.
Proof. intros Hn. unfold queue. rewrite length_fmap, length_seqZ. lia. Qed.

(** A datagram is put behind the others. *)
Definition put_dg (d : DG) (s : dgq) : dgq :=
  Dgq (<[Z.to_nat (iput s) := d]> (dg s)) (cntread s) (iget s) (next (iput s)) (nqueue s + 1).
Lemma head_put d s : 0 ≤ iput s < QSIZE → head (put_dg d s) = head s.
Proof.
  intros Hi. unfold head, put_dg. cbn [iput nqueue]. rewrite next_mod by done.
  rewrite Zminus_mod_idemp_l. f_equal. lia.
Qed.
Lemma ring_put d s : Z.of_nat (List.length (dg s)) = QSIZE → 0 ≤ iput s < QSIZE → 0 ≤ nqueue s < QSIZE →
  queue (put_dg d s) = queue s ++ [(dg_data d, dg_sa d)].
Proof.
  intros Hl Hi Hn. unfold queue. cbn [put_dg nqueue]. rewrite seqZ_app by lia. rewrite fmap_app. f_equal.
  - apply list_fmap_ext. intros j x Hx. apply lookup_seqZ in Hx as [-> Hj]. unfold entry. cbn [put_dg dg iput nqueue].
    rewrite next_mod by done. rewrite list_lookup_total_insert_ne.
    + do 4 f_equal; unfold QSIZE in *; Z.to_euclidean_division_equations; lia.
    + unfold QSIZE in *. intros E%Z2Nat.inj; Z.to_euclidean_division_equations; lia.
  - change (seqZ (0 + nqueue s) 1) with [0 + nqueue s]. cbn [fmap list_fmap]. unfold entry.
    cbn [put_dg dg iput nqueue]. rewrite next_mod by done.
    replace (((iput s + 1) mod QSIZE - (nqueue s + 1) + (0 + nqueue s)) mod QSIZE) with (iput s)
      by (unfold QSIZE in *; Z.to_euclidean_division_equations; lia).
    by rewrite list_lookup_total_insert_eq by lia.
Qed.
Lemma queue_drop s : ring_ok s → 0 < nqueue s →
  queue s = entry s 0 :: queue (Dgq (dg s) (cntread s) (iget s) (iput s) (nqueue s - 1)).
Proof.
  intros _ Hn. unfold queue. cbn [nqueue]. rewrite seqZ_cons by lia. cbn [fmap list_fmap]. f_equal.
  rewrite <- Z.sub_1_r. change (Z.succ 0) with (1 + 0). rewrite <- (fmap_add_seqZ 1 0), <- list_fmap_compose.
  apply list_fmap_ext. intros j x _. unfold entry, compose. cbn [dg iput nqueue].
  replace (iput s - (nqueue s - 1) + x) with (iput s - nqueue s + (1 + x)) by lia. done.
Qed.

(** What the handlers do to the ring: datagrams arrive behind the others. *)
Definition fills (s : dgq) (p : proc) (s' : dgq) (p' : proc) : Prop :=
  ring_ok s' ∧ iget s' = iget s ∧ head s' = head s ∧ nqueue s ≤ nqueue s' ∧ later p p' ∧
  echoed p' = echoed p ∧ waits p' = waits p ∧
  ∃ new, queue s' = queue s ++ new ∧ arrived p' = arrived p ++ new.
Definition fill_post (s : dgq) (p : proc) (o : outcome dgq) (p' : proc) : Prop :=
  match o with
  | Ret s' => fills s p s' p'
  | Exit st => st = 1 ∧ later p p' ∧ echoed p' = echoed p ∧ arrived p `prefix_of` arrived p'
  | _ => False
  end.
Lemma fills_refl s p : ring_ok s → fills s p s p.
Proof. intros Hs. split_and!; try done. exists []. by rewrite !app_nil_r. Qed.
Lemma fills_trans s1 p1 s2 p2 s3 p3 : fills s1 p1 s2 p2 → fills s2 p2 s3 p3 → fills s1 p1 s3 p3.
Proof.
  intros (H1 & H2 & H3 & H4 & H5 & H6 & H7 & new & H8 & H9) (G1 & G2 & G3 & G4 & G5 & G6 & G7 & new' & G8 & G9).
  split; [done|]. split; [congruence|]. split; [congruence|]. split; [lia|]. split; [by etransitivity|].
  split; [congruence|]. split; [congruence|]. exists (new ++ new').
  by rewrite G8, G9, H8, H9, !app_assoc.
Qed.

(** The rest of the program's events. *)
Definition silent (e : event) : Prop := arrived1 e = [] ∧ echoed1 e = [] ∧ waited1 e = [].
Lemma frame_silent p p' : frame silent p p' →
  later p p' ∧ arrived p' = arrived p ∧ echoed p' = echoed p ∧ waits p' = waits p.
Proof.
  intros [(t & Ht & Hq) Hm]. split; [by exists t|].
  assert (Hf : ∀ B (obs1 : event → list B), (∀ e, silent e → obs1 e = []) → seen obs1 (p_trace p') = seen obs1 (p_trace p)).
  { intros B obs1 Ho. apply frame_seen. split; [|done]. exists t. split; [done|]. by eapply Forall_impl. }
  rewrite !Hf; [done|..]; unfold silent; intros; tauto.
Qed.
Lemma quiet_silent e : quiet e → silent e.
Proof. destruct e as [A c a]. by destruct c. Qed.
Lemma fills_silent s s' p p' : ring_ok s' → iget s' = iget s → head s' = head s → nqueue s' = nqueue s → queue s' = queue s →
  frame silent p p' → fills s p s' p'.
Proof.
  intros Hs H1 H2 H3 H4 (Hl & Ha & He & Hw)%frame_silent. split_and!; try done; [lia|].
  exists []. by rewrite !app_nil_r.
Qed.

Section facts.
Context {K : Kernel} (sockfd : Z).

Lemma fill_exit {A} (m : M A) s p p1 (k : A → proc → Prop) :
  post m p1 (λ o p', o = Exit 1 ∧ reported p1 p') → later p p1 → echoed p1 = echoed p → arrived p `prefix_of` arrived p1 →
  post m p1 (through (fill_post s p) k).
Proof.
  intros Hm Hl He Ha. eapply post_weaken; [exact Hm|]. intros o p' [-> [(t & Ht & Hq & _) Hr]].
  destruct (frame_silent p1 p') as (Hl' & Ha' & He' & _).
  { split; [|exact Hr]. exists t. split; [done|]. eapply Forall_impl; [exact Hq|]. apply quiet_silent. }
  cbn [through]. unfold fill_post. rewrite Ha', He'. split_and!; try done. by etransitivity.
Qed.

Lemma sig_io_loop_post : ∀ fuel nread s p,
  ring_ok s ∨ (nqueue s = QSIZE ∧ Z.of_nat (List.length (dg s)) = QSIZE ∧ Z.of_nat (List.length (cntread s)) = QSIZE + 1 ∧ 0 ≤ iput s < QSIZE) →
  0 ≤ nread ≤ nqueue s → QSIZE - nqueue s < Z.of_nat fuel →
  post (sig_io_loop sockfd fuel nread s) p (fill_post s p).
Proof.
  induction fuel as [|f IH]; intros nread s p Hs Hr Hf; cbn [sig_io_loop].
  { destruct Hs as [(_ & _ & _ & ?)|(? & _)]; lia. }
  destruct (Z.leb_spec QSIZE (nqueue s)).
  { eapply post_weaken; [by apply (fill_exit _ s p p (λ _ _, False)); [apply err_quit_exits|..]|]. by intros []. }
  destruct Hs as [Hs|(? & _)]; [|lia]. pose proof Hs as (Hd & Hc & Hi & Hn).
  apply post_bind, post_syscall; intros r _; cbn [through].
  - destruct r as [buf from]. change (Dgq _ _ _ _ _) with (put_dg (Dg buf from) s).
    set (p1 := add_event _ _ p).
    assert (Hput : (ring_ok (put_dg (Dg buf from) s) ∨ nqueue (put_dg (Dg buf from) s) = QSIZE ∧
        Z.of_nat (List.length (dg (put_dg (Dg buf from) s))) = QSIZE ∧
        Z.of_nat (List.length (cntread (put_dg (Dg buf from) s))) = QSIZE + 1 ∧ 0 ≤ iput (put_dg (Dg buf from) s) < QSIZE)).
    { assert (Hnext : 0 ≤ next (iput s) < QSIZE) by (rewrite next_mod by done; apply Z.mod_pos_bound; done).
      unfold ring_ok. cbn [put_dg dg cntread iput nqueue]. rewrite length_insert.
      destruct (decide (nqueue s + 1 = QSIZE)); [right|left]; lia. }
    eapply post_weaken; [apply (IH (nread + 1) _ p1 Hput); cbn [put_dg nqueue]; lia|].
    assert (Hl1 : later p p1) by by eexists [_].
    assert (Ha1 : arrived p1 = arrived p ++ [(buf, from)]) by done.
    assert (He1 : echoed p1 = echoed p) by (cbn; by rewrite app_nil_r).
    assert (Hw1 : waits p1 = waits p) by (cbn; by rewrite app_nil_r).
    intros o p2 Ho. destruct o as [s2|st| | |]; try done.
    + destruct Ho as (G1 & G2 & G3 & G4 & G5 & G6 & G7 & new & G8 & G9).
      split_and!; try done; [by rewrite G3, head_put|cbn [put_dg nqueue] in G4; lia|by etransitivity|congruence|congruence|].
      exists ([(buf, from)] ++ new). rewrite G8, G9, Ha1, ring_put, <- !app_assoc by done. done.
    + destruct Ho as (G1 & G2 & G3 & G4). split_and!; [done|by etransitivity|congruence|].
      etransitivity; [|exact G4]. rewrite Ha1. by apply prefix_app_r.
  - apply post_bind, post_get_errno. cbn [through]. set (p1 := with_errno _ _).
    assert (Hfr : frame silent p p1).
    { etransitivity; [|apply frame_errno]. by apply (frame_event silent (sys_recvfrom sockfd MAXDG) (Err r)). }
    destruct (p_errno p1 =? EWOULDBLOCK).
    + unfold count_read. rewrite (proj2 (Z.ltb_lt _ _)) by lia. apply post_ret. apply fills_silent; try done.
      split; [done|]. cbn [cntread]. rewrite length_alter. done.
    + eapply post_weaken; [apply (fill_exit _ s p p1 (λ _ _, False)); [apply err_sys_exits|..]|by intros []].
      * apply (frame_silent _ _ Hfr).
      * apply (frame_silent _ _ Hfr).
      * by rewrite (proj1 (proj2 (frame_silent _ _ Hfr))).
Qed.
Lemma sig_io_post s p : ring_ok s → post (sig_io sockfd s) p (fill_post s p).
Proof.
  intros Hs. pose proof Hs as (_ & _ & _ & Hn). apply sig_io_loop_post; [by left|lia|]. unfold QSIZE in *. lia.
Qed.
End facts.

Section turns.
Context {K : Kernel} (sockfd : Z).
Context (Q : dgq → proc → Prop) (fuel0 : nat) (p0 : proc).

(** A part that neither receives nor sends nor waits. *)
Lemma silent_step {A} (m : M A) (k : A → M dgq) p :
  framed silent m → fine_run False m → later p0 p → echoed p `prefix_of` arrived p →
  (∀ a p', frame silent p p' → later p0 p' → post (k a) p' (sigio_post Q fuel0 p0)) →
  post (m ≫= k) p (sigio_post Q fuel0 p0).
Proof.
  intros Hf Hm Hl Hp Hk. apply post_bind. eapply post_weaken; [apply post_and; [apply Hm|by apply framed_post]|].
  intros o p' [Ho Hfr]. destruct (frame_silent _ _ Hfr) as (Hl' & Ha & He & _).
  assert (Hl2 : later p0 p') by by etransitivity.
  destruct o; cbn [through]; try done; [by apply Hk|]. split; [by rewrite Ha, He|done].
Qed.
Lemma framed_silent_err {A} msg : framed silent (err_sys (A := A) msg).
Proof. apply framed_err_sys, quiet_silent. Qed.
Lemma silent_or_err_sys {A} (c : sys (res A)) msg : (∀ r, silent (Event c r)) → framed silent (or_err_sys c msg).
Proof.
  intros Hc. apply framed_bind; [apply framed_bind; [by apply framed_call|framed_tac]|].
  intros []; [framed_tac|apply framed_silent_err].
Qed.

Lemma framed_sig_hup s : framed silent (sig_hup s).
Proof.
  unfold sig_hup. generalize 0. induction (cntread s) as [|c counts IH]; intros i; cbn [sig_hup_loop]; [framed_tac|].
  apply framed_bind; [unfold printf; framed_tac; apply framed_call; by intros|]. intros _. apply IH.
Qed.
Lemma fine_sig_hup s : fine_run False (sig_hup s).
Proof.
  unfold sig_hup. generalize 0. induction (cntread s) as [|c counts IH]; intros i; cbn [sig_hup_loop]; [auto with fine|].
  apply fine_bind; [auto with fine|]. intros _. apply IH.
Qed.

Lemma deliver_step (k : dgq → M dgq) s p :
  ring_ok s → later p0 p → echoed p `prefix_of` arrived p →
  (∀ s' p', fills s p s' p' → later p0 p' → post (k s') p' (sigio_post Q fuel0 p0)) →
  post (deliver sockfd s ≫= k) p (sigio_post Q fuel0 p0).
Proof.
  intros Hs Hl Hp Hk. apply post_bind. unfold deliver.
  assert (Hflag : ∀ signo p1 r, frame silent p1 (add_event (sys_flag signo) r p1)) by (intros; by apply frame_event).
  apply post_bind, post_call. intros hup _. cbn [through]. set (p1 := add_event _ _ p).
  apply post_bind. eapply post_weaken.
  { apply (post_and _ _ (λ o _, fine False o) (λ _ p', frame silent p1 p')).
    - destruct hup; [apply fine_sig_hup|done].
    - apply framed_post. destruct hup; [apply framed_sig_hup|framed_tac]. }
  intros o p2 [Ho Hf2]. assert (Hf : frame silent p p2) by (etransitivity; [apply Hflag|exact Hf2]).
  destruct o as [[]|st| | |]; cbn [through]; try done.
  2: { cbn in Ho. subst st. destruct (frame_silent _ _ Hf) as (Hl2 & Ha & He & _). split; [by rewrite Ha, He|].
       split; [by etransitivity|done]. }
  apply post_bind, post_call. intros io _. cbn [through]. set (p3 := add_event _ _ p2).
  assert (Hf3 : frame silent p p3) by (etransitivity; [exact Hf|apply Hflag]).
  pose proof (fills_silent s s p p3 Hs eq_refl eq_refl eq_refl eq_refl Hf3) as Hfill.
  assert (Hl3 : later p0 p3) by (etransitivity; [exact Hl|apply Hfill]).
  destruct io; [|by apply post_ret, Hk]. eapply post_weaken; [by apply sig_io_post|].
  intros o p4 Ho4. destruct o as [s4|st| | |]; cbn [through]; try done.
  - apply Hk; [by eapply fills_trans|]. etransitivity; [exact Hl3|apply Ho4].
  - destruct Ho4 as (-> & Hl4 & He4 & Ha4). destruct (frame_silent _ _ Hf3) as (_ & Ha3 & He3 & _).
    split; [|split; [by etransitivity|done]]. rewrite He4, He3. etransitivity; [exact Hp|]. by rewrite <- Ha3.
Qed.

Lemma inv_fills s p s' p' : dgq_inv s p → fills s p s' p' → dgq_inv s' p'.
Proof.
  intros (Hs & Hg & Ha) (H1 & H2 & H3 & _ & _ & H6 & _ & new & H8 & H9). split; [done|]. split; [congruence|].
  by rewrite H9, H8, Ha, H6, app_assoc.
Qed.
Lemma inv_prefix s p : dgq_inv s p → echoed p `prefix_of` arrived p.
Proof. intros (_ & _ & ->). by apply prefix_app_r. Qed.
End turns.

Section loop.
Context {K : Kernel} (sockfd : Z).

Lemma wait_queue_post zeromask fuel0 p0 : ∀ fuel s p,
  dgq_inv s p → later p0 p → (waits p0 ≤ waits p)%nat → (fuel0 ≤ fuel + (waits p - waits p0))%nat →
  post (wait_queue sockfd fuel zeromask s) p (sigio_post (λ s' p', dgq_inv s' p' ∧ 0 < nqueue s') fuel0 p0).
Proof.
  induction fuel as [|f IH]; intros s p Hs Hl Hw Hf; cbn [wait_queue].
  { apply post_stop. split; [by eapply inv_prefix|]. split; [done|lia]. }
  destruct (Z.eqb_spec (nqueue s) 0).
  2: { apply post_ret. split; [by eapply inv_prefix|]. split; [done|]. split; [done|]. destruct Hs as ((_ & _ & _ & ?) & _). lia. }
  assert (Hsusp : ∀ p1, later p p1 → arrived p1 = arrived p → echoed p1 = echoed p → waits p1 = S (waits p) →
    post (s ← deliver sockfd s; wait_queue sockfd f zeromask s) p1
      (sigio_post (λ s' p', dgq_inv s' p' ∧ 0 < nqueue s') fuel0 p0)).
  { intros p1 Hl1 Ha He Hw1. assert (Hs1 : dgq_inv s p1) by (destruct Hs as (? & ? & E); split; [done|]; split; [done|]; by rewrite Ha, He).
    apply deliver_step; [apply Hs|by etransitivity|by eapply inv_prefix|]. intros s2 p2 Hfill Hl2.
    pose proof Hfill as (_ & _ & _ & _ & _ & _ & Hw2 & _).
    apply IH; [by eapply inv_fills|done|lia|lia]. }
  apply post_bind, post_syscall; intros r _; cbn [through]; apply Hsusp; try (cbn; by rewrite app_nil_r).
  - by eexists [_].
  - cbn. rewrite length_app. cbn. lia.
  - by eexists [_].
  - cbn. rewrite length_app. cbn. lia.
Qed.

Lemma later_waits p p' : later p p' → (waits p ≤ waits p')%nat.
Proof.
  intros (t & ->). induction t as [|e t IH]; [done|]. cbn [app seen]. rewrite length_app. lia.
Qed.

(** Sending the first of the queue. *)
Lemma Sendto_step (k : unit → M dgq) Q fuel0 p0 s p :
  dgq_inv s p → 0 < nqueue s → later p0 p →
  let e := entry s 0 in
  (∀ p', later p0 p' → arrived p' = arrived p → echoed p' = echoed p ++ [e] →
     post (k tt) p' (sigio_post Q fuel0 p0)) →
  post (Sendto sockfd e.1 e.2 ≫= k) p (sigio_post Q fuel0 p0).
Proof.
  intros Hs Hn Hl e Hk. assert (Hpre : echoed p ++ [e] `prefix_of` arrived p).
  { destruct Hs as (Hr & _ & ->). rewrite (queue_drop s Hr Hn). apply prefix_app. by exists (queue (Dgq (dg s) (cntread s) (iget s) (iput s) (nqueue s - 1))). }
  assert (Hexit : ∀ p1, later p p1 → echoed p1 `prefix_of` arrived p1 →
    post (err_sys "sendto error") p1 (through (sigio_post Q fuel0 p0) (λ a p', post (k a) p' (sigio_post Q fuel0 p0)))).
  { intros p1 Hl1 Hp1. eapply post_weaken; [apply post_and; [apply err_sys_exits|apply framed_post, framed_silent_err]|].
    intros o p2 [[-> _] (Hl2 & Ha & He & _)%frame_silent]. cbn [through]. split; [by rewrite Ha, He|].
    split; [|done]. etransitivity; [exact Hl|by etransitivity]. }
  apply post_bind. unfold Sendto. apply post_bind, post_syscall; intros r _; cbn [through].
  - set (p1 := add_event _ _ p). assert (Hl1 : later p p1) by by eexists [_].
    assert (Ha1 : arrived p1 = arrived p) by (unfold p1; cbn; by rewrite app_nil_r).
    assert (He1 : echoed p1 = echoed p ++ [e]) by done.
    case_match; [|apply Hexit; [done|by rewrite Ha1, He1]]. apply post_ret. apply Hk; [by etransitivity|done|done].
  - apply Hexit; [by eexists [_]|]. cbn. rewrite !app_nil_r. by eapply inv_prefix.
Qed.

Lemma echo_turn_post fuel zeromask newmask oldmask fuel0 p0 s p :
  dgq_inv s p → later p0 p → (fuel0 ≤ fuel)%nat →
  post (echo_turn sockfd fuel zeromask newmask oldmask s) p (sigio_post dgq_inv fuel0 p0).
Proof.
  intros Hs Hl Hf. unfold echo_turn. apply post_bind. eapply post_weaken.
  { apply (wait_queue_post zeromask fuel0 p0 fuel s p Hs Hl); [by apply later_waits|lia]. }
  intros o p1 (Hp1 & Hl1 & Ho). destruct o as [s1| | | |]; cbn [through]; try done. destruct Ho as [Hs1 Hn1]. clear s p Hs Hl.
  apply silent_step; [apply silent_or_err_sys; by intros|apply fine_or_err_sys|done|done|].
  intros _ p2 (_ & Ha2 & He2 & _)%frame_silent Hl2.
  assert (Hs2 : dgq_inv s1 p2) by (destruct Hs1 as (? & ? & E); split; [done|]; split; [done|]; by rewrite Ha2, He2).
  apply deliver_step; [apply Hs2|done|by eapply inv_prefix|]. intros s3 p3 Hfill3 Hl3.
  pose proof (inv_fills _ _ _ _ Hs2 Hfill3) as Hs3. assert (Hn3 : 0 < nqueue s3) by (destruct Hfill3 as (_ & _ & _ & ? & _); lia).
  pose proof Hs3 as (Hr3 & Hg3 & Ha3). cbn zeta.
  assert (E : (dg_data (dg s3 !!! Z.to_nat (iget s3)), dg_sa (dg s3 !!! Z.to_nat (iget s3))) = entry s3 0).
  { unfold entry. rewrite Z.add_0_r. rewrite Hg3. done. }
  change (Sendto sockfd (dg_data (dg s3 !!! Z.to_nat (iget s3))) (dg_sa (dg s3 !!! Z.to_nat (iget s3)))) with
    (let e := (dg_data (dg s3 !!! Z.to_nat (iget s3)), dg_sa (dg s3 !!! Z.to_nat (iget s3))) in Sendto sockfd e.1 e.2).
  rewrite E. cbn zeta. apply (Sendto_step _ _ _ _ s3 p3 Hs3 Hn3 Hl3). intros p4 Hl4 Ha4 He4.
  rewrite (queue_drop s3 Hr3 Hn3) in Ha3.
  assert (Hp4 : echoed p4 `prefix_of` arrived p4).
  { rewrite Ha4, He4, Ha3. apply prefix_app. by eexists. }
  apply deliver_step; [done|done|done|]. intros s5 p5 Hf5 Hl5.
  assert (Hp5 : echoed p5 `prefix_of` arrived p5).
  { destruct Hf5 as (_ & _ & _ & _ & _ & -> & _ & new & _ & ->). by apply prefix_app_r. }
  set (s6 := Dgq (dg s5) (cntread s5) (next (iget s5)) (iput s5) (nqueue s5)).
  apply deliver_step; [apply Hf5|done|done|]. intros s7 p7 Hf7 Hl7.
  assert (Hp7 : echoed p7 `prefix_of` arrived p7).
  { destruct Hf7 as (_ & _ & _ & _ & _ & -> & _ & new & _ & ->). by apply prefix_app_r. }
  apply silent_step; [apply silent_or_err_sys; by intros|apply fine_or_err_sys|done|done|].
  intros _ p8 (Hl78 & Ha8 & He8 & _)%frame_silent Hl8. apply post_ret.
  destruct Hf5 as (Hr5 & Hg5 & Hh5 & Hn5 & _ & He5 & _ & new5 & Hq5 & Ha5).
  destruct Hf7 as (Hr7 & Hg7 & Hh7 & Hn7 & _ & He7 & _ & new7 & Hq7 & Ha7).
  split; [by rewrite Ha8, He8|]. split; [done|].
  change (queue s6) with (queue s5) in Hq7. change (head s6) with (head s5) in Hh7. change (nqueue s6) with (nqueue s5) in Hn7.
  change (iget s6) with (next (iget s5)) in Hg7.
  pose proof Hr7 as (Hd7 & Hc7 & Hi7 & Hm7).
  split; [split_and!; try done; cbn [iput nqueue]; lia|]. split.
  - cbn [iget]. rewrite Hg7, Hg5, Hg3, <- Hh5, <- Hh7. unfold head at 2. cbn [iput nqueue].
    rewrite next_mod by (apply Z.mod_pos_bound; done). unfold head. rewrite Zplus_mod_idemp_l. f_equal. lia.
  - rewrite (queue_drop s7 Hr7 ltac:(lia)) in Hq7. rewrite Hq5, (queue_drop s3 Hr3 Hn3) in Hq7.
    apply (f_equal tail) in Hq7. cbn [tail app] in Hq7. rewrite Ha8, Ha7, Ha5, Ha4, Ha3, He8, He7, He5, He4. rewrite Hq7, <- !app_assoc. done.
Qed.
Lemma echo_turns_post fuel zeromask newmask oldmask p0 : ∀ turns s p,
  dgq_inv s p → later p0 p →
  post (echo_turns sockfd turns fuel zeromask newmask oldmask s) p (sigio_post dgq_inv fuel p0).
Proof.
  induction turns as [|t IH]; intros s p Hs Hl; cbn [echo_turns].
  { apply post_ret. split; [by eapply inv_prefix|done]. }
  apply post_bind. eapply post_weaken; [by apply echo_turn_post|].
  intros o p1 (Hp1 & Hl1 & Ho). destruct o as [s1| | | |]; cbn [through]; try done. by apply IH.
Qed.
End loop.

(** ** The start *)

Lemma emits_silent p p' : extends silent p p' → later p p' ∧ arrived p' = arrived p ∧ echoed p' = echoed p.
Proof.
  intros (t & Ht & Hq).
  set (p2 := Proc (p_trace p') (p_errno p') (p_h_errno p') (p_daemon_proc p') (p_res_options p') (p_next p) (p_live p)).
  assert (Hf : frame silent p p2) by (split; [by exists t|done]).
  destruct (frame_silent _ _ Hf) as (Hl & Ha & He & _). done.
Qed.
Lemma dg_init_silent {K : Kernel} clilen todo : emits silent (dg_init todo clilen) ∧ fine_run False (dg_init todo clilen).
Proof.
  induction todo as [|todo [IH1 IH2]]; cbn [dg_init]; [split; [apply emits_ret|apply fine_ret]|].
  assert (Hm : ∀ n, emits silent (Malloc n) ∧ fine_run False (Malloc n)).
  { intros n. unfold Malloc, malloc. split.
    - apply emits_bind; [apply emits_bind; [by apply emits_call|intros []; emits_tac]|]. intros [q|]; [apply emits_ret|].
      intros p. apply framed_silent_err.
    - apply fine_bind; [apply fine_bind; [apply fine_call|]|]; [intros [];[|apply fine_ret]; intros p; done|].
      intros [q|]; auto with fine. }
  split.
  - apply emits_bind; [apply Hm|]. intros _. apply emits_bind; [apply Hm|]. by intros _.
  - apply fine_bind; [apply Hm|]. intros _. apply fine_bind; [apply Hm|]. by intros _.
Qed.
Lemma Signal_silent {K : Kernel} signo h : framed silent (Signal signo h) ∧ fine_run False (Signal signo h).
Proof.
  unfold Signal, signal. split.
  - repeat first [apply framed_bind; [|intros ?]|apply framed_silent_err|case_match|progress framed_tac|apply framed_call; by intros].
  - fine_tac.
Qed.
Lemma inv_silent s p p' : arrived p' = arrived p → echoed p' = echoed p → dgq_inv s p → dgq_inv s p'.
Proof. intros Ha He (? & ? & E). split; [done|]. split; [done|]. by rewrite Ha, He. Qed.

Section keep.
Context {K : Kernel} (Q : dgq → proc → Prop) (fuel0 : nat) (p0 : proc) (sockfd : Z).

(** Steps that keep the invariant. *)
Lemma keep_step {A} (m : M A) (k : A → M dgq) s p :
  framed silent m → fine_run False m → later p0 p → dgq_inv s p →
  (∀ a p', later p0 p' → dgq_inv s p' → post (k a) p' (sigio_post Q fuel0 p0)) →
  post (m ≫= k) p (sigio_post Q fuel0 p0).
Proof.
  intros Hf Hm Hl Hs Hk. apply silent_step; [done..|by eapply inv_prefix|].
  intros a p' (_ & Ha & He & _)%frame_silent Hl'. apply Hk; [done|]. by eapply inv_silent.
Qed.
Lemma keep_or_err_sys {A} (c : sys (res A)) msg (k : A → M dgq) s p :
  (∀ r, silent (Event c r)) → later p0 p → dgq_inv s p →
  (∀ a p', later p0 p' → dgq_inv s p' → post (k a) p' (sigio_post Q fuel0 p0)) →
  post (or_err_sys c msg ≫= k) p (sigio_post Q fuel0 p0).
Proof. intros Hc. apply keep_step; [by apply silent_or_err_sys|apply fine_or_err_sys]. Qed.
Lemma keep_deliver (k : dgq → M dgq) s p :
  later p0 p → dgq_inv s p →
  (∀ s' p', later p0 p' → dgq_inv s' p' → post (k s') p' (sigio_post Q fuel0 p0)) →
  post (deliver sockfd s ≫= k) p (sigio_post Q fuel0 p0).
Proof.
  intros Hl Hs Hk. apply deliver_step; [apply Hs|done|by eapply inv_prefix|].
  intros s' p' Hf Hl'. apply Hk; [done|]. by eapply inv_fills.
Qed.
End keep.

(** ** Properties *)

(** C18: the echo server driven by SIGIO, from its start and for any number of
    turns, wherever the signals arrive: the datagrams sent back are those
    received, in the order they came, each to the address it came from; what is
    not sent yet is in the ring, whose first entry is the next one.  It stops
    only by [exit(1)], and no index leaves the arrays; fuel runs out only by that many
    returns of [sigsuspend]. *)
Theorem dg_echo_fifo (K : Kernel) sockfd turns fuel clilen hup io :
  post (dg_echo sockfd turns fuel clilen hup io) proc0 (sigio_post dgq_inv fuel proc0).
Proof.
  unfold dg_echo. apply post_bind. eapply post_weaken.
  { apply post_and; [apply dg_init_silent|apply emits_post, dg_init_silent]. }
  intros o p1 [Ho (Hl1 & Ha1 & He1)%emits_silent].
  set (s0 := Dgq _ _ 0 0 0).
  assert (Hs1 : dgq_inv s0 p1).
  { split; [split_and!; done|]. split; [done|]. by rewrite Ha1, He1. }
  destruct o as [[]|st| | |]; cbn [through]; try done.
  2: { split; [by rewrite Ha1, He1|]. split; [done|exact Ho]. }
  clear Ho Ha1 He1. cbn zeta.
  do 2 (apply keep_step with (s := s0); [apply Signal_silent|apply Signal_silent|done|done|]; clear Hl1 Hs1; intros _ ? Hl1 Hs1).
  apply keep_step with (s := s0); [apply framed_call; by intros|apply fine_call|done|done|]. intros pid p4 Hl4 Hs4.
  eapply keep_or_err_sys; [by intros|done..|]. intros _ p5 Hl5 Hs5.
  eapply keep_or_err_sys; [by intros|done..|]. intros _ p6 Hl6 Hs6.
  apply keep_deliver; [done..|]. intros s1 p7 Hl7 Hs7.
  eapply keep_or_err_sys; [by intros|done..|]. intros _ p8 Hl8 Hs8.
  apply keep_deliver; [done..|]. intros s2 p9 Hl9 Hs9.
  do 5 (eapply keep_or_err_sys; [by intros|done..|]; intros ? ? ? ?). by apply echo_turns_post.
Qed.

(** The ring never holds [QSIZE] datagrams: the handler, having filled the last
    entry, ends the process instead of asking whether more have come. *)
Theorem sig_io_overflow (K : Kernel) sockfd s p d :
  ring_ok s → nqueue s = QSIZE - 1 → answer (p_trace p) (sys_recvfrom sockfd MAXDG) = Ok d →
  (sig_io sockfd s p).1 = Exit 1.
Proof.
  intros Hs Hn Hans. cut (post (sig_io sockfd s) p (λ o _, o = Exit 1)).
  { unfold post. by destruct (sig_io sockfd s p). }
  unfold sig_io. cbn [sig_io_loop Z.to_nat Pos.to_nat Pos.iter_op]. change (S (Z.to_nat QSIZE)) with 9%nat. cbn [sig_io_loop].
  rewrite (proj2 (Z.leb_gt _ _)) by lia. apply post_bind, post_syscall; intros r Hr; rewrite Hans in Hr; simplify_eq.
  destruct r as [buf from]. cbn [through nqueue]. rewrite Hn. cbn [Z.leb].
  eapply post_weaken; [apply err_quit_exits|]. by intros o p' [-> _].
Qed.

(** Three datagrams wait on the socket; SIGIO comes when the loop waits. *)
Definition three_datagrams : list (list Z * sockaddr) :=
  [([1], SaIn 1 [10; 0; 0; 1]); ([2; 2], SaIn 2 [10; 0; 0; 2]); ([3], SaIn 3 [10; 0; 0; 3])].
Definition ready : Kernel := λ A t c,
  (match c in sys A return A → A with
   | sys_recvfrom _ _ => λ _,
       match three_datagrams !! List.length (seen arrived1 t) with Some d => Ok d | None => Err EWOULDBLOCK end
   | sys_flag signo => λ _, signo =? SIGIO
   | _ => λ a, a
   end) (plain t c).
Lemma sig_io_overflow_witness :
  (sig_io (K := ready) 3 (Dgq (replicate 8 inhabitant) (replicate 9 0) 0 7 7) proc0).1 = Exit 1.
Proof. apply (sig_io_overflow ready _ _ _ ([1], SaIn 1 [10; 0; 0; 1])); [split_and!; done|reflexivity|reflexivity]. Defined.
Example ready_echoes :
  let '(o, p) := dg_echo (K := ready) 3 3 5 16 1 2 proc0 in
  seen echoed1 (p_trace p) = three_datagrams ∧ match o with Ret s => nqueue s = 0 ∧ iget s = 3 | _ => False end.
Proof. by vm_compute. Qed.
