(* ===== verification/Threads.v ===== *)
(** The threaded web client: src/unpv13e/threads/web03.c.

    The main thread creates a thread for each file, at most [maxnconn] at a
    time, and waits on a condition variable until one has counted itself in
    [ndone]; it then joins those whose file is marked [F_DONE].  A state is the
    shared variables with the place of each thread in its code; a step executes
    one statement of one thread (several, where no other thread uses what they
    touch), so that the executions are all the interleavings.  A call that fails
    ends the process and has no step. *)
From S2P Require Import Prelude.

Definition MAXFILES : Z := 20.
Definition F_CONNECTING : Z := 1.
Definition F_READING : Z := 2.
Definition F_DONE : Z := 4.
Definition F_JOINED : Z := 8.

(** Where the main thread is. *)
Inductive main_pc :=
| M_left                       (** [while (nlefttoread > 0)] *)
| M_conn                       (** [while (nconn < maxnconn && nlefttoconn > 0)] *)
| M_find (i : nat)             (** [if (file\[i\].f_flags == 0) break] *)
| M_flag (i : nat)             (** [file\[i\].f_flags = F_CONNECTING] *)
| M_create (i : nat)           (** [Pthread_create(&tid, NULL, &do_get_read, &file\[i\])] *)
| M_tid (i t : nat)            (** [file\[i\].f_tid = tid] *)
| M_count                      (** [nconn++; nlefttoconn--] *)
| M_lock                       (** [Pthread_mutex_lock(&ndone_mutex)] *)
| M_test                       (** [while (ndone == 0)] *)
| M_wait                       (** blocked in [Pthread_cond_wait] *)
| M_relock                     (** woken, about to lock the mutex again *)
| M_scan (i : nat)             (** [if (file\[i\].f_flags & F_DONE)] *)
| M_join (i : nat)             (** [Pthread_join(file\[i\].f_tid, &fptr)] *)
| M_joined (i fptr : nat)      (** the rest of the body *)
| M_unlock                     (** [Pthread_mutex_unlock(&ndone_mutex)] *)
| M_exit.                      (** [exit(0)] *)

(** Where a thread is in [do_get_read]. *)
Inductive thread_pc :=
| T_connect                    (** [Tcp_connect] *)
| T_write                      (** [write_get_cmd(fptr)] *)
| T_read                       (** [Read] in the loop *)
| T_close                      (** [Close(fd)] *)
| T_done                       (** [fptr->f_flags = F_DONE] *)
| T_lock                       (** [Pthread_mutex_lock(&ndone_mutex)] *)
| T_count                      (** [ndone++] *)
| T_signal                     (** [Pthread_cond_signal(&ndone_cond)] *)
| T_unlock                     (** [Pthread_mutex_unlock(&ndone_mutex)] *)
| T_exit.                      (** terminated *)

(** An entry of [file], and a thread with its argument; a thread's
    identifier is its index. *)
Record file_t := File { f_flags : Z; f_tid : nat }.
Record thread := Thr { vptr : nat; pc : thread_pc }.
Inductive owner := Main | Thread (t : nat).
#[global] Instance thread_pc_eq : EqDecision thread_pc.
Proof. solve_decision. Defined.

Record web := Web {
  file : list file_t;
  nconn : Z;
  nlefttoconn : Z;
  nlefttoread : Z;
  ndone : Z;
  ndone_mutex : option owner;
  main : main_pc;
  threads : list thread
}.

(** A statement executed, or the end of the process by [err_quit]. *)
Inductive result := Next (s : web) | Quit.

Definition set_main (m : main_pc) (s : web) : web :=
  Web (file s) (nconn s) (nlefttoconn s) (nlefttoread s) (ndone s) (ndone_mutex s) m (threads s).
Definition set_mutex (o : option owner) (s : web) : web :=
  Web (file s) (nconn s) (nlefttoconn s) (nlefttoread s) (ndone s) o (main s) (threads s).
Definition set_flags (i : nat) (v : Z) (s : web) : web :=
  Web (alter (λ f, File v (f_tid f)) i (file s)) (nconn s) (nlefttoconn s) (nlefttoread s) (ndone s)
    (ndone_mutex s) (main s) (threads s).
Definition set_tid (i t : nat) (s : web) : web :=
  Web (alter (λ f, File (f_flags f) t) i (file s)) (nconn s) (nlefttoconn s) (nlefttoread s) (ndone s)
    (ndone_mutex s) (main s) (threads s).
Definition set_pc (t : nat) (p : thread_pc) (s : web) : web :=
  Web (file s) (nconn s) (nlefttoconn s) (nlefttoread s) (ndone s) (ndone_mutex s) (main s)
    (alter (λ th, Thr (vptr th) p) t (threads s)).
Definition add_counts (dconn dlefttoconn dlefttoread ddone : Z) (s : web) : web :=
  Web (file s) (nconn s + dconn) (nlefttoconn s + dlefttoconn) (nlefttoread s + dlefttoread) (ndone s + ddone)
    (ndone_mutex s) (main s) (threads s).

(** ** main

    [None]: blocked. *)
Definition main_step (maxnconn : Z) (s : web) : option result :=
  match main s with
  | M_left => Some (Next (set_main (if 0 <? nlefttoread s then M_conn else M_exit) s))
  | M_conn =>
      Some (Next (set_main (if (nconn s <? maxnconn) && (0 <? nlefttoconn s) then M_find 0 else M_lock) s))
  | M_find i =>
      match file s !! i with
      | None => Some Quit
      | Some f => Some (Next (set_main (if f_flags f =? 0 then M_flag i else M_find (S i)) s))
      end
  | M_flag i => Some (Next (set_main (M_create i) (set_flags i F_CONNECTING s)))
  | M_create i =>
      Some (Next (Web (file s) (nconn s) (nlefttoconn s) (nlefttoread s) (ndone s) (ndone_mutex s)
                    (M_tid i (List.length (threads s))) (threads s ++ [Thr i T_connect])))
  | M_tid i t => Some (Next (set_main M_count (set_tid i t s)))
  | M_count => Some (Next (set_main M_conn (add_counts 1 (-1) 0 0 s)))
  | M_lock | M_relock =>
      match ndone_mutex s with
      | None => Some (Next (set_main M_test (set_mutex (Some Main) s)))
      | Some _ => None
      end
  | M_test => Some (Next (if ndone s =? 0 then set_main M_wait (set_mutex None s) else set_main (M_scan 0) s))
  | M_wait => None
  | M_scan i =>
      match file s !! i with
      | None => Some (Next (set_main M_unlock s))
      | Some f => Some (Next (set_main (if Z.land (f_flags f) F_DONE =? 0 then M_scan (S i) else M_join i) s))
      end
  | M_join i =>
      match file s !! i with
      | Some f =>
          match threads s !! f_tid f with
          | Some (Thr fptr T_exit) => Some (Next (set_main (M_joined i fptr) s))
          | _ => None
          end
      | None => None
      end
  | M_joined i fptr =>
      Some (if Nat.eqb i fptr then Next (set_main (M_scan (S i)) (add_counts (-1) 0 (-1) (-1) (set_flags fptr F_JOINED s)))
            else Quit)
  | M_unlock => Some (Next (set_main M_left (set_mutex None s)))
  | M_exit => None
  end.

(** ** do_get_read

    [n] is what [Read] returns. *)
Definition thread_step (n : Z) (t : nat) (s : web) : option web :=
  match threads s !! t with
  | None => None
  | Some th =>
      match pc th with
      | T_connect => Some (set_pc t T_write s)
      | T_write => Some (set_pc t T_read (set_flags (vptr th) F_READING s))
      | T_read => Some (set_pc t (if n =? 0 then T_close else T_read) s)
      | T_close => Some (set_pc t T_done s)
      | T_done => Some (set_pc t T_lock (set_flags (vptr th) F_DONE s))
      | T_lock =>
          match ndone_mutex s with
          | None => Some (set_pc t T_count (set_mutex (Some (Thread t)) s))
          | Some _ => None
          end
      | T_count => Some (set_pc t T_signal (add_counts 0 0 0 1 s))
      | T_signal =>
          Some (set_pc t T_unlock (match main s with M_wait => set_main M_relock s | _ => s end))
      | T_unlock => Some (set_pc t T_exit (set_mutex None s))
      | T_exit => None
      end
  end.

(** [main] as it enters its loop, from the number of its arguments. *)
Definition nfiles (argc : Z) : nat := Z.to_nat (Z.min (argc - 4) MAXFILES).
Definition web_init (argc : Z) : web :=
  Web (replicate (nfiles argc) (File 0 0)) 0 (Z.of_nat (nfiles argc)) (Z.of_nat (nfiles argc)) 0 None M_left [].

Definition at_exit (m : main_pc) : bool := match m with M_exit => true | _ => false end.

Section step.
Context (maxnconn : Z).

(** The steps of the process until [exit]; the main thread may also wake up
    without a signal. *)
Inductive step : relation web :=
| step_main s s' : main_step maxnconn s = Some (Next s') → step s s'
| step_thread n t s s' : main s ≠ M_exit → thread_step n t s = Some s' → step s s'
| step_spurious s : main s = M_wait → step s (set_main M_relock s).

(** The steps without spurious wakeups and without data from the servers: only
    the end of a reply is read. *)
Inductive calm : relation web :=
| calm_main s s' : main_step maxnconn s = Some (Next s') → calm s s'
| calm_thread t s s' : main s ≠ M_exit → thread_step 0 t s = Some s' → calm s s'.

(** Executions from a schedule: who moves next; every [Read] finds the end. *)
Fixpoint run (ts : list owner) (s : web) : option web :=
  match ts with
  | [] => Some s
  | Main :: ts' => match main_step maxnconn s with Some (Next s1) => run ts' s1 | _ => None end
  | Thread t :: ts' =>
      if at_exit (main s) then None
      else match thread_step 0 t s with Some s1 => run ts' s1 | None => None end
  end.
End step.

(** ** Specification *)

(** The critical sections. *)
Definition main_inside (m : main_pc) : bool :=
  match m with M_test | M_scan _ | M_join _ | M_joined _ _ | M_unlock => true | _ => false end.
Definition thread_inside (p : thread_pc) : bool :=
  match p with T_count | T_signal | T_unlock => true | _ => false end.

(** Threads that have counted themselves in [ndone]; files whose thread has been
    joined; files whose thread is not counted in [nconn] yet. *)
Definition counted (p : thread_pc) : bool := match p with T_signal | T_unlock | T_exit => true | _ => false end.
Definition joined (f : file_t) : bool := f_flags f =? F_JOINED.
Definition pending (m : main_pc) : Z := match m with M_tid _ _ | M_count => 1 | _ => 0 end.

(** What a thread's file shows of it. *)
Definition shows (p : thread_pc) (v : Z) : Prop :=
  match p with
  | T_connect | T_write => v = F_CONNECTING
  | T_read | T_close | T_done => v = F_READING
  | T_lock | T_count | T_signal | T_unlock => v = F_DONE
  | T_exit => v = F_DONE ∨ v = F_JOINED
  end.

(** The main thread joins a thread that has marked its file but not counted
    itself: it holds the mutex that the thread waits for. *)
Definition deadlock (s : web) : Prop :=
  ∃ i f fptr, main s = M_join i ∧ ndone_mutex s = Some Main ∧ file s !! i = Some f ∧
    threads s !! f_tid f = Some (Thr fptr T_lock).

(** All files fetched, all threads joined. *)
Definition finished (s : web) : Prop :=
  main s = M_exit ∧ nlefttoread s = 0 ∧ nconn s = 0 ∧ List.length (threads s) = List.length (file s) ∧
  ∀ i f, file s !! i = Some f → f_flags f = F_JOINED ∧ threads s !! i = Some (Thr i T_exit).

(** ** The invariant *)

(** What holds where the main thread is, besides the counts. *)
Definition main_ok (maxnconn : Z) (s : web) : Prop :=
  let k := List.length (threads s) in
  match main s with
  | M_find i => (i ≤ k < List.length (file s))%nat ∧ nconn s < maxnconn
  | M_flag i => i = k ∧ (k < List.length (file s))%nat ∧ nconn s < maxnconn
  | M_create i => i = k ∧ (∃ f, file s !! i = Some f ∧ f_flags f = F_CONNECTING) ∧ nconn s < maxnconn
  | M_tid i t => t = i ∧ S i = k ∧ nconn s < maxnconn
  | M_count => nconn s < maxnconn
  | M_lock | M_relock => 0 < maxnconn → 0 < nconn s
  | M_test => 0 < maxnconn → 0 < nconn s
  | M_wait => (0 < maxnconn → 0 < nconn s) ∧
      (ndone s ≠ 0 → ∃ t th, threads s !! t = Some th ∧ pc th = T_signal)
  | M_scan _ => maxnconn = 1 → ndone s = nconn s
  | M_join i => (∃ f, file s !! i = Some f ∧ f_flags f = F_DONE) ∧ (maxnconn = 1 → ndone s = nconn s)
  | M_joined i fptr => fptr = i ∧ threads s !! i = Some (Thr i T_exit) ∧
      (∃ f, file s !! i = Some f ∧ f_flags f = F_DONE) ∧ (maxnconn = 1 → ndone s = nconn s)
  | M_unlock => ndone s = 0
  | M_left | M_conn => True
  | M_exit => nlefttoread s = 0
  end.

(** Where the main thread knows that files are left. *)
Definition busy (m : main_pc) : bool :=
  match m with M_conn | M_find _ | M_flag _ | M_create _ | M_tid _ _ | M_count => true | _ => false end.

(** The files before this one have been looked at since the mutex was locked. *)
Definition scanned (m : main_pc) : nat :=
  match m with M_scan i | M_join i | M_joined i _ => i | _ => 0%nat end.

Record web_inv (maxnconn : Z) (s : web) : Prop := {
  wi_le : (List.length (threads s) ≤ List.length (file s))%nat;
  wi_file : ∀ i th, threads s !! i = Some th →
    vptr th = i ∧ ∃ f, file s !! i = Some f ∧ shows (pc th) (f_flags f) ∧
      (f_tid f = i ∨ main s = M_tid i i);
  wi_fresh : ∀ i f, file s !! i = Some f → (List.length (threads s) ≤ i)%nat →
    f_flags f = 0 ∨ main s = M_create i ∧ f_flags f = F_CONNECTING;
  wi_main : main_ok maxnconn s;
  wi_busy : busy (main s) = true → 0 < nlefttoread s;
  wi_owner : main_inside (main s) = true ↔ ndone_mutex s = Some Main;
  wi_thread : ∀ t th, threads s !! t = Some th → thread_inside (pc th) = true ↔ ndone_mutex s = Some (Thread t);
  wi_holder : ∀ t, ndone_mutex s = Some (Thread t) → is_Some (threads s !! t);
  wi_toconn : nlefttoconn s = Z.of_nat (List.length (file s)) - Z.of_nat (List.length (threads s)) + pending (main s);
  wi_toread : nlefttoread s = Z.of_nat (List.length (file s)) - countb joined (file s);
  wi_conn : nconn s = Z.of_nat (List.length (threads s)) - countb joined (file s) - pending (main s);
  wi_done : ndone s = countb (λ th, counted (pc th)) (threads s) - countb joined (file s);
  wi_max : nconn s ≤ Z.max 0 maxnconn;
  wi_scanned : ∀ i f th, (i < scanned (main s))%nat → file s !! i = Some f → threads s !! i = Some th →
    counted (pc th) = true → joined f = true
}.

(** Joined files are those of threads that have ended: [ndone] is not negative. *)
Lemma joined_counted s : (∀ i th, threads s !! i = Some th → ∃ f, file s !! i = Some f ∧ shows (pc th) (f_flags f)) →
  (∀ i f, file s !! i = Some f → joined f = true → is_Some (threads s !! i)) →
  countb joined (file s) ≤ countb (λ th, counted (pc th)) (threads s).
Proof.
  intros Hf Hs. apply countb_le. intros i f Hi Hj. destruct (Hs i f Hi Hj) as [th Ht]. exists th. split; [done|].
  destruct (Hf i th Ht) as (f' & Hi' & Hsh). simplify_eq. unfold joined in Hj. apply Z.eqb_eq in Hj.
  by destruct (pc th); simpl in *; rewrite Hj in Hsh.
Qed.
Lemma inv_joined maxnconn s i f : web_inv maxnconn s → file s !! i = Some f → joined f = true →
  threads s !! i = Some (Thr i T_exit).
Proof.
  intros Hs Hi Hj. unfold joined in Hj. apply Z.eqb_eq in Hj.
  destruct (threads s !! i) as [th|] eqn:Ht.
  - destruct (wi_file _ _ Hs i th Ht) as (Hv & f' & Hi' & Hsh & _). simplify_eq. destruct th as [v p]; simpl in *.
    rewrite Hj in Hsh. by destruct p.
  - apply lookup_ge_None in Ht. by destruct (wi_fresh _ _ Hs i f Hi Ht) as [E|[_ E]]; rewrite E in Hj.
Qed.
Lemma inv_ndone maxnconn s : web_inv maxnconn s → 0 ≤ ndone s ≤ nconn s + pending (main s).
Proof.
  intros Hs. rewrite (wi_done _ _ Hs), (wi_conn _ _ Hs). split.
  - assert (countb joined (file s) ≤ countb (λ th, counted (pc th)) (threads s)); [|lia]. apply joined_counted.
    + intros i th Ht. destruct (wi_file _ _ Hs i th Ht) as (_ & f & ? & ? & _). eauto.
    + intros i f Hi Hj. rewrite (inv_joined _ _ _ _ Hs Hi Hj). by eexists.
  - pose proof (countb_le_length (λ th, counted (pc th)) (threads s)). lia.
Qed.
Lemma inv_left maxnconn s : web_inv maxnconn s → 0 ≤ nlefttoread s ∧ 0 ≤ nlefttoconn s ∧ 0 ≤ nconn s + pending (main s).
Proof.
  intros Hs. pose proof (inv_ndone _ _ Hs). pose proof (countb_le_length joined (file s)). pose proof (wi_le _ _ Hs).
  rewrite (wi_toread _ _ Hs), (wi_toconn _ _ Hs). split; [lia|]. split; [|lia]. destruct (main s); simpl; lia.
Qed.

Lemma init_inv maxnconn argc : web_inv maxnconn (web_init argc).
Proof.
  assert (Hj : countb joined (replicate (nfiles argc) (File 0 0)) = 0).
  { apply countb_none. by intros i f [-> _]%lookup_replicate. }
  split; cbn; rewrite ?length_replicate, ?Hj; try lia; try done.
  - intros i f [-> _]%lookup_replicate _. by left.
Qed.

(** ** The threads keep it *)

(** A step of thread [t] from [p] to [p']. *)
Record moves (t : nat) (p p' : thread_pc) (s s' : web) : Prop := {
  mv_threads : threads s' = alter (λ th, Thr (vptr th) p') t (threads s);
  mv_length : List.length (file s') = List.length (file s);
  mv_others : ∀ i, i ≠ t → file s' !! i = file s !! i;
  mv_file : ∀ f, file s !! t = Some f → shows p (f_flags f) →
    ∃ f', file s' !! t = Some f' ∧ f_tid f' = f_tid f ∧ joined f' = joined f ∧ shows p' (f_flags f') ∧
      (f_flags f = F_DONE → f_flags f' = F_DONE);
  mv_joined : ∀ f, file s !! t = Some f → shows p (f_flags f) → countb joined (file s') = countb joined (file s);
  mv_counts : nconn s' = nconn s ∧ nlefttoconn s' = nlefttoconn s ∧ nlefttoread s' = nlefttoread s;
  mv_ndone : ndone s' = ndone s + Z.b2z (counted p') - Z.b2z (counted p);
  mv_main : main s' = main s ∨ main s = M_wait ∧ main s' = M_relock
}.

Lemma set_flags_moves t v p p' s s' :
  s' = set_pc t p' (set_flags t v s) → shows p' v → counted p' = counted p →
  (∀ w, shows p w → w ≠ F_JOINED ∧ w ≠ F_DONE) → v ≠ F_JOINED → moves t p p' s s'.
Proof.
  intros -> Hsh Hc Hp Hv. split; cbn; try done.
  - apply length_alter.
  - intros i Hne. by rewrite list_lookup_alter_ne.
  - intros f Hi Hw. rewrite list_lookup_alter_eq, Hi. eexists. split; [done|]. cbn.
    destruct (Hp _ Hw) as [H1 H2]. split_and!; try done. unfold joined. cbn. by rewrite !(proj2 (Z.eqb_neq _ _)).
  - intros f Hi Hw. destruct (Hp _ Hw) as [H1 H2]. rewrite (countb_alter _ _ _ _ _ Hi). unfold joined. cbn.
    rewrite !(proj2 (Z.eqb_neq _ _)) by done. lia.
  - rewrite Hc. lia.
  - by left.
Qed.
Lemma set_pc_moves t p p' s s' :
  threads s' = alter (λ th, Thr (vptr th) p') t (threads s) → file s' = file s →
  (nconn s' = nconn s ∧ nlefttoconn s' = nlefttoconn s ∧ nlefttoread s' = nlefttoread s) →
  ndone s' = ndone s + Z.b2z (counted p') - Z.b2z (counted p) →
  (main s' = main s ∨ main s = M_wait ∧ main s' = M_relock) → (∀ v, shows p v → shows p' v) → moves t p p' s s'.
Proof.
  intros Ht Hf Hn Hd Hm Hsh. split; rewrite ?Hf; try done.
  intros f Hi Hw. exists f. split_and!; try done. by apply Hsh.
Qed.

(** The mutex: taken, given back or left alone by thread [t]. *)
Definition mutex_step (t : nat) (p p' : thread_pc) (s s' : web) : Prop :=
  (ndone_mutex s' = ndone_mutex s ∧ thread_inside p' = thread_inside p) ∨
  (ndone_mutex s = None ∧ ndone_mutex s' = Some (Thread t) ∧ thread_inside p' = true) ∨
  (ndone_mutex s = Some (Thread t) ∧ ndone_mutex s' = None ∧ thread_inside p' = false).

Lemma moves_thread t p p' s s' i th' :
  moves t p p' s s' → threads s' !! i = Some th' →
  (i = t ∧ ∃ th, threads s !! t = Some th ∧ th' = Thr (vptr th) p') ∨ (i ≠ t ∧ threads s !! i = Some th').
Proof.
  intros Hm Hi. rewrite (mv_threads _ _ _ _ _ Hm) in Hi. apply lookup_alter_inv in Hi as [(-> & th & ? & ->)|[? ?]]; eauto.
Qed.

Section keep.
Context (maxnconn : Z).

Lemma moves_main t p p' s s' :
  web_inv maxnconn s → threads s !! t = Some (Thr t p) → p ≠ T_exit → moves t p p' s s' → mutex_step t p p' s s' →
  (p = T_signal → main s = M_wait → main s' = M_relock) → (counted p' = counted p ∨ p = T_count ∧ p' = T_signal) →
  main_ok maxnconn s'.
Proof.
  intros Hs Ht Hp Hm Hx Hsig Hcnt. pose proof (wi_main _ _ Hs) as Hok. unfold main_ok in *.
  assert (El : List.length (threads s') = List.length (threads s)) by (rewrite (mv_threads _ _ _ _ _ Hm); apply length_alter).
  rewrite El, (mv_length _ _ _ _ _ Hm). destruct (mv_counts _ _ _ _ _ Hm) as (En & _ & Er).
  assert (Hflag : ∀ i f, file s !! i = Some f → f_flags f = F_DONE → ∃ f', file s' !! i = Some f' ∧ f_flags f' = F_DONE).
  { intros i f Hi Hf. destruct (decide (i = t)) as [->|Hne].
    - destruct (wi_file _ _ Hs t _ Ht) as (_ & f0 & Hi0 & Hsh & _). simplify_eq.
      destruct (mv_file _ _ _ _ _ Hm _ Hi Hsh) as (f' & Hi' & _ & _ & _ & Hd). eauto.
    - exists f. by rewrite (mv_others _ _ _ _ _ Hm i Hne). }
  assert (Hin : main_inside (main s) = true → ndone s' = ndone s).
  { intros Hin%(wi_owner _ _ Hs). rewrite (mv_ndone _ _ _ _ _ Hm).
    assert (Hthr : thread_inside p ≠ true) by (intros Hthr%(wi_thread _ _ Hs _ _ Ht); simplify_eq; congruence).
    destruct Hx as [[_ E]|[(E & _)|(E & _)]]; [|congruence..].
    destruct Hcnt as [->|[-> ->]]; [lia|done]. }
  destruct (mv_main _ _ _ _ _ Hm) as [Em|[Em Em']].
  2: { rewrite Em'. rewrite Em in Hok. rewrite En. tauto. }
  rewrite Em. destruct (main s) eqn:Epc; rewrite ?En, ?Er in *; try done; try (specialize (Hin eq_refl); by rewrite Hin).
  - destruct Hok as (-> & (f & Hf & Ef) & Hn). split_and!; [done| |done]. exists f.
    by rewrite (mv_others _ _ _ _ _ Hm) by (intros E; apply lookup_lt_Some in Ht; lia).
  - destruct Hok as [Hn Hok]. split; [done|]. intros Hd.
    destruct (decide (p = T_signal)) as [->|Hps]; [specialize (Hsig eq_refl eq_refl); congruence|].
    destruct (Z.eq_dec (ndone s) 0) as [E0|Hne].
    + rewrite (mv_ndone _ _ _ _ _ Hm), E0 in Hd. destruct Hcnt as [E|[-> ->]]; [rewrite E in Hd; lia|].
      exists t. eexists. by rewrite (mv_threads _ _ _ _ _ Hm), list_lookup_alter_eq, Ht.
    + destruct (Hok Hne) as (i & th & Hi & Hsi). exists i, th. split; [|done].
      rewrite (mv_threads _ _ _ _ _ Hm). rewrite list_lookup_alter_ne; [done|]. intros ->. by simplify_eq.
  - rewrite (Hin eq_refl). destruct Hok as [(f & Hi & Hf) ?]. split; [eauto|done].
  - rewrite (Hin eq_refl). destruct Hok as (-> & Hti & (f & Hi & Hf) & ?). split_and!; eauto.
    rewrite (mv_threads _ _ _ _ _ Hm). rewrite list_lookup_alter_ne; [done|]. intros ->. by simplify_eq.
Qed.

Lemma moves_inv t p p' s s' :
  web_inv maxnconn s → threads s !! t = Some (Thr t p) → p ≠ T_exit → moves t p p' s s' → mutex_step t p p' s s' →
  (p = T_signal → main s = M_wait → main s' = M_relock) → (counted p' = counted p ∨ p = T_count ∧ p' = T_signal) →
  web_inv maxnconn s'.
Proof.
  intros Hs Ht Hp Hm Hx Hsig Hcnt.
  pose proof (moves_main t p p' s s' Hs Ht Hp Hm Hx Hsig Hcnt) as Hmain.
  assert (El : List.length (threads s') = List.length (threads s)) by (rewrite (mv_threads _ _ _ _ _ Hm); apply length_alter).
  destruct (wi_file _ _ Hs t _ Ht) as (_ & f & Hi & Hsh & Htid).
  destruct (mv_file _ _ _ _ _ Hm f Hi Hsh) as (f' & Hi' & Etid & Ej & Hsh' & _).
  pose proof (mv_joined _ _ _ _ _ Hm f Hi Hsh) as EJ. destruct (mv_counts _ _ _ _ _ Hm) as (En & Ec & Er).
  pose proof (mv_length _ _ _ _ _ Hm) as Ef.
  assert (Hpend : pending (main s') = pending (main s)) by (by destruct (mv_main _ _ _ _ _ Hm) as [->|[-> ->]]).
  assert (Hown : ∀ o, o ≠ Thread t → ndone_mutex s' = Some o ↔ ndone_mutex s = Some o).
  { intros o Ho. destruct Hx as [[-> _]|[(-> & -> & _)|(-> & -> & _)]]; split; congruence. }
  split; rewrite ?El, ?Ef, ?EJ, ?Hpend, ?En, ?Ec, ?Er; try apply Hs; try done.
  - intros i th' [(-> & th & Hth & ->)|[Hne Hth]]%(moves_thread _ _ _ _ _ _ _ Hm); simplify_eq/=.
    + split; [done|]. exists f'. split; [done|]. split; [done|]. rewrite Etid.
      destruct Htid as [?|E]; [by left|right]. destruct (mv_main _ _ _ _ _ Hm) as [->|[E2 _]]; [done|congruence].
    + destruct (wi_file _ _ Hs i th' Hth) as (Hv & f0 & Hf0 & Hsh0 & Htid0). split; [done|]. exists f0.
      rewrite (mv_others _ _ _ _ _ Hm) by done. split; [done|]. split; [done|].
      destruct Htid0 as [?|E]; [by left|right]. destruct (mv_main _ _ _ _ _ Hm) as [->|[E2 _]]; [done|congruence].
  - intros i g Hg Hlt. assert (i ≠ t) by (intros ->; apply lookup_lt_Some in Ht; lia).
    rewrite (mv_others _ _ _ _ _ Hm) in Hg by done. destruct (wi_fresh _ _ Hs i g Hg Hlt) as [?|[E ?]]; [by left|right].
    destruct (mv_main _ _ _ _ _ Hm) as [->|[E2 _]]; [done|congruence].
  - intros Hb. apply (wi_busy _ _ Hs). by destruct (mv_main _ _ _ _ _ Hm) as [<-|[_ E]]; [|rewrite E in Hb].
  - rewrite Hown by done. rewrite <- (wi_owner _ _ Hs). by destruct (mv_main _ _ _ _ _ Hm) as [->|[-> ->]].
  - intros i th' [(-> & th & Hth & ->)|[Hne Hth]]%(moves_thread _ _ _ _ _ _ _ Hm); simplify_eq/=.
    + pose proof (wi_thread _ _ Hs _ _ Ht) as Hin. simpl in Hin.
      destruct Hx as [[-> ->]|[(_ & -> & ->)|(_ & -> & ->)]]; done.
    + rewrite Hown by congruence. by apply (wi_thread _ _ Hs).
  - intros i. destruct (decide (i = t)) as [->|Hne].
    + intros _. rewrite (mv_threads _ _ _ _ _ Hm), list_lookup_alter_eq, Ht. by eexists.
    + intros Hi1. rewrite Hown in Hi1 by congruence. rewrite (mv_threads _ _ _ _ _ Hm).
      rewrite list_lookup_alter_ne by done. by apply (wi_holder _ _ Hs).
  - rewrite (mv_ndone _ _ _ _ _ Hm), (mv_threads _ _ _ _ _ Hm), (countb_alter _ _ _ _ _ Ht), (wi_done _ _ Hs). cbn. lia.
  - intros i g th' Hlt Hg Hth' Hc.
    assert (Hlt' : (i < scanned (main s))%nat) by (by destruct (mv_main _ _ _ _ _ Hm) as [<-|[_ E]]; [|rewrite E in Hlt; simpl in Hlt; lia]).
    apply (moves_thread _ _ _ _ _ _ _ Hm) in Hth' as [(-> & th & Hth & ->)|[Hne Hth]]; simplify_eq/=.
    + rewrite Ej. apply (wi_scanned _ _ Hs t f _ Hlt' Hi Ht). simpl. destruct Hcnt as [<-|[-> ->]]; [done|].
      pose proof (proj1 (wi_thread _ _ Hs _ _ Ht) eq_refl) as Ho. exfalso.
      assert (Hin : main_inside (main s) = true) by (by destruct (main s); simpl in *; try lia).
      apply (wi_owner _ _ Hs) in Hin. congruence.
    + apply (wi_scanned _ _ Hs i g th' Hlt'); try done. by rewrite <- (mv_others _ _ _ _ _ Hm).
Qed.

Lemma thread_inv n t s s' : web_inv maxnconn s → thread_step n t s = Some s' → web_inv maxnconn s'.
Proof.
  intros Hs Hstep. unfold thread_step in Hstep. destruct (threads s !! t) as [[v p]|] eqn:Ht; [|done].
  pose proof (proj1 (wi_file _ _ Hs _ _ Ht)) as Hv. simpl in Hv. subst v.
  assert (Hw : ∀ p', p ≠ T_exit → moves t p p' s s' → mutex_step t p p' s s' →
    (p = T_signal → main s = M_wait → main s' = M_relock) → (counted p' = counted p ∨ p = T_count ∧ p' = T_signal) →
    web_inv maxnconn s') by (intros; by eapply moves_inv).
  assert (Hset : ∀ v p', s' = set_pc t p' (set_flags t v s) → shows p' v → p ≠ T_exit → counted p' = counted p →
    thread_inside p' = thread_inside p → p ≠ T_signal → (∀ w, shows p w → w ≠ F_JOINED ∧ w ≠ F_DONE) → v ≠ F_JOINED →
    web_inv maxnconn s').
  { intros v p' -> ?????. intros. apply (Hw p'); [done|by eapply set_flags_moves|left; split; done|done|by left]. }
  destruct p; cbn [pc vptr] in Hstep; try done.
  - simplify_eq. apply (Hw T_write); [done|apply set_pc_moves; cbn; try done; [lia|by left]|by left|done|by left].
  - simplify_eq. eapply (Hset F_READING T_read); try done. by intros w ->.
  - simplify_eq. apply (Hw (if n =? 0 then T_close else T_read)); destruct (n =? 0);
      first [done|apply set_pc_moves; cbn; try done; [lia|by left]|by left].
  - simplify_eq. apply (Hw T_done); [done|apply set_pc_moves; cbn; try done; [lia|by left]|by left|done|by left].
  - simplify_eq. eapply (Hset F_DONE T_lock); try done. by intros w ->.
  - destruct (ndone_mutex s) eqn:Emx; simplify_eq.
    apply (Hw T_count); [done|apply set_pc_moves; cbn; try done; [lia|by left]|right; left; done|done|by left].
  - simplify_eq. apply (Hw T_signal); [done|apply set_pc_moves; cbn; try done; [lia..|by left]|by left|done|by right].
  - simplify_eq. apply (Hw T_unlock); [done|apply set_pc_moves|left; by case_match|by intros _ ->|by left]; try by case_match.
    + cbn. case_match; cbn; lia.
    + cbn. case_match eqn:E; cbn; auto.
  - simplify_eq. pose proof (proj1 (wi_thread _ _ Hs _ _ Ht) eq_refl) as Ho.
    apply (Hw T_exit); [done|apply set_pc_moves; cbn; try done; [lia|by left|by left]|right; right; done|done|by left].
Qed.

(** ** The main thread keeps it *)

(** A step that changes its place and perhaps the mutex. *)
Lemma place_inv m o s :
  web_inv maxnconn s → (∀ i t, main s ≠ M_tid i t) → (∀ i, main s ≠ M_create i) → pending m = pending (main s) →
  (busy m = true → 0 < nlefttoread s) →
  let s' := set_main m (set_mutex o s) in
  main_ok maxnconn s' → (main_inside m = true ↔ o = Some Main) →
  (∀ t, o = Some (Thread t) ↔ ndone_mutex s = Some (Thread t)) →
  (∀ i f th, (i < scanned m)%nat → file s !! i = Some f → threads s !! i = Some th →
    counted (pc th) = true → joined f = true) →
  web_inv maxnconn s'.
Proof.
  intros Hs Ht Hc Hp Hb s' Hok Ho Hth Hsc. split; cbn; rewrite ?Hp; try apply Hs; try done.
  - intros i th Hi. destruct (wi_file _ _ Hs i th Hi) as (Hv & f & Hf & Hsh & [E|E]); [by eauto 10|by destruct (Ht i i)].
  - intros i f Hi Hlt. destruct (wi_fresh _ _ Hs i f Hi Hlt) as [?|[E _]]; [by left|by destruct (Hc i)].
  - intros t th Hi. rewrite Hth. by apply (wi_thread _ _ Hs).
  - intros t Hi. by apply (wi_holder _ _ Hs), Hth.
Qed.
Lemma set_main_inv m s :
  web_inv maxnconn s → (∀ i t, main s ≠ M_tid i t) → (∀ i, main s ≠ M_create i) → pending m = pending (main s) →
  (busy m = true → 0 < nlefttoread s) →
  main_ok maxnconn (set_main m s) → main_inside m = main_inside (main s) →
  (∀ i f th, (i < scanned m)%nat → file s !! i = Some f → threads s !! i = Some th →
    counted (pc th) = true → joined f = true) →
  web_inv maxnconn (set_main m s).
Proof.
  intros Hs Ht Hc Hp Hb Hok Ho Hsc. replace (set_main m s) with (set_main m (set_mutex (ndone_mutex s) s)) by by destruct s.
  apply place_inv; try done. rewrite Ho. apply (wi_owner _ _ Hs).
Qed.

Lemma main_left_inv s r : web_inv maxnconn s →
  match main s with M_left | M_conn | M_lock | M_relock | M_test | M_unlock => True | _ => False end →
  main_step maxnconn s = Some r → ∃ s', r = Next s' ∧ web_inv maxnconn s'.
Proof.
  intros Hs Hpc Hstep. pose proof (wi_main _ _ Hs) as Hok. pose proof (wi_owner _ _ Hs) as Hown.
  pose proof (inv_left _ _ Hs) as (Hr & Hc & Hn). pose proof (wi_toconn _ _ Hs) as Ec.
  pose proof (wi_toread _ _ Hs) as Er. pose proof (wi_conn _ _ Hs) as En.
  unfold main_step, main_ok in *. destruct (main s) eqn:Epc; try done; cbn [main_inside pending] in *.
  - simplify_eq. eexists. split; [done|]. apply set_main_inv; rewrite ?Epc; try done.
    all: destruct (Z.ltb_spec 0 (nlefttoread s)); unfold main_ok; cbn; try done; intros; lia.
  - simplify_eq. pose proof (wi_busy _ _ Hs) as Hb. rewrite Epc in Hb. specialize (Hb eq_refl).
    eexists. split; [done|]. apply set_main_inv; rewrite ?Epc; try done.
    all: destruct (Z.ltb_spec (nconn s) maxnconn), (Z.ltb_spec 0 (nlefttoconn s)); unfold main_ok; cbn; try done; intros; lia.
  - destruct (ndone_mutex s) eqn:Em; simplify_eq. eexists. split; [done|].
    apply place_inv; rewrite ?Epc, ?Em; try done. intros i f th Hi. simpl in Hi. lia.
  - simplify_eq. eexists. split; [done|]. destruct (Z.eqb_spec (ndone s) 0) as [E0|Hne].
    + apply place_inv; rewrite ?Epc; try done; try (by rewrite (proj1 Hown eq_refl)); try (simpl; intros; lia).
    + apply set_main_inv; rewrite ?Epc; try done; [|simpl; intros; lia].
      unfold main_ok. cbn. intros E1. pose proof (inv_ndone _ _ Hs) as Hd. rewrite Epc in Hd. cbn in Hd.
      pose proof (wi_max _ _ Hs). lia.
  - destruct (ndone_mutex s) eqn:Em; simplify_eq. eexists. split; [done|].
    apply place_inv; rewrite ?Epc, ?Em; try done. intros i f th Hi. simpl in Hi. lia.
  - simplify_eq. eexists. split; [done|].
    apply place_inv; rewrite ?Epc; try done; try (by rewrite (proj1 Hown eq_refl)); try (simpl; intros; lia).
Qed.

Lemma main_find_inv s r : web_inv maxnconn s →
  match main s with M_find _ | M_scan _ | M_join _ => True | _ => False end →
  main_step maxnconn s = Some r → ∃ s', r = Next s' ∧ web_inv maxnconn s'.
Proof.
  intros Hs Hpc Hstep. pose proof (wi_main _ _ Hs) as Hok. pose proof (wi_le _ _ Hs) as Hle.
  pose proof (wi_busy _ _ Hs) as Hb. unfold main_step, main_ok in *. destruct (main s) as [| |i| | | | | | | | |i|i| | |] eqn:Epc; try done.
  - destruct Hok as [Hi Hn]. destruct (file s !! i) as [f|] eqn:Hf; [|apply lookup_ge_None in Hf; lia].
    simplify_eq. eexists. split; [done|]. destruct (Z.eqb_spec (f_flags f) 0) as [E0|Hne].
    + apply set_main_inv; rewrite ?Epc; try done; [|simpl; intros; lia]. unfold main_ok. cbn.
      destruct (decide (i = List.length (threads s))); [split; [done|]; lia|].
      assert (Hlt : (i < List.length (threads s))%nat) by lia. apply lookup_lt_is_Some in Hlt as [th Hth].
      destruct (wi_file _ _ Hs i th Hth) as (_ & f' & ? & Hsh & _). simplify_eq. rewrite E0 in Hsh.
      destruct (pc th); simpl in Hsh; try done. by destruct Hsh.
    + apply set_main_inv; rewrite ?Epc; try done; [|simpl; intros; lia]. unfold main_ok. cbn.
      split; [|done]. split; [|lia]. destruct (decide (i = List.length (threads s))) as [->|]; [|lia].
      destruct (wi_fresh _ _ Hs _ f Hf ltac:(lia)) as [?|[E _]]; congruence.
  - destruct (file s !! i) as [f|] eqn:Hf; simplify_eq; (eexists; split; [done|]).
    + destruct (Z.eqb_spec (Z.land (f_flags f) F_DONE) 0) as [E0|Hne].
      * apply set_main_inv; rewrite ?Epc; try done. intros j f' th Hj Hf' Hth Hc. cbn [scanned] in Hj.
        destruct (decide (j = i)) as [->|]; [|apply (wi_scanned _ _ Hs j f' th); try done; rewrite Epc; simpl; lia].
        simplify_eq. destruct (wi_file _ _ Hs i th Hth) as (_ & f'' & ? & Hsh & _). simplify_eq.
        unfold joined. destruct (pc th); simpl in Hsh, Hc; try done; try (by rewrite Hsh in E0).
        destruct Hsh as [Hsh|Hsh]; rewrite Hsh in *; done.
      * apply set_main_inv; rewrite ?Epc; try done; [|pose proof (wi_scanned _ _ Hs) as Hsc; rewrite Epc in Hsc; exact Hsc].
        unfold main_ok. cbn. split; [|done]. exists f. split; [done|].
        destruct (threads s !! i) as [th|] eqn:Hth.
        { destruct (wi_file _ _ Hs i th Hth) as (_ & f' & ? & Hsh & _). simplify_eq.
          destruct (pc th); simpl in Hsh; try (by rewrite Hsh in Hne); try done.
          destruct Hsh as [Hsh|Hsh]; [done|by rewrite Hsh in Hne]. }
        apply lookup_ge_None in Hth. destruct (wi_fresh _ _ Hs i f Hf Hth) as [E|[E _]]; [by rewrite E in Hne|congruence].
    + apply lookup_ge_None in Hf. assert (ndone s = 0) as E0.
      { pose proof (inv_ndone _ _ Hs). enough (ndone s ≤ 0) by lia. rewrite (wi_done _ _ Hs).
        enough (countb (λ th, counted (pc th)) (threads s) ≤ countb joined (file s)) by lia.
        apply countb_le. intros j th Hj Hc. destruct (wi_file _ _ Hs j th Hj) as (_ & f & Hf' & _). exists f. split; [done|].
        eapply (wi_scanned _ _ Hs); try done. rewrite Epc. simpl. apply lookup_lt_Some in Hf'. lia. }
      apply set_main_inv; rewrite ?Epc; try done. simpl. intros. lia.
  - destruct Hok as [(f & Hf & Hd) Hn]. rewrite Hf in Hstep.
    destruct (threads s !! f_tid f) as [[v []]|] eqn:Hth; simplify_eq. eexists. split; [done|].
    apply set_main_inv; rewrite ?Epc; try done; [|pose proof (wi_scanned _ _ Hs) as Hsc; rewrite Epc in Hsc; exact Hsc].
    unfold main_ok. cbn. destruct (threads s !! i) as [th|] eqn:Hti.
    + destruct (wi_file _ _ Hs i th Hti) as (Hv & f' & ? & _ & [E|E]); [|congruence].
      pose proof (proj1 (wi_file _ _ Hs _ _ Hth)) as Ev. simpl in Ev. subst v. simplify_eq. rewrite E in Hth |- *.
      split_and!; eauto; congruence.
    + apply lookup_ge_None in Hti. destruct (wi_fresh _ _ Hs i f Hf Hti) as [E|[E _]]; [by rewrite E in Hd|congruence].
Qed.

Lemma main_flag_inv i s : web_inv maxnconn s → main s = M_flag i →
  web_inv maxnconn (set_main (M_create i) (set_flags i F_CONNECTING s)).
Proof.
  intros Hs Epc. pose proof (wi_main _ _ Hs) as Hok. unfold main_ok in Hok. rewrite Epc in Hok.
  destruct Hok as (-> & Hlt & Hn). apply lookup_lt_is_Some in Hlt as Hf. destruct Hf as [f Hf].
  assert (Ef : f_flags f = 0) by (by destruct (wi_fresh _ _ Hs _ f Hf ltac:(done)) as [?|[E _]]; [|congruence]).
  assert (EJ : countb joined (alter (λ f, File F_CONNECTING (f_tid f)) (List.length (threads s)) (file s)) = countb joined (file s)).
  { rewrite (countb_alter _ _ _ _ _ Hf). unfold joined. rewrite Ef. simpl. lia. }
  pose proof (wi_owner _ _ Hs) as Hown. pose proof (wi_toconn _ _ Hs) as Ec. pose proof (wi_conn _ _ Hs) as En.
  pose proof (wi_busy _ _ Hs) as Hb.
  rewrite Epc in Hown, Ec, En, Hb.
  split; cbn; rewrite ?EJ, ?length_alter; try apply Hs; try done.
  - intros j th Hj. destruct (wi_file _ _ Hs j th Hj) as (Hv & g & Hg & Hsh & Ht). split; [done|]. exists g.
    rewrite list_lookup_alter_ne by (intros <-; apply lookup_lt_Some in Hj; lia).
    destruct Ht as [?|?]; [by eauto|congruence].
  - intros j g Hg Hj. apply lookup_alter_inv in Hg as [(<- & g' & Hg' & ->)|[Hne Hg]]; [by right|].
    destruct (wi_fresh _ _ Hs _ g Hg Hj) as [?|[E _]]; [by left|congruence].
  - split_and!; [done| |done]. cbn. rewrite list_lookup_alter_eq, Hf. by eexists.
  - intros. lia.
Qed.

Lemma main_create_inv i s : web_inv maxnconn s → main s = M_create i →
  web_inv maxnconn (Web (file s) (nconn s) (nlefttoconn s) (nlefttoread s) (ndone s) (ndone_mutex s)
                      (M_tid i (List.length (threads s))) (threads s ++ [Thr i T_connect])).
Proof.
  intros Hs Epc. pose proof (wi_main _ _ Hs) as Hok. unfold main_ok in Hok. rewrite Epc in Hok.
  destruct Hok as (-> & (f & Hf & Ef) & Hn). pose proof (lookup_lt_Some _ _ _ Hf) as Hlt.
  pose proof (wi_owner _ _ Hs) as Hown. pose proof (wi_toconn _ _ Hs) as Ec. pose proof (wi_conn _ _ Hs) as En.
  pose proof (wi_busy _ _ Hs) as Hb.
  rewrite Epc in Hown, Ec, En, Hb. cbn [pending main_inside] in *.
  assert (Hthr : ∀ P : nat → thread → Prop, (∀ j th, threads s !! j = Some th → P j th) →
    P (List.length (threads s)) (Thr (List.length (threads s)) T_connect) →
    ∀ j th, (threads s ++ [Thr (List.length (threads s)) T_connect]) !! j = Some th → P j th).
  { intros P H1 H2 j th [Hj|[Hj E]]%lookup_app_Some; [by apply H1|].
    apply list_lookup_singleton_Some in E as [E <-]. by replace j with (List.length (threads s)) by lia. }
  split; cbn; rewrite ?length_app; cbn; try apply Hs; try done; try lia.
  - apply Hthr.
    + intros j th Hj. destruct (wi_file _ _ Hs j th Hj) as (Hv & g & Hg & Hsh & [E|E]); [|congruence]. by eauto 10.
    + split; [done|]. exists f. split; [done|]. split; [done|by right].
  - intros j g Hg Hj. destruct (wi_fresh _ _ Hs j g Hg ltac:(lia)) as [?|[E _]]; [by left|].
    rewrite Epc in E. injection E as E. lia.
  - apply Hthr; [apply (wi_thread _ _ Hs)|]. cbn. split; [done|]. intros Ho.
    destruct (wi_holder _ _ Hs _ Ho) as [th Hth]. apply lookup_lt_Some in Hth. lia.
  - intros t Ho. destruct (wi_holder _ _ Hs _ Ho) as [th Hth]. exists th. by apply lookup_app_l_Some.
  - rewrite (wi_done _ _ Hs), countb_app. cbn. lia.
Qed.

Lemma main_tid_inv i t s : web_inv maxnconn s → main s = M_tid i t → web_inv maxnconn (set_main M_count (set_tid i t s)).
Proof.
  intros Hs Epc. pose proof (wi_main _ _ Hs) as Hok. unfold main_ok in Hok. rewrite Epc in Hok. destruct Hok as (-> & Hlt & Hn).
  assert (Hl : ∀ j g, alter (λ f, File (f_flags f) i) i (file s) !! j = Some g →
    ∃ g', file s !! j = Some g' ∧ f_flags g = f_flags g' ∧ joined g = joined g').
  { intros j g [(-> & g' & Hg' & ->)|[Hne Hg]]%lookup_alter_inv; eauto. }
  assert (EJ : countb joined (alter (λ f, File (f_flags f) i) i (file s)) = countb joined (file s)).
  { destruct (file s !! i) as [f|] eqn:Hf; [rewrite (countb_alter _ _ _ _ _ Hf); unfold joined; cbn; lia|].
    apply lookup_ge_None in Hf. pose proof (wi_le _ _ Hs). lia. }
  pose proof (wi_owner _ _ Hs) as Hown. pose proof (wi_toconn _ _ Hs) as Ec. pose proof (wi_conn _ _ Hs) as En.
  pose proof (wi_busy _ _ Hs) as Hb.
  rewrite Epc in Hown, Ec, En, Hb. cbn [pending main_inside] in *.
  split; cbn; rewrite ?EJ, ?length_alter; try apply Hs; try done.
  - intros j th Hj. destruct (wi_file _ _ Hs j th Hj) as (Hv & g & Hg & Hsh & Ht). split; [done|].
    destruct (decide (i = j)) as [->|Hne].
    + rewrite list_lookup_alter_eq, Hg. eexists. split; [done|]. cbn. auto.
    + exists g. rewrite list_lookup_alter_ne by done. destruct Ht as [?|?]; [by eauto|congruence].
  - intros j g Hg Hj. destruct (Hl j g Hg) as (g' & Hg' & -> & _).
    destruct (wi_fresh _ _ Hs _ g' Hg' Hj) as [?|[E _]]; [by left|congruence].
  - intros. lia.
Qed.
Lemma main_count_inv s : web_inv maxnconn s → main s = M_count →
  web_inv maxnconn (set_main M_conn (add_counts 1 (-1) 0 0 s)).
Proof.
  intros Hs Epc. pose proof (wi_main _ _ Hs) as Hok. unfold main_ok in Hok. rewrite Epc in Hok.
  pose proof (wi_owner _ _ Hs) as Hown. pose proof (wi_toconn _ _ Hs) as Ec. pose proof (wi_conn _ _ Hs) as En.
  pose proof (wi_busy _ _ Hs) as Hb.
  pose proof (wi_toread _ _ Hs) as Er. pose proof (wi_done _ _ Hs) as Ed. pose proof (wi_le _ _ Hs) as Hle.
  pose proof (inv_ndone _ _ Hs) as Hd. pose proof (inv_left _ _ Hs) as Hl.
  rewrite Epc in *. cbn [pending main_inside] in *.
  split; cbn; try (by apply Hs); try done; try lia; try (intros; lia).
  - intros j th Hj. destruct (wi_file _ _ Hs j th Hj) as (Hv & g & Hg & Hsh & [E|E]); [|congruence]. by eauto 10.
  - intros j g Hg Hj. destruct (wi_fresh _ _ Hs _ g Hg Hj) as [?|[E _]]; [by left|congruence].
  - intros _. specialize (Hb eq_refl). lia.
Qed.
Lemma main_joined_inv i s : web_inv maxnconn s → main s = M_joined i i →
  web_inv maxnconn (set_main (M_scan (S i)) (add_counts (-1) 0 (-1) (-1) (set_flags i F_JOINED s))).
Proof.
  intros Hs Epc. pose proof (wi_main _ _ Hs) as Hok. unfold main_ok in Hok. rewrite Epc in Hok.
  destruct Hok as (_ & Hti & (f & Hf & Ef) & Hone).
  assert (EJ : countb joined (alter (λ f, File F_JOINED (f_tid f)) i (file s)) = countb joined (file s) + 1).
  { rewrite (countb_alter _ _ _ _ _ Hf). unfold joined. rewrite Ef. simpl. lia. }
  pose proof (wi_owner _ _ Hs) as Hown. pose proof (wi_toconn _ _ Hs) as Ec. pose proof (wi_conn _ _ Hs) as En.
  pose proof (wi_busy _ _ Hs) as Hb.
  pose proof (wi_toread _ _ Hs) as Er. pose proof (wi_done _ _ Hs) as Ed. pose proof (wi_max _ _ Hs) as Hmax.
  pose proof (wi_scanned _ _ Hs) as Hsc. rewrite Epc in *. cbn [pending main_inside scanned] in *.
  split; cbn; rewrite ?EJ, ?length_alter; try apply Hs; try done; try lia.
  - intros j th Hj. destruct (wi_file _ _ Hs j th Hj) as (Hv & g & Hg & Hsh & [Ht|Ht]); [|congruence]. split; [done|].
    destruct (decide (i = j)) as [->|Hne].
    + rewrite list_lookup_alter_eq, Hg. eexists. split; [done|]. rewrite Hti in Hj. injection Hj as <-. cbn. auto.
    + exists g. rewrite list_lookup_alter_ne by done. auto.
  - intros j g Hg Hj. apply lookup_lt_Some in Hti.
    apply lookup_alter_inv in Hg as [(<- & g' & Hg' & ->)|[Hne Hg]]; [lia|].
    destruct (wi_fresh _ _ Hs _ g Hg Hj) as [?|[E _]]; [by left|congruence].
  - intros j g th Hj Hg Hth Hc. apply lookup_alter_inv in Hg as [(<- & g' & Hg' & ->)|[Hne Hg]]; [done|].
    apply (Hsc j g th); try done. lia.
Qed.

(** The main thread never quits. *)
Lemma thr_main_inv s r : web_inv maxnconn s → main_step maxnconn s = Some r → ∃ s', r = Next s' ∧ web_inv maxnconn s'.
Proof.
  intros Hs Hstep. destruct (main s) as [| |i|i|i|i t| | | | | |i|i|i fptr| |] eqn:Epc;
    try (eapply main_left_inv; [done| |done]; by rewrite Epc); try (eapply main_find_inv; [done| |done]; by rewrite Epc);
    unfold main_step in Hstep; rewrite Epc in Hstep; simplify_eq.
  - eexists. split; [done|]. by apply main_flag_inv.
  - eexists. split; [done|]. by apply main_create_inv.
  - eexists. split; [done|]. by apply main_tid_inv.
  - eexists. split; [done|]. by apply main_count_inv.
  - pose proof (wi_main _ _ Hs) as Hok. unfold main_ok in Hok. rewrite Epc in Hok. destruct Hok as [-> _].
    rewrite Nat.eqb_refl. eexists. split; [done|]. by apply main_joined_inv.
Qed.

Lemma thr_step_inv s s' : web_inv maxnconn s → step maxnconn s s' → web_inv maxnconn s'.
Proof.
  intros Hs Hstep. destruct Hstep as [s0 s1 Hm|n t s0 s1 _ Ht|s0 Hw].
  - destruct (thr_main_inv _ _ Hs Hm) as (? & [= ->] & ?). done.
  - by eapply thread_inv.
  - apply set_main_inv; rewrite ?Hw; try done; [|simpl; intros; lia].
    pose proof (wi_main _ _ Hs) as Hok. unfold main_ok in *. rewrite Hw in Hok. cbn. apply Hok.
Qed.
Lemma thr_steps_inv argc s : rtc (step maxnconn) (web_init argc) s → web_inv maxnconn s.
Proof.
  intros H. pose proof (init_inv maxnconn argc) as Hi. induction H; eauto using thr_step_inv.
Qed.
End keep.

(** ** Termination *)

(** How many calm steps are left: a round of the main thread over the files is
    paid for by the thread that makes [ndone] positive. *)
Definition round (s : web) : Z := 4 * Z.of_nat (List.length (file s)) + 10.
Definition thread_weight (r : Z) (p : thread_pc) : Z :=
  match p with
  | T_exit => 0 | T_unlock => 1 | T_signal => 9 | T_count => 10 + r | T_lock => 11 + r | T_done => 12 + r
  | T_close => 13 + r | T_read => 14 + r | T_write => 15 + r | T_connect => 16 + r
  end.
Definition main_weight (n : nat) (m : main_pc) : Z :=
  match m with
  | M_exit => 0 | M_wait => 0 | M_test => 5 | M_lock | M_relock => 6 | M_conn => 7 | M_left => 8 | M_unlock => 9
  | M_find i => 6 - Z.of_nat i | M_flag _ => 5 - Z.of_nat n | M_create _ => 4 - Z.of_nat n | M_tid _ _ => 9 | M_count => 8
  | M_scan i => 4 * Z.of_nat (n - i) + 10 | M_join i => 4 * Z.of_nat (n - i) + 9 | M_joined i _ => 4 * Z.of_nat (n - i) + 8
  end.
Definition awaits (m : main_pc) : bool :=
  match m with M_scan _ | M_join _ | M_joined _ _ | M_unlock | M_exit => false | _ => true end.
Definition weight (s : web) : Z :=
  (30 + Z.of_nat (List.length (file s)) + round s) * (Z.of_nat (List.length (file s)) - Z.of_nat (List.length (threads s))) +
  sumz (λ th, thread_weight (round s) (pc th)) (threads s) + main_weight (List.length (file s)) (main s) +
  (if awaits (main s) && negb (ndone s =? 0) then round s else 0).

Section weight.
Context (maxnconn : Z).

Lemma thr_weight_nonneg s : web_inv maxnconn s → 0 ≤ weight s.
Proof.
  intros Hs. pose proof (wi_le _ _ Hs) as Hle. pose proof (wi_main _ _ Hs) as Hok. unfold weight.
  assert (Hr : 0 ≤ round s) by (unfold round; lia).
  assert (0 ≤ sumz (λ th, thread_weight (round s) (pc th)) (threads s)) by (apply sumz_nonneg; intros []; destruct pc0; simpl; lia).
  assert (0 ≤ (if awaits (main s) && negb (ndone s =? 0) then round s else 0)) by (case_match; lia).
  set (n := Z.of_nat (List.length (file s))) in *. set (k := Z.of_nat (List.length (threads s))) in *.
  assert (0 ≤ (30 + n + round s) * (n - k)) by nia.
  assert (k < n → 30 + n + round s ≤ (30 + n + round s) * (n - k)) by nia.
  set (P := (30 + n + round s) * (n - k)) in *. clearbody P. unfold main_ok in Hok.
  destruct (main s); cbn [main_weight]; fold n; try lia.
  destruct Hok as (-> & (f & Hf & _) & _). apply lookup_lt_Some in Hf. lia.
Qed.

(** A thread's own step, with what it does to the place of the main thread and
    to [ndone]. *)
Lemma thread_weight_step t p p' s s' :
  threads s !! t = Some (Thr t p) → threads s' = alter (λ th, Thr (vptr th) p') t (threads s) →
  List.length (file s') = List.length (file s) →
  main_weight (List.length (file s)) (main s') + (if awaits (main s') && negb (ndone s' =? 0) then round s else 0) +
    thread_weight (round s) p' <
  main_weight (List.length (file s)) (main s) + (if awaits (main s) && negb (ndone s =? 0) then round s else 0) +
    thread_weight (round s) p →
  weight s' < weight s.
Proof.
  intros Ht Et Ef Hlt. unfold weight. assert (Er : round s' = round s) by (unfold round; by rewrite Ef).
  rewrite Er, Ef, Et, length_alter, (sumz_alter _ _ _ _ _ Ht). cbn [pc vptr]. lia.
Qed.
Lemma thread_calm t s s' : web_inv maxnconn s → thread_step 0 t s = Some s' → weight s' < weight s.
Proof.
  intros Hs Hstep. unfold thread_step in Hstep. destruct (threads s !! t) as [[v p]|] eqn:Ht; [|done].
  pose proof (proj1 (wi_file _ _ Hs _ _ Ht)) as Hv. simpl in Hv. subst v. assert (0 ≤ round s) by (unfold round; lia).
  destruct p; cbn [pc vptr] in Hstep; try done; try (destruct (ndone_mutex s); [done|]); simplify_eq;
    (eapply thread_weight_step; [exact Ht|by try case_match|try done; try (by case_match)|]); try (cbn; lia).
  all: try (cbn -[alter]; by rewrite length_alter).
  - cbn [main ndone set_pc add_counts thread_weight]. destruct (awaits _), (ndone s + 1 =? 0), (ndone s =? 0); cbn [andb negb]; lia.
  - destruct (main s) eqn:E; cbn [set_pc set_main main ndone awaits andb thread_weight]; rewrite ?E;
      cbn [main_weight awaits andb]; destruct (ndone s =? 0); cbn [negb]; lia.
Qed.

Lemma main_calm s s' : web_inv maxnconn s → main_step maxnconn s = Some (Next s') → weight s' < weight s.
Proof.
  intros Hs Hstep. pose proof (wi_main _ _ Hs) as Hok. pose proof (wi_le _ _ Hs) as Hle.
  assert (Hr : 0 ≤ round s) by (unfold round; lia).
  assert (Hx : 0 ≤ if negb (ndone s =? 0) then round s else 0) by (destruct (negb _); lia).
  assert (Hw : ∀ m d o,
    main_weight (List.length (file s)) m + (if awaits m && negb (d =? 0) then round s else 0) <
    main_weight (List.length (file s)) (main s) + (if awaits (main s) && negb (ndone s =? 0) then round s else 0) →
    weight (Web (file s) (nconn s) (nlefttoconn s) (nlefttoread s) d o m (threads s)) < weight s).
  { intros m d o Hlt. unfold weight. cbn [file threads main ndone]. change (round (Web _ _ _ _ _ _ _ _)) with (round s). lia. }
  unfold main_step, main_ok in *.
  destruct (main s) as [| |i|i|i|i t| | | | | |i|i|i fptr| |] eqn:Epc; simplify_eq.
  - apply Hw. destruct (0 <? _); cbn [main_weight awaits andb set_main set_mutex ndone]; lia.
  - apply Hw. destruct ((_ <? _) && _); cbn [main_weight awaits andb set_main set_mutex ndone]; lia.
  - destruct (file s !! i) as [f|] eqn:Hf; simplify_eq. apply Hw. apply lookup_lt_Some in Hf.
    destruct (f_flags f =? 0); cbn [main_weight awaits andb set_main set_mutex ndone]; lia.
  - unfold weight, round. cbn -[alter Z.mul Z.add Z.sub Z.of_nat]. rewrite Epc, !length_alter. cbn [main_weight awaits andb set_main set_mutex ndone]. lia.
  - unfold weight, round. cbn -[Z.mul Z.add Z.sub Z.of_nat]. rewrite Epc, length_app, sumz_app. cbn [main_weight awaits andb sumz pc thread_weight List.length].
    nia.
  - unfold weight, round. cbn -[alter Z.mul Z.add Z.sub Z.of_nat]. rewrite Epc, !length_alter. cbn [main_weight awaits andb set_main set_mutex ndone]. lia.
  - unfold weight, round. cbn -[Z.mul Z.sub Z.of_nat]. rewrite Epc. rewrite Z.add_0_r. cbn [main_weight awaits andb set_main set_mutex ndone]. lia.
  - destruct (ndone_mutex s); simplify_eq. apply Hw. cbn [main_weight awaits andb set_main set_mutex ndone]. lia.
  - destruct (Z.eqb_spec (ndone s) 0); apply Hw; cbn [main_weight awaits andb set_main set_mutex ndone].
    + rewrite (proj2 (Z.eqb_eq (ndone s) 0)) by done. cbn [negb]. lia.
    + cbn [negb]. unfold round. lia.
  - destruct (ndone_mutex s); simplify_eq. apply Hw. cbn [main_weight awaits andb set_main set_mutex ndone]. lia.
  - destruct (file s !! i) as [f|] eqn:Hf; simplify_eq; apply Hw.
    + apply lookup_lt_Some in Hf. destruct (Z.land _ _ =? 0); cbn [main_weight awaits andb set_main set_mutex ndone]; lia.
    + cbn [main_weight awaits andb set_main set_mutex ndone]. lia.
  - destruct Hok as [(f & Hf & _) _]. rewrite Hf in Hstep.
    destruct (threads s !! f_tid f) as [[v []]|]; simplify_eq. apply Hw. cbn [main_weight awaits andb set_main set_mutex ndone]. lia.
  - destruct Hok as (-> & _ & (f & Hf & _) & _). apply lookup_lt_Some in Hf. rewrite Nat.eqb_refl in Hstep. simplify_eq.
    unfold weight, round. cbn -[alter Z.mul Z.add Z.sub Z.of_nat]. rewrite Epc, !length_alter. cbn [main_weight awaits andb set_main set_mutex ndone]. lia.
  - apply Hw. cbn [main_weight awaits andb set_main set_mutex ndone]. rewrite Hok. simpl. lia.
Qed.
End weight.

(** ** Progress *)

Section progress.
Context (maxnconn : Z).

Lemma inv_finished s : web_inv maxnconn s → main s = M_exit → finished s.
Proof.
  intros Hs Epc. pose proof (wi_main _ _ Hs) as Hok. unfold main_ok in Hok. rewrite Epc in Hok.
  pose proof (wi_toread _ _ Hs) as Er. pose proof (wi_conn _ _ Hs) as En. rewrite Epc in En. cbn [pending] in En.
  assert (Hall : ∀ i f, file s !! i = Some f → joined f = true) by (apply countb_all; lia).
  assert (Hk : (List.length (file s) ≤ List.length (threads s))%nat).
  { destruct (Nat.le_gt_cases (List.length (file s)) (List.length (threads s))) as [?|Hlt]; [done|].
    apply lookup_lt_is_Some in Hlt as [f Hf]. pose proof (inv_joined _ _ _ _ Hs Hf (Hall _ _ Hf)) as E.
    apply lookup_lt_Some in E. lia. }
  pose proof (wi_le _ _ Hs). split; [done|]. split; [done|]. split; [lia|]. split; [lia|].
  intros i f Hf. split; [by apply Z.eqb_eq, (Hall i)|]. by apply (inv_joined _ _ _ _ Hs Hf), (Hall i).
Qed.

(** A thread that has not ended can move, if the mutex is free or its own. *)
Lemma thread_progress s t th :
  main s ≠ M_exit → threads s !! t = Some th → pc th ≠ T_exit → (pc th = T_lock → ndone_mutex s = None) →
  ∃ s', calm maxnconn s s'.
Proof.
  intros Hm Ht Hp Hl. assert (∃ s', thread_step 0 t s = Some s') as [s' E]; [|exists s'; by eapply calm_thread].
  unfold thread_step. rewrite Ht. destruct (pc th); try (eexists; reflexivity).
  - rewrite Hl by done. eexists. reflexivity.
  - done.
Qed.
(** So can the thread that holds the mutex. *)
Lemma holder_progress s t : web_inv maxnconn s → main s ≠ M_exit → ndone_mutex s = Some (Thread t) → ∃ s', calm maxnconn s s'.
Proof.
  intros Hs Hm Ho. destruct (wi_holder _ _ Hs _ Ho) as [th Ht]. pose proof (proj2 (wi_thread _ _ Hs _ _ Ht) Ho) as Hin.
  eapply thread_progress; try done; by destruct (pc th).
Qed.

(** The main thread waits: some thread is about to count itself or to signal. *)
Lemma wait_progress s : web_inv maxnconn s → 0 < maxnconn → main s = M_wait → ∃ s', calm maxnconn s s'.
Proof.
  intros Hs Hpos Epc. pose proof (wi_main _ _ Hs) as Hok. unfold main_ok in Hok. rewrite Epc in Hok. destruct Hok as [Hn Hd].
  assert (Hne : main s ≠ M_exit) by congruence. specialize (Hn Hpos).
  destruct (ndone_mutex s) as [[|t]|] eqn:Em; [|by eapply holder_progress|].
  { apply (wi_owner _ _ Hs) in Em. by rewrite Epc in Em. }
  destruct (Z.eq_dec (ndone s) 0) as [E0|Hnz].
  - destruct (decide (Exists (λ th, pc th ≠ T_exit) (threads s))) as [(th & [t Ht]%list_elem_of_lookup & Hp)%Exists_exists|Hall].
    { by eapply thread_progress. }
    exfalso. pose proof (wi_done _ _ Hs) as Ed. pose proof (wi_conn _ _ Hs) as En. rewrite Epc in En. cbn [pending] in En.
    enough (countb (λ th, counted (pc th)) (threads s) = Z.of_nat (List.length (threads s))) by lia.
    assert (H : Forall (λ th, pc th = T_exit) (threads s)).
    { apply Forall_lookup. intros t th Ht. destruct (decide (pc th = T_exit)); [done|]. destruct Hall.
      apply Exists_exists. exists th. split; [by eapply list_elem_of_lookup_2|done]. }
    clear -H. induction H as [|th l Hth _ IH]; [done|]. cbn [countb List.length]. rewrite IH, Hth. cbn. lia.
  - destruct (Hd Hnz) as (t & th & Ht & Hp). eapply thread_progress; try done; by rewrite Hp.
Qed.

(** The main thread joins: the thread has marked its file. *)
Lemma join_progress s i : web_inv maxnconn s → main s = M_join i →
  (2 ≤ maxnconn ∧ deadlock s) ∨ ∃ s', calm maxnconn s s'.
Proof.
  intros Hs Epc. pose proof (wi_main _ _ Hs) as Hok. unfold main_ok in Hok. rewrite Epc in Hok.
  destruct Hok as [(f & Hf & Hd) Hone].
  assert (Hm : ndone_mutex s = Some Main) by (apply (wi_owner _ _ Hs); by rewrite Epc).
  assert (is_Some (threads s !! i)) as [th Ht].
  { destruct (threads s !! i) as [th|] eqn:Ht; [by eexists|]. apply lookup_ge_None in Ht.
    destruct (wi_fresh _ _ Hs _ _ Hf Ht) as [E|[E _]]; [by rewrite E in Hd|congruence]. }
  destruct (wi_file _ _ Hs i th Ht) as (Hv & f' & Hf' & Hsh & [Htid|E]); [|congruence]. rewrite Hf in Hf'. simplify_eq.
  destruct (decide (pc th = T_lock)) as [Hl|Hl].
  - left. split.
    + pose proof (wi_max _ _ Hs). pose proof (inv_ndone _ _ Hs). pose proof (wi_done _ _ Hs) as Ed.
      pose proof (wi_conn _ _ Hs) as En. rewrite Epc in En. cbn [pending] in En.
      assert (Hlt : countb (λ th, counted (pc th)) (threads s) < Z.of_nat (List.length (threads s))).
      { pose proof (countb_le_length (λ th, counted (pc th)) (threads s)).
        destruct (Z.eq_dec (countb (λ th, counted (pc th)) (threads s)) (Z.of_nat (List.length (threads s)))) as [E|]; [|lia].
        pose proof (countb_all _ _ E _ _ Ht : counted (pc th) = true) as Hc. by rewrite Hl in Hc. }
      destruct (Z.le_gt_cases 2 maxnconn); [done|]. assert (maxnconn = 1 ∨ maxnconn ≤ 0) as [E1|]; [lia| |lia].
      specialize (Hone E1). lia.
    + exists (vptr th), f', (vptr th). split_and!; try done. rewrite Htid, Ht. destruct th as [v p]. simpl in *. by subst p.
  - right. destruct (decide (pc th = T_exit)) as [Hx|Hx].
    + exists (set_main (M_joined (vptr th) (vptr th)) s). apply calm_main. unfold main_step. rewrite Epc, Hf, Htid, Ht.
      destruct th as [v p]. simpl in *. by subst p.
    + eapply thread_progress; [congruence|done|done|done].
Qed.

Lemma web_progress s : 0 < maxnconn → web_inv maxnconn s →
  finished s ∨ (2 ≤ maxnconn ∧ deadlock s) ∨ ∃ s', calm maxnconn s s'.
Proof.
  intros Hpos Hs.
  assert (Hgo : ∀ r, main_step maxnconn s = Some r → ∃ s', calm maxnconn s s').
  { intros r Hr. destruct (thr_main_inv _ _ _ Hs Hr) as (s' & -> & _). exists s'. by apply calm_main. }
  assert (Hlk : main s = M_lock ∨ main s = M_relock → ∃ s', calm maxnconn s s').
  { intros Epc. destruct (ndone_mutex s) as [[|t]|] eqn:Em.
    - apply (wi_owner _ _ Hs) in Em. by destruct Epc as [Epc|Epc]; rewrite Epc in Em.
    - apply (holder_progress _ t); try done. by destruct Epc as [->| ->].
    - assert (∃ r, main_step maxnconn s = Some r) as [r Hr]; [|by eapply Hgo].
      unfold main_step. destruct Epc as [-> | ->]; rewrite Em; by eexists. }
  destruct (main s) eqn:Epc.
  10: { right. right. by apply wait_progress. }
  12: { right. by eapply join_progress. }
  14: { left. by apply inv_finished. }
  all: right; right; try (apply Hlk; by auto).
  all: assert (∃ r, main_step maxnconn s = Some r) as [r Hr]; [|by eapply Hgo].
  all: unfold main_step; rewrite Epc; repeat case_match; by eexists.
Qed.

Lemma thr_calm_step s s' : calm maxnconn s s' → step maxnconn s s'.
Proof. intros [? ? H|? ? ? ? H]; [by apply step_main|by eapply step_thread]. Qed.
Lemma thr_calm_weight s s' : web_inv maxnconn s → calm maxnconn s s' → weight s' < weight s.
Proof. intros Hs Hc. destruct Hc; [by eapply main_calm|by eapply thread_calm]. Qed.
Lemma thr_calms_weight n s s' : web_inv maxnconn s → nsteps (calm maxnconn) n s s' →
  web_inv maxnconn s' ∧ weight s' + Z.of_nat n ≤ weight s.
Proof.
  intros Hs Hc. induction Hc as [s|n s1 s2 s3 Hc _ IH]; [split; [done|lia]|].
  destruct IH as [Hs' Hw]; [eapply thr_step_inv; [done|by apply thr_calm_step]|]. split; [done|].
  pose proof (thr_calm_weight _ _ Hs Hc). lia.
Qed.
Lemma thr_run_steps ts s s' : run maxnconn ts s = Some s' → rtc (step maxnconn) s s'.
Proof.
  revert s. induction ts as [|[|t] ts IH]; intros s H; simplify_eq/=; [done| |].
  - destruct (main_step maxnconn s) as [[s1|]|] eqn:E; try done. eapply rtc_l; [by apply step_main|by apply IH].
  - destruct (at_exit (main s)) eqn:Ee; [done|]. destruct (thread_step 0 t s) as [s1|] eqn:E; [|done].
    eapply rtc_l; [eapply step_thread; [|exact E]; by intros E'; rewrite E' in Ee|by apply IH].
Qed.
End progress.

(** ** Properties *)

(** C8: the threaded web client, for any number of files, any interleaving and
    any spurious wakeups: neither err_quit is reached; thread [t] fetches file
    [t] and nothing else, and the file's flags say how far it is; the counters
    of [main] are the numbers they stand for, so that at most [maxnconn] threads
    run at a time; at most one thread is in the critical section; and when the
    process exits every file has been fetched and its thread joined. *)
Theorem web03_counts (maxnconn argc : Z) (s : web) :
  rtc (step maxnconn) (web_init argc) s →
  main_step maxnconn s ≠ Some Quit ∧
  (∀ t th, threads s !! t = Some th → vptr th = t ∧ ∃ f, file s !! t = Some f ∧ shows (pc th) (f_flags f)) ∧
  (let running := Z.of_nat (List.length (threads s)) - countb joined (file s) in
   nlefttoread s = countb (λ f, negb (joined f)) (file s) ∧
   nlefttoconn s - pending (main s) = Z.of_nat (List.length (file s)) - Z.of_nat (List.length (threads s)) ∧
   nconn s + pending (main s) = running ∧ 0 ≤ ndone s ≤ running ≤ Z.max 0 maxnconn) ∧
  (∀ t th, threads s !! t = Some th → thread_inside (pc th) = true →
     main_inside (main s) = false ∧ ∀ u th', threads s !! u = Some th' → thread_inside (pc th') = true → u = t) ∧
  (main s = M_exit → finished s).
Proof.
  intros Hs%thr_steps_inv. split_and!.
  - intros Hq. by destruct (thr_main_inv _ _ _ Hs Hq) as (? & ? & _).
  - intros t th Ht. destruct (wi_file _ _ Hs t th Ht) as (? & f & ? & ? & _). eauto.
  - pose proof (inv_ndone _ _ Hs). pose proof (wi_conn _ _ Hs). pose proof (wi_toconn _ _ Hs). pose proof (wi_max _ _ Hs).
    pose proof (wi_main _ _ Hs) as Hok. cbn zeta. rewrite countb_negb, (wi_toread _ _ Hs). split_and!; try lia.
    unfold main_ok in Hok. destruct (main s); cbn [pending] in *; lia.
  - intros t th Ht Hin. apply (wi_thread _ _ Hs _ _ Ht) in Hin. split.
    + destruct (main_inside (main s)) eqn:E; [|done]. apply (wi_owner _ _ Hs) in E. congruence.
    + intros u th' Hu Hin'. apply (wi_thread _ _ Hs _ _ Hu) in Hin'. congruence.
  - by eapply inv_finished.
Qed.


(** One file at a time: the main thread waits until the thread has counted
    itself, and joins it. *)
Definition one_by_one : list owner := replicate 10 Main ++ replicate 9 (Thread 0).
Lemma web03_counts_witness :
  ∃ s, run 1 one_by_one (web_init 5) = Some s ∧ ndone s = 1 ∧ main_step 1 s ≠ Some Quit.
Proof.
  eexists. split; [vm_compute; reflexivity|]. split; [reflexivity|].
  apply (web03_counts 1 5). apply (thr_run_steps 1 one_by_one). vm_compute. reflexivity.
Defined.

(** Two files at a time: thread 0 is done; thread 1 has marked its file. *)
Definition two_at_once : list owner :=
  replicate 17 Main ++ replicate 9 (Thread 0) ++ replicate 5 (Thread 1) ++ replicate 6 Main.
(** The deadlock is reached: no thread of the process can ever move again. *)
Theorem web03_deadlocks :
  ∃ s, rtc (step 2) (web_init 6) s ∧ deadlock s ∧ ∀ s', ¬ step 2 s s'.
Proof.
  eexists. split; [apply (thr_run_steps 2 two_at_once); vm_compute; reflexivity|]. split.
  - exists 1%nat. do 2 eexists. by split_and!.
  - intros s' Hstep. inversion Hstep as [? ? H|n [|[|t]] ? ? _ H|? H]; simplify_eq; vm_compute in H; discriminate H.
Qed.
