(* ===== verification/Ifi.v ===== *)
(** The list of the interfaces: src/unpv13e/lib (get_ifi_info.c, unpifi.h), in
    the configuration of config.h (no sa_len, no sockaddr_dl, ifr_mtu present).

    The buffer that SIOCGIFCONF fills is the list of its bytes; the answer to
    that call is [ifc_len] and the contents of the buffer, and to the others the
    [struct ifreq] as the system leaves it.  [sizeof(struct ifreq)] is a
    parameter: 32 bytes where pointers have four, 40 where they have eight. *)
From S2P Require Import Prelude Machine Posix Wrap Heap Frame Packet.

Definition IFNAMSIZ : Z := 16.
Definition IFI_NAME : Z := 16.
Definition IFI_ALIAS : Z := 1.
Definition SIZEOF_IFI_INFO : Z := 72.
Definition SIOCGIFCONF : Z := 35090.
Definition SIOCGIFFLAGS : Z := 35091.
Definition SIOCGIFDSTADDR : Z := 35095.
Definition SIOCGIFBRDADDR : Z := 35097.
Definition SIOCGIFMTU : Z := 35105.
Definition IFF_UP : Z := 1.
Definition IFF_BROADCAST : Z := 2.
Definition IFF_POINTOPOINT : Z := 16.
Definition INT_MAX : Z := 2 ^ 31 - 1.

(** The block of the structure and its fields; [ifi_next] is the rest of the
    list, [ifi_haddr] stays as [Calloc] left it. *)
Record ifi_info := Ifi {
  ifi_self : ptr;
  ifi_name : list Z;
  ifi_index : Z;
  ifi_mtu : Z;
  ifi_hlen : Z;
  ifi_flags : Z;
  ifi_myflags : Z;
  ifi_addr : option (ptr * list Z);
  ifi_brdaddr : option (ptr * list Z);
  ifi_dstaddr : option (ptr * list Z)
}.

(** ** Strings in the buffer *)

(** [strchr]: [Some None] when the string ends first, [None] beyond the buffer. *)
Fixpoint strchr_at (s : list Z) (c : Z) : option (option nat) :=
  match s with
  | [] => None
  | b :: s' =>
      if b =? c then Some (Some 0%nat)
      else if b =? 0 then Some None
      else match strchr_at s' c with Some (Some j) => Some (Some (S j)) | o => o end
  end.
(** [strncmp(a, b, n) == 0], for arrays of [n] bytes or strings. *)
Fixpoint strn_eq (n : nat) (a b : list Z) : bool :=
  match n, a, b with
  | S n', x :: a', y :: b' => (x =? y) && ((x =? 0) || strn_eq n' a' b')
  | _, _, _ => true
  end.

Section ifi.
Context {K : Kernel} (sizeof_ifreq : Z).

(** ** The buffer *)

Definition more (len : Z) : M Z :=
  let len' := len + 10 * sizeof_ifreq in if INT_MAX <? len' then stop UB else mret len'.
(** The block, [ifc.ifc_len] and the contents. *)
Fixpoint ifconf_loop (fuel : nat) (sockfd len lastlen : Z) : M (ptr * Z * list Z) :=
  match fuel with
  | O => stop NoFuel
  | S f =>
      buf ← Malloc len;
      r ← syscall (sys_ioctl sockfd SIOCGIFCONF (le32_bytes len));
      match r with
      | None =>
          e ← get_errno;
          if negb (e =? EINVAL) || negb (lastlen =? 0) then err_sys "ioctl error"
          else len ← more len; free buf ;; ifconf_loop f sockfd len lastlen
      | Some (ifc_len, contents) =>
          if ifc_len =? lastlen then mret (buf, ifc_len, contents)
          else len ← more len; free buf ;; ifconf_loop f sockfd len ifc_len
      end
  end.

(** ** The entries *)

Definition sockaddr_len (sa_family : Z) : Z := if sa_family =? AF_INET6 then 28 else 16.

(** One more address of the interface, if it has the flag. *)
Definition ifi_ask (sockfd flags mask request size : Z) (ifrcopy : list Z) : M (list Z * option (ptr * list Z)) :=
  if Z.land flags mask =? 0 then mret (ifrcopy, None)
  else
    '(_, ifrcopy) ← Ioctl sockfd request ifrcopy;
    q ← Calloc size;
    sa ← ld (bytes_at ifrcopy IFNAMSIZ size);
    mret (ifrcopy, Some (q, sa)).
(** The addresses: of the entry at [ptr] of [buf], for broadcasts, of the peer. *)
Definition ifi_addrs (sockfd flags sa_family : Z) (buf : list Z) (ptr : Z) (ifrcopy : list Z) :
    M (option (Posix.ptr * list Z) * option (Posix.ptr * list Z) * option (Posix.ptr * list Z)) :=
  if sa_family =? AF_INET then
    q ← Calloc SIZEOF_SOCKADDR_IN;
    sa ← ld (bytes_at buf (ptr + IFNAMSIZ) SIZEOF_SOCKADDR_IN);
    '(ifrcopy, brdaddr) ← ifi_ask sockfd flags IFF_BROADCAST SIOCGIFBRDADDR SIZEOF_SOCKADDR_IN ifrcopy;
    '(_, dstaddr) ← ifi_ask sockfd flags IFF_POINTOPOINT SIOCGIFDSTADDR SIZEOF_SOCKADDR_IN ifrcopy;
    mret (Some (q, sa), brdaddr, dstaddr)
  else if sa_family =? AF_INET6 then
    q ← Calloc SIZEOF_SOCKADDR_IN6;
    sa ← ld (bytes_at buf (ptr + IFNAMSIZ) SIZEOF_SOCKADDR_IN6);
    '(_, dstaddr) ← ifi_ask sockfd flags IFF_POINTOPOINT SIOCGIFDSTADDR SIZEOF_SOCKADDR_IN6 ifrcopy;
    mret (Some (q, sa), None, dstaddr)
  else mret (None, None, None).

(** The buffer, [lastname] and the list so far. *)
Record scan := Scan {
  sc_buf : list Z;
  sc_lastname : list Z;
  sc_ifis : list ifi_info
}.
(** The body of the loop, from the entry at [ptr]; the next value of [ptr]. *)
Definition ifi_entry (sockfd family : Z) (doaliases : bool) (ptr : Z) (s : scan) : M (Z * scan) :=
  let 'Scan buf lastname ifis := s in
  sa_family ← ld (u16_at buf (ptr + IFNAMSIZ));
  let next := ptr + (IFNAMSIZ + sockaddr_len sa_family) in
  if negb (sa_family =? family) then mret (next, s)
  else
    colon ← ld (strchr_at (drop (Z.to_nat ptr) buf) 58);
    let buf := match colon with Some j => <[(Z.to_nat ptr + j)%nat := 0]> buf | None => buf end in
    name ← ld (bytes_at buf ptr IFNAMSIZ);
    let same := strn_eq (Z.to_nat IFNAMSIZ) lastname name in
    if same && negb doaliases then mret (next, Scan buf lastname ifis)
    else
      let myflags := if same then IFI_ALIAS else 0 in
      ifrcopy ← ld (bytes_at buf ptr sizeof_ifreq);
      '(_, ifrcopy) ← Ioctl sockfd SIOCGIFFLAGS ifrcopy;
      w ← ld (u16_at ifrcopy IFNAMSIZ);
      let flags := i16 w in
      if Z.land flags IFF_UP =? 0 then mret (next, Scan buf name ifis)
      else
        self ← Calloc SIZEOF_IFI_INFO;
        '(_, ifrcopy) ← Ioctl sockfd SIOCGIFMTU ifrcopy;
        mtu ← ld (u32_at ifrcopy IFNAMSIZ);
        '(addr, brdaddr, dstaddr) ← ifi_addrs sockfd flags sa_family buf ptr ifrcopy;
        mret (next, Scan buf name
                (ifis ++ [Ifi self (<[Z.to_nat (IFI_NAME - 1) := 0]> name) 0 (i16 mtu) 0 flags myflags
                            addr brdaddr dstaddr])).
(** Every entry has at least 32 bytes. *)
Fixpoint ifi_entries (fuel : nat) (sockfd family : Z) (doaliases : bool) (ptr ifc_len : Z) (s : scan) : M scan :=
  match fuel with
  | O => stop NoFuel
  | S f =>
      if ptr <? ifc_len then
        '(ptr, s) ← ifi_entry sockfd family doaliases ptr s;
        ifi_entries f sockfd family doaliases ptr ifc_len s
      else mret s
  end.

(** [lastname\[0\] = 0]. *)
Definition get_ifi_info (fuel : nat) (family : Z) (doaliases : bool) : M (list ifi_info) :=
  sockfd ← Socket AF_INET SOCK_DGRAM 0;
  '(buf, ifc_len, contents) ← ifconf_loop fuel sockfd (100 * sizeof_ifreq) 0;
  s ← ifi_entries (S (Z.to_nat ifc_len)) sockfd family doaliases 0 ifc_len (Scan contents [0] []);
  free buf ;;
  mret (sc_ifis s).

Fixpoint free_ifi_info (ifis : list ifi_info) : M unit :=
  match ifis with
  | [] => mret tt
  | ifi :: ifis' =>
      free_opt (fst <$> ifi_addr ifi) ;;
      free_opt (fst <$> ifi_brdaddr ifi) ;;
      free_opt (fst <$> ifi_dstaddr ifi) ;;
      free (ifi_self ifi) ;;
      free_ifi_info ifis'
  end.

Definition Get_ifi_info (fuel : nat) (family : Z) (doaliases : bool) : M (list ifi_info) :=
  ifis ← get_ifi_info fuel family doaliases;
  match ifis with [] => err_quit "get_ifi_info error" | _ => mret ifis end.
End ifi.

(** ** Specification *)

(** An entry of the buffer: the name, in 16 bytes, and an address of 16 bytes. *)
Record entry := Entry {
  e_name : list Z;
  e_family : Z;
  e_data : list Z
}.
Definition e_sa (e : entry) : list Z := le_bytes 2 (e_family e) ++ e_data e.
Definition e_bytes (e : entry) : list Z := e_name e ++ e_sa e.
Definition layout (es : list entry) : list Z := es ≫= e_bytes.
Definition entry_ok (e : entry) : Prop :=
  List.length (e_name e) = 16%nat ∧ 0 ∈ e_name e ∧ 0 ≤ e_family e < 2 ^ 16 ∧ e_family e ≠ AF_INET6 ∧
  List.length (e_data e) = 14%nat.

#[global] Instance entry_ok_dec e : Decision (entry_ok e).
Proof. unfold entry_ok. apply _. Defined.

(** The name without the number of an alias. *)
Definition base_name (name : list Z) : list Z :=
  match strchr_at name 58 with Some (Some j) => <[j := 0]> name | _ => name end.

(** A structure without the identities of its blocks; the blocks. *)
Record view := View {
  v_name : list Z;
  v_index : Z;
  v_mtu : Z;
  v_hlen : Z;
  v_flags : Z;
  v_myflags : Z;
  v_addr : option (list Z);
  v_brdaddr : option (list Z);
  v_dstaddr : option (list Z)
}.
Definition view_of (ifi : ifi_info) : view :=
  View (ifi_name ifi) (ifi_index ifi) (ifi_mtu ifi) (ifi_hlen ifi) (ifi_flags ifi) (ifi_myflags ifi)
    (snd <$> ifi_addr ifi) (snd <$> ifi_brdaddr ifi) (snd <$> ifi_dstaddr ifi).
Definition ifi_blocks1 (ifi : ifi_info) : list ptr :=
  ifi_self ifi :: option_list (fst <$> ifi_addr ifi) ++ option_list (fst <$> ifi_brdaddr ifi) ++
    option_list (fst <$> ifi_dstaddr ifi).
Definition ifi_blocks (ifis : list ifi_info) : list ptr := ifis ≫= ifi_blocks1.

(** What the system knows: the entries, and of a name the flags, the MTU, the
    broadcast address and the address of the peer. *)
Class Interfaces := {
  if_entries : list entry;
  if_flags : list Z → Z;
  if_mtu : list Z → Z;
  if_brdaddr : list Z → list Z;
  if_dstaddr : list Z → list Z
}.

(** netdevice(7), where [sizeof(struct ifreq)] is 32: SIOCGIFCONF gives as many
    whole entries as fit, the rest of the buffer being as it was; the other
    requests leave the name in the structure and put the answer behind it. *)
Class InterfacesOk (K : Kernel) (I : Interfaces) : Prop := {
  entries_ok : Forall entry_ok if_entries;
  addr_lengths : ∀ name, List.length (if_brdaddr name) = 16%nat ∧ List.length (if_dstaddr name) = 16%nat;
  conf_answer : ∀ t fd len r, 0 ≤ len < 2 ^ 31 → answer t (sys_ioctl fd SIOCGIFCONF (le32_bytes len)) = r →
    match r with
    | Ok (ifc_len, contents) =>
        let n := Z.min (len / 32) (Z.of_nat (List.length if_entries)) in
        ifc_len = 32 * n ∧ Z.of_nat (List.length contents) = len ∧
        layout (take (Z.to_nat n) if_entries) `prefix_of` contents
    | Err e => e ≠ EINVAL
    end;
  ifreq_answer : ∀ t fd request ifr r, List.length ifr = 32%nat → answer t (sys_ioctl fd request ifr) = Ok r →
    r.2 = take 16 ifr ++
      (if request =? SIOCGIFFLAGS then le_bytes 2 (if_flags (take 16 ifr)) ++ drop 18 ifr
       else if request =? SIOCGIFMTU then le_bytes 4 (if_mtu (take 16 ifr)) ++ drop 20 ifr
       else if request =? SIOCGIFBRDADDR then if_brdaddr (take 16 ifr)
       else if request =? SIOCGIFDSTADDR then if_dstaddr (take 16 ifr)
       else drop 16 ifr)
}.

(** The interfaces of the family that are up, in order, aliases on demand; the addresses of IPv4. *)
Fixpoint listed {I : Interfaces} (family : Z) (doaliases : bool) (lastname : list Z) (es : list entry) : list view :=
  match es with
  | [] => []
  | e :: es' =>
      let name := base_name (e_name e) in
      let same := strn_eq 16 lastname name in
      let flags := i16 (if_flags name) in
      if negb (e_family e =? family) || (same && negb doaliases) then listed family doaliases lastname es'
      else if Z.land flags IFF_UP =? 0 then listed family doaliases name es'
      else
        View (<[15%nat := 0]> name) 0 (i16 (if_mtu name)) 0 flags (if same then IFI_ALIAS else 0)
          (if family =? AF_INET then Some (e_sa e) else None)
          (if negb (family =? AF_INET) || (Z.land flags IFF_BROADCAST =? 0) then None else Some (if_brdaddr name))
          (if negb (family =? AF_INET) || (Z.land flags IFF_POINTOPOINT =? 0) then None else Some (if_dstaddr name))
        :: listed family doaliases name es'
  end.

(** ** Lemmas *)

Lemma strchr_at_app name more c : 0 ∈ name → strchr_at (name ++ more) c = strchr_at name c ∧ is_Some (strchr_at name c).
Proof.
  induction name as [|b name IH]; [by intros ?%not_elem_of_nil|]. intros H. cbn [app strchr_at].
  destruct (b =? c); [done|]. destruct (Z.eqb_spec b 0) as [|Hb]; [done|].
  apply elem_of_cons in H as [?|H]; [congruence|]. destruct (IH H) as [-> [o ->]]. split; [done|]. destruct o; by eexists.
Qed.
Lemma strchr_at_lt s c j : strchr_at s c = Some (Some j) → (j < List.length s)%nat.
Proof.
  revert j. induction s as [|b s IH]; intros j H; [done|]. cbn [strchr_at List.length] in *.
  destruct (b =? c); [simplify_eq; lia|]. destruct (b =? 0); [done|].
  destruct (strchr_at s c) as [[k|]|]; simplify_eq. specialize (IH k eq_refl). lia.
Qed.
Lemma length_base_name name : List.length (base_name name) = List.length name.
Proof. unfold base_name. destruct (strchr_at name 58) as [[j|]|]; [apply length_insert|done|done]. Qed.

Lemma bytes_at_mid a b c : bytes_at (a ++ b ++ c) (Z.of_nat (List.length a)) (Z.of_nat (List.length b)) = Some b.
Proof.
  rewrite bytes_at_app_r by lia. rewrite bytes_at_app_l by lia. rewrite bytes_at_some by lia.
  f_equal. rewrite Z.sub_diag, Nat2Z.id. cbn [Z.to_nat drop]. by rewrite drop_0, firstn_all.
Qed.
Lemma i16_mod z k : i16 (z mod (2 ^ 16 * 2 ^ Z.of_nat k)) = i16 z.
Proof.
  unfold i16. rewrite <- (Zplus_mod_idemp_l z). rewrite <- Zplus_mod_idemp_l.
  rewrite Z.mod_mod_divide; [done|]. by exists (2 ^ Z.of_nat k); rewrite Z.mul_comm.
Qed.

Lemma length_e_bytes e : entry_ok e → List.length (e_bytes e) = 32%nat ∧ List.length (e_sa e) = 16%nat.
Proof.
  intros (Hn & _ & _ & _ & Hd). unfold e_bytes, e_sa. rewrite !length_app, length_le_bytes, Hn, Hd. done.
Qed.
Lemma family_at e pre rest : entry_ok e →
  u16_at (pre ++ e_bytes e ++ rest) (Z.of_nat (List.length pre) + 16) = Some (e_family e).
Proof.
  intros (Hn & _ & Hf & _ & _). unfold u16_at, e_bytes, e_sa.
  replace (pre ++ (e_name e ++ le_bytes 2 (e_family e) ++ e_data e) ++ rest)
    with ((pre ++ e_name e) ++ le_bytes 2 (e_family e) ++ e_data e ++ rest) by by rewrite <- !app_assoc.
  replace (Z.of_nat (List.length pre) + 16) with (Z.of_nat (List.length (pre ++ e_name e))) by (rewrite length_app, Hn; lia).
  rewrite le_at_le_bytes. f_equal. apply Z.mod_small. exact Hf.
Qed.
(** The buffer once the colon is overwritten. *)
Lemma colon_buf e pre rest : entry_ok e →
  ∃ o, strchr_at (drop (Z.to_nat (Z.of_nat (List.length pre))) (pre ++ e_bytes e ++ rest)) 58 = Some o ∧
    match o with Some j => <[(Z.to_nat (Z.of_nat (List.length pre)) + j)%nat := 0]> (pre ++ e_bytes e ++ rest) | None => pre ++ e_bytes e ++ rest end =
    pre ++ (base_name (e_name e) ++ e_sa e) ++ rest.
Proof.
  intros (Hn & Hz & _). rewrite Nat2Z.id, drop_app_length. unfold e_bytes at 1. rewrite <- app_assoc.
  destruct (strchr_at_app (e_name e) (e_sa e ++ rest) 58 Hz) as [-> [o Ho]]. exists o. split; [done|].
  unfold base_name, e_bytes. rewrite Ho. destruct o as [j|]; [|done]. apply strchr_at_lt in Ho.
  rewrite insert_app_r_alt by lia. f_equal. replace (List.length pre + j - List.length pre)%nat with j by lia.
  rewrite <- !app_assoc. by rewrite insert_app_l.
Qed.

Section entry.
Context {K : Kernel} {I : Interfaces} {IOk : InterfacesOk K I} (sockfd family : Z).

(** The requests; the wrapper ends the process when one fails. *)
Lemma Ioctl_answers {A} request ifr (k : Z * list Z → M A) p0 own p Q :
  List.length ifr = 32%nat → holds p0 own p →
  (∀ w p', holds p0 own p' →
     post (k (w, take 16 ifr ++
      (if request =? SIOCGIFFLAGS then le_bytes 2 (if_flags (take 16 ifr)) ++ drop 18 ifr
       else if request =? SIOCGIFMTU then le_bytes 4 (if_mtu (take 16 ifr)) ++ drop 20 ifr
       else if request =? SIOCGIFBRDADDR then if_brdaddr (take 16 ifr)
       else if request =? SIOCGIFDSTADDR then if_dstaddr (take 16 ifr)
       else drop 16 ifr))) p' Q) →
  (∀ p', Q (Exit 1) p') →
  post (Ioctl sockfd request ifr ≫= k) p Q.
Proof.
  intros Hl Hh Hk Hx. apply post_bind. unfold Ioctl, or_err_sys. apply post_bind, post_syscall; intros r Hr; cbn [through].
  - pose proof (ifreq_answer _ _ _ _ r Hl Hr) as E. apply post_ret. cbn [through]. destruct r as [w bs]. cbn [snd] in E. subst bs.
    by apply Hk, holds_event.
  - eapply post_weaken; [apply err_sys_exits|]. intros o p' [-> _]. apply Hx.
Qed.
Lemma Calloc_bind {A} n (k : ptr → M A) p0 own p Q :
  holds p0 own p → (∀ q p', holds p0 (q :: own) p' → post (k q) p' Q) → (∀ p', Q (Exit 1) p') →
  post (Calloc n ≫= k) p Q.
Proof. intros Hh Hk Hx. apply post_bind. by eapply Calloc_holds; [done|intros q p' Hq; apply Hk|]. Qed.
Lemma post_ld {A B} (o : option A) a (k : A → M B) p Q : o = Some a → post (k a) p Q → post (ld o ≫= k) p Q.
Proof. by intros ->. Qed.

Lemma ifi_ask_post {A} flags mask request ifr name (k : list Z * option (ptr * list Z) → M A) p0 own p Q :
  request = SIOCGIFBRDADDR ∨ request = SIOCGIFDSTADDR →
  let sa := if request =? SIOCGIFBRDADDR then if_brdaddr name else if_dstaddr name in
  List.length ifr = 32%nat → take 16 ifr = name → holds p0 own p →
  (∀ ifr' o p', List.length ifr' = 32%nat → take 16 ifr' = name →
     snd <$> o = (if Z.land flags mask =? 0 then None else Some sa) →
     holds p0 (option_list (fst <$> o) ++ own) p' → post (k (ifr', o)) p' Q) →
  (∀ p', Q (Exit 1) p') →
  post (ifi_ask sockfd flags mask request 16 ifr ≫= k) p Q.
Proof.
  intros Hreq sa Hl Hn Hh Hk Hx. unfold ifi_ask. destruct (Z.land flags mask =? 0); [by apply (Hk ifr None p)|].
  assert (Hsa : List.length sa = 16%nat).
  { destruct (addr_lengths name). by unfold sa; case_match. }
  assert (Hln : List.length name = 16%nat) by (rewrite <- Hn, length_take; lia).
  apply post_bind, post_bind. unfold Ioctl, or_err_sys. apply post_bind, post_syscall; intros r Hr; cbn [through].
  2: { eapply post_weaken; [apply err_sys_exits|]. intros o p' [-> _]. apply Hx. }
  pose proof (ifreq_answer _ _ _ _ r Hl Hr) as E. apply post_ret. cbn [through]. destruct r as [w bs]. cbn [snd] in E.
  replace (if request =? SIOCGIFFLAGS then _ else _) with sa in E by (by unfold sa; destruct Hreq as [-> | ->]; rewrite <- Hn).
  rewrite Hn in E. subst bs. apply (Calloc_bind _ _ p0 own); [by apply holds_event| |done].
  intros q p' Hq. pose proof (bytes_at_mid name sa []) as E. rewrite app_nil_r, Hln, Hsa in E.
  eapply post_ld; [exact E|]. apply post_ret. cbn [through]. apply Hk; try done.
  - rewrite length_app, Hln, Hsa. done.
  - rewrite take_app_le, take_ge by lia. done.
Qed.

(** What one turn of the loop does to the list. *)
Definition entry_post (doaliases : bool) (e : entry) (pre rest last : list Z) (ifis : list ifi_info)
    (p0 : proc) (own : list ptr) (o : outcome (Z * scan)) (p' : proc) : Prop :=
  match o with
  | Ret (next, s) =>
      next = Z.of_nat (List.length pre) + 32 ∧
      ∃ bytes last' new, List.length bytes = 32%nat ∧ s = Scan (pre ++ bytes ++ rest) last' (ifis ++ new) ∧
        holds p0 (ifi_blocks (ifis ++ new) ++ own) p' ∧
        ∀ es, listed family doaliases last (e :: es) = (view_of <$> new) ++ listed family doaliases last' es
  | Exit st => st = 1
  | _ => False
  end.

Lemma ifi_blocks_snoc ifis ifi : ifi_blocks (ifis ++ [ifi]) = ifi_blocks ifis ++ ifi_blocks1 ifi.
Proof. unfold ifi_blocks. rewrite bind_app. cbn [mbind list_bind]. by rewrite app_nil_r. Qed.

Lemma ifi_entry_post doaliases e pre rest last ifis p0 own p :
  entry_ok e → holds p0 (ifi_blocks ifis ++ own) p →
  post (ifi_entry 32 sockfd family doaliases (Z.of_nat (List.length pre)) (Scan (pre ++ e_bytes e ++ rest) last ifis)) p
    (entry_post doaliases e pre rest last ifis p0 own).
Proof.
  intros He Hh. pose proof He as (Hn & _ & _ & H6 & Hd). destruct (length_e_bytes e He) as [Hl Hsa].
  unfold ifi_entry. eapply post_ld; [by apply family_at|]. cbn zeta.
  assert (Hskip : ∀ p' bytes last', List.length bytes = 32%nat → holds p0 (ifi_blocks ifis ++ own) p' →
    (∀ es, listed family doaliases last (e :: es) = listed family doaliases last' es) →
    entry_post doaliases e pre rest last ifis p0 own
      (Ret (Z.of_nat (List.length pre) + 32, Scan (pre ++ bytes ++ rest) last' ifis)) p').
  { intros p' bytes last' Hb Hh' Hli. split; [done|]. exists bytes, last', []. by rewrite app_nil_r. }
  assert (Hslen : IFNAMSIZ + sockaddr_len (e_family e) = 32) by (unfold sockaddr_len; by rewrite (proj2 (Z.eqb_neq _ _) H6)).
  rewrite Hslen. destruct (Z.eqb_spec (e_family e) family) as [E4|E4]; cbn [negb].
  2: { apply post_ret, Hskip; [done..|]. intros es. cbn [listed]. by rewrite (proj2 (Z.eqb_neq _ _) E4). }
  destruct (colon_buf e pre rest He) as (o & Ho & Hbuf). eapply post_ld; [exact Ho|]. rewrite Hbuf. clear o Ho Hbuf.
  set (name := base_name (e_name e)). assert (Hln : List.length name = 16%nat) by (unfold name; by rewrite length_base_name).
  assert (Hname : bytes_at (pre ++ (name ++ e_sa e) ++ rest) (Z.of_nat (List.length pre)) IFNAMSIZ = Some name).
  { rewrite <- (app_assoc name). change IFNAMSIZ with (Z.of_nat 16). rewrite <- Hln. apply bytes_at_mid. }
  assert (Hifr : bytes_at (pre ++ (name ++ e_sa e) ++ rest) (Z.of_nat (List.length pre)) 32 = Some (name ++ e_sa e)).
  { replace 32 with (Z.of_nat (List.length (name ++ e_sa e))) by (rewrite length_app, Hln, Hsa; done). apply bytes_at_mid. }
  assert (Hbytes : List.length (name ++ e_sa e) = 32%nat) by (by rewrite length_app, Hln, Hsa).
  assert (Hlist : ∀ es, listed family doaliases last (e :: es) =
    let same := strn_eq 16 last name in
    if same && negb doaliases then listed family doaliases last es
    else if Z.land (i16 (if_flags name)) IFF_UP =? 0 then listed family doaliases name es
    else View (<[15%nat := 0]> name) 0 (i16 (if_mtu name)) 0 (i16 (if_flags name)) (if same then IFI_ALIAS else 0)
      (if family =? AF_INET then Some (e_sa e) else None)
      (if negb (family =? AF_INET) || (Z.land (i16 (if_flags name)) IFF_BROADCAST =? 0) then None else Some (if_brdaddr name))
      (if negb (family =? AF_INET) || (Z.land (i16 (if_flags name)) IFF_POINTOPOINT =? 0) then None else Some (if_dstaddr name)) :: listed family doaliases name es).
  { intros es. cbn [listed]. by rewrite (proj2 (Z.eqb_eq _ _) E4). }
  clearbody name. eapply post_ld; [exact Hname|]. change (Z.to_nat IFNAMSIZ) with 16%nat.
  destruct (strn_eq 16 last name && negb doaliases) eqn:Esame.
  { apply post_ret, Hskip; [done..|]. intros es. rewrite Hlist. cbn zeta. by rewrite Esame. }
  eapply post_ld; [exact Hifr|].
  assert (Ht16 : ∀ x, take 16 (name ++ x) = name) by (intros x; rewrite take_app_le, take_ge by lia; done).
  eapply Ioctl_answers; [done|exact Hh| |done]. intros w1 p1 Hh1. cbn [fst snd]. rewrite Ht16.
  change (SIOCGIFFLAGS =? SIOCGIFFLAGS) with true. cbn iota.
  eapply post_ld.
  { unfold u16_at. replace IFNAMSIZ with (Z.of_nat (List.length name)) by (by rewrite Hln). apply le_at_le_bytes. }
  change (256 ^ Z.of_nat 2) with (2 ^ 16 * 2 ^ Z.of_nat 0). rewrite i16_mod.
  set (flags := i16 (if_flags name)) in *.
  destruct (Z.land flags IFF_UP =? 0) eqn:Eup.
  { apply post_ret, Hskip; [done..|]. intros es. rewrite Hlist. cbn zeta. by rewrite Esame. }
  eapply Calloc_bind; [exact Hh1| |done]. intros self p2 Hh2.
  eapply Ioctl_answers; [|exact Hh2| |done].
  { rewrite !length_app, length_le_bytes, length_drop, length_app, Hln, Hsa. done. }
  intros w2 p3 Hh3. rewrite Ht16. change (SIOCGIFMTU =? SIOCGIFFLAGS) with false. change (SIOCGIFMTU =? SIOCGIFMTU) with true. cbn iota.
  set (tl := drop 20 _). assert (Htl : List.length tl = 12%nat).
  { unfold tl. rewrite length_drop, !length_app, length_le_bytes, length_drop, length_app, Hln, Hsa. done. }
  eapply post_ld.
  { unfold u32_at. replace IFNAMSIZ with (Z.of_nat (List.length name)) by (by rewrite Hln). apply le_at_le_bytes. }
  change (256 ^ Z.of_nat 4) with (2 ^ 16 * 2 ^ Z.of_nat 16). rewrite i16_mod.
  apply post_bind. unfold ifi_addrs. rewrite (proj2 (Z.eqb_neq _ _) H6). rewrite E4 in *.
  destruct (Z.eqb_spec family AF_INET) as [E5|E5]; cbn [negb orb] in *.
  2: { apply post_ret. cbn [through]. apply post_ret. split; [done|].
       exists (name ++ e_sa e), name, [Ifi self (<[15%nat:=0]> name) 0 (i16 (if_mtu name)) 0 flags (if strn_eq 16 last name then IFI_ALIAS else 0) None None None].
       split; [done|]. split; [done|]. split.
       - rewrite ifi_blocks_snoc. eapply holds_perm; [|exact Hh3]. unfold ifi_blocks1. cbn. solve_Permutation.
       - intros es. rewrite Hlist. cbn zeta. by rewrite Esame. }
  eapply Calloc_bind; [exact Hh3| |done]. intros q p4 Hh4.
  eapply (post_ld _ (e_sa e)).
  { replace (pre ++ (name ++ e_sa e) ++ rest) with ((pre ++ name) ++ e_sa e ++ rest) by (by rewrite <- !app_assoc).
    replace (Z.of_nat (List.length pre) + IFNAMSIZ) with (Z.of_nat (List.length (pre ++ name))) by (rewrite length_app, Hln; unfold IFNAMSIZ; lia).
    replace SIZEOF_SOCKADDR_IN with (Z.of_nat (List.length (e_sa e))) by (by rewrite Hsa). apply bytes_at_mid. }
  eapply (ifi_ask_post flags _ SIOCGIFBRDADDR _ name); [by left| |by apply Ht16|exact Hh4| |done].
  { rewrite !length_app, length_le_bytes, Hln, Htl. done. }
  intros ifr1 brd p5 Hl1 Hn1 Hbrd Hh5.
  eapply (ifi_ask_post flags _ SIOCGIFDSTADDR _ name); [by right|done|done|exact Hh5| |done].
  intros ifr2 dst p6 Hl2 Hn2 Hdst Hh6. apply post_ret. cbn [through]. apply post_ret. split; [done|].
  exists (name ++ e_sa e), name, [Ifi self (<[15%nat:=0]> name) 0 (i16 (if_mtu name)) 0 flags (if strn_eq 16 last name then IFI_ALIAS else 0) (Some (q, e_sa e)) brd dst].
  split; [done|]. split; [done|]. split.
  - rewrite ifi_blocks_snoc. eapply holds_perm; [|exact Hh6]. unfold ifi_blocks1. cbn [ifi_self ifi_addr ifi_brdaddr ifi_dstaddr fmap option_fmap option_map option_list fst].
    solve_Permutation.
  - intros es. rewrite Hlist. cbn zeta. rewrite Esame. cbn [fmap list_fmap app]. unfold view_of. cbn [ifi_name ifi_index ifi_mtu ifi_hlen ifi_flags ifi_myflags ifi_addr ifi_brdaddr ifi_dstaddr].
    rewrite Hbrd, Hdst. done.
Qed.

Lemma ifi_entries_post doaliases p0 own : ∀ es fuel pre junk last ifis p,
  Forall entry_ok es → (List.length es < fuel)%nat → holds p0 (ifi_blocks ifis ++ own) p →
  let ptr := Z.of_nat (List.length pre) in
  post (ifi_entries 32 fuel sockfd family doaliases ptr (ptr + 32 * Z.of_nat (List.length es)) (Scan (pre ++ layout es ++ junk) last ifis)) p
    (λ o p', match o with
     | Ret s => ∃ new, sc_ifis s = ifis ++ new ∧ view_of <$> new = listed family doaliases last es ∧
                  holds p0 (ifi_blocks (ifis ++ new) ++ own) p'
     | Exit st => st = 1
     | _ => False
     end).
Proof.
  induction es as [|e es IH]; intros [|f] pre junk last ifis p Hes Hf Hh ptr; try (cbn [List.length] in Hf; lia); cbn [ifi_entries].
  { rewrite (proj2 (Z.ltb_ge _ _)) by (cbn [List.length]; lia). apply post_ret. exists []. by rewrite app_nil_r. }
  rewrite (proj2 (Z.ltb_lt _ _)) by (cbn [List.length]; lia). apply Forall_cons in Hes as [He Hes]. apply post_bind.
  eapply post_weaken.
  { change (layout (e :: es)) with (e_bytes e ++ layout es). rewrite <- (app_assoc (e_bytes e)).
    eapply (ifi_entry_post doaliases e pre (layout es ++ junk) last ifis p0 own p He Hh). }
  intros o p1 Ho. destruct o as [[next s]|st| | |]; cbn [through]; try done.
  destruct Ho as (-> & bytes & last' & new & Hb & -> & Hh1 & Hli).
  fold ptr. rewrite (app_assoc pre bytes). replace (ptr + 32) with (Z.of_nat (List.length (pre ++ bytes))) by (rewrite length_app, Hb; lia).
  replace (ptr + 32 * Z.of_nat (List.length (e :: es))) with (Z.of_nat (List.length (pre ++ bytes)) + 32 * Z.of_nat (List.length es))
    by (rewrite length_app, Hb; cbn [List.length]; lia).
  eapply post_weaken; [apply (IH f (pre ++ bytes) junk last' (ifis ++ new) p1 Hes ltac:(cbn [List.length] in Hf; lia) Hh1)|].
  intros o p2 Ho. destruct o as [s|st| | |]; try done. destruct Ho as (new' & E & Hv & Hh2).
  exists (new ++ new'). rewrite E, <- app_assoc in *. split; [done|]. split; [|done]. by rewrite fmap_app, Hv, Hli.
Qed.

(** The buffer grows until everything fits. *)
Lemma ifconf_loop_post p0 own : ∀ fuel c lastlen p,
  let n := Z.of_nat (List.length if_entries) in
  0 < c → n ≤ 1000000 → c ≤ n + 110 → n ≤ c + 10 * (Z.of_nat fuel - 2) → (1 ≤ fuel)%nat →
  (lastlen = 32 * Z.min (c - 10) n ∨ lastlen = 0 ∧ (2 ≤ fuel)%nat ∧ c ≤ 100) → holds p0 own p →
  post (ifconf_loop 32 fuel sockfd (32 * c) lastlen) p (λ o p',
    match o with
    | Ret (q, ifc_len, contents) => holds p0 (q :: own) p' ∧ ifc_len = 32 * n ∧ layout if_entries `prefix_of` contents
    | Exit st => st = 1
    | _ => False
    end).
Proof.
  induction fuel as [|f IH]; intros c lastlen p n Hc Hn Hcn Hfuel H1 Hlast Hh; [lia|]. cbn [ifconf_loop].
  assert (Hlen : 0 ≤ 32 * c < 2 ^ 31) by (change (2 ^ 31) with 2147483648; lia).
  apply post_bind. eapply Malloc_holds; [exact Hh| |by intros]. intros q p1 Hq. cbn [through].
  apply post_bind, post_syscall; intros r Hr; cbn [through].
  2: { apply post_bind, post_get_errno. cbn [through p_errno with_errno].
       pose proof (conf_answer _ sockfd (32 * c) _ Hlen Hr) as He. cbn in He.
       rewrite (proj2 (Z.eqb_neq _ _) He). cbn [negb orb]. eapply post_weaken; [apply err_sys_exits|]. by intros o p' [-> _]. }
  pose proof (conf_answer _ sockfd (32 * c) _ Hlen Hr) as He. destruct r as [ifc_len contents]. cbn in He.
  destruct He as (Elen & _ & Hpre). replace (32 * c / 32) with c in * by (rewrite Z.mul_comm, Z.div_mul; lia). fold n in Elen, Hpre.
  destruct (Z.eqb_spec ifc_len lastlen) as [E|Hne].
  - apply post_ret. split; [by apply holds_event|]. assert (Hall : n ≤ c) by lia.
    rewrite Z.min_r in * by lia. split; [done|]. unfold n in Hpre. by rewrite Nat2Z.id, firstn_all in Hpre.
  - apply post_bind. unfold more. rewrite (proj2 (Z.ltb_ge _ _)) by (unfold INT_MAX; lia). apply post_ret. cbn [through].
    apply post_bind. eapply free_holds; [by apply holds_event|]. intros p2 Hh2. cbn [through].
    replace (32 * c + 10 * 32) with (32 * (c + 10)) by lia. apply IH; try done; try lia.
Qed.
End entry.

(** ** Properties *)

Section free.
Context {K : Kernel}.

(** The list is given back, block by block. *)
Lemma free_ifi_info_holds p0 own ifis : ∀ p (Q : outcome unit → proc → Prop),
  holds p0 (ifi_blocks ifis ++ own) p → (∀ p', holds p0 own p' → Q (Ret tt) p') → post (free_ifi_info ifis) p Q.
Proof.
  induction ifis as [|ifi ifis IH]; intros p Q Hh HQ; cbn [free_ifi_info]; [by apply post_ret, HQ|].
  apply post_bind. eapply (free_opt_holds _ p0 (option_list (fst <$> ifi_brdaddr ifi) ++ option_list (fst <$> ifi_dstaddr ifi) ++
    ifi_self ifi :: ifi_blocks ifis ++ own)).
  { eapply holds_perm; [|exact Hh]. change (ifi_blocks (ifi :: ifis)) with (ifi_blocks1 ifi ++ ifi_blocks ifis). unfold ifi_blocks1.
    solve_Permutation. }
  intros p1 Hh1. cbn [through]. apply post_bind. eapply free_opt_holds; [exact Hh1|].
  intros p2 Hh2. cbn [through]. apply post_bind. eapply free_opt_holds; [exact Hh2|].
  intros p3 Hh3. cbn [through]. apply post_bind. eapply free_holds; [exact Hh3|].
  intros p4 Hh4. cbn [through]. by eapply IH.
Qed.
End free.

(** C19: [get_ifi_info], for any family, on a system that answers as netdevice(7) says: a [struct ifreq] is a name and an
    address (32 bytes), SIOCGIFCONF gives as many whole entries as fit, none of them of AF_INET6 (Linux
    gives AF_INET ones), and the interfaces, a million at most, do not change while it runs.  The buffer is enlarged
    until the kernel has room for all of them; the list that is returned has the
    interfaces of that family that are up, in order, with their flags and MTU and, for AF_INET, their addresses,
    aliases only if asked for (so the list for AF_INET6 is empty, and the code for IPv6 addresses, which reads
    beyond an [ifreq], is not reached); its blocks are the only ones that stay
    allocated, and [free_ifi_info] gives them all back.  When a call fails the
    process exits with status 1. *)
Theorem get_ifi_info_correct (K : Kernel) (I : Interfaces) {IOk : InterfacesOk K I} fuel family doaliases p :
  heap_ok p → (2 ≤ fuel)%nat → Z.of_nat (List.length if_entries) ≤ Z.min 1000000 (80 + 10 * Z.of_nat fuel) →
  post (get_ifi_info 32 fuel family doaliases) p (λ o p',
    match o with
    | Ret ifis =>
        view_of <$> ifis = listed family doaliases [0] if_entries ∧ holds p (ifi_blocks ifis) p' ∧
        post (free_ifi_info ifis) p' (λ o' p'', o' = Ret tt ∧ holds p [] p'')
    | Exit st => st = 1
    | _ => False
    end).
Proof.
  intros Hp Hf Hn. unfold get_ifi_info. apply post_bind. unfold Socket, or_err_sys. apply post_bind, post_syscall; intros sockfd _; cbn [through].
  2: { eapply post_weaken; [apply err_sys_exits|]. by intros o p' [-> _]. }
  apply post_ret. cbn [through]. apply post_bind. change (100 * 32) with (32 * 100). eapply post_weaken.
  { apply (ifconf_loop_post sockfd p [] fuel 100 0); try lia. by apply holds_event, holds_refl. }
  intros o p1 Ho. destruct o as [[[q ifc_len] contents]|st| | |]; cbn [through]; try done.
  destruct Ho as (Hh1 & -> & [junk Hc]). subst contents. apply post_bind. eapply post_weaken.
  { rewrite (Z2Nat.inj_mul 32) by lia. rewrite Nat2Z.id.
    apply (ifi_entries_post sockfd family doaliases p [q] if_entries _ [] junk [0] [] p1 entries_ok); [|exact Hh1].
    change (Z.to_nat 32) with 32%nat. lia. }
  intros o p2 Ho. destruct o as [s|st| | |]; cbn [through]; try done.
  destruct Ho as (ifis & Es & Hv & Hh2). cbn [app] in Es, Hh2. apply post_bind.
  apply (free_holds q p (ifi_blocks ifis)); [eapply holds_perm; [|exact Hh2]; solve_Permutation|].
  intros p3 Hh3. cbn [through]. apply post_ret. rewrite Es. split; [done|]. split; [done|].
  eapply free_ifi_info_holds; [by rewrite app_nil_r|]. intros p4 Hh4. by split.
Qed.

(** A system with [es], each entry followed by [pad] bytes, whose requests are
    answered from tables. *)
Definition table : Interfaces := {|
  if_entries := [Entry (map ord (chars "lo") ++ replicate 14 0) AF_INET ([0; 0; 127; 0; 0; 1] ++ replicate 8 0);
                 Entry (map ord (chars "eth0") ++ replicate 12 0) AF_INET ([0; 0; 192; 0; 2; 1] ++ replicate 8 0);
                 Entry (map ord (chars "eth0:1") ++ replicate 10 0) AF_INET ([0; 0; 192; 0; 2; 7] ++ replicate 8 0);
                 Entry (map ord (chars "ppp0") ++ replicate 12 0) AF_INET ([0; 0; 192; 0; 2; 9] ++ replicate 8 0)];
  if_flags name := if (name !!! 0%nat) =? ord "l" then 73 else if (name !!! 0%nat) =? ord "e" then 4163 else 16;
  if_mtu name := if (name !!! 0%nat) =? ord "l" then 65536 else 1500;
  if_brdaddr _ := [2; 0; 0; 0; 192; 0; 2; 255] ++ replicate 8 0;
  if_dstaddr _ := [2; 0; 0; 0; 192; 0; 2; 10] ++ replicate 8 0
|}.
Definition padded (pad : nat) : list (list Z) := (λ e, e_bytes e ++ replicate pad 0) <$> @if_entries table.
Definition conf_contents (pad : nat) (len : Z) : Z * list Z :=
  let size := 32 + Z.of_nat pad in
  let n := Z.min (len / size) (Z.of_nat (List.length (padded pad))) in
  (size * n, take (Z.to_nat len) (List.concat (take (Z.to_nat n) (padded pad)) ++ replicate (Z.to_nat len) 0)).
Definition tabled (pad : nat) : Kernel := λ A t c,
  (match c in sys A return A → A with
   | sys_ioctl fd request arg => λ _,
       if request =? SIOCGIFCONF then
         if (List.length arg =? 4)%nat then Ok (conf_contents pad (foldr (λ b v, b + 256 * v) 0 arg)) else Err 9
       else Ok (0, take 16 arg ++
         (if request =? SIOCGIFFLAGS then le_bytes 2 (@if_flags table (take 16 arg)) ++ drop 18 arg
          else if request =? SIOCGIFMTU then le_bytes 4 (@if_mtu table (take 16 arg)) ++ drop 20 arg
          else if request =? SIOCGIFBRDADDR then @if_brdaddr table (take 16 arg) ++ drop 32 arg
          else if request =? SIOCGIFDSTADDR then @if_dstaddr table (take 16 arg) ++ drop 32 arg
          else drop 16 arg))
   | _ => λ a, a
   end) (plain t c).

Lemma le32_decode len : 0 ≤ len < 2 ^ 31 → foldr (λ b v, b + 256 * v) 0 (le32_bytes len) = len.
Proof.
  intros Hl. change (2 ^ 31) with 2147483648 in Hl. unfold le32_bytes, be32. cbn [rev app foldr].
  rewrite !Z.shiftr_div_pow2 by lia. change 255 with (Z.ones 8). rewrite !Z.land_ones by lia.
  change (2 ^ 24) with 16777216. change (2 ^ 16) with 65536. change (2 ^ 8) with 256. zdiv.
Qed.
#[local] Instance table_ok : InterfacesOk (tabled 0) table.
Proof.
  split.
  - apply (bool_decide_unpack _). by vm_compute.
  - done.
  - intros t fd len r Hl E. unfold answer, tabled in E. cbn -[le32_bytes conf_contents foldr] in E. subst r.
    rewrite (le32_decode len Hl). unfold conf_contents. change (Z.of_nat (List.length (padded 0))) with 4. change (32 + Z.of_nat 0) with 32.
    change (Z.of_nat (List.length (@if_entries table))) with 4. cbn zeta.
    set (n := Z.min (len / 32) 4). assert (Hn : 0 ≤ n ≤ 4 ∧ 32 * n ≤ len) 
      by (pose proof (Z.mul_div_le len 32 eq_refl); pose proof (Z.div_pos len 32 (proj1 Hl) eq_refl); unfold n; lia).
    assert (Hc : List.concat (take (Z.to_nat n) (padded 0)) = layout (take (Z.to_nat n) (@if_entries table))).
    { assert (n = 0 ∨ n = 1 ∨ n = 2 ∨ n = 3 ∨ n = 4) as [-> | [-> | [-> | [-> | ->]]]] by lia; by vm_compute. }
    rewrite Hc. assert (Hlen : List.length (layout (take (Z.to_nat n) (@if_entries table))) = Z.to_nat (32 * n)).
    { assert (n = 0 ∨ n = 1 ∨ n = 2 ∨ n = 3 ∨ n = 4) as [-> | [-> | [-> | [-> | ->]]]] by lia; by vm_compute. }
    split; [done|]. split.
    + rewrite length_take, length_app, Hlen, length_replicate. lia.
    + rewrite take_app_ge by lia. by apply prefix_app_r.
  - intros t fd request ifr r Hl E. unfold answer, tabled in E. cbn -[Nat.eqb Z.eqb take drop le_bytes] in E.
    assert (Hd : drop 32 ifr = []) by (apply drop_ge; lia).
    destruct (request =? SIOCGIFCONF) eqn:Econf.
    + apply Z.eqb_eq in Econf as ->. rewrite Hl in E. simpl in E. discriminate E.
    + injection E as <-. cbn [snd]. rewrite Hd.
      destruct (request =? SIOCGIFFLAGS); [done|]. destruct (request =? SIOCGIFMTU); [done|].
      destruct (request =? SIOCGIFBRDADDR); [by rewrite ?app_nil_r|].
      by destruct (request =? SIOCGIFDSTADDR); [rewrite ?app_nil_r|].
Qed.

Lemma get_ifi_info_correct_witness :
  post (get_ifi_info (K := tabled 0) 32 5 AF_INET true) proc0 (λ o p',
    match o with
    | Ret ifis =>
        view_of <$> ifis = listed (I := table) AF_INET true [0] (@if_entries table) ∧ holds proc0 (ifi_blocks ifis) p' ∧
        post (free_ifi_info ifis) p' (λ o' p'', o' = Ret tt ∧ holds proc0 [] p'')
    | Exit st => st = 1
    | _ => False
    end) ∧
  match get_ifi_info (K := tabled 0) 32 5 AF_INET true proc0 with
  | (Ret ifis, p') => ifi_myflags <$> ifis = [0; 0; IFI_ALIAS] ∧ size (p_live p') = 8%nat
  | _ => False
  end.
Proof.
  split; [|by vm_compute]. apply (get_ifi_info_correct (tabled 0) table 5 AF_INET true proc0 proc0_heap_ok); [lia|done].
Defined.

(** Where [struct ifreq] has 40 bytes and so has an entry, the loop still advances
    by 32: of these four interfaces only the first is found. *)
Example ifi_stride :
  match get_ifi_info (K := tabled 8) 40 5 AF_INET true proc0 with
  | (Ret ifis, _) => ifi_name <$> ifis = [map ord (chars "lo") ++ replicate 14 0]
  | _ => False
  end.
Proof. by vm_compute. Qed.
