(* ===== verification/Srcrt.v ===== *)
(** IPv4 source routes: src/unpv13e/ipopts (sourceroute.c, tcpcli01.c).

    The option under construction is the static state of sourceroute.c: the
    block, its 44 bytes, the offsets [optr] and [lenptr] in it, and the number
    of addresses.  The options that were received are the bytes of the caller's
    buffer; a load beyond them is undefined. *)
From S2P Require Import Prelude Machine Inet Posix Wrap Heap Stream Frame Sockaddr Gai NetLib Packet.

Definition IPOPT_EOL : Z := 0.
Definition IPOPT_NOP : Z := 1.
Definition IPOPT_LSRR : Z := 131.
Definition IPOPT_SSRR : Z := 137.
Definition IP_OPTIONS : Z := 4.
Definition OPTSIZE : Z := 44.

Record srcrt := Srcrt {
  opt_block : ptr;
  opt_buf : list Z;
  optr : nat;
  lenptr : nat;
  ocnt : Z
}.

Section srcrt.
Context {K : Kernel} {R : Resolver}.

(** ** sourceroute.c *)

(** A store outside the block is undefined. *)
Definition store_opt (buf : list Z) (i : nat) (bs : list Z) : M (list Z) :=
  if (i + List.length bs <=? List.length buf)%nat then mret (put buf i bs) else stop UB.

Definition inet_srcrt_init (type : Z) : M srcrt :=
  q ← Malloc OPTSIZE;
  let buf := replicate (Z.to_nat OPTSIZE) 0 in
  buf ← store_opt buf 0 [IPOPT_NOP];
  buf ← store_opt buf 1 [if type =? 0 then IPOPT_LSRR else IPOPT_SSRR];
  buf ← store_opt buf 3 [4];
  mret (Srcrt q buf 4 2 0).

Definition inet_srcrt_add (hostptr : string) (s : srcrt) : M (srcrt * Z) :=
  if 9 <? ocnt s then err_quit ("too many source routes with: " +:+ hostptr)
  else
    ai ← Host_serv (Some hostptr) None AF_INET 0;
    match head ai ≫= ai_addr with
    | Some (_, SaIn _ sin_addr) =>
        buf ← store_opt (opt_buf s) (optr s) (take 4 sin_addr);
        gai_free ai ;;
        let ocnt := ocnt s + 1 in
        let len := 3 + ocnt * 4 in
        buf ← store_opt buf (lenptr s) [len mod 256];
        mret (Srcrt (opt_block s) buf (optr s + 4) (lenptr s) ocnt, len + 1)
    | _ => stop UB
    end.

(** [while ( (c = *ptr++) == IPOPT_NOP);]: the byte and what follows. *)
Fixpoint skip_nops (bs : list Z) : option (Z * list Z) :=
  match bs with
  | [] => None
  | c :: bs' => if c =? IPOPT_NOP then skip_nops bs' else Some (c, bs')
  end.
(** [while (len > 0)]; a length byte allows 63 turns. *)
Fixpoint print_hops (fuel : nat) (ptr : list Z) (len : Z) : M unit :=
  match fuel with
  | O => stop NoFuel
  | S f =>
      if 0 <? len then
        addr ← ld (bytes_at ptr 0 4);
        s ← Inet_ntop AF_INET addr true Ipv4.INET_ADDRSTRLEN;
        printf (s +:+ " ") ;;
        print_hops f (drop 4 ptr) (len - 4)
      else mret tt
  end.
Definition inet_srcrt_print (ptr : list Z) : M unit :=
  hop1 ← ld (bytes_at ptr 0 4);
  '(c, ptr) ← ld (skip_nops (drop 4 ptr));
  if negb (c =? IPOPT_LSRR) && negb (c =? IPOPT_SSRR) then
    printf ("received option type " +:+ fmt_d c +:+ nl)
  else
    printf (if c =? IPOPT_LSRR then "received LSRR: " else "received SSRR: ") ;;
    s ← Inet_ntop AF_INET hop1 true Ipv4.INET_ADDRSTRLEN;
    printf (s +:+ " ") ;;
    len ← ld (u8_at ptr 0);
    print_hops 64 (drop 2 ptr) (len - 4) ;;
    printf nl.

(** ** tcpcli01.c, from the end of the options: [type] is that of -g or -G, [names]
    is [argv] from [optind] on *)

Fixpoint add_all (names : list string) (s : srcrt) (len : Z) : M (srcrt * Z) :=
  match names with
  | [] => mret (s, len)
  | name :: names' => '(s, len) ← inet_srcrt_add name s; add_all names' s len
  end.
Definition route_init (type : option Z) : M (option srcrt) :=
  match type with None => mret None | Some t => s ← inet_srcrt_init t; mret (Some s) end.
Definition srcrt_connect (type : option Z) (names : list string) : M Z :=
  s ← route_init type;
  s ← match s with
      | Some s => '(s, _) ← add_all (removelast names) s 0; mret (Some s)
      | None => if (1 <? List.length names)%nat then err_quit "need -g or -G to specify route" else mret None
      end;
  match last names with
  | None => err_quit "missing <hostname>"
  | Some host =>
      ais ← Host_serv (Some host) (Some "9877"%string) AF_INET SOCK_STREAM;
      match head ais with
      | None => stop UB
      | Some ai =>
          sockfd ← Socket (ai_family ai) (ai_socktype ai) (ai_protocol ai);
          match s with
          | None => mret tt
          | Some s =>
              '(s, len) ← inet_srcrt_add host s;
              or_err_sys (sys_setsockopt sockfd IPPROTO_IP IP_OPTIONS (take (Z.to_nat len) (opt_buf s))) "setsockopt error" ;;
              free (opt_block s)
          end ;;
          match ai_addr ai with
          | Some (_, sa) => Connect sockfd sa (ai_addrlen ai) ;; mret sockfd
          | None => stop UB
          end
      end
  end.
Definition srcrt_cli (fuel : nat) (type : option Z) (names : list string) (s0 : rl) : M unit :=
  sockfd ← srcrt_connect type names;
  str_cli fuel sockfd s0 ;;
  exit 0.
End srcrt.

(** ** Specification *)

(** What the option is to be: NOP, the code, the length, the offset of the first
    address, the addresses, zeros to the end of the block. *)
Definition route_bytes (type : Z) (addrs : list (list Z)) : list Z :=
  [IPOPT_NOP; if type =? 0 then IPOPT_LSRR else IPOPT_SSRR; 3 + 4 * Z.of_nat (List.length addrs); 4] ++
  List.concat addrs.
Definition route_ok (type : Z) (addrs : list (list Z)) (s : srcrt) : Prop :=
  let n := List.length addrs in
  (n ≤ 10)%nat ∧ ocnt s = Z.of_nat n ∧ optr s = (4 + 4 * n)%nat ∧ lenptr s = 2%nat ∧
  Forall (λ a, List.length a = 4%nat ∧ bytes_ok a) addrs ∧
  opt_buf s = [IPOPT_NOP; if type =? 0 then IPOPT_LSRR else IPOPT_SSRR; if (n =? 0)%nat then 0 else 3 + 4 * Z.of_nat n; 4] ++
    List.concat addrs ++ replicate (40 - 4 * n) 0.

(** A sequence of lines on the standard output. *)
Fixpoint print_all {K : Kernel} (ts : list string) : M unit :=
  match ts with [] => mret tt | t :: ts' => printf t ;; print_all ts' end.

(** The resolver's database: for a host of the Internet family without service,
    the first result has the address [db host]. *)
Class Hosts (K : Kernel) (R : Resolver) (db : string → list Z) : Prop := {
  db_ok : ∀ host, List.length (db host) = 4%nat ∧ bytes_ok (db host);
  db_result : ∀ host p, post (gai (Some host) None (Some (Hints AI_CANONNAME AF_INET 0 0))) p (λ o _,
    ∀ ais, o = Ret (0, ais) → ∃ q port, head ais ≫= ai_addr = Some (q, SaIn port (db host)))
}.

(** ** Lemmas *)

Lemma length_concat_addrs (addrs : list (list Z)) : Forall (λ a, List.length a = 4%nat ∧ bytes_ok a) addrs →
  List.length (List.concat addrs) = (4 * List.length addrs)%nat.
Proof. induction 1 as [|a addrs [Ha _] _ IH]; [done|]. cbn [List.concat List.length]. rewrite length_app, Ha, IH. lia. Qed.
Lemma route_length type addrs s : route_ok type addrs s → List.length (opt_buf s) = 44%nat.
Proof.
  intros (Hn & _ & _ & _ & Ha & ->). rewrite !length_app, length_replicate, (length_concat_addrs _ Ha). cbn. lia.
Qed.
(** The option as [setsockopt] gets it. *)
Lemma route_take type addrs s : route_ok type addrs s → addrs ≠ [] →
  take (4 + 4 * List.length addrs) (opt_buf s) = route_bytes type addrs.
Proof.
  intros (Hn & _ & _ & _ & Ha & ->) Hne. assert (List.length addrs ≠ 0%nat) by (by destruct addrs).
  rewrite (proj2 (Nat.eqb_neq _ _)) by done. unfold route_bytes. cbn [app Nat.add take]. do 4 f_equal.
  rewrite <- (length_concat_addrs _ Ha). by rewrite take_app_length.
Qed.

Section add.
Context {K : Kernel} {R : Resolver} {RL : ResolverLaws R} {db : string → list Z} {HDB : Hosts K R db}.

Lemma store_bind {A} buf i bs (k : list Z → M A) : (i + List.length bs ≤ List.length buf)%nat →
  (store_opt buf i bs ≫= k) = k (put buf i bs).
Proof. intros H. unfold store_opt. rewrite (proj2 (Nat.leb_le _ _)) by done. done. Qed.

Lemma init_post type p0 own p (Q : outcome srcrt → proc → Prop) :
  holds p0 own p →
  (∀ s p', route_ok type [] s → holds p0 (opt_block s :: own) p' → later p p' → Q (Ret s) p') → (∀ p', Q (Exit 1) p') →
  post (inet_srcrt_init type) p Q.
Proof.
  intros Hh HQ Hx. unfold inet_srcrt_init. apply post_bind.
  eapply post_weaken; [apply post_and; [|apply (emits_post (λ _, True)); unfold Malloc, malloc, err_sys, err_doit; emits_tac]|].
  { eapply (Malloc_holds _ _ _ _ (λ o p', match o with Ret q => holds p0 (q :: own) p' | Exit st => st = 1 | _ => False end)); [exact Hh| |]; by cbn. }
  intros o p1 [Ho (t & Ht & _)]. destruct o as [q|st| | |]; cbn [through]; try done; [|by subst st].
  rewrite !store_bind by (apply Nat.leb_le; by destruct (type =? 0)).
  apply post_ret, HQ; [|done|by exists t]. split_and!; try done. cbn. lia.
Qed.

Lemma host_address host p0 own p (Q : outcome chain → proc → Prop) :
  holds p0 own p →
  (∀ ais p', holds p0 (blocks ais ++ own) p' → (∃ q port, head ais ≫= ai_addr = Some (q, SaIn port (db host))) → later p p' →
     Q (Ret ais) p') →
  (∀ p', Q (Exit 1) p') →
  post (Host_serv (Some host) None AF_INET 0) p Q.
Proof.
  intros Hh HQ Hx. unfold Host_serv. apply post_bind. eapply post_weaken.
  { apply post_and; [apply gai_result; by eapply holds_heap_ok|apply db_result]. }
  intros o p1 [[(t & Ht & _) Ho] Hdb]. destruct o as [[n ais]|st| | |]; cbn [through]; try done; [|by subst st].
  destruct (Z.eqb_spec n 0) as [Hn|]; cbn [negb].
  - destruct (Ho Hn) as (_ & Hal & _). apply post_ret. subst n. apply HQ; [|by apply Hdb|by exists t].
    by eapply holds_trans.
  - eapply post_weaken; [apply err_quit_exits|]. by intros o p2 [-> _].
Qed.

Lemma add_post type addrs host s p0 own p (Q : outcome (srcrt * Z) → proc → Prop) :
  route_ok type addrs s → holds p0 (opt_block s :: own) p →
  (∀ s' p', route_ok type (addrs ++ [db host]) s' → opt_block s' = opt_block s → holds p0 (opt_block s :: own) p' → later p p' →
     Q (Ret (s', 4 + 4 * Z.of_nat (S (List.length addrs)))) p') →
  (∀ p', Q (Exit 1) p') →
  post (inet_srcrt_add host s) p Q.
Proof.
  intros Hs Hh HQ Hx. pose proof (route_length _ _ _ Hs) as Hlen. pose proof Hs as (Hn & Hc & Ho & Hl & Ha & Hb).
  unfold inet_srcrt_add. destruct (Z.ltb_spec 9 (ocnt s)).
  { eapply post_weaken; [apply err_quit_exits|]. by intros o p2 [-> _]. }
  apply post_bind. eapply host_address; [exact Hh| |done]. intros ais p1 Hh1 (q & port & Hhd) Hl1. cbn [through]. rewrite Hhd.
  destruct (db_ok host) as [Hd Hdb]. rewrite take_ge by lia.
  rewrite store_bind by lia. apply post_bind. eapply post_weaken; [by eapply gai_free_all|].
  intros o p2 (-> & Hh2 & t & Ht & _). cbn [through]. rewrite Hl.
  rewrite store_bind by (rewrite length_put by lia; cbn; lia).
  apply post_ret. replace (3 + (ocnt s + 1) * 4 + 1) with (4 + 4 * Z.of_nat (S (List.length addrs))) by lia.
  apply HQ; [|done|done|by etransitivity; [exact Hl1|exists t]]. split_and!; cbn [opt_buf ocnt optr lenptr]; rewrite ?length_app; cbn [List.length]; try lia; try done.
  { apply Forall_app. split; [done|]. by repeat constructor. }
  rewrite (proj2 (Nat.eqb_neq _ _)) by lia. rewrite Ho, Hb.
  set (hd := [IPOPT_NOP; _; _; 4]). rewrite (app_assoc hd).
  replace (4 + 4 * List.length addrs)%nat with (List.length (hd ++ List.concat addrs))
    by (rewrite length_app, (length_concat_addrs _ Ha); done).
  rewrite put_app by (rewrite length_replicate; lia). rewrite drop_replicate, <- app_assoc. unfold hd, put.
  cbn [app take drop Nat.add List.length]. rewrite List.concat_app. cbn [List.concat]. rewrite app_nil_r, <- !app_assoc. 
  rewrite Hd. replace (40 - 4 * (List.length addrs + 1))%nat with (40 - 4 * List.length addrs - 4)%nat by lia.
  do 2 f_equal. f_equal. rewrite Z.mod_small by lia. lia.
Qed.
Lemma add_full type addrs host s p : route_ok type addrs s → List.length addrs = 10%nat →
  post (inet_srcrt_add host s) p (λ o _, o = Exit 1).
Proof.
  intros (_ & Hc & _) Hn. unfold inet_srcrt_add. rewrite (proj2 (Z.ltb_lt _ _)) by lia.
  eapply post_weaken; [apply err_quit_exits|]. by intros o p2 [-> _].
Qed.

Lemma add_all_post type hosts : ∀ addrs s len p0 own p (Q : outcome (srcrt * Z) → proc → Prop),
  route_ok type addrs s → holds p0 (opt_block s :: own) p →
  (∀ s' len' p', route_ok type (addrs ++ (db <$> hosts)) s' → opt_block s' = opt_block s → holds p0 (opt_block s :: own) p' → later p p' →
     len' = (if decide (hosts = []) then len else 4 + 4 * Z.of_nat (List.length addrs + List.length hosts)) →
     Q (Ret (s', len')) p') →
  (∀ p', Q (Exit 1) p') →
  post (add_all hosts s len) p Q.
Proof.
  induction hosts as [|host hosts IH]; intros addrs s len p0 own p Q Hs Hh HQ Hx; cbn [add_all].
  { apply post_ret. apply HQ; try done. by rewrite app_nil_r. }
  apply post_bind. eapply add_post; [done|done| |done]. intros s1 p1 Hs1 E1 Hh1 Hl1. cbn [through].
  eapply IH; [exact Hs1|by rewrite E1| |done]. intros s2 len2 p2 Hs2 E2 Hh2 Hl2 ->. rewrite E1 in *.
  apply HQ; [by rewrite <- app_assoc in Hs2|congruence|done|by etransitivity|].
  rewrite length_app. cbn [List.length]. repeat case_decide; subst; cbn [List.length]; try done; lia.
Qed.
End add.

(** ** Printing *)

Section print.
Context {K : Kernel}.

Lemma then_ext {A B} (m : M A) (k1 k2 : A → M B) p : (∀ a p, k1 a p = k2 a p) → (m ≫= k1) p = (m ≫= k2) p.
Proof. intros H. unfold mbind, M_bind. destruct (m p) as [[] p']; try done. Qed.
Lemma Inet_ntop4_run a p : List.length a = 4%nat → bytes_ok a → Inet_ntop AF_INET a true Ipv4.INET_ADDRSTRLEN p = (Ret (dotted a), p).
Proof.
  intros Hl Hb. destruct a as [|b1 [|b2 [|b3 [|b4 [|]]]]]; try done.
  unfold Inet_ntop, inet_ntop. cbn [negb]. change (AF_INET =? AF_INET) with true. cbn iota. unfold inet_ntop4.
  pose proof (dotted_length _ _ _ _ Hb). rewrite (proj2 (Z.ltb_ge _ _)) by (unfold Ipv4.INET_ADDRSTRLEN; lia). done.
Qed.
Lemma run_bind_ret {A B} (m : M A) (k : A → M B) a p : m p = (Ret a, p) → (m ≫= k) p = k a p.
Proof. apply run_bind. Qed.

Lemma print_hops_text rest : ∀ addrs fuel p, (List.length addrs < fuel)%nat →
  Forall (λ a, List.length a = 4%nat ∧ bytes_ok a) addrs →
  print_hops fuel (List.concat addrs ++ rest) (4 * Z.of_nat (List.length addrs) - 1) p =
    print_all ((λ a, dotted a +:+ " ") <$> addrs) p.
Proof.
  induction addrs as [|a addrs IH]; intros [|f] p Hf Ha; try (cbn [List.length] in Hf; lia); cbn [print_hops]; [done|].
  apply Forall_cons in Ha as [[Hl Hb] Ha]. rewrite (proj2 (Z.ltb_lt _ _)) by (cbn [List.length]; lia).
  cbn [List.concat]. rewrite <- app_assoc. rewrite (ld_bind _ a).
  2: { rewrite bytes_at_app_l by (rewrite ?Hl; lia). rewrite bytes_at_some by lia. f_equal. cbn [Z.to_nat drop].
       rewrite drop_0. by apply take_ge; rewrite Hl. }
  rewrite (run_bind_ret _ _ (dotted a)) by by apply Inet_ntop4_run. cbn [fmap list_fmap print_all]. apply then_ext. intros _ p1.
  rewrite drop_app_ge, Hl by lia. cbn [Nat.sub]. rewrite drop_0.
  replace (4 * Z.of_nat (List.length (a :: addrs)) - 1 - 4) with (4 * Z.of_nat (List.length addrs) - 1) by (cbn [List.length]; lia).
  apply IH; [cbn [List.length] in Hf; lia|done].
Qed.
Lemma then_tt (m : M unit) p : (m ;; mret tt) p = m p.
Proof. unfold mbind, M_bind. by destruct (m p) as [[[]| | | |] p']. Qed.
Lemma print_all_app ts us : ∀ p, print_all (ts ++ us) p = (print_all ts ;; print_all us) p.
Proof.
  induction ts as [|t ts IH]; intros p; cbn [app print_all]; [done|]. unfold mbind, M_bind in *.
  destruct (printf t p) as [[] p1]; try done.
Qed.
End print.

(** ** Properties *)

(** [inet_srcrt_init] and one [inet_srcrt_add] for each host build the option
    to the byte - NOP, code, length, offset, the addresses in order, zeros - in
    a block of 44 bytes that is never overrun: an eleventh host ends the process.
    The length returned is that of what [setsockopt] is to get. *)
Theorem source_route_built (K : Kernel) (R : Resolver) {RL : ResolverLaws R} db {HDB : Hosts K R db} type hosts p :
  heap_ok p →
  post (s ← inet_srcrt_init type; add_all hosts s 0) p (λ o p',
    match o with
    | Ret (s, len) =>
        (List.length hosts ≤ 10)%nat ∧ List.length (opt_buf s) = 44%nat ∧ holds p [opt_block s] p' ∧
        (hosts ≠ [] → take (Z.to_nat len) (opt_buf s) = route_bytes type (db <$> hosts) ∧
           len = 4 + 4 * Z.of_nat (List.length hosts))
    | Exit st => st = 1
    | _ => False
    end).
Proof.
  intros Hp. apply post_bind. eapply init_post; [by apply holds_refl| |done]. intros s p1 Hs Hh _. cbn [through].
  eapply add_all_post; [exact Hs|exact Hh| |done]. intros s' len p2 Hs' E Hh2 _ Hlen. cbn [app] in Hs'.
  split; [destruct Hs' as (Hn & _); by rewrite length_fmap in Hn|]. split; [by eapply route_length|]. split; [by rewrite E|].
  intros Hne. case_decide; [done|]. cbn [List.length Nat.add] in Hlen. split; [|done].
  rewrite <- (route_take _ _ _ Hs') by (by destruct hosts). f_equal. rewrite length_fmap. lia.
Qed.

(** What is received as it was built, behind the address of the first hop, is
    printed as the name of the option, the first hop and the addresses, in
    order. *)
Theorem source_route_printed (K : Kernel) type addrs s hop1 p :
  route_ok type addrs s → addrs ≠ [] → List.length hop1 = 4%nat → bytes_ok hop1 →
  inet_srcrt_print (hop1 ++ opt_buf s) p =
    print_all ([(if type =? 0 then "received LSRR: "%string else "received SSRR: "%string); dotted hop1 +:+ " "] ++
      ((λ a, dotted a +:+ " ") <$> addrs) ++ [nl]) p.
Proof.
  intros (Hn & _ & _ & _ & Ha & Hb) Hne Hl Hh. assert (List.length addrs ≠ 0%nat) by (by destruct addrs).
  rewrite (proj2 (Nat.eqb_neq _ _)) in Hb by done. unfold inet_srcrt_print.
  rewrite (ld_bind _ hop1).
  2: { rewrite bytes_at_app_l by (rewrite ?Hl; lia). rewrite bytes_at_some by lia. f_equal. cbn [Z.to_nat drop].
       rewrite drop_0. by apply take_ge; rewrite Hl. }
  rewrite drop_app_ge, Hl by lia. cbn [Nat.sub]. rewrite drop_0, Hb. clear Hb.
  set (c := if type =? 0 then IPOPT_LSRR else IPOPT_SSRR). set (tl := List.concat addrs ++ _).
  rewrite (ld_bind _ (c, [3 + 4 * Z.of_nat (List.length addrs); 4] ++ tl)) by (unfold c; by destruct (type =? 0)).
  assert (E : negb (c =? IPOPT_LSRR) && negb (c =? IPOPT_SSRR) = false) by (unfold c; by destruct (type =? 0)). rewrite E.
  assert (E2 : (if c =? IPOPT_LSRR then "received LSRR: "%string else "received SSRR: "%string) =
    (if type =? 0 then "received LSRR: "%string else "received SSRR: "%string)) by (unfold c; by destruct (type =? 0)). rewrite E2.
  cbn [app print_all]. apply then_ext. intros _ p1. rewrite (run_bind_ret _ _ (dotted hop1)) by by apply Inet_ntop4_run.
  apply then_ext. intros _ p2. rewrite (ld_bind _ (3 + 4 * Z.of_nat (List.length addrs))) by done.
  rewrite print_all_app. cbn [drop]. rewrite drop_0. unfold tl.
  replace (3 + 4 * Z.of_nat (List.length addrs) - 4) with (4 * Z.of_nat (List.length addrs) - 1) by lia.
  unfold mbind at 1, M_bind at 1. rewrite print_hops_text by (done || lia). cbn [print_all].
  transitivity ((print_all ((λ a, dotted a +:+ " ") <$> addrs) ;; printf nl) p2); [done|]. apply then_ext. intros _ p3. by rewrite then_tt.
Qed.

Section connect.
Context {K : Kernel} {R : Resolver} {RL : ResolverLaws R} {db : string → list Z} {HDB : Hosts K R db}.

Lemma Host_serv_holds host serv family t p0 own p (Q : outcome chain → proc → Prop) :
  holds p0 own p →
  (∀ ais p', holds p0 (blocks ais ++ own) p' → ais ≠ [] → Forall (λ ai, is_Some (ai_addr ai)) ais →
     Host_serv host serv family t p = (Ret ais, p') → Q (Ret ais) p') →
  (∀ p', Q (Exit 1) p') →
  post (Host_serv host serv family t) p Q.
Proof.
  intros Hh HQ Hx.
  assert (H : post (Host_serv host serv family t) p (λ o p', match o with
    | Ret ais => holds p0 (blocks ais ++ own) p' ∧ ais ≠ [] ∧ Forall (λ ai, is_Some (ai_addr ai)) ais
    | Exit st => st = 1 | _ => False end)).
  { unfold Host_serv. apply post_bind. eapply post_weaken; [apply gai_result; by eapply holds_heap_ok|].
    intros o p1 [_ Ho]. destruct o as [[n ais]|st| | |]; cbn [through]; try done.
    destruct (Z.eqb_spec n 0) as [Hn|]; cbn [negb].
    - destruct (Ho Hn) as (? & ? & ?). apply post_ret. split; [by eapply holds_trans|done].
    - eapply post_weaken; [apply err_quit_exits|]. by intros o p2 [-> _]. }
  unfold post in *. destruct (Host_serv host serv family t p) as [[ais|st| | |] p1] eqn:E; try done; [|by subst st].
  destruct H as (? & ? & ?). by apply HQ.
Qed.
Lemma or_err_sys_holds {A B} (c : sys (res A)) msg (k : A → M B) p0 own p Q :
  holds p0 own p →
  (∀ a, holds p0 own (add_event c (Ok a) p) → post (k a) (add_event c (Ok a) p) Q) → (∀ p', Q (Exit 1) p') →
  post (or_err_sys c msg ≫= k) p Q.
Proof.
  intros Hh Hk Hx. apply post_bind. unfold or_err_sys. apply post_bind, post_syscall; intros r Hr; cbn [through].
  - apply post_ret, Hk. by apply holds_event.
  - eapply post_weaken; [apply err_sys_exits|]. intros o p2 [-> _]. apply Hx.
Qed.
End connect.

(** C28: tcpcli01 with a source route: the connection is made, to the first address that the resolver gives for the
    last name of the command line, from a socket whose
    IP options are exactly the route through the hosts of the command line,
    the destination last; the block of the option is freed once, and so is what was allocated for the hops: of the heap only
    the list that the resolver gave for the destination stays.  In any other case the process exits with status 1.  The
    resolver is supposed to give for a host the same address each time, and to free what it gave. *)
Theorem srcrt_connect_correct (K : Kernel) (R : Resolver) {RL : ResolverLaws R} db {HDB : Hosts K R db} type names p :
  heap_ok p →
  post (srcrt_connect (Some type) names) p (λ o p',
    match o with
    | Ret sockfd =>
        (List.length names ≤ 10)%nat ∧
        ∃ host ai ais q sa p1 p2 t, last names = Some host ∧ later p p1 ∧
          Host_serv (Some host) (Some "9877"%string) AF_INET SOCK_STREAM p1 = (Ret (ai :: ais), p2) ∧
          ai_addr ai = Some (q, sa) ∧
          p_trace p' = Event (sys_connect sockfd sa (ai_addrlen ai)) (Ok tt) ::
            Event (sys_setsockopt sockfd IPPROTO_IP IP_OPTIONS (route_bytes type (db <$> names))) (Ok tt) :: t ++ p_trace p2 ∧
          holds p (blocks (ai :: ais)) p'
    | Exit st => st = 1
    | _ => False
    end).
Proof.
  intros Hp. unfold srcrt_connect, route_init. apply post_bind, post_bind. eapply init_post; [by apply holds_refl| |done].
  intros s p1 Hs Hh Hl1. cbn [through]. apply post_ret. cbn [through]. apply post_bind, post_bind.
  eapply add_all_post; [exact Hs|exact Hh| |done]. intros s1 len p2 Hs1 E1 Hh1 Hl2 _. cbn [through app] in *. apply post_ret. cbn [through].
  destruct (last names) as [host|] eqn:El.
  2: { eapply post_weaken; [apply err_quit_exits|]. by intros o p3 [-> _]. }
  assert (Hnames : names = removelast names ++ [host]).
  { apply last_Some in El as [l ->]. by rewrite removelast_last. }
  apply post_bind. eapply Host_serv_holds; [exact Hh1| |done]. intros ais p3 Hh3 Hne Ha Hres. cbn [through].
  destruct ais as [|ai ais]; [done|]. cbn [head]. apply Forall_cons in Ha as [[[q sa] Ea] _].
  eapply or_err_sys_holds; [exact Hh3| |done]. intros sockfd Hh4. apply post_bind, post_bind.
  eapply (add_post type _ host s1 p (blocks (ai :: ais))); [exact Hs1|eapply holds_perm; [|exact Hh4]; rewrite E1; solve_Permutation| |done].
  intros s2 p5 Hs2 E2 Hh5 [t Ht]. cbn [through].
  assert (Htake : take (Z.to_nat (4 + 4 * Z.of_nat (S (List.length (db <$> removelast names))))) (opt_buf s2) = route_bytes type (db <$> names)).
  { assert (db <$> names = (db <$> removelast names) ++ [db host]) as -> by (rewrite Hnames at 1; by rewrite fmap_app).
    rewrite <- (route_take _ _ _ Hs2) by (by destruct (db <$> removelast names)).
    f_equal. rewrite length_app. cbn [List.length]. lia. }
  rewrite Htake. eapply or_err_sys_holds; [exact Hh5| |done]. intros [] Hh6.
  rewrite E2, E1. apply holds_without_block in Hh6 as [Hq Hh7]. rewrite E1 in Hq, Hh7. apply post_free; [exact Hq|]. cbn [through].
  rewrite Ea. eapply or_err_sys_holds; [exact Hh7| |done]. intros [] Hh8. apply post_ret.
  assert (Hlen : (List.length names ≤ 10)%nat).
  { destruct Hs2 as (Hn & _). rewrite Hnames, length_app. rewrite length_app, length_fmap in Hn. cbn [List.length] in *. lia. }
  split; [done|]. exists host, ai, ais, q, sa, p2, p3. eexists (t ++ [_]).
  split; [done|]. split; [by etransitivity|]. split; [exact Hres|]. split; [exact Ea|]. split; [|exact Hh8].
  cbn [add_event without_block p_trace]. cbn in Ht. rewrite Ht, <- app_assoc. reflexivity.
Qed.

(** ** A resolver that knows every host: its address is 10.0.0.x, [x] the length of
    the name *)

Definition by_length (host : string) : list Z := [10; 0; 0; strlen host mod 256].
Definition lookup_node (host : string) (q a : ptr) : addrinfo :=
  AddrInfo q 0 AF_INET SOCK_STREAM 0 SIZEOF_SOCKADDR_IN None (Some (a, SaIn 0 (by_length host))).
Definition lengths {K : Kernel} : Resolver := {|
  gai := λ host _ _,
    q ← malloc SIZEOF_ADDRINFO;
    a ← malloc SIZEOF_SOCKADDR_IN;
    match q, a with Some q, Some a => mret (0, [lookup_node (default "" host) q a]) | _, _ => mret (EAI_MEMORY, []) end;
  gai_free := freeaddrinfo;
  gai_error := gai_strerror
|}.
#[local] Instance lengths_laws {K : Kernel} : ResolverLaws lengths.
Proof.
  split.
  - intros host serv h p Hp. eapply post_weaken.
    { apply post_and; [|apply (emits_post no_fd)].
      - cbn [gai lengths]. apply post_bind, (malloc_holds _ p []); [by apply holds_refl| |].
        + intros q p1 Hq. cbn [through]. apply post_bind, (malloc_holds _ p [q]); [done| |].
          * intros a p2 Ha. cbn [through]. apply (post_ret _ _ (λ o p', match o with Ret (rc, ais) => rc = 0 → ais ≠ [] ∧ holds p (blocks ais) p' ∧ Forall (λ ai, is_Some (ai_addr ai)) ais | _ => False end)).
            intros _. split; [done|]. split; [|by repeat constructor]. eapply holds_perm; [|exact Ha]. cbn. apply Permutation_swap.
          * intros p2 _. by cbn [through].
        + intros p1 _. cbn [through]. apply post_bind, post_malloc; by intros _.
      - cbn [gai lengths]. unfold malloc. emits_tac. }
    intros o p' [Ho He]. split; [done|]. by destruct o as [[]| | | |].
  - intros p0 own ais p Hh.
    assert (He : post (freeaddrinfo ais) p (λ _ p', extends no_fd p p')) by apply emits_post, emits_freeaddrinfo.
    eapply post_weaken; [apply post_and; [|exact He]|].
    { eapply (freeaddrinfo_holds _ _ _ _ (λ o p', o = Ret tt ∧ holds p0 own p')); [exact Hh|done]. }
    intros o p' [[-> ?] ?]. done.
Qed.
#[local] Instance lengths_hosts {K : Kernel} : Hosts K lengths by_length.
Proof.
  split.
  - intros host. split; [done|]. repeat constructor; try lia; apply Z.mod_pos_bound; lia.
  - intros host p. cbn [gai lengths]. apply post_bind, post_malloc; intros _; cbn [through];
      apply post_bind, post_malloc; intros _; cbn [through]; apply post_ret; intros ais E; try done.
    injection E as <-. by do 2 eexists.
Qed.

#[local] Existing Instance plain_kernel.
Definition hops : list string := ["a"; "bcd"; "destination"]%string.
Lemma source_route_built_witness :
  post (s ← inet_srcrt_init (K := plain_kernel) 0; add_all (R := lengths) hops s 0) proc0 (λ o p',
    match o with
    | Ret (s, len) =>
        (List.length hops ≤ 10)%nat ∧ List.length (opt_buf s) = 44%nat ∧ holds proc0 [opt_block s] p' ∧
        (hops ≠ [] → take (Z.to_nat len) (opt_buf s) = route_bytes 0 (by_length <$> hops) ∧
           len = 4 + 4 * Z.of_nat (List.length hops))
    | Exit st => st = 1
    | _ => False
    end) ∧
  route_bytes 0 (by_length <$> hops) = [1; 131; 15; 4; 10; 0; 0; 1; 10; 0; 0; 3; 10; 0; 0; 11].
Proof. split; [|reflexivity]. apply (source_route_built plain_kernel lengths by_length). apply proc0_heap_ok. Defined.
Lemma source_route_printed_witness :
  let s := Srcrt 1 ([1; 137; 11; 4; 10; 0; 0; 1; 10; 0; 0; 2] ++ replicate 32 0) 12 2 2 in
  inet_srcrt_print (K := plain_kernel) ([10; 0; 0; 9] ++ opt_buf s) proc0 =
    print_all ["received SSRR: "; "10.0.0.9 "; "10.0.0.1 "; "10.0.0.2 "; nl] proc0.
Proof.
  apply (source_route_printed plain_kernel 1 [[10; 0; 0; 1]; [10; 0; 0; 2]] (Srcrt 1 ([1; 137; 11; 4; 10; 0; 0; 1; 10; 0; 0; 2] ++ replicate 32 0) 12 2 2) [10; 0; 0; 9]);
    [|done|done|bytes].
  split_and!; try done; [cbn; lia|]. repeat constructor; lia.
Defined.
Lemma srcrt_connect_correct_witness :
  post (srcrt_connect (K := plain_kernel) (R := lengths) (Some 0) hops) proc0 (λ o p',
    match o with
    | Ret sockfd =>
        (List.length hops ≤ 10)%nat ∧
        ∃ host ai ais q sa p1 p2 t, last hops = Some host ∧ later proc0 p1 ∧
          Host_serv (R := lengths) (Some host) (Some "9877"%string) AF_INET SOCK_STREAM p1 = (Ret (ai :: ais), p2) ∧
          ai_addr ai = Some (q, sa) ∧
          p_trace p' = Event (sys_connect sockfd sa (ai_addrlen ai)) (Ok tt) ::
            Event (sys_setsockopt sockfd IPPROTO_IP IP_OPTIONS (route_bytes 0 (by_length <$> hops))) (Ok tt) :: t ++ p_trace p2 ∧
          holds proc0 (blocks (ai :: ais)) p'
    | Exit st => st = 1
    | _ => False
    end) ∧
  match srcrt_connect (K := plain_kernel) (R := lengths) (Some 0) hops proc0 with (Ret _, p') => size (p_live p') = 2%nat | _ => False end.
Proof. split; [|by vm_compute]. apply (srcrt_connect_correct plain_kernel lengths by_length). apply proc0_heap_ok. Defined.
