(* ===== verification/SockIo.v ===== *)
(** The sock program, its data transfer: src/unpv13e/sock (error.c, crlf.c,
    pattern.c, write.c, sleepus.c, buffers.c, looptcp.c, loopudp.c, sourcetcp.c,
    sourceudp.c, sinktcp.c, sinkudp.c).

    The global variables that main.c sets once are the record [opts]; the
    buffers are their contents, as the lists of their bytes.  The program has its own
    report functions, which do not bound what they put in their buffer; [writen]
    is the library's. *)
From S2P Require Import Prelude Machine Posix Wrap Stream Nonblock Frame Packet.

Definition SO_SNDBUF : Z := 7.
Definition SO_RCVBUF : Z := 8.
Definition SO_ERROR : Z := 4.
Definition MSG_OOB : Z := 1.
Definition MSG_PEEK : Z := 2.
Definition MSG_TRUNC : Z := 32.
Definition CR : Z := 13.
Definition INT_MAX : Z := 2 ^ 31 - 1.

(** The global variables of main.c: integers, and the strings of three options. *)
Inductive intvar :=
| bindport | broadcast | chunkwrite | client | connectudp | crlf | debug | dofork | dontroute
| foreignport | halfclose | ignorewerr | iptos | ipttl | keepalive | linger | listenq | maxseg
| mcastttl | msgpeek | nodelay | nbuf | pauseclose | pauseinit | pauselisten | pauserw | reuseaddr
| reuseport | readlen | writelen | recvdstaddr | rcvbuflen | sndbuflen | rcvtimeo | sndtimeo | server
| sigio | sourcesink | udp | urgwrite | verbose | usewritev.
#[global] Instance intvar_eq : EqDecision intvar.
Proof. solve_decision. Defined.
Record opts := Opts {
  intval :> intvar → Z;
  foreignip : string;
  joinip : string;
  localip : string
}.
Definition opts0 : opts := Opts (λ v,
  match v with
  | client => 1 | connectudp => 1
  | iptos => -1 | ipttl => -1
  | linger => -1 | listenq => 5
  | nbuf => 1024 | readlen => 1024 | writelen => 1024
  | _ => 0
  end) "" "" "".
Definition set (v : intvar) (x : Z) (o : opts) : opts :=
  Opts (λ w, if decide (w = v) then x else o w) (foreignip o) (joinip o) (localip o).

(** [if (x)] for an [int]. *)
Definition isset (x : Z) : bool := negb (x =? 0).
Definition i8 (z : Z) : Z := (z + 128) mod 256 - 128.
(** [%2d] *)
Definition fmt_2d (n : Z) : string := if (0 <=? n) && (n <? 10) then String " " (fmt_d n) else fmt_d n.

Section sockio.
Context {K : Kernel} (o : opts).

(** ** error.c *)

(** [buf] has [MAXLINE] characters, and nothing keeps the text inside it. *)
Definition in_buf (buf : string) : M string := if strlen buf <? MAXLINE then mret buf else stop UB.
Definition err_doit (errnoflag : bool) (msg : string) : M unit :=
  errno_save ← get_errno;
  buf ← in_buf msg;
  buf ← (if errnoflag
         then s ← call (sys_strerror errno_save);
              in_buf (buf +:+ ": " +:+ s)
         else mret buf);
  buf ← in_buf (buf +:+ nl);
  call (sys_fflush STDOUT_FILENO) ;;
  syscall (sys_fputs STDERR_FILENO buf) ;;
  call (sys_fflush STDERR_FILENO).
Definition err_ret (msg : string) : M unit := err_doit true msg.
Definition err_sys {A} (msg : string) : M A := err_doit true msg ;; exit 1.
Definition err_dump {A} (msg : string) : M A := err_doit true msg ;; stop Abort.
Definition err_msg (msg : string) : M unit := err_doit false msg.
Definition err_quit {A} (msg : string) : M A := err_doit false msg ;; exit 1.

Definition fprintf (msg : string) : M unit := syscall (sys_fputs STDERR_FILENO msg) ;; mret tt.
Definition say (msg : string) : M unit := if isset (o verbose) then fprintf (msg +:+ nl) else mret tt.

(** ** crlf.c *)

(** [*dst++ = c] in an array of [dstsize]. *)
Definition store (dstsize : Z) (dst : list Z) (c : Z) : M (list Z) :=
  if Z.of_nat (List.length dst) <? dstsize then mret (dst ++ [c]) else stop UB.

Fixpoint crlf_add_loop (dstsize : Z) (dst : list Z) (lenout : Z) (src : list Z) : M (list Z * Z) :=
  match src with
  | [] => mret (dst, lenout)
  | c :: src =>
      '(dst, lenout) ←
        (if c =? NEWLINE then
           let lenout := lenout + 1 in
           if dstsize <=? lenout then err_quit "crlf_add: destination not big enough"
           else dst ← store dstsize dst CR; mret (dst, lenout)
         else mret (dst, lenout));
      dst ← store dstsize dst c;
      crlf_add_loop dstsize dst lenout src
  end.
(** What is in [dst], and the length returned. *)
Definition crlf_add (dstsize : Z) (src : list Z) : M (list Z * Z) :=
  let lenout := Z.of_nat (List.length src) in
  if dstsize <? lenout then err_quit "crlf_add: destination not big enough"
  else crlf_add_loop dstsize [] lenout src.

Fixpoint crlf_strip_loop (dstsize : Z) (dst : list Z) (lenout : Z) (src : list Z) : M (list Z * Z) :=
  match src with
  | [] => mret (dst, lenout)
  | c :: src =>
      if negb (c =? CR) then
        let lenout := lenout + 1 in
        if dstsize <=? lenout then err_quit "crlf_strip: destination not big enough"
        else dst ← store dstsize dst c; crlf_strip_loop dstsize dst lenout src
      else crlf_strip_loop dstsize dst lenout src
  end.
Definition crlf_strip (dstsize : Z) (src : list Z) : M (list Z * Z) := crlf_strip_loop dstsize [] 0 src.

(** ** pattern.c *)

Definition isprint (c : Z) : bool := (32 <=? c) && (c <? 127).
Fixpoint pattern_skip (fuel : nat) (c : Z) : M Z :=
  match fuel with
  | O => stop NoFuel
  | S f => if negb (isprint (Z.land c 127)) then pattern_skip f (i8 (c + 1)) else mret c
  end.
Fixpoint pattern_loop (c : Z) (len : nat) : M (list Z) :=
  match len with
  | O => mret []
  | S len =>
      c ← pattern_skip 128 c;
      rest ← pattern_loop (i8 (c + 1)) len;
      mret (Z.land c 127 :: rest)
  end.
Definition pattern (len : Z) : M (list Z) := pattern_loop 0 (Z.to_nat len).

(** ** write.c *)

Context (uio_maxiov : nat).

(** [vptr] is the address of the data.  [None]: the loop ended with
    [i == UIO_MAXIOV]. *)
Fixpoint dowrite_iov (n : nat) (i chunksize vptr : Z) (rest : list Z) : M (option (list (list Z))) :=
  match n with
  | O => mret None
  | S n' =>
      let nleft := Z.of_nat (List.length rest) in
      let len := if chunksize <=? nleft then chunksize else nleft in
      say ("iov[" +:+ fmt_2d i +:+ "].iov_base = " +:+ fmt_x (u32 vptr) +:+
           ", iov[" +:+ fmt_2d i +:+ "].iov_len = " +:+ fmt_d len) ;;
      let iov := take (Z.to_nat len) rest in
      if nleft - len =? 0 then mret (Some [iov])
      else
        r ← dowrite_iov n' (i + 1) chunksize (vptr + len) (drop (Z.to_nat len) rest);
        mret (cons iov <$> r)
  end.
Fixpoint dowrite_each (fd : Z) (iov : list (list Z)) (ntotal : Z) : M (option Z) :=
  match iov with
  | [] => mret (Some ntotal)
  | v :: iov =>
      nwritten ← syscall (sys_write fd v);
      match nwritten with
      | Some n => if n =? Z.of_nat (List.length v) then dowrite_each fd iov (ntotal + n) else mret None
      | None => mret None
      end
  end.
Definition dowrite (fd vptr : Z) (buf : list Z) : M (option Z) :=
  if negb (isset (o chunkwrite)) && negb (isset (o usewritev)) then syscall (sys_write fd buf)
  else
    let nbytes := Z.of_nat (List.length buf) in
    let iovmax := Z.of_nat uio_maxiov in
    let chunksize := nbytes / iovmax in
    let chunksize := if chunksize <=? 0 then 1
                     else if negb (nbytes mod iovmax =? 0) then chunksize + 1 else chunksize in
    iov ← dowrite_iov uio_maxiov 0 chunksize vptr buf;
    match iov with
    | None => err_quit "i == UIO_MAXIOV"
    | Some iov => if isset (o usewritev) then syscall (sys_writev fd iov) else dowrite_each fd iov 0
    end.

(** ** sleepus.c *)

Fixpoint sleep_us (fuel : nat) (nusecs : Z) : M unit :=
  match fuel with
  | O => stop NoFuel
  | S f =>
      r ← syscall (sys_select_none (nusecs / 1000000) (nusecs mod 1000000));
      if (match r with Some n => n =? 0 | None => false end) then mret tt
      else
        e ← get_errno;
        if e =? EINTR then sleep_us f nusecs else err_sys "sleep_us: select error"
  end.
(** [if (pause) sleep_us(pause*1000)] *)
Definition pause (fuel : nat) (ms : Z) : M unit :=
  if isset ms then
    if Z.abs (ms * 1000) <=? INT_MAX then sleep_us fuel (u32 (ms * 1000)) else stop UB
  else mret tt.

(** ** buffers.c *)

(** [rbuf] and [wbuf]. *)
Definition bufs : Type := option ptr * option ptr.
Definition alloc_buf (buf : option ptr) (len : Z) (msg : string) : M ptr :=
  match buf with
  | Some q => mret q
  | None => r ← malloc (u64 len); match r with Some q => mret q | None => err_sys msg end
  end.
(** The size of one of the socket's buffers: the system must take it as it is. *)
Definition set_bufsize (sockfd opt len : Z) (var name : string) : M unit :=
  if isset len then
    r ← syscall (sys_setsockopt sockfd SOL_SOCKET opt (le32_bytes len));
    match r with
    | None => err_sys (name +:+ " setsockopt error")
    | Some _ =>
        r ← syscall (sys_getsockopt sockfd SOL_SOCKET opt 4);
        match r with
        | None => err_sys (name +:+ " getsockopt error")
        | Some n =>
            if negb (n =? len) then err_quit (var +:+ " = " +:+ fmt_d len +:+ ", " +:+ name +:+ " = " +:+ fmt_d n)
            else say (name +:+ " = " +:+ fmt_d n)
        end
    end
  else mret tt.
Definition buffers (sockfd : Z) (b : bufs) : M bufs :=
  rbuf ← alloc_buf b.1 (o readlen) "malloc error for read buffer";
  wbuf ← alloc_buf b.2 (o writelen) "malloc error for write buffer";
  set_bufsize sockfd SO_RCVBUF (o rcvbuflen) "rcvbuflen" "SO_RCVBUF" ;;
  set_bufsize sockfd SO_SNDBUF (o sndbuflen) "sndbuflen" "SO_SNDBUF" ;;
  mret (Some rbuf, Some wbuf).

(** ** looptcp.c

    [steps] bounds the loops of [sleep_us] and [writen]; [rbuf] and [wbuf] are the
    addresses of the buffers. *)

Context (steps : nat) (rbuf wbuf : Z).

(** What follows a part of the body: the rest of it, [continue] or [break]. *)
Inductive next :=
| Fall
| Continue
| Break.

Definition shutdown_wr (sockfd : Z) : M unit :=
  r ← syscall (sys_shutdown sockfd SHUT_WR);
  match r with Some _ => mret tt | None => err_sys "shutdown() error" end.

(** A whole write of [bs], where [f] is the call and [what] its name. *)
Definition or_short (f : M (option Z)) (bs : list Z) (what : string) : M unit :=
  r ← f;
  match r with
  | Some n => if n =? Z.of_nat (List.length bs) then mret tt else err_sys (what +:+ " error")
  | None => err_sys (what +:+ " error")
  end.

(** [if (FD_ISSET(STDIN_FILENO, &rset))]: [send addr bs] sends [bs], which are at [addr]. *)
Definition stdin_part (sockfd : Z) (send : Z → list Z → M unit) : M next :=
  r ← syscall (sys_read STDIN_FILENO (o readlen));
  match r with
  | None => err_sys "read error from stdin"
  | Some [] => if isset (o halfclose) then shutdown_wr sockfd ;; mret Continue else mret Break
  | Some bs =>
      (if isset (o crlf) then
         '(dst, ntowrite) ← crlf_add (o writelen) bs;
         send wbuf (take (Z.to_nat ntowrite) dst)
       else send rbuf bs) ;;
      mret Fall
  end.

(** What was received goes to the standard output. *)
Definition show (bs : list Z) : M unit :=
  bs ← (if isset (o crlf) then
          '(dst, ntowrite) ← crlf_strip (o writelen) bs;
          mret (take (Z.to_nat ntowrite) dst)
        else mret bs);
  ok ← writen steps STDOUT_FILENO bs;
  if (ok : bool) then mret tt else err_sys "writen error to stdout".

(** From the label [oncemore]: [true] is [break]. *)
Definition recv_once (sockfd flags : Z) : M bool :=
  r ← syscall (sys_recv sockfd (o readlen) flags);
  match r with
  | None => err_sys "recv error"
  | Some [] => say "connection closed by peer" ;; mret true
  | Some bs => show bs ;; mret false
  end.
(** First with [flags = msgpeek], then again when that is not 0. *)
Definition recv_part (sockfd : Z) : M bool :=
  closed ← recv_once sockfd (o msgpeek);
  if (closed : bool) then mret true
  else if isset (o msgpeek) then recv_once sockfd 0 else mret false.

(** A turn of the loop; [None] is [break].  [s] is what the function keeps from
    turn to turn. *)
Definition loop_step {St} (sockfd : Z) (send : Z → list Z → M unit) (receive : M (bool * St))
    (stdineof : bool) (rset : list Z) (s : St) : M (option (bool * list Z * St)) :=
  let rset := if negb stdineof then STDIN_FILENO :: rset else rset in
  let rset := sockfd :: rset in
  r ← syscall (sys_select rset [] None);
  match r with
  | None => err_sys "select error"
  | Some (rset, _) =>
      todo ← (if FD_ISSET STDIN_FILENO rset then stdin_part sockfd send else mret Fall);
      match todo with
      | Break => mret None
      | Continue => mret (Some (true, filter (λ fd, fd ≠ STDIN_FILENO) rset, s))
      | Fall =>
          '(closed, s) ← (if FD_ISSET sockfd rset then receive else mret (false, s));
          mret (if (closed : bool) then None else Some (stdineof, rset, s))
      end
  end.
Fixpoint loop {St} (fuel : nat) (sockfd : Z) (send : St → Z → list Z → M unit) (receive : St → M (bool * St))
    (stdineof : bool) (rset : list Z) (s : St) : M unit :=
  match fuel with
  | O => stop NoFuel
  | S f =>
      r ← loop_step sockfd (send s) (receive s) stdineof rset s;
      match r with
      | None => mret tt
      | Some (stdineof, rset, s) => loop f sockfd send receive stdineof rset s
      end
  end.

Definition close_sock (sockfd : Z) : M unit :=
  (if isset (o pauseclose) then say "pausing before close" ;; pause steps (o pauseclose) else mret tt) ;;
  r ← syscall (sys_close sockfd);
  match r with Some _ => mret tt | None => err_sys "close error" end.

Definition tcp_send (sockfd addr : Z) (bs : list Z) : M unit :=
  or_short (dowrite sockfd addr bs) bs "write".
Definition tcp_receive (sockfd : Z) : M (bool * unit) := closed ← recv_part sockfd; mret (closed, tt).
Definition loop_tcp (fuel : nat) (sockfd : Z) : M unit :=
  pause steps (o pauseinit) ;;
  loop fuel sockfd (λ _, tcp_send sockfd) (λ _, tcp_receive sockfd) false [] tt ;;
  close_sock sockfd.

(** ** loopudp.c

    [servaddr] is a local variable, distinct from the global one: [garbage] is what it
    holds before a datagram is received. *)

Definition inet_ntoa (a : list Z) : string :=
  match a with
  | [a; b; c; d] => fmt_d a +:+ "." +:+ fmt_d b +:+ "." +:+ fmt_d c +:+ "." +:+ fmt_d d
  | _ => ""
  end.
Definition sa_ntoa (sa : sockaddr) : string := match sa with SaIn _ a => inet_ntoa a | _ => "" end.

Definition udp_send (sockfd : Z) (servaddr : sockaddr) (addr : Z) (bs : list Z) : M unit :=
  if isset (o connectudp) then or_short (syscall (sys_write sockfd bs)) bs "write"
  else or_short (syscall (sys_sendto sockfd bs servaddr)) bs "sendto".

(** The datagram: whether the loop ends, and [servaddr]. *)
Definition udp_receive (sockfd : Z) (servaddr : sockaddr) : M (bool * sockaddr) :=
  if isset (o server) then
    r ← syscall (sys_recvmsg_flags sockfd (o readlen));
    match r with
    | None => err_sys "datagram receive error"
    | Some (bs, cliaddr, msg_flags) =>
        (if isset (o verbose) then
           printf ("from " +:+ sa_ntoa cliaddr) ;; printf ": " ;; call (sys_fflush STDOUT_FILENO)
         else mret tt) ;;
        (if has msg_flags MSG_TRUNC then printf ("(datagram truncated)" +:+ nl) else mret tt) ;;
        show bs ;;
        mret (false, servaddr)
    end
  else if isset (o connectudp) then
    closed ← recv_part sockfd;
    mret (closed, servaddr)
  else
    r ← syscall (sys_recvfrom sockfd (o readlen));
    match r with
    | None => err_sys "datagram recvfrom() error"
    | Some (bs, servaddr) =>
        (if isset (o verbose) then
           printf ("from " +:+ sa_ntoa servaddr) ;; printf ": " ;; call (sys_fflush STDOUT_FILENO)
         else mret tt) ;;
        show bs ;;
        mret (false, servaddr)
    end.
Definition loop_udp (fuel : nat) (garbage : sockaddr) (sockfd : Z) : M unit :=
  pause steps (o pauseinit) ;;
  loop fuel sockfd (udp_send sockfd) (udp_receive sockfd) false [] garbage ;;
  close_sock sockfd.

(** ** sourcetcp.c, sourceudp.c *)

Definition fmt_res (r : option Z) : string := match r with Some n => fmt_d n | None => "-1" end.
Definition is_len (r : option Z) (len : Z) : bool := match r with Some n => n =? len | None => false end.

(** A write of the whole of [wbuf]; [what] is the name of the call. *)
Definition send_error (sockfd : Z) (what : string) (n : option Z) : M unit :=
  let text := what +:+ " returned " +:+ fmt_res n +:+ ", expected " +:+ fmt_d (o writelen) in
  if isset (o ignorewerr) then
    err_ret text ;;
    r ← syscall (sys_getsockopt sockfd SOL_SOCKET SO_ERROR 4);
    match r with Some _ => mret tt | None => err_sys "SO_ERROR getsockopt error" end
  else err_sys text.
Definition wrote (n : option Z) : M unit := say ("wrote " +:+ fmt_res n +:+ " bytes").

Definition urgent (sockfd : Z) : M unit :=
  n ← syscall (sys_send sockfd [u8 (o urgwrite)] MSG_OOB);
  if is_len n 1 then say ("wrote " +:+ fmt_res n +:+ " byte of urgent data")
  else err_sys ("send of MSG_OOB returned " +:+ fmt_res n +:+ ", expected " +:+ fmt_d (o writelen)).

(** [for (i = ...; i <= nbuf; i++)], [turns] turns before the end. *)
Fixpoint source_tcp_loop (turns : nat) (sockfd i : Z) (buf : list Z) : M unit :=
  match turns with
  | O => mret tt
  | S turns =>
      (if o urgwrite =? i then urgent sockfd else mret tt) ;;
      n ← syscall (sys_write sockfd buf);
      (if is_len n (o writelen) then wrote n else send_error sockfd "write" n) ;;
      pause steps (o pauserw) ;;
      source_tcp_loop turns sockfd (i + 1) buf
  end.
Definition source_tcp (sockfd : Z) : M unit :=
  buf ← pattern (o writelen);
  pause steps (o pauseinit) ;;
  source_tcp_loop (Z.to_nat (o nbuf)) sockfd 1 buf ;;
  close_sock sockfd.

Fixpoint source_udp_loop (turns : nat) (sockfd : Z) (servaddr : sockaddr) (buf : list Z) : M unit :=
  match turns with
  | O => mret tt
  | S turns =>
      n ← (if isset (o connectudp) then syscall (sys_write sockfd buf)
           else syscall (sys_sendto sockfd buf servaddr));
      (if is_len n (o writelen) then mret tt
       else send_error sockfd (if isset (o connectudp) then "write" else "sendto") n) ;;
      wrote n ;;
      pause steps (o pauserw) ;;
      source_udp_loop turns sockfd servaddr buf
  end.
(** [servaddr] is the global variable that [cliopen] sets. *)
Definition source_udp (servaddr : sockaddr) (sockfd : Z) : M unit :=
  buf ← pattern (o writelen);
  pause steps (o pauseinit) ;;
  source_udp_loop (Z.to_nat (o nbuf)) sockfd servaddr buf ;;
  close_sock sockfd.

(** ** sinktcp.c, sinkudp.c *)

Definition received_text (n : Z) (flags : Z) : string :=
  "received " +:+ fmt_d n +:+ " bytes" +:+ (if flags =? MSG_PEEK then " (MSG_PEEK)" else "").

(** A receive from the label [oncemore]: [true] is [break]. *)
Definition sink_once (sockfd flags : Z) (buf : list Z) (more : list Z → Z → M (list Z)) : M (bool * list Z) :=
  r ← syscall (sys_recv sockfd (o readlen) flags);
  match r with
  | None => err_sys "recv error"
  | Some [] => say "connection closed by peer" ;; mret (true, buf)
  | Some bs =>
      let n := Z.of_nat (List.length bs) in
      say (received_text n flags) ;;
      buf ← more (put buf 0 bs) n;
      pause steps (o pauserw) ;;
      mret (false, buf)
  end.
Fixpoint sink_loop (fuel : nat) (sockfd : Z) (buf : list Z) (more : list Z → Z → M (list Z)) : M unit :=
  match fuel with
  | O => stop NoFuel
  | S f =>
      '(closed, buf) ← sink_once sockfd (o msgpeek) buf more;
      if (closed : bool) then mret tt
      else
        '(closed, buf) ← (if isset (o msgpeek) then sink_once sockfd 0 buf more else mret (false, buf));
        if (closed : bool) then mret tt else sink_loop f sockfd buf more
  end.
Definition sink_tcp (fuel : nat) (buf : list Z) (sockfd : Z) : M unit :=
  pause steps (o pauseinit) ;;
  sink_loop fuel sockfd buf (λ buf _, mret buf) ;;
  close_sock sockfd.

(** [fputs(&rbuf\[8\], stderr)]: a string that does not end in the array is
    undefined. *)
Definition fputs_at (buf : list Z) (i : nat) : M unit :=
  let s := drop i buf in
  if (i <=? List.length buf)%nat && bool_decide (0 ∈ s) then fprintf (to_string (cstr_bytes s)) else stop UB.
Definition sdap (buf : list Z) (n : Z) : M (list Z) :=
  if 1 <? o verbose then
    fprintf ("printing " +:+ fmt_d n +:+ " bytes" +:+ nl) ;;
    (if n <? Z.of_nat (List.length buf) then mret tt else stop UB) ;;
    let buf := put buf (Z.to_nat n) [0] in
    header ← ld (le_at buf 0 8);
    fprintf ("SDAP header: " +:+ fmt_x header +:+ nl) ;;
    next ← ld (le_at buf 32 8);
    fprintf ("next long: " +:+ fmt_x next +:+ nl) ;;
    fputs_at buf 8 ;;
    mret buf
  else mret buf.
Definition sink_udp (fuel : nat) (buf : list Z) (sockfd : Z) : M unit :=
  pause steps (o pauseinit) ;;
  sink_loop fuel sockfd buf sdap ;;
  close_sock sockfd.
End sockio.

(** ** The report functions *)

(** strerror(3): the texts are short. *)
Class StrerrorOk (K : Kernel) : Prop := {
  strerror_short : ∀ t e, strlen (answer t (sys_strerror e)) < 1024
}.

Section reports.
Context {K : Kernel} {SOk : StrerrorOk K}.

Lemma post_in_buf s p (Q : outcome string → proc → Prop) : strlen s < MAXLINE → Q (Ret s) p → post (in_buf s) p Q.
Proof. intros H HQ. unfold in_buf. apply Z.ltb_lt in H. rewrite H. by apply post_ret. Qed.

Lemma sock_err_doit_post b msg p : strlen msg < 3000 → post (err_doit b msg) p (λ o _, o = Ret tt).
Proof.
  intros Hm. assert (Hend : ∀ a : unit, Ret a = Ret tt) by by intros [].
  assert (Hnl : ∀ s, strlen (s +:+ nl) = strlen s + 1) by (intros s; by rewrite strlen_app).
  unfold err_doit. post_steps. apply post_in_buf; [unfold MAXLINE; lia|]. cbn [through]. destruct b; post_steps.
  - pose proof (strerror_short (p_trace p) (p_errno p)) as Hs. rewrite H in Hs.
    assert (strlen (msg +:+ ": " +:+ a) < 4090) by (rewrite !strlen_app; change (strlen ": ") with 2; lia).
    apply post_in_buf; [unfold MAXLINE; lia|]. cbn [through]. post_steps.
    apply post_in_buf; [rewrite Hnl; unfold MAXLINE; lia|]. cbn [through]. by post_steps.
  - apply post_in_buf; [rewrite Hnl; unfold MAXLINE; lia|]. cbn [through]. by post_steps.
Qed.
Lemma sock_err_sys_post {A} msg p : strlen msg < 3000 → post (err_sys (A := A) msg) p (λ o _, o = Exit 1).
Proof. intros Hm. apply post_bind. eapply post_weaken; [by apply sock_err_doit_post|]. by intros o p' ->. Qed.
Lemma sock_err_quit_post {A} msg p : strlen msg < 3000 → post (err_quit (A := A) msg) p (λ o _, o = Exit 1).
Proof. intros Hm. apply post_bind. eapply post_weaken; [by apply sock_err_doit_post|]. by intros o p' ->. Qed.
End reports.

Section quiet_reports.
Context {K : Kernel} (P : event → Prop) (Hquiet : ∀ e, quiet e → P e).

Lemma framed_in_buf s : framed P (in_buf s).
Proof. unfold in_buf. framed_tac. Qed.
Lemma framed_sock_err_doit b msg : framed P (err_doit b msg).
Proof.
  unfold err_doit. repeat first [apply framed_in_buf|apply framed_call; intros; by apply Hquiet|progress framed_tac].
Qed.
Lemma framed_sock_err_sys {A} msg : framed P (err_sys (A := A) msg).
Proof. apply framed_bind; [apply framed_sock_err_doit|framed_tac]. Qed.
Lemma framed_sock_err_quit {A} msg : framed P (err_quit (A := A) msg).
Proof. apply framed_bind; [apply framed_sock_err_doit|framed_tac]. Qed.
End quiet_reports.
#[export] Hint Resolve framed_in_buf framed_sock_err_doit framed_sock_err_sys framed_sock_err_quit : framed.

(** ** What flows through the loops *)

Inductive flow :=
| Typed (bs : list Z)   (** read from the standard input *)
| Sent (bs : list Z)    (** accepted by the system for the socket *)
| Got (bs : list Z)     (** received from the socket *)
| Shown (bs : list Z)   (** written on the standard output *)
| Retry                 (** an interrupted write, a sleep that was cut short *)
| Turn.                 (** a turn of the loop *)

Definition flow1 (sockfd : Z) (e : event) : list flow :=
  match e with
  | Event c a =>
      match c in sys A return A → list flow with
      | sys_read fd _ => λ r, match r with Ok bs => if fd =? STDIN_FILENO then [Typed bs] else [] | _ => [] end
      | sys_write fd buf => λ r, match r with
          | Ok n => if fd =? sockfd then [Sent (take (Z.to_nat n) buf)]
                    else if fd =? STDOUT_FILENO then [Shown (take (Z.to_nat n) buf)] else []
          | Err e => if (e =? EINTR) && (fd =? STDOUT_FILENO) then [Retry] else [] end
      | sys_writev fd iov => λ r, match r with
          | Ok n => if fd =? sockfd then [Sent (take (Z.to_nat n) (mjoin iov))] else [] | _ => [] end
      | sys_sendto fd buf _ => λ r, match r with
          | Ok n => if fd =? sockfd then [Sent (take (Z.to_nat n) buf)] else [] | _ => [] end
      | sys_recv fd _ _ => λ r, match r with Ok bs => if fd =? sockfd then [Got bs] else [] | _ => [] end
      | sys_recvfrom fd _ => λ r, match r with Ok (bs, _) => if fd =? sockfd then [Got bs] else [] | _ => [] end
      | sys_recvmsg_flags fd _ => λ r, match r with
          | Ok (bs, _, _) => if fd =? sockfd then [Got bs] else [] | _ => [] end
      | sys_select_none _ _ => λ r, match r with Ok n => if n =? 0 then [] else [Retry] | _ => [Retry] end
      | sys_select _ _ _ => λ _, [Turn]
      | _ => λ _, []
      end a
  end.

Definition typed (l : list flow) : list Z := l ≫= λ f, match f with Typed bs => bs | _ => [] end.
Definition sent (l : list flow) : list Z := l ≫= λ f, match f with Sent bs => bs | _ => [] end.
Definition got (l : list flow) : list Z := l ≫= λ f, match f with Got bs => bs | _ => [] end.
Definition shown (l : list flow) : list Z := l ≫= λ f, match f with Shown bs => bs | _ => [] end.
Definition retries (l : list flow) : nat := List.length (l ≫= λ f, match f with Retry => [tt] | _ => [] end).
Definition turns (l : list flow) : nat := List.length (l ≫= λ f, match f with Turn => [tt] | _ => [] end).

(** ** crlf.c: the conversions *)

Definition add_cr (bs : list Z) : list Z := bs ≫= λ c, if c =? NEWLINE then [CR; NEWLINE] else [c].
Definition strip_cr (bs : list Z) : list Z := filter (λ c, c ≠ CR) bs.
Definition newlines (bs : list Z) : Z := countb (λ c, c =? NEWLINE) bs.

Lemma add_cr_app a b : add_cr (a ++ b) = add_cr a ++ add_cr b.
Proof. apply bind_app. Qed.
Lemma strip_cr_app a b : strip_cr (a ++ b) = strip_cr a ++ strip_cr b.
Proof. apply filter_app. Qed.
Lemma length_add_cr bs : Z.of_nat (List.length (add_cr bs)) = Z.of_nat (List.length bs) + newlines bs.
Proof.
  induction bs as [|c bs IH]; [done|]. unfold newlines in *. cbn [add_cr mbind list_bind countb].
  rewrite length_app. fold (add_cr bs). cbn [List.length]. destruct (c =? NEWLINE); simpl; lia.
Qed.
Lemma strip_add bs : CR ∉ bs → strip_cr (add_cr bs) = bs.
Proof.
  induction bs as [|c bs IH]; [done|]. rewrite not_elem_of_cons. intros [Hc Hbs].
  cbn [add_cr mbind list_bind]. rewrite strip_cr_app. fold (add_cr bs). rewrite IH by done.
  destruct (Z.eqb_spec c NEWLINE) as [->|]; [done|]. unfold strip_cr. by rewrite filter_cons_True.
Qed.

Section crlf.
Context {K : Kernel} {SOk : StrerrorOk K}.

Lemma post_store d dst c p (Q : outcome (list Z) → proc → Prop) :
  Z.of_nat (List.length dst) < d → Q (Ret (dst ++ [c])) p → post (store d dst c) p Q.
Proof. intros H HQ. unfold store. apply Z.ltb_lt in H. rewrite H. by apply post_ret. Qed.

(** The room that [crlf_add] asks for: less than the array when a line ends. *)
Definition add_fits (d : Z) (src : list Z) : Prop :=
  Z.of_nat (List.length (add_cr src)) < d ∨ (newlines src = 0 ∧ Z.of_nat (List.length src) = d).
Definition strip_fits (d : Z) (src : list Z) : Prop :=
  strip_cr src = [] ∨ Z.of_nat (List.length (strip_cr src)) < d.

Lemma crlf_add_loop_post d src : ∀ dst lenout p,
  lenout = Z.of_nat (List.length dst) + Z.of_nat (List.length src) → lenout ≤ d →
  post (crlf_add_loop d dst lenout src) p (λ o p',
    (o = Ret (dst ++ add_cr src, lenout + newlines src) ∧ p' = p ∧ (newlines src = 0 ∨ lenout + newlines src < d)) ∨
    (o = Exit 1 ∧ 0 < newlines src ∧ d ≤ lenout + newlines src)).
Proof.
  induction src as [|c src IH]; intros dst lenout p Hl Hd; cbn [crlf_add_loop].
  { post_steps. left. rewrite app_nil_r. unfold newlines. simpl. rewrite Z.add_0_r. auto. }
  pose proof (countb_nonneg (λ c, c =? NEWLINE) src) as Hn.
  unfold newlines in *. cbn [countb List.length] in *. unfold add_cr. cbn [mbind list_bind]. fold (add_cr src).
  post_steps. destruct (Z.eqb_spec c NEWLINE) as [->|Hc]; cbn [Z.b2z].
  - destruct (Z.leb_spec d (lenout + 1)).
    + eapply post_weaken; [by apply sock_err_quit_post|]. intros o p' ->. right. split; [done|lia].
    + post_steps. apply post_store; [lia|]. cbn [through]. post_steps.
      apply post_store; [rewrite length_app; simpl; lia|]. cbn [through].
      eapply post_weaken; [apply IH; rewrite ?length_app; simpl; lia|].
      intros o p' [(-> & -> & Hf)|(-> & Hf & Hf2)].
      * left. rewrite <- !app_assoc. split; [|split; [done|lia]]. do 2 f_equal. lia.
      * right. split; [done|lia].
  - post_steps. apply post_store; [lia|]. cbn [through].
    eapply post_weaken; [apply IH; rewrite ?length_app; simpl; lia|].
    intros o p' [(-> & -> & Hf)|(-> & Hf & Hf2)].
    + left. rewrite <- app_assoc. split; [do 2 f_equal; simpl; lia|]. split; [done|lia].
    + right. split; [done|lia].
Qed.
Lemma crlf_add_post d src p :
  post (crlf_add d src) p (λ o p',
    (o = Ret (add_cr src, Z.of_nat (List.length (add_cr src))) ∧ p' = p ∧ add_fits d src) ∨
    (o = Exit 1 ∧ ¬ add_fits d src)).
Proof.
  pose proof (length_add_cr src) as Hl. pose proof (countb_nonneg (λ c, c =? NEWLINE) src) as Hn.
  fold (newlines src) in Hn. unfold crlf_add, add_fits.
  destruct (Z.ltb_spec d (Z.of_nat (List.length src))).
  - eapply post_weaken; [by apply sock_err_quit_post|]. intros o p' ->. right. split; [done|lia].
  - eapply post_weaken; [apply crlf_add_loop_post; simpl; lia|].
    intros o p' [(-> & -> & Hf)|(-> & Hf & Hf2)].
    + left. split; [do 2 f_equal; lia|]. split; [done|lia].
    + right. split; [done|lia].
Qed.

Lemma crlf_strip_loop_post d src : ∀ dst p,
  Z.of_nat (List.length dst) ≤ d →
  post (crlf_strip_loop d dst (Z.of_nat (List.length dst)) src) p (λ o p',
    let n := Z.of_nat (List.length dst) + Z.of_nat (List.length (strip_cr src)) in
    (o = Ret (dst ++ strip_cr src, n) ∧ p' = p ∧ (strip_cr src = [] ∨ n < d)) ∨
    (o = Exit 1 ∧ strip_cr src ≠ [] ∧ d ≤ n)).
Proof.
  induction src as [|c src IH]; intros dst p Hd; cbn [crlf_strip_loop].
  { post_steps. left. rewrite app_nil_r, Z.add_0_r. auto. }
  destruct (Z.eqb_spec c CR) as [->|Hc]; cbn [negb].
  { eapply post_weaken; [by apply IH|]. done. }
  assert (Hs : strip_cr (c :: src) = c :: strip_cr src) by (unfold strip_cr; by rewrite filter_cons_True).
  rewrite Hs. cbn [List.length]. destruct (Z.leb_spec d (Z.of_nat (List.length dst) + 1)).
  - eapply post_weaken; [by apply sock_err_quit_post|]. intros o p' ->. right. split; [done|split; [done|lia]].
  - post_steps. apply post_store; [lia|]. cbn [through].
    replace (Z.of_nat (List.length dst) + 1) with (Z.of_nat (List.length (dst ++ [c]))) by (rewrite length_app; simpl; lia).
    eapply post_weaken; [apply IH; rewrite length_app; simpl; lia|]. cbn zeta. rewrite length_app. cbn [List.length].
    intros o p' [(-> & -> & Hf)|(-> & Hf & Hf2)]; [left|right].
    + rewrite <- app_assoc. split; [do 2 f_equal; lia|]. split; [done|]. destruct Hf as [->|]; simpl; lia.
    + split; [done|]. split; [done|lia].
Qed.
Lemma crlf_strip_post d src p : 0 ≤ d →
  post (crlf_strip d src) p (λ o p',
    (o = Ret (strip_cr src, Z.of_nat (List.length (strip_cr src))) ∧ p' = p ∧ strip_fits d src) ∨
    (o = Exit 1 ∧ ¬ strip_fits d src)).
Proof.
  intros Hd. eapply post_weaken; [by apply (crlf_strip_loop_post d src [])|]. unfold strip_fits. cbn zeta. simpl.
  intros o p' [?|(-> & Hne & Hf)]; [by left|right]. split; [done|]. intros [|]; [done|lia].
Qed.
Lemma framed_store P d dst c : framed P (store d dst c).
Proof. unfold store. framed_tac. Qed.
#[local] Hint Resolve framed_store : framed.
Lemma framed_crlf_add (P : event → Prop) (Hq : ∀ e, quiet e → P e) d src : framed P (crlf_add d src).
Proof.
  assert (H : ∀ dst lenout, framed P (crlf_add_loop d dst lenout src)).
  { induction src as [|c src IH]; intros dst lenout; cbn [crlf_add_loop]; framed_tac. }
  unfold crlf_add. framed_tac.
Qed.
Lemma framed_crlf_strip (P : event → Prop) (Hq : ∀ e, quiet e → P e) d src : framed P (crlf_strip d src).
Proof.
  unfold crlf_strip. generalize (@nil Z), 0. induction src as [|c src IH]; intros dst lenout; cbn [crlf_strip_loop]; framed_tac.
Qed.

End crlf.

(** ** pattern.c: the printable characters, over and over *)

Definition cycle (i : Z) (len : nat) : list Z := (λ j, 32 + (i + j) mod 95) <$> zrange (Z.of_nat len).
Definition next_print (d : Z) : Z := if (d <? 32) || (d =? 127) then 32 else d.

Lemma zseq_succ z n : zseq (z + 1) n = Z.succ <$> zseq z n.
Proof. revert z. induction n as [|n IH]; intros z; simpl; [done|]. by rewrite IH, Z.add_1_r. Qed.
Lemma cycle_S i len : cycle i (S len) = (32 + i mod 95) :: cycle ((i + 1) mod 95) len.
Proof.
  unfold cycle, zrange. rewrite !Nat2Z.id. cbn [zseq fmap list_fmap]. rewrite Z.add_0_r. f_equal.
  rewrite (zseq_succ 0). change (list_fmap ?f ?l) with (f <$> l). rewrite <- list_fmap_compose.
  apply list_fmap_ext. intros _ j _. unfold compose. f_equal. rewrite Zplus_mod_idemp_l. f_equal. lia.
Qed.
Lemma land_127 z : Z.land z 127 = z mod 128.
Proof. apply (Z.land_ones z 7). lia. Qed.
Lemma i8_mod z : i8 z mod 128 = z mod 128.
Proof. unfold i8. zdiv. Qed.

Lemma pattern_skip_run fuel : ∀ c p,
  let d := c mod 128 in
  (if d <? 32 then 32 - d else if d =? 127 then 33 else 0) < Z.of_nat fuel →
  ∃ c', pattern_skip fuel c p = (Ret c', p) ∧ c' mod 128 = next_print (c mod 128).
Proof.
  induction fuel as [|f IH]; intros c p d Hd; cbn [pattern_skip].
  { exfalso. pose proof (Z.mod_pos_bound c 128 ltac:(lia)). unfold d in *. repeat case_match; zbool; lia. }
  rewrite land_127. unfold isprint, next_print. fold d.
  pose proof (Z.mod_pos_bound c 128 ltac:(lia)) as Hb. fold d in Hb.
  assert (Hnext : i8 (c + 1) mod 128 = if d =? 127 then 0 else d + 1).
  { rewrite i8_mod, <- Zplus_mod_idemp_l. fold d. ztest; [subst d; by rewrite e|]. rewrite Z.mod_small; lia. }
  destruct (Z.leb_spec 32 d), (Z.ltb_spec d 127); cbn [andb negb] in *; try (exfalso; lia).
  - exists c. destruct (Z.ltb_spec d 32), (Z.eqb_spec d 127); cbn [orb]; try lia. done.
  - assert (Hd' : d = 127) by lia. rewrite Hd' in *. simpl in Hnext, Hd. destruct (IH (i8 (c + 1)) p) as (c' & Hc & Hc').
    { rewrite Hnext. simpl. lia. }
    exists c'. split; [done|]. by rewrite Hc', Hnext.
  - assert (Hd2 : (d =? 127) = false) by (apply Z.eqb_neq; lia). rewrite Hd2 in *.
    assert (Hd3 : (d <? 32) = true) by (apply Z.ltb_lt; lia). rewrite Hd3 in *. cbn [orb].
    destruct (IH (i8 (c + 1)) p) as (c' & Hc & Hc').
    { rewrite Hnext. destruct (Z.ltb_spec (d + 1) 32), (Z.eqb_spec (d + 1) 127); lia. }
    exists c'. split; [done|]. rewrite Hc', Hnext. unfold next_print.
    destruct (Z.ltb_spec (d + 1) 32); [done|]. replace (d + 1) with 32 by lia. done.
Qed.

Lemma pattern_loop_run len : ∀ c p,
  pattern_loop c len p = (Ret (cycle (next_print (c mod 128) - 32) len), p).
Proof.
  induction len as [|len IH]; intros c p; cbn [pattern_loop]; [done|].
  destruct (pattern_skip_run 128 c p) as (c' & Hc & Hc').
  { pose proof (Z.mod_pos_bound c 128 ltac:(lia)). repeat case_match; zbool; lia. }
  rewrite (run_bind _ _ _ _ _ Hc), (run_bind _ _ _ _ _ (IH _ p)), land_127, Hc', cycle_S.
  rewrite i8_mod, <- Zplus_mod_idemp_l, Hc'. unfold mret, M_ret. do 2 f_equal.
  pose proof (Z.mod_pos_bound c 128 ltac:(lia)) as Hb. set (d := c mod 128) in *. clearbody d.
  unfold next_print.
  destruct (Z.ltb_spec d 32), (Z.eqb_spec d 127); cbn [orb]; try (subst; done).
  f_equal; [rewrite Z.mod_small; lia|]. f_equal. rewrite (Z.mod_small (d + 1)) by lia.
  destruct (Z.ltb_spec (d + 1) 32); [lia|]. destruct (Z.eqb_spec (d + 1) 127); cbn [orb].
  - subst. replace d with 126 by lia. done.
  - rewrite Z.mod_small; lia.
Qed.
Lemma pattern_run len p : pattern len p = (Ret (cycle 0 (Z.to_nat len)), p).
Proof. apply (pattern_loop_run _ 0). Qed.

(** ** Transfers *)

#[global] Instance flow1_quiet sockfd : QuietUnseen (flow1 sockfd).
Proof. split. intros [A c a] H. by destruct c. Qed.

(** What flowed, by direction. *)
Definition moved (new : list flow) (t s g w : list Z) : Prop :=
  typed new = t ∧ sent new = s ∧ got new = g ∧ shown new = w.
Lemma moved_nil : moved [] [] [] [] [].
Proof. done. Qed.
Lemma moved_app l1 l2 t1 s1 g1 w1 t2 s2 g2 w2 :
  moved l1 t1 s1 g1 w1 → moved l2 t2 s2 g2 w2 → moved (l1 ++ l2) (t1 ++ t2) (s1 ++ s2) (g1 ++ g2) (w1 ++ w2).
Proof. intros (<- & <- & <- & <-) (<- & <- & <- & <-). split_and!; apply bind_app. Qed.
Lemma retries_app l1 l2 : retries (l1 ++ l2) = (retries l1 + retries l2)%nat.
Proof. unfold retries. by rewrite bind_app, length_app. Qed.
Lemma turns_app l1 l2 : turns (l1 ++ l2) = (turns l1 + turns l2)%nat.
Proof. unfold turns. by rewrite bind_app, length_app. Qed.

Section transfer.
Context {K : Kernel} {SOk : StrerrorOk K} (o : opts) (sockfd : Z) (uio_maxiov : nat).
Context (Hiov : (0 < uio_maxiov)%nat) (Hsock : sockfd ≠ STDOUT_FILENO).
Abbreviation runs m Q := (Frame.runs (flow1 sockfd) m Q).

Lemma quiet_flow e : quiet e → unseen (flow1 sockfd) e.
Proof. apply quiet_unseen, _. Qed.
Lemma runs_err_sys {A} msg (Q : outcome A → list flow → Prop) : strlen msg < 3000 → Q (Exit 1) [] → runs (err_sys msg) Q.
Proof.
  intros Hm HQ. apply runs_unseen; [apply framed_sock_err_sys, quiet_flow|]. intros p.
  eapply post_weaken; [by apply sock_err_sys_post|]. by intros ? ? ->.
Qed.
Lemma runs_err_ret msg (Q : outcome unit → list flow → Prop) : strlen msg < 3000 → Q (Ret tt) [] → runs (err_ret msg) Q.
Proof.
  intros Hm HQ. apply runs_unseen; [apply framed_sock_err_doit, quiet_flow|]. intros p.
  eapply post_weaken; [by apply sock_err_doit_post|]. by intros ? ? ->.
Qed.
Lemma runs_fprintf msg (Q : outcome unit → list flow → Prop) : Q (Ret tt) [] → runs (fprintf msg) Q.
Proof. intros HQ. unfold fprintf. by runs_steps. Qed.
Lemma runs_printf msg (Q : outcome unit → list flow → Prop) : Q (Ret tt) [] → runs (printf msg) Q.
Proof. intros HQ. unfold printf. by runs_steps. Qed.
Lemma runs_say msg (Q : outcome unit → list flow → Prop) : Q (Ret tt) [] → runs (say o msg) Q.
Proof. intros HQ. unfold say. case_match; [by apply runs_fprintf|by apply runs_ret]. Qed.

(** The pieces are the data, whatever the size that does not need more of
    them than there are. *)
Lemma runs_dowrite_iov n : ∀ i chunksize vptr rest,
  (0 < n)%nat → 0 < chunksize → Z.of_nat (List.length rest) ≤ Z.of_nat n * chunksize →
  runs (dowrite_iov o n i chunksize vptr rest) (λ out new, new = [] ∧ ∃ iov, out = Ret (Some iov) ∧ mjoin iov = rest).
Proof.
  induction n as [|n IH]; intros i chunksize vptr rest Hn Hc Hl; [lia|]. cbn [dowrite_iov].
  runs_step. apply runs_say. cbn [passes]. set (len := if _ <=? _ then _ else _).
  assert (Hlen : 0 ≤ len ≤ Z.of_nat (List.length rest)) by (unfold len; ztest; lia).
  destruct (Z.eqb_spec (Z.of_nat (List.length rest) - len) 0).
  - runs_steps. split; [done|]. eexists. split; [done|]. cbn. rewrite app_nil_r. apply take_ge. lia.
  - assert (Hlc : len = chunksize) by (unfold len in *; revert n0; ztest; lia).
    runs_step. eapply runs_weaken; [apply IH; rewrite ?length_drop; nia|].
    intros out new [-> (iov & -> & Hj)]. cbn [passes]. runs_steps. split; [done|]. eexists. split; [done|].
    transitivity (take (Z.to_nat len) rest ++ mjoin iov); [done|]. by rewrite Hj, take_drop.
Qed.

Definition sends (bs : list Z) (out : outcome (option Z)) (new : list flow) : Prop :=
  ∃ s, moved new [] s [] [] ∧ s `prefix_of` bs ∧
  match out with
  | Ret (Some n) => n = Z.of_nat (List.length bs) → s = bs
  | Ret None => True
  | _ => False
  end.

Lemma sent_take n bs : moved [Sent (take (Z.to_nat n) bs)] [] (take (Z.to_nat n) bs) [] [].
Proof. by split_and!; cbn; rewrite ?app_nil_r. Qed.
Lemma sends_take bs n : sends bs (Ret (Some n)) [Sent (take (Z.to_nat n) bs)].
Proof. eexists. split; [apply sent_take|]. split; [apply prefix_take|]. intros ->. by rewrite Nat2Z.id, firstn_all. Qed.
Lemma sends_none bs : sends bs (Ret None) [].
Proof. exists []. split; [apply moved_nil|]. split; [apply prefix_nil|done]. Qed.

Lemma runs_write bs : runs (syscall (sys_write sockfd bs)) (sends bs).
Proof.
  runs_steps; cbn [flow1]; rewrite ?Z.eqb_refl.
  - apply sends_take.
  - destruct (Z.eqb_spec sockfd STDOUT_FILENO); [done|]. rewrite andb_false_r. apply sends_none.
Qed.
Lemma runs_sendto bs sa : runs (syscall (sys_sendto sockfd bs sa)) (sends bs).
Proof. runs_steps; cbn [flow1]; rewrite ?Z.eqb_refl; [apply sends_take|apply sends_none]. Qed.

Lemma runs_dowrite_each iov : ∀ ntotal,
  runs (dowrite_each sockfd iov ntotal) (λ out new, ∃ s, moved new [] s [] [] ∧ s `prefix_of` mjoin iov ∧
    match out with Ret (Some n) => s = mjoin iov | Ret None => True | _ => False end).
Proof.
  induction iov as [|v iov IH]; intros ntotal; cbn [dowrite_each].
  { runs_steps. exists []. split; [apply moved_nil|done]. }
  runs_step. eapply runs_weaken; [apply runs_write|]. intros out new (s & Hm & Hp & Ho).
  destruct out as [[n|]| | | |]; try done; cbn [passes].
  2: { runs_steps. exists s. rewrite app_nil_r. split; [done|]. split; [by apply prefix_app_r|done]. }
  destruct (Z.eqb_spec n (Z.of_nat (List.length v))).
  - specialize (Ho e). subst s. eapply runs_weaken; [apply IH|]. intros out new2 (s2 & Hm2 & Hp2 & Ho2).
    exists (v ++ s2). split; [by apply (moved_app _ _ [] v [] [] [] s2 [] [])|].
    split; [by apply prefix_app|]. destruct out as [[?|]| | | |]; try done. cbn. by rewrite Ho2.
  - runs_steps. exists s. rewrite app_nil_r. split; [done|]. split; [by apply prefix_app_r|done].
Qed.

Lemma runs_dowrite vptr bs : runs (dowrite o uio_maxiov sockfd vptr bs) (sends bs).
Proof.
  unfold dowrite. case_match; [apply runs_write|]. runs_step.
  set (nb := Z.of_nat (List.length bs)). set (mx := Z.of_nat uio_maxiov).
  set (c := if nb / mx <=? 0 then _ else _).
  assert (Hc : 0 < c ∧ nb ≤ mx * c).
  { pose proof (Z.div_mod nb mx ltac:(lia)). pose proof (Z.mod_pos_bound nb mx ltac:(lia)).
    unfold c. destruct (Z.leb_spec (nb / mx) 0); [split; nia|]. destruct (Z.eqb_spec (nb mod mx) 0); cbn [negb]; split; nia. }
  destruct Hc as [Hc1 Hc2]. eapply runs_weaken; [by apply runs_dowrite_iov|].
  intros out new [-> (iov & -> & Hj)]. cbn [passes].
  case_match.
  - runs_steps; cbn [flow1 app]; rewrite ?Z.eqb_refl, ?Hj; [apply sends_take|apply sends_none].
  - eapply runs_weaken; [apply runs_dowrite_each|]. intros out new (s & Hm & Hp & Ho). rewrite Hj in *.
    exists s. split; [done|]. split; [done|]. destruct out as [[?|]| | | |]; try done.
Qed.
End transfer.

(** ** The loops *)

Section loops.
Context {K : Kernel} {SOk : StrerrorOk K} (o : opts) (sockfd : Z) (steps : nat) (rbuf wbuf : Z).
Context (Hsock : sockfd ≠ STDOUT_FILENO) (Hwl : 0 ≤ o writelen).
Abbreviation runs m Q := (Frame.runs (flow1 sockfd) m Q).

(** What goes to the socket, from what was typed; what is shown, from what was
    received. *)
Definition encoded (bs : list Z) : list Z := if isset (o crlf) then add_cr bs else bs.
Definition decoded (bs : list Z) : list Z := if isset (o crlf) then strip_cr bs else bs.
Lemma encoded_app a b : encoded (a ++ b) = encoded a ++ encoded b.
Proof. unfold encoded. case_match; [apply add_cr_app|done]. Qed.
Lemma decoded_app a b : decoded (a ++ b) = decoded a ++ decoded b.
Proof. unfold decoded. case_match; [apply strip_cr_app|done]. Qed.

Lemma encoded_nil : encoded [] = [].
Proof. unfold encoded. by case_match. Qed.
Lemma decoded_nil : decoded [] = [].
Proof. unfold decoded. by case_match. Qed.

(** What a part of the loop does, whatever its outcome: nothing but the
    conversion of what came in goes out, and all of it when it returns.  The fuel
    runs out by retries, or as [lim] says. *)
Definition carries {A} (lim : list flow → Prop) (R : A → list flow → Prop) (out : outcome A) (new : list flow) : Prop :=
  sent new `prefix_of` encoded (typed new) ∧ shown new `prefix_of` decoded (got new) ∧
  match out with
  | Ret a => sent new = encoded (typed new) ∧ shown new = decoded (got new) ∧ R a new
  | Exit st => st = 1
  | NoFuel => (steps ≤ List.length (got new) + retries new)%nat ∨ lim new
  | _ => False
  end.

Lemma carries_weaken {A} lim lim' (R R' : A → list flow → Prop) out l :
  carries lim R out l → (∀ l, lim l → lim' l) → (∀ a l, R a l → R' a l) → carries lim' R' out l.
Proof. intros (H1 & H2 & Ho) Hl HR. split; [done|]. split; [done|]. destruct out; naive_solver. Qed.
Lemma carries_stop {A B} lim lim' (R : A → list flow → Prop) (R' : B → list flow → Prop) (out : outcome A) (out' : outcome B) l :
  carries lim R out l → match out, out' with
    | Exit st, Exit st' => st = st' | NoFuel, NoFuel => True | Abort, Abort => True | UB, UB => True | _, _ => False end →
  (∀ l, lim l → lim' l) → carries lim' R' out' l.
Proof. intros (H1 & H2 & Ho) Hm Hl. split; [done|]. split; [done|]. destruct out, out'; naive_solver. Qed.
Lemma carries_nil {A} lim (R : A → list flow → Prop) a : R a [] → carries lim R (Ret a) [].
Proof. intros HR. unfold carries, encoded, decoded. simpl. repeat case_match; split_and!; done. Qed.
Lemma carries_exit {A} lim (R : A → list flow → Prop) : carries lim R (Exit 1) [].
Proof. unfold carries. simpl. split_and!; try done; apply prefix_nil. Qed.

Definition none (l : list flow) : Prop := False.
Definition any {A} (a : A) (l : list flow) : Prop := True.

(** Sequences: what the first part established holds of what it moved. *)
Lemma runs_carries {A B} (m : M A) (k : A → M B) lim (R1 : A → list flow → Prop) (R2 : B → list flow → Prop) :
  runs m (carries lim R1) →
  (∀ a l1, R1 a l1 → runs (k a) (λ out l2, carries (λ l2, lim (l1 ++ l2)) (λ b l2, R2 b (l1 ++ l2)) out l2)) →
  runs (m ≫= k) (carries lim R2).
Proof.
  intros Hm Hk. apply runs_bind. eapply runs_weaken; [exact Hm|]. intros out l1 Hc.
  destruct out as [a| | | |]; cbn [passes]; try (by eapply carries_stop; [exact Hc| |]).
  pose proof (proj2 (proj2 Hc)) as (_ & _ & HR). eapply runs_weaken; [by apply Hk|]. intros out l2 Hc2.
  destruct Hc as (_ & _ & Hs & Hw & _), Hc2 as (Hp2 & Hw2 & Ho). unfold carries, sent, typed, shown, got in *.
  rewrite !bind_app, encoded_app, decoded_app. rewrite Hs, Hw in *.
  split; [by apply prefix_app|]. split; [by apply prefix_app|].
  destruct out as [b| | | |]; try done.
  - destruct Ho as (-> & -> & ?). done.
  - rewrite length_app, retries_app. destruct Ho as [|]; [left; lia|by right].
Qed.
Lemma runs_then {A B} (m : M A) (k : A → M B) :
  runs m (carries none any) → (∀ a, runs (k a) (carries none any)) → runs (m ≫= k) (carries none any).
Proof. intros Hm Hk. eapply runs_carries; [exact Hm|]. intros a l1 _. exact (Hk a). Qed.
Lemma runs_return {A} (a : A) : runs (mret a) (carries none any).
Proof. apply runs_ret. by apply carries_nil. Qed.
Lemma runs_fatal {A} msg : strlen msg < 3000 → runs (err_sys (A := A) msg) (carries none any).
Proof. intros Hm. apply runs_err_sys; [done|]. apply carries_exit. Qed.
Lemma runs_noisy {A} (m : M A) : (∀ Q : outcome A → list flow → Prop, (∀ a, Q (Ret a) []) → runs m Q) → runs m (carries none any).
Proof. intros H. apply H. intros a. by apply carries_nil. Qed.
Lemma runs_said msg : runs (say o msg) (carries none any).
Proof. apply runs_say. by apply carries_nil. Qed.
(** A call that moves nothing. *)
Lemma runs_still {A} (c : sys (res A)) : (∀ r, flow1 sockfd (Event c r) = []) → runs (syscall c) (carries none any).
Proof. intros H. runs_steps; rewrite H; by apply carries_nil. Qed.

Lemma runs_writen fuel : ∀ bs, runs (writen fuel STDOUT_FILENO bs)
  (λ out new, ∃ w, moved new [] [] [] w ∧ w `prefix_of` bs ∧
    match out with
    | Ret true => w = bs
    | Ret false => True
    | NoFuel => (fuel ≤ List.length bs + retries new)%nat
    | _ => False
    end).
Proof.
  unfold writen. induction fuel as [|f IH]; intros bs; cbn [writen_loop].
  { apply runs_stop. exists []. split; [apply moved_nil|]. split; [apply prefix_nil|lia]. }
  destruct (Z.ltb_spec 0 (Z.of_nat (List.length bs))).
  2: { runs_steps. exists []. split; [apply moved_nil|]. split; [apply prefix_nil|]. destruct bs; [done|simpl in *; lia]. }
  intros p. apply post_bind, post_syscall; intros x _; cbn [through].
  - assert (He : flow1 sockfd (Event (sys_write STDOUT_FILENO bs) (Ok x)) = [Shown (take (Z.to_nat x) bs)]).
    { cbn [flow1]. destruct (Z.eqb_spec STDOUT_FILENO sockfd); [congruence|done]. }
    assert (Hm : moved [Shown (take (Z.to_nat x) bs)] [] [] [] (take (Z.to_nat x) bs)) by (split_and!; cbn; rewrite ?app_nil_r; done).
    destruct (Z.leb_spec x 0).
    + post_steps. eexists. split; [cbn [add_event p_trace seen]; rewrite He; reflexivity|].
      eexists. split; [exact Hm|]. split; [apply prefix_take|done].
    + eapply post_weaken; [apply IH|]. intros out p' (new & Hs & w & Hmw & Hp & Ho).
      cbn [add_event p_trace seen] in Hs. rewrite He in Hs. eexists. split; [rewrite Hs, <- app_assoc; reflexivity|].
      exists (take (Z.to_nat x) bs ++ w). split; [by apply (moved_app _ _ [] [] [] _ [] [] [] _)|].
      split; [rewrite <- (take_drop (Z.to_nat x) bs) at 2; by apply prefix_app|].
      destruct out as [[]| | | |]; try done; [by rewrite Ho, take_drop|]. rewrite retries_app. rewrite length_drop in Ho. cbn. lia.
  - assert (He : flow1 sockfd (Event (sys_write STDOUT_FILENO bs) (Err x)) = if x =? EINTR then [Retry] else []).
    { cbn [flow1]. by rewrite andb_true_r. }
    post_steps. cbn [with_errno p_errno]. destruct (Z.eqb_spec x EINTR).
    + eapply post_weaken; [apply IH|]. intros out p' (new & Hs & w & Hmw & Hp & Ho).
      cbn [with_errno add_event p_trace seen] in Hs. rewrite He in Hs. eexists. split; [rewrite Hs, <- app_assoc; reflexivity|].
      exists w. split; [by apply (moved_app [Retry] new [] [] [] [] [] [] [] w)|]. split; [done|].
      destruct out as [[]| | | |]; try done. rewrite retries_app. cbn. lia.
    + post_steps. eexists. split; [cbn [with_errno add_event p_trace seen]; rewrite He; reflexivity|].
      exists []. split; [apply moved_nil|]. split; [apply prefix_nil|done].
Qed.

(** A sleep moves nothing. *)
Definition idles {A} (fuel : nat) (out : outcome A) (new : list flow) : Prop :=
  moved new [] [] [] [] ∧
  match out with Ret _ => True | Exit st => st = 1 | NoFuel => (fuel ≤ retries new)%nat | _ => False end.
Lemma runs_sleep us fuel : runs (sleep_us fuel us) (idles fuel).
Proof.
  induction fuel as [|k IH]; cbn [sleep_us]; [by apply runs_stop|]. runs_step.
  assert (Hrest : runs (e ← get_errno; if e =? EINTR then sleep_us k us else err_sys "sleep_us: select error")
    (λ out new, idles (S k) out (Retry :: new))).
  { intros p. apply post_bind, post_get_errno. cbn [through]. case_match.
    - eapply post_weaken; [apply IH|]. intros out p' (new & Hs & Hm & Ho). exists new. split; [done|]. split; [exact Hm|].
      destruct out; try done. change (S k ≤ S (retries new))%nat. lia.
    - apply runs_err_sys; [done|]. by split. }
  runs_step; cbn [flow1].
  - destruct (a =? 0); [by apply runs_ret|exact Hrest].
  - exact Hrest.
Qed.

Definition pause_ok (ms : Z) : Prop := Z.abs (ms * 1000) ≤ INT_MAX.
Lemma runs_pause ms : pause_ok ms → runs (pause steps ms) (idles steps).
Proof.
  intros Hp. unfold pause. case_match; [|by apply runs_ret]. apply Z.leb_le in Hp. rewrite Hp. apply runs_sleep.
Qed.
Lemma runs_pause_carries ms : pause_ok ms → runs (pause steps ms) (carries none any).
Proof.
  intros Hp. eapply runs_weaken; [by apply runs_pause|]. intros out new [(H1 & H2 & H3 & H4) Ho].
  unfold carries. rewrite H1, H2, H3, H4, encoded_nil, decoded_nil. split; [done|]. split; [done|].
  destruct out; try done. left. simpl. lia.
Qed.

(** What was received, [bs], is shown. *)
Definition shows {A} (bs : list Z) (out : outcome A) (new : list flow) : Prop :=
  ∃ w, moved new [] [] [] w ∧ w `prefix_of` decoded bs ∧
  match out with
  | Ret _ => w = decoded bs
  | Exit st => st = 1
  | NoFuel => (steps ≤ List.length bs + retries new)%nat
  | _ => False
  end.
Lemma runs_show bs : runs (show o steps bs) (shows bs).
Proof.
  assert (Hquit : ∀ A l w, moved l [] [] [] w → w `prefix_of` decoded bs → shows (A := A) bs (Exit 1) l) by (intros; by exists w).
  assert (Hrest : runs (ok ← writen steps STDOUT_FILENO (decoded bs); if (ok : bool) then mret tt else err_sys "writen error to stdout") (shows bs)).
  { runs_step. eapply runs_weaken; [apply runs_writen|]. intros out new (w & Hm & Hw & Ho).
    destruct out as [[]| | | |]; try (exfalso; exact Ho); cbn [passes].
    - runs_steps. rewrite app_nil_r. by exists w.
    - apply runs_err_sys; [done|]. rewrite app_nil_r. by eapply Hquit.
    - exists w. split; [done|]. split; [done|]. assert (List.length (decoded bs) ≤ List.length bs)%nat; [|lia].
      unfold decoded. case_match; [apply length_filter|lia]. }
  unfold show. runs_step. unfold decoded in *. destruct (isset (o crlf)); [|apply runs_ret; exact Hrest].
  runs_step. apply runs_unseen; [apply framed_crlf_strip, quiet_flow|]. intros p.
  eapply post_weaken; [by apply crlf_strip_post|]. intros out p' [(-> & _ & _)|[-> _]]; cbn [passes].
  - apply runs_ret. cbn [passes]. rewrite Nat2Z.id, firstn_all. exact Hrest.
  - eapply Hquit; [apply moved_nil|apply prefix_nil].
Qed.

Lemma carries_moved {A} lim (R : A → list flow → Prop) out new t s g w :
  moved new t s g w → s `prefix_of` encoded t → w `prefix_of` decoded g →
  match out with
  | Ret a => s = encoded t ∧ w = decoded g ∧ R a new
  | Exit st => st = 1
  | NoFuel => (steps ≤ List.length g + retries new)%nat ∨ lim new
  | _ => False
  end → carries lim R out new.
Proof. intros (<- & <- & <- & <-) ???. done. Qed.
Lemma carries_got {A} (out : outcome A) bs new : shows bs out new → carries none any out (Got bs :: new).
Proof.
  intros (w & Hm & Hw & Ho). pose proof (moved_app [Got bs] new [] [] bs [] [] [] [] w) as Ha. cbn [app] in Ha.
  eapply carries_moved; [apply Ha; [by split_and!; cbn; rewrite ?app_nil_r|exact Hm]| | |]; rewrite ?app_nil_r, ?encoded_nil; try done.
  destruct out; try done. by left.
Qed.

(** The end of one of the streams. *)
Definition eof (l : list flow) : Prop := Typed [] ∈ l ∨ Got [] ∈ l.
Definition if_eof (b : bool) (l : list flow) : Prop := b = true → eof l.

(** Shows what was received and returns [a]. *)
Lemma runs_show_got {A} (a : A) (R : A → list flow → Prop) bs : (∀ l, R a l) →
  runs (show o steps bs ;; mret a) (λ out new, carries none R out (Got bs :: new)).
Proof.
  intros HR. runs_step. eapply runs_weaken; [apply runs_show|]. intros out new Hs%carries_got.
  destruct out; cbn [passes]; try (by eapply carries_stop; [exact Hs| |]).
  apply runs_ret. rewrite app_nil_r. destruct Hs as (H1 & H2 & H3 & H4 & _). by split_and!.
Qed.
Lemma runs_got_nil {A} (out : outcome A) (R : A → list flow → Prop) :
  match out with Ret a => R a [Got []] | Exit st => st = 1 | _ => False end → carries none R out [Got []].
Proof.
  intros Ho. eapply (carries_moved _ _ _ _ [] [] [] []); rewrite ?encoded_nil; try done.
  - apply prefix_nil.
  - rewrite decoded_nil. by destruct out.
Qed.

Lemma runs_recv_once flags : runs (recv_once o steps sockfd flags) (carries none if_eof).
Proof.
  unfold recv_once. runs_step. runs_step; cbn [flow1]; rewrite ?Z.eqb_refl.
  - destruct a as [|b bs]; [|by apply runs_show_got].
    runs_step. apply runs_say. cbn [passes]. apply runs_ret. cbn [app]. apply runs_got_nil. intros _. right. by left.
  - apply runs_err_sys; [done|]. apply carries_exit.
Qed.
Lemma runs_recv_part : runs (recv_part o steps sockfd) (carries none if_eof).
Proof.
  unfold recv_part. eapply runs_carries; [apply runs_recv_once|]. intros [] l1 HR.
  - apply runs_ret. apply carries_nil. intros _. rewrite app_nil_r. by apply HR.
  - case_match; [|by apply runs_ret, carries_nil]. eapply runs_weaken; [apply runs_recv_once|].
    intros out new Hc. eapply carries_weaken; [exact Hc|done|]. intros b l Hl Hb. destruct (Hl Hb) as [?|?]; [left|right]; set_solver.
Qed.

(** What a send has to do. *)
Definition send_ok (send : Z → list Z → M unit) : Prop :=
  ∀ addr bs, runs (send addr bs) (λ out new, ∃ s, moved new [] s [] [] ∧ s `prefix_of` bs ∧
    match out with Ret _ => s = bs | Exit st => st = 1 | _ => False end).

Lemma runs_or_short f bs what : strlen (what +:+ " error") < 3000 → runs f (sends bs) →
  runs (or_short f bs what) (λ out new, ∃ s, moved new [] s [] [] ∧ s `prefix_of` bs ∧
    match out with Ret _ => s = bs | Exit st => st = 1 | _ => False end).
Proof.
  intros Hm Hf. unfold or_short. runs_step. eapply runs_weaken; [exact Hf|]. intros out new (s & Hmv & Hp & Ho).
  assert (Hend : ∀ new', new' = [] → ∃ s0, moved (new ++ new') [] s0 [] [] ∧ s0 `prefix_of` bs ∧ 1 = 1).
  { intros new' ->. exists s. by rewrite app_nil_r. }
  destruct out as [[n|]| | | |]; try (exfalso; exact Ho); cbn [passes].
  - destruct (Z.eqb_spec n (Z.of_nat (List.length bs))); [|by apply runs_err_sys, Hend].
    apply runs_ret. exists s. rewrite app_nil_r. auto.
  - by apply runs_err_sys, Hend.
Qed.

Definition if_break (todo : next) (l : list flow) : Prop := todo = Break → eof l.
Definition then_read {A} (bs : list Z) (R : A → list flow → Prop) (out : outcome A) (new : list flow) : Prop :=
  carries none R out (Typed bs :: new).

Lemma runs_sent send addr bs data : send_ok send → data = encoded bs →
  runs (send addr data) (passes (then_read bs if_break) (λ _, then_read bs if_break (Ret Fall))).
Proof.
  intros Hsend ->. eapply runs_weaken; [apply Hsend|]. intros out new (s & Hm & Hp & Ho).
  assert (Hc : ∀ out' : outcome next, match out' with Ret a => s = encoded bs ∧ a = Fall | Exit st => st = 1 | _ => False end →
    then_read bs if_break out' new).
  { intros out' Ho'. pose proof (moved_app [Typed bs] new bs [] [] [] [] s [] [] ) as Ha. cbn [app] in Ha.
    eapply carries_moved; [apply Ha; [by split_and!; cbn; rewrite ?app_nil_r|exact Hm]| | |]; rewrite ?app_nil_r; try done.
    - apply prefix_nil.
    - rewrite decoded_nil. destruct out' as [[]| | | |]; try done; by destruct Ho'. }
  destruct out; try (exfalso; exact Ho); cbn [passes]; by apply Hc.
Qed.

Lemma runs_read_eof {A} (out : outcome A) (R : A → list flow → Prop) :
  match out with Ret a => R a [Typed []] | Exit st => st = 1 | _ => False end → carries none R out [Typed []].
Proof.
  intros Ho. eapply (carries_moved _ _ _ _ [] [] [] []); rewrite ?encoded_nil, ?decoded_nil; try done.
  by destruct out.
Qed.
Lemma runs_stdin_part send : send_ok send → runs (stdin_part o rbuf wbuf sockfd send) (carries none if_break).
Proof.
  intros Hsend. unfold stdin_part. runs_step. runs_step; cbn [flow1].
  2: { apply runs_err_sys; [done|]. apply carries_exit. }
  rewrite Z.eqb_refl. destruct a as [|b bs].
  - destruct (isset (o halfclose)).
    + unfold shutdown_wr. runs_step. runs_step. runs_step; cbn [flow1].
      * runs_steps. by apply runs_read_eof.
      * apply runs_err_sys; [done|]. by apply runs_read_eof.
    + runs_step. apply runs_read_eof. intros _. left. by left.
  - set (data := b :: bs). runs_step.
    assert (Hsent : ∀ addr d, d = encoded data → runs (send addr d)
      (passes (λ out new, carries none if_break out ([Typed data] ++ new)) (λ _ new1, runs (mret Fall) (λ out new2,
        carries none if_break out ([Typed data] ++ new1 ++ new2))))).
    { intros addr d Hd. eapply runs_weaken; [by apply (runs_sent _ _ data)|]. intros out new Hr.
      destruct out; cbn [passes] in *; try exact Hr. apply runs_ret. rewrite app_nil_r. exact Hr. }
    unfold encoded in Hsent. destruct (isset (o crlf)) eqn:Hcr; [|by apply Hsent].
    runs_step. apply runs_unseen; [apply framed_crlf_add, quiet_flow|]. intros p.
    eapply post_weaken; [apply crlf_add_post|]. intros out p' [(-> & _ & _)|[-> _]]; cbn [passes].
    + rewrite Nat2Z.id, firstn_all. by apply Hsent.
    + rewrite app_nil_r. eapply (carries_moved _ _ _ _ data [] [] []); rewrite ?decoded_nil; try done; [|apply prefix_nil].
      by split_and!; cbn; rewrite ?app_nil_r.
Qed.

Lemma runs_loop_step {St} send (receive : M (bool * St)) eof_ rset (s : St) :
  send_ok send → runs receive (carries none (λ r, if_eof r.1)) →
  runs (loop_step o rbuf wbuf sockfd send receive eof_ rset s) (λ out new,
    carries none (λ r l, r = None → eof l) out new ∧ (1 ≤ turns new)%nat).
Proof.
  intros Hsend Hrecv. unfold loop_step. runs_step. cbn zeta.
  assert (Hturn : ∀ out new, carries none (λ (r : option (bool * list Z * St)) l, r = None → eof l) out new →
    carries none (λ r l, r = None → eof l) out (Turn :: new) ∧ (1 ≤ turns (Turn :: new))%nat).
  { intros out new (H1 & H2 & H3). split; [|change (1 ≤ S (turns new))%nat; lia]. split; [done|]. split; [done|].
    destruct out; try done. destruct H3 as (? & ? & HR). split; [done|]. split; [done|].
    intros Hn. destruct (HR Hn); [left|right]; set_solver. }
  runs_step; cbn [flow1].
  2: { apply runs_err_sys; [done|]. apply Hturn, carries_exit. }
  destruct a as [rset' w]. eapply runs_weaken; [|intros out new H; by apply Hturn].
  eapply runs_carries with (R1 := if_break).
  { case_match; [by apply runs_stdin_part|]. by apply runs_ret, carries_nil. }
  intros [] l1 HR.
  - eapply runs_carries with (R1 := λ r, if_eof r.1).
    { case_match; [exact Hrecv|]. by apply runs_ret, carries_nil. }
    intros [closed s'] l2 Hl2. apply runs_ret, carries_nil. destruct closed; [|done]. intros _.
    destruct (Hl2 eq_refl); [left|right]; set_solver.
  - by apply runs_ret, carries_nil.
  - apply runs_ret, carries_nil. intros _. rewrite app_nil_r. by apply HR.
Qed.

Lemma runs_loop {St} send (receive : St → M (bool * St)) fuel : ∀ eof_ rset (s : St),
  (∀ s, send_ok (send s)) → (∀ s, runs (receive s) (carries none (λ r, if_eof r.1))) →
  runs (loop o rbuf wbuf fuel sockfd send receive eof_ rset s) (carries (λ l, (fuel ≤ turns l)%nat) (λ _, eof)).
Proof.
  intros eof_ rset s Hsend Hrecv. revert eof_ rset s. induction fuel as [|f IH]; intros eof_ rset s; cbn [loop].
  { apply runs_stop. unfold carries. simpl. split; [apply prefix_nil|]. split; [apply prefix_nil|]. right. lia. }
  eapply runs_carries with (R1 := λ r l, (r = None → eof l) ∧ (1 ≤ turns l)%nat).
  { eapply runs_weaken; [by apply runs_loop_step|]. intros out new [(H1 & H2 & H3) Ht]. split; [done|]. split; [done|].
    destruct out; try done; [by destruct H3 as (? & ? & ?)|]. destruct H3; [by left|done]. }
  intros [[[eof2 rset2] s2]|] l1 [Hn Ht].
  - eapply runs_weaken; [apply IH|]. intros out new Hc. eapply carries_weaken; [exact Hc| |].
    + intros l Hl. cbn beta in Hl. rewrite turns_app. lia.
    + intros _ l [|]; [left|right]; set_solver.
  - apply runs_ret, carries_nil. rewrite app_nil_r. by apply Hn.
Qed.

Lemma runs_close_sock : pause_ok (o pauseclose) → runs (close_sock o steps sockfd) (carries none any).
Proof.
  intros Hp. unfold close_sock. apply runs_then; [|intros _].
  - case_match; [|apply runs_return]. apply runs_then; [apply runs_said|]. intros _. by apply runs_pause_carries.
  - apply runs_then; [by apply runs_still|]. intros [|]; [apply runs_return|by apply runs_fatal].
Qed.

Lemma send_ok_tcp uio_maxiov : (0 < uio_maxiov)%nat → send_ok (tcp_send o uio_maxiov sockfd).
Proof. intros H addr bs. apply runs_or_short; [done|by apply runs_dowrite]. Qed.
Lemma runs_tcp_receive : runs (tcp_receive o steps sockfd) (carries none (λ r, if_eof r.1)).
Proof.
  unfold tcp_receive. eapply runs_carries; [apply runs_recv_part|]. intros b l1 Hb. apply runs_ret, carries_nil.
  by rewrite app_nil_r.
Qed.
Lemma send_ok_udp sa : send_ok (udp_send o sockfd sa).
Proof. intros addr bs. unfold udp_send. case_match; (apply runs_or_short; [done|]); [by apply runs_write|by apply runs_sendto]. Qed.

(** The sender of a datagram, when asked for. *)
Lemma runs_from text (Q : outcome unit → list flow → Prop) : Q (Ret tt) [] →
  runs (if isset (o verbose) then
          printf text ;; printf ": " ;; call (sys_fflush STDOUT_FILENO)
        else mret tt) Q.
Proof.
  intros HQ. destruct (isset (o verbose)); [|by apply runs_ret]. unfold printf. runs_steps; by match goal with |- Q (Ret ?u) _ => destruct u end.
Qed.
Lemma runs_udp_receive sa : runs (udp_receive o steps sockfd sa) (carries none (λ r, if_eof r.1)).
Proof.
  unfold udp_receive. destruct (isset (o server)).
  { runs_step. runs_step; cbn [flow1]; [|by apply runs_err_sys; [|apply carries_exit]].
    destruct a as [[bs cliaddr] msg_flags]. rewrite Z.eqb_refl. runs_step.
    assert (Hrest : runs ((if has msg_flags MSG_TRUNC then printf ("(datagram truncated)" +:+ nl) else mret tt) ;; show o steps bs ;; mret (false, sa))
      (λ out new, carries none (λ r, if_eof r.1) out (Got bs :: new))).
    { runs_step. assert (Hshow : runs (show o steps bs ;; mret (false, sa)) (λ out new, carries none (λ r, if_eof r.1) out (Got bs :: new))) by by apply runs_show_got.
      destruct (has msg_flags MSG_TRUNC); [by apply runs_printf|by apply runs_ret]. }
    by apply runs_from. }
  destruct (isset (o connectudp)).
  { eapply runs_carries; [apply runs_recv_part|]. intros b l1 Hb. apply runs_ret, carries_nil. by rewrite app_nil_r. }
  runs_step. runs_step; cbn [flow1]; [|by apply runs_err_sys; [|apply carries_exit]].
  destruct a as [bs servaddr]. rewrite Z.eqb_refl. runs_step.
  assert (Hshow : runs (show o steps bs ;; mret (false, servaddr)) (λ out new, carries none (λ r, if_eof r.1) out (Got bs :: new))) by by apply runs_show_got.
  by apply runs_from.
Qed.

(** A loop between its pauses. *)
Lemma runs_paused (m : M unit) fuel : pause_ok (o pauseinit) → pause_ok (o pauseclose) →
  runs m (carries (λ l, (fuel ≤ turns l)%nat) (λ _, eof)) →
  runs (pause steps (o pauseinit) ;; m ;; close_sock o steps sockfd) (carries (λ l, (fuel ≤ turns l)%nat) (λ _, eof)).
Proof.
  intros H1 H2 Hm. eapply runs_carries with (R1 := any).
  { eapply runs_weaken; [by apply runs_pause_carries|]. intros out new Hc. by eapply carries_weaken. }
  intros [] l1 _. eapply runs_weaken with (Q := carries (λ l, (fuel ≤ turns l)%nat) (λ _, eof)).
  - eapply runs_carries; [exact Hm|]. intros [] l2 Hl2. eapply runs_weaken; [by apply runs_close_sock|].
    intros out new Hc. eapply carries_weaken; [exact Hc|done|]. intros [] l _. destruct Hl2; [left|right]; set_solver.
  - intros out new Hc. eapply carries_weaken; [exact Hc| |].
    + intros l Hl. cbn beta in Hl. rewrite turns_app. lia.
    + intros [] l [|]; [left|right]; set_solver.
Qed.
End loops.

(** ** What the loops print

    Next to what they show, which is written by [write], the loops print notes by [printf]. *)
Inductive note :=
| Datagram (sa : sockaddr) (truncated : bool)   (** received by [recvfrom] or [recvmsg] *)
| Note (text : string).                         (** printed on the standard output *)
Definition note1 (sockfd : Z) (e : event) : list note :=
  match e with
  | Event c a =>
      match c in sys A return A → list note with
      | sys_fputs stream text => λ _, if stream =? STDOUT_FILENO then [Note text] else []
      | sys_recvfrom fd _ => λ r, match r with Ok (_, sa) => if fd =? sockfd then [Datagram sa false] else [] | _ => [] end
      | sys_recvmsg_flags fd _ => λ r, match r with
          | Ok (_, sa, flags) => if fd =? sockfd then [Datagram sa (has flags MSG_TRUNC)] else [] | _ => [] end
      | _ => λ _, []
      end a
  end.
Definition printed (l : list note) : list string := l ≫= λ n, match n with Note text => [text] | _ => [] end.
(** The notes about the datagrams. *)
Definition notes_of (o : opts) (n : note) : list string :=
  match n with
  | Datagram sa truncated =>
      (if isset (o verbose) then ["from " +:+ sa_ntoa sa; ": "] else []) ++
      (if (truncated : bool) then ["(datagram truncated)" +:+ nl] else [])
  | Note _ => []
  end.
Definition notes (o : opts) (l : list note) : list string := l ≫= notes_of o.
(** Exactly these, up to where a run stopped. *)
Definition annotates {A} (o : opts) (out : outcome A) (new : list note) : Prop :=
  printed new `prefix_of` notes o new ∧ (∀ a, out = Ret a → printed new = notes o new).

Section notes.
Context {K : Kernel} (o : opts) (sockfd : Z) (steps uio_maxiov : nat) (rbuf wbuf : Z).
Abbreviation runs m Q := (Frame.runs (note1 sockfd) m Q).
Abbreviation silent m := (framed (unseen (note1 sockfd)) m).

Lemma annotates_nil {A} (out : outcome A) : annotates o out [].
Proof. done. Qed.
Lemma annotates_bind {A B} (m : M A) (k : A → M B) :
  runs m (annotates o) → (∀ a, runs (k a) (annotates o)) → runs (m ≫= k) (annotates o).
Proof.
  intros Hm Hk. apply runs_bind. eapply runs_weaken; [exact Hm|]. intros out l1 [Hp Hr].
  destruct out as [a| | | |]; cbn [passes]; try (by split).
  eapply runs_weaken; [apply Hk|]. intros out l2 [Hp2 Hr2]. specialize (Hr a eq_refl). unfold annotates, printed, notes in *.
  rewrite !bind_app, Hr. split; [by apply prefix_app|]. intros b ->. by rewrite (Hr2 b).
Qed.
Lemma silent_runs {A} (m : M A) : silent m → runs m (λ _ new, new = []).
Proof. intros Hm. apply runs_unseen; [exact Hm|]. intros p. unfold post. by destruct (m p). Qed.
Lemma silent_annotates {A} (m : M A) : silent m → runs m (annotates o).
Proof. intros Hm. eapply runs_weaken; [by apply silent_runs|]. by intros out new ->. Qed.

Ltac silent_tac :=
  repeat first
    [ apply framed_in_buf | apply framed_store | apply framed_call; intros; reflexivity | solve [auto with framed] | progress framed_tac ].
Lemma silent_err_doit b msg : silent (err_doit b msg).
Proof. unfold err_doit. silent_tac. Qed.
#[local] Hint Resolve silent_err_doit : framed.
Lemma silent_err_sys {A} msg : silent (err_sys (A := A) msg).
Proof. unfold err_sys. silent_tac. Qed.
Lemma silent_err_quit {A} msg : silent (err_quit (A := A) msg).
Proof. unfold err_quit. silent_tac. Qed.
#[local] Hint Resolve silent_err_sys silent_err_quit : framed.
Lemma silent_crlf_add d src : silent (crlf_add d src).
Proof.
  assert (H : ∀ dst lenout, silent (crlf_add_loop d dst lenout src)).
  { induction src as [|c src IH]; intros dst lenout; cbn [crlf_add_loop]; silent_tac; try apply IH. }
  unfold crlf_add. silent_tac; try apply H.
Qed.
Lemma silent_crlf_strip d src : silent (crlf_strip d src).
Proof.
  unfold crlf_strip. generalize (@nil Z), 0. induction src as [|c src IH]; intros dst lenout; cbn [crlf_strip_loop]; silent_tac; try apply IH.
Qed.
#[local] Hint Resolve silent_crlf_add silent_crlf_strip : framed.
Lemma silent_say msg : silent (say o msg).
Proof. unfold say, fprintf. silent_tac. Qed.
#[local] Hint Resolve silent_say : framed.
Lemma silent_writen fuel fd bs : silent (writen fuel fd bs).
Proof. unfold writen. revert bs. induction fuel as [|f IH]; intros bs; cbn [writen_loop]; silent_tac; try apply IH. Qed.
#[local] Hint Resolve silent_writen : framed.
Lemma silent_show bs : silent (show o steps bs).
Proof. unfold show. silent_tac. Qed.
Lemma silent_pause ms : silent (pause steps ms).
Proof.
  assert (H : ∀ us, silent (sleep_us steps us)).
  { intros us. induction steps as [|f IH]; cbn [sleep_us]; silent_tac. }
  unfold pause. silent_tac.
Qed.
#[local] Hint Resolve silent_show silent_pause : framed.
Lemma silent_recv_part : silent (recv_part o steps sockfd).
Proof. unfold recv_part, recv_once. silent_tac. Qed.
Lemma silent_close_sock : silent (close_sock o steps sockfd).
Proof. unfold close_sock. silent_tac. Qed.
Lemma silent_dowrite vptr bs : silent (dowrite o uio_maxiov sockfd vptr bs).
Proof.
  assert (H1 : ∀ n i chunksize vptr rest, silent (dowrite_iov o n i chunksize vptr rest)).
  { induction n as [|n IH]; intros; cbn [dowrite_iov]; silent_tac; try apply IH. }
  assert (H2 : ∀ iov ntotal, silent (dowrite_each sockfd iov ntotal)).
  { induction iov as [|v iov IH]; intros; cbn [dowrite_each]; silent_tac; try apply IH. }
  unfold dowrite. silent_tac.
Qed.
#[local] Hint Resolve silent_recv_part silent_close_sock silent_dowrite : framed.
Lemma silent_or_short m bs what : silent m → silent (or_short m bs what).
Proof. intros Hm. unfold or_short. apply framed_bind; [exact Hm|]. silent_tac. Qed.
Lemma silent_stdin_part send : (∀ addr bs, silent (send addr bs)) → silent (stdin_part o rbuf wbuf sockfd send).
Proof. intros Hs. unfold stdin_part, shutdown_wr. silent_tac; try apply Hs. Qed.

(** What is done with a datagram. *)
Lemma printf_note text (Q : outcome unit → list note → Prop) : Q (Ret tt) [Note text] → runs (printf text) Q.
Proof. intros HQ. unfold printf. by runs_steps. Qed.
Lemma from_notes text (Q : outcome unit → list note → Prop) :
  Q (Ret tt) (if isset (o verbose) then [Note text; Note ": "] else []) →
  runs (if isset (o verbose) then printf text ;; printf ": " ;; call (sys_fflush STDOUT_FILENO) else mret tt) Q.
Proof.
  intros HQ. destruct (isset (o verbose)); [|by apply runs_ret].
  unfold printf. runs_steps; by match goal with |- Q (Ret ?u) _ => destruct u end.
Qed.
Lemma annotates_datagram {A} (out : outcome A) sa truncated :
  annotates o out (Datagram sa truncated :: (Note <$> notes_of o (Datagram sa truncated))).
Proof.
  assert (E : ∀ l, printed (Note <$> l) = l ∧ notes o (Note <$> l) = []).
  { induction l as [|x l [IH1 IH2]]; [done|]. split; [|exact IH2]. cbn. f_equal. exact IH1. }
  destruct (E (notes_of o (Datagram sa truncated))) as [E1 E2]. unfold annotates.
  change (printed (Datagram sa truncated :: ?l)) with (printed l).
  change (notes o (Datagram sa truncated :: ?l)) with (notes_of o (Datagram sa truncated) ++ notes o l).
  rewrite E1, E2, app_nil_r. done.
Qed.
Lemma udp_receive_notes sa : runs (udp_receive o steps sockfd sa) (annotates o).
Proof.
  assert (Hshow : ∀ {A} bs (a : A) l, annotates o (Ret a) l →
    runs (show o steps bs ;; mret a) (λ out new, annotates o out (l ++ new))).
  { intros A bs a l [Hp Hl]. apply runs_unseen; [silent_tac|]. intros p. rewrite app_nil_r. unfold post.
    destruct ((show o steps bs ;; mret a) p) as [out p']. split; [done|]. intros b _. by apply (Hl a). }
  unfold udp_receive. destruct (isset (o server)).
  { runs_step. runs_step; cbn [note1]; [|apply silent_annotates; silent_tac].
    destruct a as [[bs cliaddr] msg_flags]. rewrite Z.eqb_refl. runs_step. apply from_notes. cbn [passes]. runs_step.
    assert (Hend : ∀ l, l = Datagram cliaddr (has msg_flags MSG_TRUNC) :: (Note <$> notes_of o (Datagram cliaddr (has msg_flags MSG_TRUNC))) →
      runs (show o steps bs ;; mret (false, sa)) (λ out new, annotates o out (l ++ new))).
    { intros l ->. apply Hshow, annotates_datagram. }
    cbn [notes_of] in Hend.
    destruct (has msg_flags MSG_TRUNC).
    - apply printf_note. cbn [passes]. eapply runs_weaken; [by apply Hend; rewrite fmap_app|].
      intros out new Hn. by destruct (isset (o verbose)).
    - apply runs_ret. cbn [passes]. eapply runs_weaken; [by apply Hend; rewrite app_nil_r|].
      intros out new Hn. by destruct (isset (o verbose)). }
  destruct (isset (o connectudp)); [apply silent_annotates; silent_tac|].
  runs_step. runs_step; cbn [note1]; [|apply silent_annotates; silent_tac].
  destruct a as [bs servaddr]. rewrite Z.eqb_refl. runs_step. apply from_notes. cbn [passes].
  eapply runs_weaken; [apply (Hshow _ bs (false, servaddr)), (annotates_datagram _ servaddr false)|].
  intros out new Hn. cbn [notes_of] in Hn. by destruct (isset (o verbose)).
Qed.

Lemma loop_notes {St} fuel (send : St → Z → list Z → M unit) (receive : St → M (bool * St)) :
  (∀ s addr bs, silent (send s addr bs)) → (∀ s, runs (receive s) (annotates o)) →
  ∀ stdineof rset s, runs (loop o rbuf wbuf fuel sockfd send receive stdineof rset s) (annotates o).
Proof.
  intros Hsend Hrec. induction fuel as [|f IH]; intros stdineof rset s; cbn [loop]; [by apply runs_stop|].
  apply annotates_bind.
  - unfold loop_step. cbn zeta. apply annotates_bind; [apply silent_annotates; silent_tac|].
    intros [[rset' w]|]; [|apply silent_annotates; silent_tac]. apply annotates_bind.
    + apply silent_annotates. case_match; [by apply silent_stdin_part|silent_tac].
    + intros []; try solve [apply silent_annotates; silent_tac]. apply annotates_bind.
      * case_match; [apply Hrec|apply silent_annotates; silent_tac].
      * intros []. apply silent_annotates. silent_tac.
  - intros [[[? ?] ?]|]; [apply IH|apply silent_annotates; silent_tac].
Qed.
Lemma loop_silent {St} fuel (send : St → Z → list Z → M unit) (receive : St → M (bool * St)) :
  (∀ s addr bs, silent (send s addr bs)) → (∀ s, silent (receive s)) →
  ∀ stdineof rset s, silent (loop o rbuf wbuf fuel sockfd send receive stdineof rset s).
Proof.
  intros Hsend Hrec. induction fuel as [|f IH]; intros stdineof rset s; cbn [loop]; [silent_tac|].
  apply framed_bind.
  - unfold loop_step. silent_tac; try apply Hrec; by apply silent_stdin_part.
  - intros [[[? ?] ?]|]; [apply IH|silent_tac].
Qed.
Lemma loop_tcp_notes fuel : silent (loop_tcp o uio_maxiov steps rbuf wbuf fuel sockfd).
Proof.
  unfold loop_tcp. apply framed_bind; [silent_tac|]. intros _. apply framed_bind; [|intros _; silent_tac].
  apply loop_silent; [|unfold tcp_receive; silent_tac]. intros s addr bs. apply silent_or_short, silent_dowrite.
Qed.
Lemma loop_udp_notes fuel garbage : runs (loop_udp o steps rbuf wbuf fuel garbage sockfd) (annotates o).
Proof.
  unfold loop_udp. apply annotates_bind; [apply silent_annotates; silent_tac|]. intros _. apply annotates_bind.
  - apply loop_notes; [|apply udp_receive_notes]. intros sa addr bs. unfold udp_send.
    case_match; apply silent_or_short; silent_tac.
  - intros _. apply silent_annotates. silent_tac.
Qed.
End notes.

(** ** sourcetcp.c, sourceudp.c: what is sent *)

Lemma fmt_digits_length fuel base : ∀ n acc,
  (String.length (fmt_digits fuel base n acc) ≤ fuel + String.length acc)%nat.
Proof.
  induction fuel as [|f IH]; intros n acc; cbn [fmt_digits]; [lia|]. cbn zeta.
  case_match; simpl; [lia|]. etransitivity; [apply IH|]. simpl. lia.
Qed.
Lemma fmt_d_length n : strlen (fmt_d n) ≤ 65.
Proof.
  assert (H : ∀ m, strlen (fmt_u m) ≤ 64) by (intros m; pose proof (fmt_digits_length 64 10 m "") as H; change (String.length "") with 0%nat in H; unfold strlen, fmt_u; lia).
  unfold fmt_d. case_match; [|specialize (H n); lia]. specialize (H (- n)). unfold strlen in *. cbn [String.length]. lia.
Qed.
Lemma fmt_res_length r : strlen (fmt_res r) ≤ 65.
Proof. destruct r; [apply fmt_d_length|by vm_compute]. Qed.

Section source.
Context {K : Kernel} {SOk : StrerrorOk K} (o : opts) (sockfd : Z) (steps : nat).
Context (Hsock : sockfd ≠ STDOUT_FILENO) (Hwerr : o ignorewerr = 0) (Hp : pause_ok (o pauserw)).
Abbreviation runs m Q := (Frame.runs (flow1 sockfd) m Q).

(** The buffers of [bufs] are sent one after the other. *)
Definition sources (bufs : list (list Z)) (out : outcome unit) (new : list flow) : Prop :=
  ∃ s, moved new [] s [] [] ∧ s `prefix_of` mjoin bufs ∧
  match out with
  | Ret _ => s = mjoin bufs
  | Exit st => st = 1
  | NoFuel => (steps ≤ retries new)%nat
  | _ => False
  end.
Lemma sources_nil : sources [] (Ret tt) [].
Proof. exists []. by split; [apply moved_nil|]. Qed.
Lemma sources_stop bufs : sources bufs (Exit 1) [].
Proof. exists []. split; [apply moved_nil|]. split; [apply prefix_nil|done]. Qed.

Lemma runs_sources (m : M unit) (k : M unit) b1 b2 : runs m (sources b1) → runs k (sources b2) →
  runs (m ;; k) (sources (b1 ++ b2)).
Proof.
  intros Hm Hk. runs_step. eapply runs_weaken; [exact Hm|]. intros out new (s & Hmv & Hs & Ho).
  assert (Hj : mjoin (b1 ++ b2) = mjoin b1 ++ mjoin b2) by apply join_app.
  destruct out as [[]| | | |]; try (exfalso; exact Ho); cbn [passes];
    try (exists s; rewrite Hj; split; [done|]; split; [by apply prefix_app_r|done]).
  eapply runs_weaken; [exact Hk|]. intros out new2 (s2 & Hmv2 & Hs2 & Ho2). subst s.
  exists (mjoin b1 ++ s2). split; [by apply (moved_app _ _ [] _ [] [] [] s2 [] [])|].
  rewrite Hj. split; [by apply prefix_app|]. destruct out; try done; [by subst|]. rewrite retries_app. lia.
Qed.
Lemma runs_idle (m : M unit) : runs m (idles steps) → runs m (sources []).
Proof.
  intros Hm. eapply runs_weaken; [exact Hm|]. intros out new [Hmv Ho]. exists []. split; [done|]. split; [apply prefix_nil|].
  by destruct out.
Qed.
Lemma runs_silent (m : M unit) : (∀ Q : outcome unit → list flow → Prop, Q (Ret tt) [] → Q (Exit 1) [] → runs m Q) → runs m (sources []).
Proof. intros H. apply H; [apply sources_nil|apply sources_stop]. Qed.

Lemma error_short (what : string) (n : option Z) : strlen (what +:+ " returned " +:+ fmt_res n +:+ ", expected " +:+ fmt_d (o writelen)) ≤ strlen what + 200.
Proof.
  rewrite !strlen_app. pose proof (fmt_res_length n). pose proof (fmt_d_length (o writelen)).
  change (strlen " returned ") with 10. change (strlen ", expected ") with 11. lia.
Qed.

(** A write of the buffer, by whichever call, and what follows. *)
Lemma runs_turn (call_ : M (option Z)) what buf bufs (a rest : option Z → M unit) :
  strlen what < 100 → Z.of_nat (List.length buf) = o writelen → runs call_ (sends buf) →
  (∀ n, runs (a n) (λ out new, out = Ret tt ∧ new = [])) → (∀ n, runs (rest n) (sources bufs)) →
  runs (n ← call_; (if is_len n (o writelen) then a n else send_error o sockfd what n) ;; rest n) (sources (buf :: bufs)).
Proof.
  intros Hwhat Hlen Hcall Ha Hrest. runs_step. eapply runs_weaken; [exact Hcall|]. intros out new (s & Hm & Hpre & Ho).
  destruct out as [n| | | |]; try (exfalso; exact Ho); cbn [passes].
  runs_step. destruct (is_len n (o writelen)) eqn:Hn.
  - destruct n as [n|]; [|done]. simpl in Hn. zbool. specialize (Ho ltac:(lia)). subst s.
    eapply runs_weaken; [apply Ha|]. intros out _new [-> ->]. cbn [passes]. eapply runs_weaken; [apply Hrest|].
    intros out new2 (s2 & Hm2 & Hs2 & Ho2). exists (buf ++ s2). split; [by apply (moved_app _ _ [] _ [] [] [] s2 [] [])|].
    split; [by apply prefix_app|]. destruct out; try done; [by subst|]. cbn [app]. rewrite retries_app. lia.
  - unfold send_error. rewrite Hwerr. cbn [isset negb Z.eqb]. apply runs_err_sys; [pose proof (error_short what n); lia|].
    cbn [passes]. exists s. rewrite app_nil_r. split; [done|]. split; [by apply prefix_app_r|done].
Qed.
Lemma runs_wrote n : runs (wrote o n) (λ out new, out = Ret tt ∧ new = []).
Proof. by apply runs_say. Qed.

Lemma runs_source_tcp_loop buf n : ∀ i, Z.of_nat (List.length buf) = o writelen →
  runs (source_tcp_loop o steps n sockfd i buf) (sources (replicate n buf)).
Proof.
  induction n as [|n IH]; intros i Hl; cbn [source_tcp_loop]; [apply runs_ret, sources_nil|].
  apply (runs_sources _ _ [] (replicate (S n) buf)).
  - case_match; [|apply runs_ret, sources_nil]. apply runs_silent. intros Q H1 H2. unfold urgent. runs_step.
    assert (Hu : ∀ r, runs (if is_len r 1 then say o ("wrote " +:+ fmt_res r +:+ " byte of urgent data")
        else err_sys ("send of MSG_OOB returned " +:+ fmt_res r +:+ ", expected " +:+ fmt_d (o writelen))) Q).
    { intros r. case_match; [by apply runs_say|]. apply runs_err_sys; [|done].
      rewrite !strlen_app. pose proof (fmt_res_length r). pose proof (fmt_d_length (o writelen)).
      change (strlen "send of MSG_OOB returned ") with 25. change (strlen ", expected ") with 11. lia. }
    runs_step; [exact (Hu (Some a))|exact (Hu None)].
  - apply runs_turn; [done|done|by apply runs_write|intros; apply runs_wrote|]. intros _.
    apply (runs_sources _ _ [] (replicate n buf)); [by apply runs_idle, runs_pause|by apply IH].
Qed.
Lemma runs_source_close : pause_ok (o pauseclose) → runs (close_sock o steps sockfd) (sources []).
Proof.
  intros Hc. unfold close_sock. apply (runs_sources _ _ [] []).
  - case_match; [|apply runs_ret, sources_nil]. apply (runs_sources _ _ [] []).
    + apply runs_silent. intros Q H1 _. by apply runs_say.
    + by apply runs_idle, runs_pause.
  - apply runs_silent. intros Q H1 H2. runs_step. assert (Hc1 : ∀ r : option unit, runs (match r with Some _ => mret tt | None => err_sys "close error" end) Q).
    { intros [|]; [by apply runs_ret|by apply runs_err_sys]. }
    runs_step; [exact (Hc1 (Some a))|exact (Hc1 None)].
Qed.
Lemma runs_source_udp_loop buf sa n : Z.of_nat (List.length buf) = o writelen →
  runs (source_udp_loop o steps n sockfd sa buf) (sources (replicate n buf)).
Proof.
  intros Hl. induction n as [|n IH]; cbn [source_udp_loop]; [apply runs_ret, sources_nil|].
  apply runs_turn; [by case_match|done| |intros; by apply runs_ret|].
  - case_match; [by apply runs_write|by apply runs_sendto].
  - intros m. apply (runs_sources _ _ [] (replicate n buf)).
    + apply runs_silent. intros Q H1 _. by apply runs_say.
    + apply (runs_sources _ _ [] (replicate n buf)); [by apply runs_idle, runs_pause|exact IH].
Qed.
End source.

(** ** Properties *)

Section properties.
Context {K : Kernel} {SOk : StrerrorOk K}.

(** C20: the two loops of sock, for any number of turns and whatever their
    outcome, never send to the socket anything but what was typed, in order, with a CR put before each
    newline under -c, nor write on the standard output anything but what was received, without its CRs under
    -c; when they return one of the streams has ended and nothing is missing; they stop only
    by an error, or when the fuel for the turns, or for the retries of a write or a sleep, is used up.
    What they print beside that is known too: the loop for TCP prints nothing, the one for UDP exactly the notes
    about the datagrams that it does not receive from a connected socket: the sender under -v, and of a server whether
    the datagram was truncated.  This is where the socket is not the standard output, the length of the write buffer is
    not negative, and the pauses asked for, in milliseconds, are an [int] when they are multiplied by 1000
    (beyond that the product is undefined); the texts of errors are short. *)
Theorem sock_loops_copy (o : opts) (sockfd : Z) (uio_maxiov steps : nat) (rbuf wbuf : Z) (fuel : nat) (garbage : sockaddr) :
  sockfd ≠ STDOUT_FILENO → 0 ≤ o writelen → (0 < uio_maxiov)%nat → pause_ok (o pauseinit) → pause_ok (o pauseclose) →
  Frame.runs (flow1 sockfd) (loop_tcp o uio_maxiov steps rbuf wbuf fuel sockfd)
    (carries o steps (λ new, (fuel ≤ turns new)%nat) (λ _, eof)) ∧
  Frame.runs (flow1 sockfd) (loop_udp o steps rbuf wbuf fuel garbage sockfd)
    (carries o steps (λ new, (fuel ≤ turns new)%nat) (λ _, eof)) ∧
  Frame.runs (note1 sockfd) (loop_tcp o uio_maxiov steps rbuf wbuf fuel sockfd) (λ _ new, new = []) ∧
  Frame.runs (note1 sockfd) (loop_udp o steps rbuf wbuf fuel garbage sockfd) (annotates o).
Proof.
  intros Hs Hw Hi Hp1 Hp2.
  split; [|split; [|split; [apply silent_runs, loop_tcp_notes|apply loop_udp_notes]]].
  all: apply runs_paused; try done; apply runs_loop; try done; intros s.
  - by apply send_ok_tcp.
  - by apply runs_tcp_receive.
  - by apply send_ok_udp.
  - by apply runs_udp_receive.
Qed.

(** What [crlf_add] writes and [crlf_strip] reads back is the text, when it has no
    CR; neither stores outside its array, and each ends the program exactly when the
    array is not longer than what goes in it. *)
Theorem crlf_roundtrip (d d' : Z) (src : list Z) (p : proc) :
  CR ∉ src → 0 ≤ d' →
  post (crlf_add d src) p (λ out p',
    (∃ wire n, out = Ret (wire, n) ∧ p' = p ∧ n = Z.of_nat (List.length wire) ∧ add_fits d src ∧
       post (crlf_strip d' wire) p (λ out p',
         (out = Ret (src, Z.of_nat (List.length src)) ∧ p' = p ∧ (src = [] ∨ Z.of_nat (List.length src) < d')) ∨
         (out = Exit 1 ∧ src ≠ [] ∧ d' ≤ Z.of_nat (List.length src)))) ∨
    (out = Exit 1 ∧ ¬ add_fits d src)).
Proof.
  intros Hcr Hd. eapply post_weaken; [apply crlf_add_post|].
  intros out p' [(-> & -> & Hf)|[-> Hf]]; [left|by right].
  eexists _, _. split; [done|]. split; [done|]. split; [done|]. split; [done|].
  eapply post_weaken; [by apply (crlf_strip_post d')|]. unfold strip_fits. rewrite strip_add by done.
  intros out p' [(-> & -> & Hs)|[-> Hs]]; [by left|right]. split; [done|].
  split; [|apply Z.le_ngt]; intros ?; apply Hs; [by left|by right].
Qed.

(** A source sends [nbuf] buffers, each the 95 printable characters over and
    over from the space up to [writelen] bytes, and nothing else but the urgent byte: it
    returns when all were accepted whole, and ends the program at the first
    write that fails or falls short. *)
Theorem source_sends (o : opts) (sockfd : Z) (steps : nat) (servaddr : sockaddr) :
  sockfd ≠ STDOUT_FILENO → o ignorewerr = 0 → 0 ≤ o writelen →
  pause_ok (o pauseinit) → pause_ok (o pauserw) → pause_ok (o pauseclose) →
  let bufs := replicate (Z.to_nat (o nbuf)) (cycle 0 (Z.to_nat (o writelen))) in
  Frame.runs (flow1 sockfd) (source_tcp o steps sockfd) (sources steps bufs) ∧
  Frame.runs (flow1 sockfd) (source_udp o steps servaddr sockfd) (sources steps bufs).
Proof.
  intros Hs Hw Hl H1 H2 H3 bufs.
  assert (Hcycle : Z.of_nat (List.length (cycle 0 (Z.to_nat (o writelen)))) = o writelen).
  { unfold cycle, zrange. rewrite length_fmap, length_zseq. lia. }
  assert (Hrest : ∀ m, Frame.runs (flow1 sockfd) m (sources steps bufs) →
    Frame.runs (flow1 sockfd) (pause steps (o pauseinit) ;; m ;; close_sock o steps sockfd) (sources steps bufs)).
  { intros m Hm. apply (runs_sources _ _ _ _ [] bufs); [by apply runs_idle, runs_pause|].
    rewrite <- (app_nil_r bufs). apply runs_sources; [exact Hm|]. by apply runs_source_close. }
  split; intros p; unfold source_tcp, source_udp; unfold post; rewrite (run_bind _ _ _ _ _ (pattern_run _ p)); apply Hrest.
  - by apply runs_source_tcp_loop.
  - by apply runs_source_udp_loop.
Qed.
End properties.

(** ** Concrete runs *)

(** A user who types a line and ends the input; a server that answers a line
    and closes. *)
Definition line_kernel (line answer_ : list Z) : Kernel := λ A t c,
  (match c in sys A return A → A with
   | sys_read _ _ => λ _, Ok (if decide (received STDIN_FILENO t = []) then line else [])
   | sys_recv fd _ _ => λ _, Ok (if decide (got (seen (flow1 fd) t) = []) then answer_ else [])
   | sys_select rset _ _ => λ _,
       Ok (if bool_decide (STDIN_FILENO ∈ rset) then [STDIN_FILENO] else rset, [])
   | _ => λ a, a
   end) (plain t c).
#[global] Instance line_kernel_strerror line ans : StrerrorOk (line_kernel line ans).
Proof. split. intros t e. vm_compute. done. Qed.

Definition crlf_opts : opts := set crlf 1 (set halfclose 1 opts0).
Lemma sock_loops_copy_witness :
  (∃ p', @loop_tcp (line_kernel [104; 10] [97; 13; 10]) crlf_opts 16 4 0 0 9 3 proc0 = (Ret tt, p') ∧
     sent (seen (flow1 3) (p_trace p')) = [104; 13; 10] ∧ shown (seen (flow1 3) (p_trace p')) = [97; 10]) ∧
  Frame.runs (flow1 3) (@loop_tcp (line_kernel [104; 10] [97; 13; 10]) crlf_opts 16 4 0 0 9 3)
    (carries crlf_opts 4 (λ new, (9 ≤ turns new)%nat) (λ _, eof)).
Proof.
  split; [eexists; split; [vm_compute; reflexivity|by vm_compute]|].
  apply (sock_loops_copy (K := line_kernel [104; 10] [97; 13; 10]) crlf_opts 3 16 4 0 0 9 (SaOther 0 []));
    try (vm_compute; congruence). lia.
Defined.

#[global] Instance plain_strerror : StrerrorOk plain_kernel.
Proof. split. intros t e. by vm_compute. Qed.

Lemma crlf_roundtrip_witness :
  CR ∉ [104; 105; 10] ∧ ∃ wire n, @crlf_add plain_kernel 16 [104; 105; 10] proc0 = (Ret (wire, n), proc0) ∧
    n = Z.of_nat (List.length wire) ∧
    @post _ (@crlf_strip plain_kernel 16 wire) proc0 (λ out _, out = Ret ([104; 105; 10], 3) ∨ out = Exit 1).
Proof.
  assert (H : CR ∉ [104; 105; 10]) by (by apply (bool_decide_unpack _); vm_compute).
  split; [exact H|]. pose proof (@crlf_roundtrip plain_kernel _ 16 16 [104; 105; 10] proc0 H ltac:(lia)) as Ht.
  unfold post in Ht at 1. destruct (crlf_add 16 [104; 105; 10] proc0) as [out p'] eqn:E.
  destruct Ht as [(wire & n & -> & -> & Hn & _ & Ht)|[-> _]]; [|vm_compute in E; congruence].
  exists wire, n. split; [done|]. split; [done|]. eapply post_weaken; [exact Ht|].
  intros o p [(-> & _)|(-> & _)]; auto.
Defined.

(** ** Where the code does not do what it means *)

(** A piece that fills the array exactly is refused: with the default lengths, a
    whole buffer received without a CR ends the program. *)
Example crlf_strip_exact : (@crlf_strip plain_kernel 8 (replicate 8 65) proc0).1 = Exit 1.
Proof. by vm_compute. Qed.

(** With -o, the first datagram is sent to what the stack holds: the address
    that [cliopen] looked up is not used. *)
Example loop_udp_garbage (garbage : sockaddr) :
  let K := line_kernel [104; 10] [] in
  let out := loop_udp (set connectudp 0 opts0) 4 0 0 9 garbage 3 proc0 in
  out.1 = Ret tt ∧ Event (sys_sendto 3 [104; 10] garbage) (Ok 2) ∈ p_trace out.2.
Proof. vm_compute. split; [done|]. do 3 right. by left. Qed.

(** A report that is longer than [buf]. *)
Example report_overflow (msg : string) (p : proc) : MAXLINE ≤ strlen msg → (@err_doit plain_kernel false msg p).1 = UB.
Proof. intros H%Z.ltb_ge. unfold err_doit, in_buf, mbind, M_bind. simpl. by rewrite H. Qed.

(** With -vv, a datagram as long as the buffer has its NUL stored after it. *)
Example sink_udp_overflow :
  let K : Kernel := λ A t c, (match c in sys A return A → A with
     | sys_recv _ n _ => λ _, Ok (replicate (Z.to_nat n) 65) | _ => λ a, a end) (plain t c) in
  (sink_udp (set readlen 64 (set verbose 2 opts0)) 4 9 (replicate 64 0) 3 proc0).1 = UB.
Proof. by vm_compute. Qed.

Definition source_opts : opts := set nbuf 2 (set writelen 3 opts0).
Lemma source_sends_witness :
  sent (seen (flow1 3) (p_trace (@source_tcp plain_kernel source_opts 4 3 proc0).2)) = [32; 33; 34; 32; 33; 34] ∧
  (Frame.runs (flow1 3) (@source_tcp plain_kernel source_opts 4 3)
     (sources 4 (replicate (Z.to_nat (source_opts nbuf)) (cycle 0 (Z.to_nat (source_opts writelen)))))).
Proof.
  split; [by vm_compute|].
  refine (proj1 (@source_sends plain_kernel _ source_opts 3 4 (SaOther 0 []) _ _ _ _ _ _)); by vm_compute.
Defined.
