(* ===== verification/SockOpen.v ===== *)
(** The sock program, its sockets: src/unpv13e/sock (multicast.c, sourceroute.c,
    sockopts.c, tellwait.c, cliopen.c, servopen.c, main.c).

    [inet_aton] is the C library's, a parameter; so is what [getopt] makes of the
    arguments.  [sizeof(u_long)], which sourceroute.c takes for the size of
    an address, is a parameter: 8 bytes in the configuration.  The handler of the
    signals that the processes exchange sets [sigflag]: whether it has run is the system's
    answer. *)
From S2P Require Import Prelude Machine Inet Posix Wrap Frame Packet SockIo.

Definition IPPROTO_IP : Z := 0.
Definition IPPROTO_TCP : Z := 6.
Definition SO_DEBUG : Z := 1.
Definition SO_REUSEADDR : Z := 2.
Definition SO_DONTROUTE : Z := 5.
Definition SO_BROADCAST : Z := 6.
Definition SO_KEEPALIVE : Z := 9.
Definition SO_LINGER : Z := 13.
Definition SO_REUSEPORT : Z := 15.
Definition SO_RCVTIMEO : Z := 20.
Definition SO_SNDTIMEO : Z := 21.
Definition IP_TOS : Z := 1.
Definition IP_TTL : Z := 2.
Definition IP_OPTIONS : Z := 4.
Definition IP_MULTICAST_TTL : Z := 33.
Definition IP_ADD_MEMBERSHIP : Z := 35.
Definition TCP_NODELAY : Z := 1.
Definition TCP_MAXSEG : Z := 2.
Definition IPOPT_LSRR : Z := 131.
Definition IPOPT_SSRR : Z := 137.
Definition F_SETOWN : Z := 8.
Definition FIOASYNC : Z := 21586.
Definition SIGIO : Z := 29.
Definition SIGUSR1 : Z := 10.
Definition SIGUSR2 : Z := 12.
Definition SIG_BLOCK : Z := 0.
Definition SIG_SETMASK : Z := 2.
Definition EISCONN : Z := 106.
Definition INADDR_ANY : list Z := [0; 0; 0; 0].
Definition OPTSIZE : nat := 44.

(** The functions installed by [signal]. *)
Definition sigio_func_ : Z := 1.
Definition sig_usr_ : Z := 2.

(** The static variables of sourceroute.c and [sroute_cnt]; [optr] is an offset in
    [sroute_opt]. *)
Record sroute := Sroute {
  sroute_opt : list Z;
  optr : nat;
  sroute_cnt : Z
}.
Definition sroute0 : sroute := Sroute (replicate OPTSIZE 0) 0 0.

Section sockopen.
Context {K : Kernel} (inet_aton : string → option (list Z)) (sizeof_long : Z).

(** A call whose failure ends the program. *)
Definition or_die {A} (c : sys (res A)) (msg : string) : M A :=
  r ← syscall c;
  match r with Some a => mret a | None => err_sys msg end.
Definition when (b : bool) (m : M unit) : M unit := if b then m else mret tt.

(** ** multicast.c *)

(** [IN_MULTICAST(a)], for an integer in host byte order. *)
Definition IN_MULTICAST (a : Z) : bool := Z.land a 4026531840 =? 3758096384.
Definition join_mcast (o : opts) (fd : Z) (sin : sockaddr) : M unit :=
  match sin with
  | SaIn _ addr =>
      inaddr ← ld (u32_at addr 0);
      if negb (IN_MULTICAST inaddr) then mret tt
      else
        or_die (sys_setsockopt fd IPPROTO_IP IP_ADD_MEMBERSHIP (addr ++ INADDR_ANY)) "IP_ADD_MEMBERSHIP error" ;;
        say o "multicast group joined"
  | _ => stop UB
  end.

(** ** sourceroute.c *)

(** [sizeof(u_long)] bytes from the address, which has four. *)
Definition load_long (a : list Z) : M (list Z) :=
  if sizeof_long <=? Z.of_nat (List.length a) then mret (take (Z.to_nat sizeof_long) a) else stop UB.
Definition store_opt (buf : list Z) (i : nat) (bs : list Z) : M (list Z) :=
  if (i + List.length bs <=? List.length buf)%nat then mret (put buf i bs) else stop UB.
Definition gethostbyname (host : string) : M (option hostent) :=
  options ← get_res_options;
  hostcall (sys_gethostbyname options host).

Definition sroute_doopt (o : opts) (strict : bool) (argptr : string) (s : sroute) : M sroute :=
  if 9 <=? sroute_cnt s then err_quit ("too many source routes with: " +:+ argptr)
  else
    s ← (if sroute_cnt s =? 0 then
           buf ← store_opt (replicate OPTSIZE 0) 0 [if strict then IPOPT_SSRR else IPOPT_LSRR];
           buf ← store_opt buf 2 [4];
           mret (Sroute buf 3 0)
         else mret s);
    bs ← (match inet_aton argptr with
          | Some inaddr =>
              bs ← load_long inaddr;
              say o ("source route to " +:+ inet_ntoa inaddr) ;;
              mret bs
          | None =>
              hp ← gethostbyname argptr;
              match hp with
              | Some hp =>
                  a ← ld (head (h_addr_list hp));
                  bs ← load_long a;
                  say o ("source route to " +:+ inet_ntoa (take 4 a)) ;;
                  mret bs
              | None => err_quit ("unknown host: " +:+ argptr +:+ nl)
              end
          end);
    buf ← store_opt (sroute_opt s) (optr s) bs;
    mret (Sroute buf (optr s + Z.to_nat sizeof_long) (sroute_cnt s + 1)).

(** [while ((optr - sroute_opt) & 3) optr++] *)
Definition align4 (n : nat) : nat := Z.to_nat (4 * ((Z.of_nat n + 3) / 4)).
Definition sroute_set (o : opts) (sockfd : Z) (servaddr : sockaddr) (s : sroute) : M sroute :=
  match servaddr with
  | SaIn _ sin_addr =>
      let cnt := sroute_cnt s + 1 in
      buf ← store_opt (sroute_opt s) 1 [u8 (3 + cnt * 4)];
      bs ← load_long sin_addr;
      buf ← store_opt buf (optr s) bs;
      let optr := (optr s + Z.to_nat sizeof_long)%nat in
      size ← ld (u8_at buf 1);
      say o ("source route to " +:+ inet_ntoa sin_addr) ;;
      say o ("source route size " +:+ fmt_d size +:+ " bytes") ;;
      let optr := align4 optr in
      (if (optr <=? List.length buf)%nat then mret tt else stop UB) ;;
      or_die (sys_setsockopt sockfd IPPROTO_IP IP_OPTIONS (take optr buf)) "setsockopt error for IP_OPTIONS" ;;
      mret (Sroute buf optr 0)
  | _ => stop UB
  end.

(** ** sockopts.c *)

(** An option that is set to [v] and read back. *)
Definition set_get (sockfd level opt v : Z) (name : string) : M Z :=
  or_die (sys_setsockopt sockfd level opt (le32_bytes v)) (name +:+ " setsockopt error") ;;
  or_die (sys_getsockopt sockfd level opt 4) (name +:+ " getsockopt error").
Definition not_set {A} (name : string) (v : Z) : M A := err_quit (name +:+ " not set (" +:+ fmt_d v +:+ ")").
(** A flag is turned on. *)
Definition flag_opt (o : opts) (sockfd level opt : Z) (name : string) : M unit :=
  option ← set_get sockfd level opt 1 name;
  if option =? 0 then not_set name option else say o (name +:+ " set").
(** A value must be taken as it is. *)
Definition value_opt (o : opts) (sockfd level opt v : Z) (name : string) : M unit :=
  option ← set_get sockfd level opt v name;
  if negb (option =? v) then not_set name option else say o (name +:+ " set to " +:+ fmt_d v).

Definition maxseg_opt (o : opts) (sockfd : Z) : M unit :=
  option ← set_get sockfd IPPROTO_TCP TCP_MAXSEG (o maxseg) "TCP_MAXSEG";
  say o ("TCP_MAXSEG = " +:+ fmt_d option).
Definition join_opt (o : opts) (sockfd : Z) : M unit :=
  match inet_aton (joinip o) with
  | None => err_quit ("invalid multicast address: " +:+ joinip o)
  | Some multiaddr =>
      or_die (sys_setsockopt sockfd IPPROTO_IP IP_ADD_MEMBERSHIP (multiaddr ++ INADDR_ANY))
        "IP_ADD_MEMBERSHIP setsockopt error" ;;
      say o "IP_ADD_MEMBERSHIP set"
  end.
(** [ttl] is one byte. *)
Definition mcastttl_opt (o : opts) (sockfd : Z) : M unit :=
  let ttl := u8 (o mcastttl) in
  or_die (sys_setsockopt sockfd IPPROTO_IP IP_MULTICAST_TTL [ttl]) "IP_MULTICAST_TTL setsockopt error" ;;
  bs ← or_die (sys_getsockopt_bytes sockfd IPPROTO_IP IP_MULTICAST_TTL 1) "IP_MULTICAST_TTL getsockopt error";
  ttl ← ld (u8_at (put [ttl] 0 bs) 0);
  if negb (ttl =? o mcastttl) then not_set "IP_MULTICAST_TTL" ttl
  else say o ("IP_MULTICAST_TTL set to " +:+ fmt_d ttl).
Definition maxseg_print (o : opts) (sockfd : Z) : M unit :=
  option ← or_die (sys_getsockopt sockfd IPPROTO_TCP TCP_MAXSEG 4) "TCP_MAXSEG getsockopt error";
  fprintf ("TCP_MAXSEG = " +:+ fmt_d option +:+ nl).
(** [struct linger]: two integers. *)
Definition linger_bytes (l_onoff l_linger : Z) : list Z := le32_bytes l_onoff ++ le32_bytes l_linger.
Definition linger_opt (o : opts) (sockfd : Z) : M unit :=
  or_die (sys_setsockopt sockfd SOL_SOCKET SO_LINGER (linger_bytes 1 (o linger))) "SO_LINGER setsockopt error" ;;
  bs ← or_die (sys_getsockopt_bytes sockfd SOL_SOCKET SO_LINGER 8) "SO_LINGER getsockopt error";
  let ling := put (linger_bytes 0 (-1)) 0 bs in
  onoff ← ld (u32_at ling 0);
  time ← ld (u32_at ling 4);
  let onoff := i32 onoff in
  let time := i32 time in
  if (onoff =? 0) || negb (time =? o linger) then
    err_quit ("SO_LINGER not set (" +:+ fmt_d onoff +:+ ", " +:+ fmt_d time +:+ ")")
  else say o ("linger " +:+ (if isset onoff then "on" else "off") +:+ ", time = " +:+ fmt_d time).

(** [%06ld], of a number that is not negative. *)
Definition fmt_06 (n : Z) : string :=
  let s := fmt_d n in
  String.concat "" (replicate (6 - String.length s) "0") +:+ s.
(** [struct timeval], from milliseconds. *)
Definition timeval_bytes (ms : Z) : list Z :=
  le_bytes 8 (Z.quot ms 1000) ++ le_bytes 8 (Z.rem ms 1000 * 1000).
Definition timeo_opt (o : opts) (sockfd opt ms : Z) (name : string) : M unit :=
  or_die (sys_setsockopt sockfd SOL_SOCKET opt (timeval_bytes ms)) (name +:+ " setsockopt error") ;;
  bs ← or_die (sys_getsockopt_bytes sockfd SOL_SOCKET opt 16) (name +:+ " getsockopt error");
  let timer := put (timeval_bytes 0) 0 bs in
  sec ← ld (le_at timer 0 8);
  usec ← ld (le_at timer 8 8);
  say o (name +:+ ": " +:+ fmt_d (i64_of sec) +:+ "." +:+ fmt_06 (i64_of usec)).

Definition sigio_func : M unit := fprintf ("SIGIO" +:+ nl).
Definition sigio_opt (o : opts) (sockfd : Z) : M unit :=
  signal SIGIO sigio_func_ ;;
  pid ← call sys_getpid;
  or_die (sys_fcntl sockfd F_SETOWN pid) "fcntl F_SETOWN error" ;;
  or_die (sys_ioctl sockfd FIOASYNC (le32_bytes 1)) "ioctl FIOASYNC error" ;;
  say o "FIOASYNC set".

(** [SO_RCVTIMEO], [SO_SNDTIMEO], [IP_TOS], ... are defined, [IP_RECVDSTADDR] and
    [IP_ONESBCAST] are not. *)
Definition sockopts (o : opts) (sockfd : Z) (doall : bool) (servaddr : sockaddr) (s : sroute) : M sroute :=
  let tcp := negb (isset (o udp)) in
  when (isset (o debug)) (flag_opt o sockfd SOL_SOCKET SO_DEBUG "SO_DEBUG") ;;
  when (isset (o dontroute)) (flag_opt o sockfd SOL_SOCKET SO_DONTROUTE "SO_DONTROUTE") ;;
  when (negb (o iptos =? -1) && negb doall) (value_opt o sockfd IPPROTO_IP IP_TOS (o iptos) "IP_TOS") ;;
  when (negb (o ipttl =? -1) && negb doall) (value_opt o sockfd IPPROTO_IP IP_TTL (o ipttl) "IP_TTL") ;;
  when (isset (o maxseg) && tcp) (maxseg_opt o sockfd) ;;
  s ← (if 0 <? sroute_cnt s then sroute_set o sockfd servaddr s else mret s);
  when (isset (o broadcast)) (flag_opt o sockfd SOL_SOCKET SO_BROADCAST "SO_BROADCAST") ;;
  when (negb (streq (joinip o) "")) (join_opt o sockfd) ;;
  when (isset (o mcastttl)) (mcastttl_opt o sockfd) ;;
  when (isset (o keepalive) && doall && tcp) (flag_opt o sockfd SOL_SOCKET SO_KEEPALIVE "SO_KEEPALIVE") ;;
  when (isset (o nodelay) && doall && tcp) (flag_opt o sockfd IPPROTO_TCP TCP_NODELAY "TCP_NODELAY") ;;
  when (doall && isset (o verbose) && tcp) (maxseg_print o sockfd) ;;
  when ((0 <=? o linger) && doall && tcp) (linger_opt o sockfd) ;;
  when (doall && isset (o rcvtimeo)) (timeo_opt o sockfd SO_RCVTIMEO (o rcvtimeo) "SO_RCVTIMEO") ;;
  when (doall && isset (o sndtimeo)) (timeo_opt o sockfd SO_SNDTIMEO (o sndtimeo) "SO_SNDTIMEO") ;;
  when (isset (o recvdstaddr) && negb tcp) (fprintf ("warning: IP_RECVDSTADDR not supported by host" +:+ nl)) ;;
  when (isset (o sigio)) (sigio_opt o sockfd) ;;
  mret s.

(** ** tellwait.c *)

(** [oldmask] and [zeromask]; the results of the set functions are not checked. *)
Definition or_old {A} (r : option A) (a : A) : A := match r with Some b => b | None => a end.
Definition TELL_WAIT : M (gset Z * gset Z) :=
  r ← signal SIGUSR1 sig_usr_;
  when (negb (bool_decide (is_Some r))) (err_sys "signal(SIGINT) error") ;;
  r ← signal SIGUSR2 sig_usr_;
  when (negb (bool_decide (is_Some r))) (err_sys "signal(SIGQUIT) error") ;;
  zeromask ← syscall sys_sigemptyset;
  newmask ← syscall sys_sigemptyset;
  let newmask := or_old newmask ∅ in
  r ← syscall (sys_sigaddset newmask SIGUSR1);
  let newmask := or_old r newmask in
  r ← syscall (sys_sigaddset newmask SIGUSR2);
  let newmask := or_old r newmask in
  oldmask ← or_die (sys_sigprocmask SIG_BLOCK newmask) "SIG_BLOCK error";
  mret (oldmask, or_old zeromask ∅).
Definition TELL_PARENT (pid : Z) : M unit := syscall (sys_kill pid SIGUSR2) ;; mret tt.
Definition TELL_CHILD (pid : Z) : M unit := syscall (sys_kill pid SIGUSR1) ;; mret tt.
(** [while (sigflag == 0) sigsuspend(&zeromask)] *)
Fixpoint wait_flag (fuel : nat) (zeromask : gset Z) : M unit :=
  match fuel with
  | O => stop NoFuel
  | S f =>
      sigflag ← call (sys_flag SIGUSR1);
      if (sigflag : bool) then mret tt
      else syscall (sys_sigsuspend zeromask) ;; wait_flag f zeromask
  end.
Definition WAIT_PARENT (fuel : nat) (masks : gset Z * gset Z) : M unit :=
  wait_flag fuel masks.2 ;;
  or_die (sys_sigprocmask SIG_SETMASK masks.1) "SIG_SETMASK error" ;;
  mret tt.
Definition WAIT_CHILD (fuel : nat) (masks : gset Z * gset Z) : M unit :=
  wait_flag fuel masks.2 ;;
  or_die (sys_sigprocmask SIG_SETMASK masks.1) "SIG_SETMASK error" ;;
  mret tt.

(** ** cliopen.c *)

Definition reuse_opts (o : opts) (fd : Z) : M unit :=
  when (isset (o reuseaddr))
    (or_die (sys_setsockopt fd SOL_SOCKET SO_REUSEADDR (le32_bytes 1)) "setsockopt of SO_REUSEADDR error") ;;
  when (isset (o reuseport))
    (or_die (sys_setsockopt fd SOL_SOCKET SO_REUSEPORT (le32_bytes 1)) "setsockopt of SO_REUSEPORT error").
Definition protocol (o : opts) : string := if isset (o udp) then "udp" else "tcp".
Definition socktype (o : opts) : Z := if isset (o udp) then SOCK_DGRAM else SOCK_STREAM.

(** [memcpy(&servaddr.sin_addr, hp->h_addr, hp->h_length)]: what passes the address
    falls in [sin_zero]. *)
Definition copy_addr (a : list Z) : M (list Z) :=
  if (List.length a <=? 12)%nat then mret (take 4 (a ++ drop (List.length a) INADDR_ANY)) else stop UB.
Definition client_addr (o : opts) (host port : string) : M sockaddr :=
  let i := atoi port in
  sin_port ← (if i =? 0 then
                sp ← call (sys_getservbyname port (protocol o));
                match sp with
                | Some s_port => mret s_port
                | None => err_quit ("getservbyname() error for: " +:+ port +:+ "/" +:+ protocol o)
                end
              else mret (htons (u16 i)));
  sin_addr ← (match inet_aton host with
              | Some inaddr => mret inaddr
              | None =>
                  hp ← gethostbyname host;
                  match hp with
                  | Some hp => a ← ld (head (h_addr_list hp)); copy_addr a
                  | None => err_quit ("invalid hostname: " +:+ host)
                  end
              end);
  mret (SaIn sin_port sin_addr).

(** The fields of a [struct sockaddr_in]. *)
Definition sin_of (sa : sockaddr) : M (Z * list Z) :=
  match sa with SaIn port a => mret (port, a) | _ => stop UB end.
Definition local_bind (o : opts) (fd : Z) : M unit :=
  when (negb (o bindport =? 0) || negb (streq (localip o) "") || isset (o udp))
    (sin_addr ← (if negb (streq (localip o) "") then
                   match inet_aton (localip o) with
                   | Some a => mret a
                   | None => err_quit ("invalid IP address: " +:+ localip o)
                   end
                 else mret INADDR_ANY);
     or_die (sys_bind fd (SaIn (htons (u16 (o bindport))) sin_addr) SIZEOF_SOCKADDR_IN) "bind() error").
Fixpoint connect_loop (fuel : nat) (fd : Z) (servaddr : sockaddr) : M unit :=
  match fuel with
  | O => stop NoFuel
  | S f =>
      r ← syscall (sys_connect fd servaddr SIZEOF_SOCKADDR_IN);
      match r with
      | Some _ => mret tt
      | None =>
          e ← get_errno;
          if e =? EINTR then connect_loop f fd servaddr
          else if e =? EISCONN then mret tt
          else err_sys "connect() error"
      end
  end.
(** The address of the end [what] of the connection. *)
Definition tell_end (what : string) (sa : sockaddr) (after : string) : M unit :=
  '(port, a) ← sin_of sa;
  fprintf (what +:+ inet_ntoa a +:+ "." +:+ fmt_d (ntohs port) +:+ after).

Definition cliopen (fuel : nat) (o : opts) (host port : string) (b : bufs) (s : sroute) : M (Z * sockaddr * bufs * sroute) :=
  servaddr ← client_addr o host port;
  fd ← or_die (sys_socket AF_INET (socktype o) 0) "socket() error";
  reuse_opts o fd ;;
  local_bind o fd ;;
  b ← buffers o fd b;
  s ← sockopts o fd false servaddr s;
  when (negb (isset (o udp)) || isset (o connectudp)) (connect_loop fuel fd servaddr) ;;
  when (isset (o verbose))
    (cliaddr ← or_die (sys_getsockname fd) "getsockname() error";
     tell_end "connected on " cliaddr " " ;;
     tell_end "to " servaddr nl) ;;
  s ← sockopts o fd true servaddr s;
  mret (fd, servaddr, b, s).

(** ** servopen.c *)

(** A service that is not found is reported, and [sp] is used all the same. *)
Definition server_addr (o : opts) (host : option string) (port : string) : M sockaddr :=
  sin_addr ← (match host with
              | None => mret INADDR_ANY
              | Some host =>
                  match inet_aton host with
                  | Some inaddr => mret inaddr
                  | None => err_quit ("invalid host name for server: " +:+ host)
                  end
              end);
  let i := atoi port in
  sin_port ← (if i =? 0 then
                sp ← call (sys_getservbyname port (protocol o));
                when (negb (bool_decide (is_Some sp)))
                  (err_ret ("getservbyname() error for: " +:+ port +:+ "/" +:+ protocol o)) ;;
                ld sp
              else mret (htons (u16 i)));
  mret (SaIn sin_port sin_addr).
Definition udp_foreign (o : opts) (fd : Z) : M unit :=
  when (negb (streq (foreignip o) ""))
    (match inet_aton (foreignip o) with
     | None => err_quit ("invalid IP address: " +:+ foreignip o)
     | Some a =>
         or_die (sys_connect fd (SaIn (htons (u16 (o foreignport))) a) SIZEOF_SOCKADDR_IN) "connect() error"
     end).

(** A connection, in the child or the iterative server. *)
Definition serve_conn (o : opts) (newfd : Z) (servaddr cliaddr : sockaddr) (b : bufs) (s : sroute) : M (Z * bufs * sroute) :=
  servaddr ← (if isset (o verbose) then
                servaddr ← or_die (sys_getsockname newfd) "getsockname() error";
                tell_end "connection on " servaddr " " ;;
                tell_end "from " cliaddr nl ;;
                mret servaddr
              else mret servaddr);
  b ← buffers o newfd b;
  s ← sockopts o newfd true servaddr s;
  when (isset (o dofork)) (ppid ← call sys_getppid; TELL_PARENT ppid) ;;
  mret (newfd, b, s).
Fixpoint accept_loop (fuel steps : nat) (o : opts) (fd : Z) (servaddr : sockaddr) (masks : gset Z * gset Z)
    (b : bufs) (s : sroute) : M (Z * bufs * sroute) :=
  match fuel with
  | O => stop NoFuel
  | S f =>
      '(newfd, cliaddr) ← or_die (sys_accept fd) "accept() error";
      if isset (o dofork) then
        pid ← or_die sys_fork "fork error";
        if 0 <? pid then
          syscall (sys_close newfd) ;;
          WAIT_CHILD steps masks ;;
          accept_loop f steps o fd servaddr masks b s
        else
          syscall (sys_close fd) ;;
          serve_conn o newfd servaddr cliaddr b s
      else serve_conn o newfd servaddr cliaddr b s
  end.
Definition servopen (fuel steps : nat) (o : opts) (host : option string) (port : string) (b : bufs) (s : sroute)
    : M (Z * bufs * sroute) :=
  servaddr ← server_addr o host port;
  fd ← or_die (sys_socket AF_INET (socktype o) 0) "socket() error";
  reuse_opts o fd ;;
  or_die (sys_bind fd servaddr SIZEOF_SOCKADDR_IN) "can't bind local address" ;;
  join_mcast o fd servaddr ;;
  if isset (o udp) then
    b ← buffers o fd b;
    udp_foreign o fd ;;
    s ← sockopts o fd true servaddr s;
    mret (fd, b, s)
  else
    b ← buffers o fd b;
    s ← sockopts o fd false servaddr s;
    syscall (sys_listen fd (o listenq)) ;;
    pause steps (o pauselisten) ;;
    masks ← (if isset (o dofork) then TELL_WAIT else mret (∅, ∅));
    accept_loop fuel steps o fd servaddr masks b s.

(** ** main.c *)

Definition dq : string := String "034" "".
Definition usage_text : string :=
  String.concat nl
  ["usage: sock [ options ] <host> <port>              (for client; default)" ;
   "       sock [ options ] -s [ <IPaddr> ] <port>     (for server)" ;
   "       sock [ options ] -i <host> <port>           (for " +:+ dq +:+ "source" +:+ dq +:+ " client)" ;
   "       sock [ options ] -i -s [ <IPaddr> ] <port>  (for " +:+ dq +:+ "sink" +:+ dq +:+ " server)" ;
   "options: -b n  bind n as client's local port number" ;
   "         -c    convert newline to CR/LF & vice versa" ;
   "         -f a.b.c.d.p  foreign IP address = a.b.c.d, foreign port # = p" ;
   "         -g a.b.c.d  loose source route" ;
   "         -h    issue TCP half close on standard input EOF" ;
   "         -i    " +:+ dq +:+ "source" +:+ dq +:+ " data to socket, " +:+ dq +:+ "sink" +:+ dq +:+ " data from socket (w/-s)" ;
   "         -j a.b.c.d  join multicast group" ;
   "         -k    write or writev in chunks" ;
   "         -l a.b.c.d.p  client's local IP address = a.b.c.d, local port # = p" ;
   "         -n n  # buffers to write for " +:+ dq +:+ "source" +:+ dq +:+ " client (default 1024)" ;
   "         -o    do NOT connect UDP client" ;
   "         -p n  # ms to pause before each read or write (source/sink)" ;
   "         -q n  size of listen queue for TCP server (default 5)" ;
   "         -r n  # bytes per read() for " +:+ dq +:+ "sink" +:+ dq +:+ " server (default 1024)" ;
   "         -s    operate as server instead of client" ;
   "         -t n  set multicast ttl" ;
   "         -u    use UDP instead of TCP" ;
   "         -v    verbose" ;
   "         -w n  # bytes per write() for " +:+ dq +:+ "source" +:+ dq +:+ " client (default 1024)" ;
   "         -x n  # ms for SO_RCVTIMEO (receive timeout)" ;
   "         -y n  # ms for SO_SNDTIMEO (send timeout)" ;
   "         -A    SO_REUSEADDR option" ;
   "         -B    SO_BROADCAST option" ;
   "         -C    set terminal to cbreak mode" ;
   "         -D    SO_DEBUG option" ;
   "         -E    IP_RECVDSTADDR option" ;
   "         -F    fork after connection accepted (TCP concurrent server)" ;
   "         -G a.b.c.d  strict source route" ;
   "         -H n  IP_TOS option (16=min del, 8=max thru, 4=max rel, 2=min$)" ;
   "         -I    SIGIO signal" ;
   "         -J n  IP_TTL option" ;
   "         -K    SO_KEEPALIVE option" ;
   "         -L n  SO_LINGER option, n = linger time" ;
   "         -N    TCP_NODELAY option" ;
   "         -O n  # ms to pause after listen, but before first accept" ;
   "         -P n  # ms to pause before first read or write (source/sink)" ;
   "         -Q n  # ms to pause after receiving FIN, but before close" ;
   "         -R n  SO_RCVBUF option" ;
   "         -S n  SO_SNDBUF option" ;
   "         -T    SO_REUSEPORT option" ;
   "         -U n  enter urgent mode before write number n (source only)" ;
   "         -V    use writev() instead of write(); enables -k too" ;
   "         -W    ignore write errors for sink client" ;
   "         -X n  TCP_MAXSEG option (set MSS)" ;
   "         -Y    SO_DONTROUTE option" ;
   "         -Z    MSG_PEEK" ; ""].
Definition usage {A} (msg : string) : M A :=
  err_msg usage_text ;;
  when (negb (streq msg "")) (err_quit msg) ;;
  exit 1.

(** [strrchr(s, '.')]: what precedes and what follows the last period. *)
Fixpoint split_last (s : string) : option (string * string) :=
  match s with
  | EmptyString => None
  | String c s' =>
      match split_last s' with
      | Some (a, b) => Some (String c a, b)
      | None => if Ascii.eqb c "." then Some ("", s') else None
      end
  end.
(** [strcpy] to an array of 32. *)
Definition strcpy32 (s : string) : M string := if strlen s <? 32 then mret s else stop UB.
Definition set_foreignip (ip : string) (o : opts) : opts := Opts o ip (joinip o) (localip o).
Definition set_joinip (ip : string) (o : opts) : opts := Opts o (foreignip o) ip (localip o).
Definition set_localip (ip : string) (o : opts) : opts := Opts o (foreignip o) (joinip o) ip.

(** The options that only set a variable, to 1 or to the number given. *)
Definition flag_var (c : ascii) : option intvar :=
  match c with
  | "c" => Some crlf | "h" => Some halfclose | "i" => Some sourcesink | "k" => Some chunkwrite
  | "u" => Some udp | "A" => Some reuseaddr | "B" => Some broadcast | "D" => Some debug
  | "E" => Some recvdstaddr | "F" => Some dofork | "I" => Some sigio | "K" => Some keepalive
  | "N" => Some nodelay | "T" => Some reuseport | "W" => Some ignorewerr | "Y" => Some dontroute
  | _ => None
  end%char.
Definition number_var (c : ascii) : option intvar :=
  match c with
  | "b" => Some bindport | "p" => Some pauserw | "q" => Some listenq | "r" => Some readlen
  | "t" => Some mcastttl | "w" => Some writelen | "H" => Some iptos | "J" => Some ipttl
  | "O" => Some pauselisten | "P" => Some pauseinit | "Q" => Some pauseclose
  | "R" => Some rcvbuflen | "S" => Some sndbuflen | "U" => Some urgwrite | "X" => Some maxseg
  | "n" => Some nbuf
  | _ => None
  end%char.
Definition long_var (c : ascii) : option intvar :=
  match c with
  | "x" => Some rcvtimeo | "y" => Some sndtimeo | "L" => Some linger
  | _ => None
  end%char.
(** One turn of the [switch]; -C sets [cbreak], which nothing uses. *)
Definition set_option (o : opts) (s : sroute) (c : ascii) (optarg : string) : M (opts * sroute) :=
  match flag_var c, number_var c, long_var c, c with
  | Some v, _, _, _ => mret (set v 1 o, s)
  | _, Some v, _, _ => mret (set v (atoi optarg) o, s)
  | _, _, Some v, _ => mret (set v (strtol10 optarg) o, s)
  | _, _, _, "f" =>
      match split_last optarg with
      | None => usage "invalid -f option"
      | Some (ip, port) => ip ← strcpy32 ip; mret (set_foreignip ip (set foreignport (atoi port) o), s)
      end
  | _, _, _, "l" =>
      match split_last optarg with
      | None => usage "invalid -l option"
      | Some (ip, port) => ip ← strcpy32 ip; mret (set_localip ip (set bindport (atoi port) o), s)
      end
  | _, _, _, "j" => ip ← strcpy32 optarg; mret (set_joinip ip o, s)
  | _, _, _, "g" => s ← sroute_doopt o false optarg s; mret (o, s)
  | _, _, _, "G" => s ← sroute_doopt o true optarg s; mret (o, s)
  | _, _, _, "o" => mret (set connectudp 0 o, s)
  | _, _, _, "s" => mret (set client 0 (set server 1 o), s)
  | _, _, _, "v" => mret (set verbose (o verbose + 1) o, s)
  | _, _, _, "V" => mret (set chunkwrite 1 (set usewritev 1 o), s)
  | _, _, _, "Z" => mret (set msgpeek MSG_PEEK o, s)
  | _, _, _, "?" => usage "unrecognized option"
  | _, _, _, _ => mret (o, s)
  end%char.
Fixpoint set_options (o : opts) (s : sroute) (opts_ : list (ascii * string)) : M (opts * sroute) :=
  match opts_ with
  | [] => mret (o, s)
  | (c, optarg) :: opts_ => r ← set_option o s c optarg; set_options r.1 r.2 opts_
  end.
(** The checks, then the host and the port. *)
Definition check_opts (o : opts) : M unit :=
  when (isset (o udp) && isset (o halfclose)) (usage "can't specify -h and -u") ;;
  when (isset (o udp) && isset (o debug)) (usage "can't specify -D and -u") ;;
  when (isset (o udp) && (0 <=? o linger)) (usage "can't specify -L and -u") ;;
  when (isset (o udp) && isset (o nodelay)) (usage "can't specify -N and -u") ;;
  when (negb (isset (o udp)) && negb (streq (foreignip o) "")) (usage "can't specify -f with TCP").
Definition host_port (o : opts) (rest : list string) : M (option string * string) :=
  match isset (o client), rest with
  | true, [host; port] => mret (Some host, port)
  | true, _ => usage "missing <hostname> and/or <port>"
  | false, [host; port] => mret (Some host, port)
  | false, [port] => mret (None, port)
  | false, _ => usage "missing <port>"
  end.
(** [opts_] are the options that [getopt] finds, [rest] the arguments after
    them. *)
Definition sock_main (fuel steps uio_maxiov : nat) (address : ptr → Z) (garbage : sockaddr) (stale : list Z)
    (opts_ : list (ascii * string)) (rest : list string) : M unit :=
  match opts_, rest with [], [] => usage "" | _, _ => mret tt end ;;
  parsed ← set_options opts0 sroute0 opts_;
  let o : opts := parsed.1 in
  let s := parsed.2 in
  check_opts o ;;
  '(host, port) ← host_port o rest;
  '(fd, servaddr, (rbuf, wbuf)) ←
    (if isset (o client) then
       host ← ld host;
       '(fd, servaddr, b, s) ← cliopen steps o host port (None, None) s;
       mret (fd, servaddr, b)
     else
       '(fd, b, s) ← servopen fuel steps o host port (None, None) s;
       mret (fd, SaIn 0 INADDR_ANY, b));
  let addr (q : option ptr) := match q with Some q => address q | None => 0 end in
  (if isset (o sourcesink) then
     if isset (o client) then
       if isset (o udp) then source_udp o steps servaddr fd else source_tcp o steps fd
     else
       if isset (o udp) then sink_udp o steps fuel stale fd else sink_tcp o steps fuel stale fd
   else
     if isset (o udp) then loop_udp o steps (addr rbuf) (addr wbuf) fuel garbage fd
     else loop_tcp o uio_maxiov steps (addr rbuf) (addr wbuf) fuel fd) ;;
  exit 0.
End sockopen.

(** ** What is done to the socket *)

Inductive act :=
| Opened (fd : Z)
| Opt (fd level opt : Z) (val : list Z)
| Bound (fd : Z) (sa : sockaddr)
| Conn (fd : Z) (sa : sockaddr).
Definition act1 (e : event) : list act :=
  match e with
  | Event c a =>
      match c in sys A return A → list act with
      | sys_socket _ _ _ => λ r, match r with Ok fd => [Opened fd] | _ => [] end
      | sys_setsockopt fd level opt val => λ r, match r with Ok _ => [Opt fd level opt val] | _ => [] end
      | sys_bind fd sa _ => λ r, match r with Ok _ => [Bound fd sa] | _ => [] end
      | sys_connect fd sa _ => λ r, match r with
          | Ok _ => [Conn fd sa] | Err e => if e =? EISCONN then [Conn fd sa] else [] end
      | _ => λ _, []
      end a
  end.
#[global] Instance act1_quiet : QuietUnseen act1.
Proof. split. intros [A c a] H. by destruct c. Qed.

Definition opt_if {A} (c : bool) (l : list A) : list A := if c then l else [].
(** The options that [sockopts] sets, in order, when there is no source route. *)
Definition wanted (inet_aton : string → option (list Z)) (o : opts) (fd : Z) (doall : bool) : list act :=
  let tcp := negb (isset (o udp)) in
  let on := le32_bytes 1 in
  opt_if (isset (o debug)) [Opt fd SOL_SOCKET SO_DEBUG on] ++
  opt_if (isset (o dontroute)) [Opt fd SOL_SOCKET SO_DONTROUTE on] ++
  opt_if (negb (o iptos =? -1) && negb doall) [Opt fd IPPROTO_IP IP_TOS (le32_bytes (o iptos))] ++
  opt_if (negb (o ipttl =? -1) && negb doall) [Opt fd IPPROTO_IP IP_TTL (le32_bytes (o ipttl))] ++
  opt_if (isset (o maxseg) && tcp) [Opt fd IPPROTO_TCP TCP_MAXSEG (le32_bytes (o maxseg))] ++
  opt_if (isset (o broadcast)) [Opt fd SOL_SOCKET SO_BROADCAST on] ++
  opt_if (negb (streq (joinip o) ""))
    (match inet_aton (joinip o) with Some a => [Opt fd IPPROTO_IP IP_ADD_MEMBERSHIP (a ++ INADDR_ANY)] | None => [] end) ++
  opt_if (isset (o mcastttl)) [Opt fd IPPROTO_IP IP_MULTICAST_TTL [u8 (o mcastttl)]] ++
  opt_if (isset (o keepalive) && doall && tcp) [Opt fd SOL_SOCKET SO_KEEPALIVE on] ++
  opt_if (isset (o nodelay) && doall && tcp) [Opt fd IPPROTO_TCP TCP_NODELAY on] ++
  opt_if ((0 <=? o linger) && doall && tcp) [Opt fd SOL_SOCKET SO_LINGER (linger_bytes 1 (o linger))] ++
  opt_if (doall && isset (o rcvtimeo)) [Opt fd SOL_SOCKET SO_RCVTIMEO (timeval_bytes (o rcvtimeo))] ++
  opt_if (doall && isset (o sndtimeo)) [Opt fd SOL_SOCKET SO_SNDTIMEO (timeval_bytes (o sndtimeo))].
(** All that [cliopen] does to its socket. *)
Definition client_plan (inet_aton : string → option (list Z)) (o : opts) (fd : Z) (sa : sockaddr) : list act :=
  let local := match inet_aton (localip o) with
    | Some a => if streq (localip o) "" then INADDR_ANY else a | None => INADDR_ANY end in
  [Opened fd] ++
  opt_if (isset (o reuseaddr)) [Opt fd SOL_SOCKET SO_REUSEADDR (le32_bytes 1)] ++
  opt_if (isset (o reuseport)) [Opt fd SOL_SOCKET SO_REUSEPORT (le32_bytes 1)] ++
  opt_if (negb (o bindport =? 0) || negb (streq (localip o) "") || isset (o udp))
    [Bound fd (SaIn (htons (u16 (o bindport))) local)] ++
  opt_if (isset (o rcvbuflen)) [Opt fd SOL_SOCKET SO_RCVBUF (le32_bytes (o rcvbuflen))] ++
  opt_if (isset (o sndbuflen)) [Opt fd SOL_SOCKET SO_SNDBUF (le32_bytes (o sndbuflen))] ++
  wanted inet_aton o fd false ++
  opt_if (negb (isset (o udp)) || isset (o connectudp)) [Conn fd sa] ++
  wanted inet_aton o fd true.

Section acts.
Context {K : Kernel} {SOk : StrerrorOk K} (inet_aton : string → option (list Z)) (sizeof_long : Z).
Implicit Types o : opts.

(** [m] does [want] to the socket and returns, or stops after the beginning of
    it. *)
Definition does {A} (want : list act) (R : A → Prop) (m : M A) : Prop :=
  ∀ p, post m p (follows act1 False want R p).

Lemma does_bind {A B} (m : M A) (k : A → M B) w1 w2 (R1 : A → Prop) R2 :
  does w1 R1 m → (∀ a, R1 a → does w2 R2 (k a)) → does (w1 ++ w2) R2 (m ≫= k).
Proof. intros Hm Hk p. eapply follows_bind; [apply Hm|]. intros a p' Ha. by apply Hk. Qed.
Lemma does_ret {A} (a : A) (R : A → Prop) : R a → does [] R (mret a).
Proof. intros HR p. by apply follows_ret. Qed.
Lemma does_skip {A B} (m : M A) (k : A → M B) w (R1 : A → Prop) R2 :
  does [] R1 m → (∀ a, R1 a → does w R2 (k a)) → does w R2 (m ≫= k).
Proof. apply (does_bind m k [] w). Qed.
Lemma does_last {A B} (m : M A) (k : A → M B) w (R1 : A → Prop) R2 :
  does w R1 m → (∀ a, R1 a → does [] R2 (k a)) → does w R2 (m ≫= k).
Proof. intros Hm Hk. rewrite <- (app_nil_r w). by eapply does_bind. Qed.
Lemma does_stop {A} w (R : A → Prop) m : framed (unseen act1) m → (∀ p, post m p (λ out _, out = Exit 1)) → does w R m.
Proof.
  intros Hf Hm p. eapply post_weaken; [apply post_and; [apply Hm|apply (framed_post _ m p Hf)]|].
  intros out p' [-> Hs%frame_seen]. exists []. rewrite app_nil_r. split; [done|]. split; [apply prefix_nil|done].
Qed.
Lemma quiet_act e : quiet e → unseen act1 e.
Proof. apply quiet_unseen, _. Qed.
Lemma does_err_sys {A} w (R : A → Prop) msg : strlen msg < 3000 → does w R (err_sys msg).
Proof. intros Hm. apply does_stop; [apply framed_sock_err_sys, quiet_act|]. intros p. by apply sock_err_sys_post. Qed.
Lemma does_err_quit {A} w (R : A → Prop) msg : strlen msg < 3000 → does w R (err_quit msg).
Proof. intros Hm. apply does_stop; [apply framed_sock_err_quit, quiet_act|]. intros p. by apply sock_err_quit_post. Qed.
Lemma does_fprintf msg : does [] (λ _, True) (fprintf msg).
Proof. intros p. eapply follows_bind0; [apply (follows_syscall _ _ _ _ (λ _, True)); done|]. intros. by apply follows_ret. Qed.
Lemma does_say o msg : does [] (λ _, True) (say o msg).
Proof. unfold say. case_match; [apply does_fprintf|by apply does_ret]. Qed.
Lemma does_when w c (m : M unit) : (c = true → does w (λ _, True) m) → does (opt_if c w) (λ _, True) (when c m).
Proof. intros Hm. destruct c; simpl; [by apply Hm|by apply does_ret]. Qed.
Lemma does_when_nil c (m : M unit) : does [] (λ _, True) m → does [] (λ _, True) (when c m).
Proof. intros Hm. destruct c; simpl; [exact Hm|by apply does_ret]. Qed.
(** A call, which does [w] when it succeeds. *)
Lemma does_or_die {A} (c : sys (res A)) msg w (R : A → Prop) :
  strlen msg < 3000 → (∀ a, act1 (Event c (Ok a)) = w) → (∀ e, act1 (Event c (Err e)) = []) →
  (∀ t a, answer t c = Ok a → R a) → does w R (or_die c msg).
Proof.
  intros Hm Hok Herr HR p. unfold or_die. apply post_bind, post_syscall; intros a Ha; cbn [through].
  - apply post_ret. exists w. cbn [add_event p_trace seen]. rewrite Hok. eauto.
  - eapply post_weaken; [by apply (does_err_sys (A := A) w R msg)|].
    intros out p' (new & Hs & Hp & Ho). exists new. cbn [with_errno add_event p_trace seen] in Hs.
    rewrite Herr, app_nil_r in Hs. done.
Qed.

Lemma length_put_ge buf i bs : (i ≤ List.length buf)%nat → (List.length buf ≤ List.length (put buf i bs))%nat.
Proof. intros H. unfold put. rewrite !length_app, length_take, length_drop. lia. Qed.
Lemma does_load buf i size (bs : list Z) : (i + size ≤ List.length buf)%nat →
  does [] (λ _, True) (ld (le_at (put buf 0 bs) (Z.of_nat i) size)).
Proof.
  intros H. pose proof (length_put_ge buf 0 bs ltac:(lia)).
  destruct (le_at_some (put buf 0 bs) size (Z.of_nat i)) as [v ->]; [lia..|]. by apply does_ret.
Qed.

Lemma does_set_get fd level opt v name : strlen name < 100 →
  does [Opt fd level opt (le32_bytes v)] (λ _, True) (set_get fd level opt v name).
Proof.
  intros Hn. unfold set_get.
  assert (Hs : strlen (name +:+ " setsockopt error") < 3000 ∧ strlen (name +:+ " getsockopt error") < 3000).
  { rewrite !strlen_app. change (strlen " setsockopt error") with 17. change (strlen " getsockopt error") with 17. lia. }
  destruct Hs as [Hs1 Hs2]. eapply does_last with (R1 := λ _, True); [by apply does_or_die|]. intros _ _. by apply does_or_die.
Qed.
Lemma does_not_set {A} w (R : A → Prop) name v : strlen name < 100 → does w R (not_set name v).
Proof.
  intros Hn. apply does_err_quit. rewrite !strlen_app. pose proof (fmt_d_length v).
  change (strlen " not set (") with 10. change (strlen ")") with 1. lia.
Qed.
Lemma does_flag_opt o fd level opt name : strlen name < 100 →
  does [Opt fd level opt (le32_bytes 1)] (λ _, True) (flag_opt o fd level opt name).
Proof.
  intros Hn. eapply does_last; [by apply does_set_get|]. intros v _.
  case_match; [by apply does_not_set|apply does_say].
Qed.
Lemma does_value_opt o fd level opt v name : strlen name < 100 →
  does [Opt fd level opt (le32_bytes v)] (λ _, True) (value_opt o fd level opt v name).
Proof.
  intros Hn. eapply does_last; [by apply does_set_get|]. intros v' _.
  case_match; [by apply does_not_set|apply does_say].
Qed.
Lemma does_maxseg_opt o fd : does [Opt fd IPPROTO_TCP TCP_MAXSEG (le32_bytes (o maxseg))] (λ _, True) (maxseg_opt o fd).
Proof. eapply does_last; [by apply does_set_get|]. intros v _. apply does_say. Qed.
Lemma does_join_opt o fd : strlen (joinip o) < 1000 →
  does (match inet_aton (joinip o) with Some a => [Opt fd IPPROTO_IP IP_ADD_MEMBERSHIP (a ++ INADDR_ANY)] | None => [] end)
    (λ _, True) (join_opt inet_aton o fd).
Proof.
  intros Hl. unfold join_opt. destruct (inet_aton (joinip o)).
  - eapply does_last with (R1 := λ _, True); [by apply does_or_die|]. intros _ _. apply does_say.
  - apply does_err_quit. rewrite strlen_app. change (strlen "invalid multicast address: ") with 27. lia.
Qed.
Lemma does_mcastttl_opt o fd : does [Opt fd IPPROTO_IP IP_MULTICAST_TTL [u8 (o mcastttl)]] (λ _, True) (mcastttl_opt o fd).
Proof.
  unfold mcastttl_opt. eapply does_last with (R1 := λ _, True); [by apply does_or_die|]. intros _ _.
  eapply does_skip with (R1 := λ _, True); [by apply does_or_die|]. intros bs _.
  assert (is_Some (u8_at (put [u8 (o mcastttl)] 0 bs) 0)) as [ttl ->].
  { apply u8_at_some. pose proof (length_put_ge [u8 (o mcastttl)] 0 bs ltac:(simpl; lia)). simpl in *. lia. }
  eapply does_skip with (R1 := λ _, True); [by apply does_ret|]. intros t _. case_match; [by apply does_not_set|apply does_say].
Qed.
Lemma does_maxseg_print o fd : does [] (λ _, True) (maxseg_print o fd).
Proof. unfold maxseg_print. eapply does_skip with (R1 := λ _, True); [by apply does_or_die|]. intros v _. apply does_fprintf. Qed.
Lemma does_linger_opt o fd :
  does [Opt fd SOL_SOCKET SO_LINGER (linger_bytes 1 (o linger))] (λ _, True) (linger_opt o fd).
Proof.
  unfold linger_opt. eapply does_last with (R1 := λ _, True); [by apply does_or_die|]. intros _ _.
  eapply does_skip with (R1 := λ _, True); [by apply does_or_die|]. intros bs _. cbn zeta.
  eapply does_skip; [apply (does_load _ 0 4); vm_compute; lia|]. intros onoff _.
  eapply does_skip; [apply (does_load _ 4 4); vm_compute; lia|]. intros time _.
  case_match; [|apply does_say]. apply does_err_quit. rewrite !strlen_app.
  pose proof (fmt_d_length (i32 onoff)). pose proof (fmt_d_length (i32 time)).
  change (strlen "SO_LINGER not set (") with 19. change (strlen ", ") with 2. change (strlen ")") with 1. lia.
Qed.
Lemma does_timeo_opt o fd opt ms name : strlen name < 100 →
  does [Opt fd SOL_SOCKET opt (timeval_bytes ms)] (λ _, True) (timeo_opt o fd opt ms name).
Proof.
  intros Hn. unfold timeo_opt.
  assert (Hs : strlen (name +:+ " setsockopt error") < 3000 ∧ strlen (name +:+ " getsockopt error") < 3000).
  { rewrite !strlen_app. change (strlen " setsockopt error") with 17. change (strlen " getsockopt error") with 17. lia. }
  destruct Hs as [Hs1 Hs2]. eapply does_last with (R1 := λ _, True); [by apply does_or_die|]. intros _ _.
  eapply does_skip with (R1 := λ _, True); [by apply does_or_die|]. intros bs _. cbn zeta.
  assert (Hl : List.length (timeval_bytes 0) = 16%nat) by done.
  eapply does_skip; [apply (does_load _ 0); rewrite Hl; lia|]. intros sec _.
  eapply does_skip; [apply (does_load _ 8); rewrite Hl; lia|]. intros usec _. apply does_say.
Qed.
Lemma does_sigio_opt o fd : does [] (λ _, True) (sigio_opt o fd).
Proof.
  unfold sigio_opt. eapply does_skip with (R1 := λ _, True).
  { intros p. by apply (follows_syscall act1 False _ p (λ _, True)). }
  intros _ _. eapply does_skip with (R1 := λ _, True).
  { intros p. by apply (follows_call act1 False _ p (λ _, True)). }
  intros pid _. eapply does_skip with (R1 := λ _, True); [by apply does_or_die|]. intros _ _.
  eapply does_skip with (R1 := λ _, True); [by apply does_or_die|]. intros _ _. apply does_say.
Qed.

Lemma does_sockopts o fd doall servaddr s : strlen (joinip o) < 1000 → sroute_cnt s = 0 →
  does (wanted inet_aton o fd doall) (λ s', s' = s) (sockopts inet_aton sizeof_long o fd doall servaddr s).
Proof.
  intros Hj Hs. unfold sockopts, wanted. cbn zeta.
  do 5 (eapply does_bind;
    [apply does_when; intros _; first [by apply does_flag_opt|by apply does_value_opt|apply does_maxseg_opt]|intros [] _]).
  rewrite Hs. cbn [Z.ltb Z.compare]. eapply does_skip with (R1 := λ s', s' = s); [by apply does_ret|]. intros _ ->.
  do 5 (eapply does_bind;
    [apply does_when; intros _; first [by apply does_flag_opt|by apply does_join_opt|apply does_mcastttl_opt]|intros [] _]).
  eapply does_skip with (R1 := λ _, True); [apply does_when_nil, does_maxseg_print|]. intros _ _.
  do 2 (eapply does_bind; [apply does_when; intros _; first [apply does_linger_opt|by apply does_timeo_opt]|intros [] _]).
  eapply does_last; [apply does_when; intros _; by apply does_timeo_opt|]. intros _ _.
  eapply does_skip with (R1 := λ _, True); [apply does_when_nil, does_fprintf|]. intros _ _.
  eapply does_skip with (R1 := λ _, True); [apply does_when_nil, does_sigio_opt|]. intros _ _.
  by apply does_ret.
Qed.

Lemma does_alloc_buf q len msg : strlen msg < 3000 → does [] (λ _, True) (alloc_buf q len msg).
Proof.
  intros Hm. unfold alloc_buf. destruct q; [by apply does_ret|].
  eapply does_skip with (R1 := λ _, True); [|intros [] _; [by apply does_ret|by apply does_err_sys]].
  intros p. apply post_malloc; intros _; (exists []; rewrite app_nil_r; split; [cbn; by rewrite app_nil_r|done]).
Qed.
Lemma does_set_bufsize o fd opt len var name : strlen name < 100 → strlen var < 100 →
  does (opt_if (isset len) [Opt fd SOL_SOCKET opt (le32_bytes len)]) (λ _, True) (set_bufsize o fd opt len var name).
Proof.
  intros Hn Hv. unfold set_bufsize. destruct (isset len); [|by apply does_ret]. cbn [opt_if].
  assert (Hs : strlen (name +:+ " setsockopt error") < 3000 ∧ strlen (name +:+ " getsockopt error") < 3000).
  { rewrite !strlen_app. change (strlen " setsockopt error") with 17. change (strlen " getsockopt error") with 17. lia. }
  destruct Hs as [Hs1 Hs2].
  assert (Hget : does [] (λ _, True) (r ← syscall (sys_getsockopt fd SOL_SOCKET opt 4);
       match r with None => err_sys (name +:+ " getsockopt error") | Some n =>
         if negb (n =? len) then err_quit (var +:+ " = " +:+ fmt_d len +:+ ", " +:+ name +:+ " = " +:+ fmt_d n)
         else say o (name +:+ " = " +:+ fmt_d n) end)).
  { eapply does_skip with (R1 := λ _, True); [intros p; by apply (follows_syscall act1 False _ p (λ _, True))|].
    intros [n|] _; [|by apply does_err_sys]. case_match; [|apply does_say].
    apply does_err_quit. rewrite !strlen_app. pose proof (fmt_d_length len). pose proof (fmt_d_length n).
    change (strlen " = ") with 3. change (strlen ", ") with 2. lia. }
  intros p. apply post_bind, post_syscall; intros a _; cbn [through].
  - eapply post_weaken; [apply Hget|]. intros out p' (new & Hq & Hp & Ho). cbn [add_event p_trace seen act1] in Hq.
    exists (Opt fd SOL_SOCKET opt (le32_bytes len) :: new). rewrite Hq, <- app_assoc. split; [done|].
    apply prefix_nil_inv in Hp as ->. split; [done|]. by destruct out.
  - eapply post_weaken; [by apply (does_err_sys (A := unit) [Opt fd SOL_SOCKET opt (le32_bytes len)] (λ _, True))|].
    intros out p' (new & Hq & Hp & Ho). exists new. cbn [with_errno add_event p_trace seen act1] in Hq.
    rewrite app_nil_r in Hq. done.
Qed.
Lemma does_buffers o fd b :
  does (opt_if (isset (o rcvbuflen)) [Opt fd SOL_SOCKET SO_RCVBUF (le32_bytes (o rcvbuflen))] ++
        opt_if (isset (o sndbuflen)) [Opt fd SOL_SOCKET SO_SNDBUF (le32_bytes (o sndbuflen))])
    (λ _, True) (buffers o fd b).
Proof.
  unfold buffers. eapply does_skip; [by apply does_alloc_buf|]. intros rb _.
  eapply does_skip; [by apply does_alloc_buf|]. intros wb _.
  eapply does_bind; [by apply does_set_bufsize|]. intros _ _.
  eapply does_last; [by apply does_set_bufsize|]. intros _ _. by apply does_ret.
Qed.
Lemma does_connect_loop fuel fd sa : does [Conn fd sa] (λ _, True) (connect_loop fuel fd sa).
Proof.
  induction fuel as [|f IH]; cbn [connect_loop].
  { intros p. apply post_stop. exists []. rewrite app_nil_r. split; [done|]. split; [apply prefix_nil|done]. }
  intros p. apply post_bind, post_syscall; intros e _; cbn [through].
  { apply post_ret. by exists [Conn fd sa]. }
  apply post_bind, post_get_errno. cbn [through with_errno p_errno].
  assert (Hrest : ∀ m : M unit, act1 (Event (sys_connect fd sa SIZEOF_SOCKADDR_IN) (Err e)) = [] → does [Conn fd sa] (λ _, True) m →
    post m (with_errno e (add_event (sys_connect fd sa SIZEOF_SOCKADDR_IN) (Err e) p)) (follows act1 False [Conn fd sa] (λ _, True) p)).
  { intros m He Hm. eapply post_weaken; [apply Hm|]. intros out p' (new & Hq & Hp & Ho). exists new.
    cbn [with_errno add_event p_trace seen] in Hq. rewrite He, app_nil_r in Hq. done. }
  destruct (Z.eqb_spec e EINTR) as [->|]; [by apply Hrest|].
  destruct (Z.eqb_spec e EISCONN) as [->|He]; [apply post_ret; by exists [Conn fd sa]|].
  apply Hrest; [|by apply does_err_sys]. cbn. by destruct (Z.eqb_spec e EISCONN).
Qed.
Lemma does_local_bind o fd : strlen (localip o) < 1000 →
  let local := match inet_aton (localip o) with
    | Some a => if streq (localip o) "" then INADDR_ANY else a | None => INADDR_ANY end in
  does (opt_if (negb (o bindport =? 0) || negb (streq (localip o) "") || isset (o udp))
    [Bound fd (SaIn (htons (u16 (o bindport))) local)]) (λ _, True) (local_bind inet_aton o fd).
Proof.
  intros Hl local. unfold local_bind. apply does_when. intros _. unfold local. destruct (streq (localip o) "") eqn:E; cbn [negb].
  - assert (Hd : match inet_aton (localip o) with Some _ => INADDR_ANY | None => INADDR_ANY end = INADDR_ANY) by by case_match.
    eapply does_skip with (R1 := λ a, a = INADDR_ANY); [by apply does_ret|]. intros _ ->. rewrite Hd. by apply does_or_die.
  - eapply does_skip with (R1 := λ a, inet_aton (localip o) = Some a).
    + destruct (inet_aton (localip o)); [by apply does_ret|]. apply does_err_quit. rewrite strlen_app.
      change (strlen "invalid IP address: ") with 20. lia.
    + intros a Ha. rewrite Ha. by apply does_or_die.
Qed.
End acts.

(** gethostbyname(3), getsockname(2): what they answer for the Internet. *)
Class InetOk (K : Kernel) : Prop := {
  host_v4 : ∀ t options host hp, answer t (sys_gethostbyname options host) = Ok hp →
    ∃ a l, h_addr_list hp = a :: l ∧ List.length a = 4%nat;
  sockname_in : ∀ t fd sa, answer t (sys_getsockname fd) = Ok sa → ∃ port a, sa = SaIn port a
}.

Section client.
Context {K : Kernel} {SOk : StrerrorOk K} {IOk : InetOk K} (inet_aton : string → option (list Z)) (sizeof_long : Z).
Implicit Types o : opts.

(** The address that [host] and [port] name: the number, or what the system answers
    for the name. *)
Definition named o (host port : string) (sa : sockaddr) : Prop :=
  ∃ sin_port sin_addr, sa = SaIn sin_port sin_addr ∧
  (if atoi port =? 0 then ∃ t, answer t (sys_getservbyname port (protocol o)) = Some sin_port
   else sin_port = htons (u16 (atoi port))) ∧
  match inet_aton host with
  | Some a => sin_addr = a
  | None => ∃ t options hp l, answer t (sys_gethostbyname options host) = Ok hp ∧ h_addr_list hp = sin_addr :: l
  end.

Lemma does_hostent host : does [] (λ r, ∀ hp, r = Some hp → ∃ t options, answer t (sys_gethostbyname options host) = Ok hp)
  (gethostbyname host).
Proof.
  intros p. unfold gethostbyname. apply post_bind. unfold get_res_options, post. cbn [through].
  unfold hostcall, mbind, M_bind, call. destruct (answer (p_trace p) (sys_gethostbyname (p_res_options p) host)) as [hp|e] eqn:E;
    cbn; (exists []; rewrite !app_nil_r; split; [cbn; by rewrite app_nil_r|]; split; [done|]; split; [done|]).
  - intros _ [= <-]. by eexists _, _.
  - done.
Qed.
Lemma does_client_addr o host port : strlen host < 1000 → strlen port < 1000 →
  does [] (named o host port) (client_addr inet_aton o host port).
Proof.
  intros Hh Hp. unfold client_addr. cbn zeta.
  eapply does_skip with (R1 := λ sin_port, if atoi port =? 0 then ∃ t, answer t (sys_getservbyname port (protocol o)) = Some sin_port
    else sin_port = htons (u16 (atoi port))).
  { destruct (atoi port =? 0); [|by apply does_ret].
    eapply does_skip with (R1 := λ r, ∃ t, answer t (sys_getservbyname port (protocol o)) = r).
    { intros p. apply post_call. intros r Hr. exists []. cbn. rewrite !app_nil_r. eauto 10. }
    intros [s_port|] Ht; [by apply does_ret|]. apply does_err_quit. rewrite !strlen_app.
    change (strlen "getservbyname() error for: ") with 27. change (strlen "/") with 1.
    assert (strlen (protocol o) = 3) by (unfold protocol; by case_match). lia. }
  intros sin_port Hport.
  eapply does_skip with (R1 := λ sin_addr, match inet_aton host with
    | Some a => sin_addr = a
    | None => ∃ t options hp l, answer t (sys_gethostbyname options host) = Ok hp ∧ h_addr_list hp = sin_addr :: l end).
  { destruct (inet_aton host) as [a|]; [by apply does_ret|]. eapply does_skip; [apply does_hostent|].
    intros [hp|] Hr; [|apply does_err_quit; rewrite strlen_app; change (strlen "invalid hostname: ") with 18; lia].
    destruct (Hr hp eq_refl) as (t & options & Ht). destruct (host_v4 _ _ _ _ Ht) as (a & l & Hl & Ha).
    rewrite Hl. cbn [head]. eapply does_skip with (R1 := λ b, b = a); [by apply does_ret|]. intros _ ->.
    unfold copy_addr. rewrite Ha. cbn [Nat.leb drop INADDR_ANY]. rewrite app_nil_r, take_ge by lia. apply does_ret. eauto 10. }
  intros sin_addr Haddr. apply does_ret. by exists sin_port, sin_addr.
Qed.
Lemma does_tell_end what sa after : (∃ port a, sa = SaIn port a) → does [] (λ _, True) (tell_end what sa after).
Proof.
  intros (port & a & ->). unfold tell_end, sin_of. eapply does_skip with (R1 := λ _, True); [by apply does_ret|].
  intros [port' a'] _. apply does_fprintf.
Qed.
Lemma does_reuse_opts o fd :
  does (opt_if (isset (o reuseaddr)) [Opt fd SOL_SOCKET SO_REUSEADDR (le32_bytes 1)] ++
        opt_if (isset (o reuseport)) [Opt fd SOL_SOCKET SO_REUSEPORT (le32_bytes 1)]) (λ _, True) (reuse_opts o fd).
Proof.
  unfold reuse_opts. eapply does_bind; [apply does_when; intros _; by apply does_or_die|]. intros _ _.
  apply does_when. intros _. by apply does_or_die.
Qed.

(** Reports, and so the addresses, do not run out of fuel. *)
Lemma fine_sock_report b msg : fine_run True (err_doit b msg).
Proof. unfold err_doit, in_buf. fine_tac. Qed.
Lemma fine_sock_quit {A} msg : fine_run True (err_quit (A := A) msg).
Proof. apply fine_bind; [apply fine_sock_report|]. by intros _ p. Qed.
#[local] Hint Resolve fine_sock_quit : fine.
Lemma fine_client_addr o host port : fine_run True (client_addr inet_aton o host port).
Proof.
  assert (Hhost : fine_run True (gethostbyname host)).
  { apply fine_bind; [by intros p|]. intros options. unfold hostcall.
    apply fine_bind; [apply fine_call|]. intros [a|e]; [apply fine_ret|]. apply fine_bind; [by intros p|]. intros. apply fine_ret. }
  assert (Hld : ∀ a : option (list Z), fine_run True (a ← ld a; copy_addr a)).
  { intros a. apply fine_bind; [by apply fine_ld|]. intros. unfold copy_addr. fine_tac. }
  unfold client_addr. repeat first [solve [auto with fine]|apply Hhost|apply Hld|progress fine_tac].
Qed.

(** C21: a sock client without a source route (no -g or -G: [sroute_cnt] is 0), whose names and addresses have
    fewer than 1000 characters: its socket is bound, given its
    options, connected to the address that the names denote and given the options that come
    after, exactly as the command asks and in this order, or the program stops, by an error, after a
    beginning of this; nothing is done to a socket when a name has no address.  This is for any
    system whose [gethostbyname] gives addresses of four bytes, whose [getsockname] gives an Internet address
    and whose texts of errors are short. *)
Theorem cliopen_acts (fuel : nat) o (host port : string) (b : bufs) (s : sroute) (p : proc) :
  strlen host < 1000 → strlen port < 1000 → strlen (localip o) < 1000 → strlen (joinip o) < 1000 → sroute_cnt s = 0 →
  post (cliopen inet_aton sizeof_long fuel o host port b s) p (λ out p',
    (out = Exit 1 ∧ seen act1 (p_trace p') = seen act1 (p_trace p)) ∨
    ∃ fd sa, named o host port sa ∧
      follows act1 False (client_plan inet_aton o fd sa) (λ '(fd', sa', _, _), fd' = fd ∧ sa' = sa) p out p').
Proof.
  intros Hh Hp Hl Hj Hs. unfold cliopen. apply post_bind.
  eapply post_weaken; [apply post_and; [by apply does_client_addr|apply fine_client_addr]|].
  intros out p1 [(new & Hn & Hpre & Ho) Hf].
  apply prefix_nil_inv in Hpre as ->. rewrite app_nil_r in Hn.
  destruct out as [sa|st| | |]; cbn [through]; [|by left; subst|done..]. destruct Ho as [_ Hsa].
  apply post_bind. unfold or_die at 1. apply post_bind, post_syscall; intros fd _; cbn [through].
  2: { eapply post_weaken; [apply post_and; [by apply sock_err_sys_post|apply framed_post, framed_sock_err_sys, quiet_act]|].
       intros out p' [-> Hseen%frame_seen]. cbn [through]. left. split; [done|]. rewrite Hseen. cbn. by rewrite app_nil_r. }
  apply post_ret. cbn [through].
  eapply (post_weaken _ _ (follows act1 False (drop 1 (client_plan inet_aton o fd sa)) (λ '(fd', sa', _, _), fd' = fd ∧ sa' = sa)
    (add_event (sys_socket AF_INET (socktype o) 0) (Ok fd) p1))).
  2: { intros out p' (new & Hq & Hpr & Ho2). right. exists fd, sa. split; [done|]. exists (Opened fd :: new).
       cbn [add_event p_trace seen act1] in Hq. rewrite Hq, Hn, <- app_assoc. split; [done|].
       split; [by apply prefix_cons|]. destruct out; try done. destruct Ho2 as [-> ?]. done. }
  unfold client_plan. cbn [app drop]. rewrite app_assoc. eapply does_bind; [apply does_reuse_opts|]. intros _ _.
  eapply does_bind; [by apply does_local_bind|]. intros _ _.
  rewrite app_assoc. eapply does_bind; [apply does_buffers|]. intros b' _.
  eapply does_bind; [by apply does_sockopts|]. intros _ ->.
  eapply does_bind; [apply does_when; intros _; apply does_connect_loop|]. intros _ _.
  eapply does_skip with (R1 := λ _, True).
  { apply does_when_nil. eapply does_skip with (R1 := λ cli, ∃ port a, cli = SaIn port a).
    - apply does_or_die; try done. intros t cli. apply sockname_in.
    - intros cli Hcli. eapply does_skip; [by apply does_tell_end|]. intros _ _. apply does_tell_end.
      destruct Hsa as (pt & a & -> & _). eauto. }
  intros _ _. eapply does_last; [by apply does_sockopts|]. intros s' _. by apply does_ret.
Qed.
End client.

(** ** The source route *)

Section route.
Context {K : Kernel} {SOk : StrerrorOk K} {IOk : InetOk K} (inet_aton : string → option (list Z)).
Context (Haton : ∀ s a, inet_aton s = Some a → List.length a = 4%nat).
Implicit Types (o : opts) (addrs : list (list Z)).

(** The option: the type, the length and the pointer, the addresses and the
    destination, and an end of list to fill the last word. *)
Definition route_opt (strict : bool) addrs (dest : list Z) : list Z :=
  [if strict then IPOPT_SSRR else IPOPT_LSRR; 3 + 4 * (Z.of_nat (List.length addrs) + 1); 4] ++ List.concat addrs ++ dest ++ [0].
Definition resolved (host : string) (a : list Z) : Prop :=
  List.length a = 4%nat ∧
  match inet_aton host with
  | Some a' => a = a'
  | None => ∃ t options hp l, answer t (sys_gethostbyname options host) = Ok hp ∧ h_addr_list hp = a :: l
  end.
(** The option under construction, from its first address on. *)
Definition route_bytes (strict : bool) (len : Z) addrs : list Z :=
  [if strict then IPOPT_SSRR else IPOPT_LSRR; len; 4] ++ List.concat addrs ++ replicate (OPTSIZE - 3 - 4 * List.length addrs) 0.
Definition route_built (strict : bool) addrs (s : sroute) : Prop :=
  sroute_cnt s = Z.of_nat (List.length addrs) ∧ Forall (λ a, List.length a = 4%nat) addrs ∧
  optr s = (3 + 4 * List.length addrs)%nat ∧ sroute_opt s = route_bytes strict 0 addrs.
Definition route_inv (strict : bool) addrs (s : sroute) : Prop :=
  (addrs = [] ∧ sroute_cnt s = 0) ∨ (addrs ≠ [] ∧ route_built strict addrs s).

Lemma length_concat4 addrs : Forall (λ a, List.length a = 4%nat) addrs → List.length (List.concat addrs) = (4 * List.length addrs)%nat.
Proof. induction 1 as [|a addrs Ha _ IH]; [done|]. cbn [List.concat List.length]. rewrite length_app, Ha, IH. lia. Qed.

Lemma post_fprintf msg p (Q : outcome unit → proc → Prop) : (∀ p', Q (Ret tt) p') → post (fprintf msg) p Q.
Proof. intros HQ. unfold fprintf. post_steps; apply HQ. Qed.
Lemma post_say o msg p (Q : outcome unit → proc → Prop) : (∀ p', Q (Ret tt) p') → post (say o msg) p Q.
Proof. intros HQ. unfold say. case_match; [by apply post_fprintf|by apply post_ret]. Qed.
Lemma post_quit {A} msg p (Q : outcome A → proc → Prop) : strlen msg < 3000 → (∀ p', Q (Exit 1) p') → post (err_quit msg) p Q.
Proof. intros Hm HQ. eapply post_weaken; [by apply sock_err_quit_post|]. intros out p' ->. apply HQ. Qed.

(** An address is appended to the option. *)
Lemma append_addr strict len addrs a : Forall (λ a, List.length a = 4%nat) addrs → List.length a = 4%nat → (List.length addrs < 10)%nat →
  ((3 + 4 * List.length addrs) + List.length a <= List.length (route_bytes strict len addrs))%nat ∧
  put (route_bytes strict len addrs) (3 + 4 * List.length addrs) a = route_bytes strict len (addrs ++ [a]).
Proof.
  intros Hf Ha Hl. unfold route_bytes. rewrite app_assoc. set (front := [_; _; _] ++ List.concat addrs).
  assert (Hfr : (3 + 4 * List.length addrs)%nat = List.length front) by (unfold front; rewrite length_app, length_concat4 by done; done).
  assert (Hlen : (List.length a ≤ List.length (replicate (OPTSIZE - 3 - 4 * List.length addrs) 0%Z))%nat) by (rewrite length_replicate, Ha; unfold OPTSIZE; lia).
  split; [rewrite Hfr, length_app; lia|]. rewrite Hfr, put_app by done.
  rewrite drop_replicate, Ha, List.concat_app, length_app. cbn [List.concat List.length]. rewrite app_nil_r.
  unfold front. rewrite <- !app_assoc. do 4 f_equal. unfold OPTSIZE. lia.
Qed.
Lemma post_load_long a p (Q : outcome (list Z) → proc → Prop) : List.length a = 4%nat → Q (Ret a) p → post (load_long 4 a) p Q.
Proof.
  intros Ha HQ. unfold load_long. rewrite Ha. change (4 <=? Z.of_nat 4) with true. change (Z.to_nat 4) with 4%nat. apply post_ret.
  by rewrite take_ge by lia.
Qed.
Lemma post_hostent host p (Q : outcome (option hostent) → proc → Prop) :
  (∀ hp p', answer (p_trace p) (sys_gethostbyname (p_res_options p) host) = Ok hp → Q (Ret (Some hp)) p') →
  (∀ p', Q (Ret None) p') → post (gethostbyname host) p Q.
Proof.
  intros H1 H2. unfold gethostbyname, hostcall, get_res_options, post, mbind, M_bind, call. cbn.
  destruct (answer (p_trace p) (sys_gethostbyname (p_res_options p) host)) eqn:E; cbn; [by apply H1|by apply H2].
Qed.

Lemma sroute_doopt_post o strict addrs host s p : route_inv strict addrs s → (List.length addrs < 9)%nat → strlen host < 1000 →
  post (sroute_doopt inet_aton 4 o strict host s) p (λ out _,
    out = Exit 1 ∨ ∃ s' a, out = Ret s' ∧ resolved host a ∧ route_inv strict (addrs ++ [a]) s').
Proof.
  intros Hinv Hn Hh. unfold sroute_doopt.
  assert (Hc : sroute_cnt s = Z.of_nat (List.length addrs)) by (destruct Hinv as [(-> & Hc)|(_ & Hc & _)]; done).
  rewrite (proj2 (Z.leb_gt 9 _)) by lia. apply post_bind.
  apply (post_weaken _ _ (λ out _, ∃ s1, out = Ret s1 ∧ route_built strict addrs s1)).
  { destruct Hinv as [(-> & H0)|(Hne & Hb)].
    - rewrite H0. eexists. split; [reflexivity|]. by split_and!; [|constructor| |].
    - destruct (Z.eqb_spec (sroute_cnt s) 0) as [E|_]; [destruct addrs; [done|simpl in *; lia]|]. by exists s. }
  clear Hinv Hc s. intros out p1 (s & -> & Hc & Hf & Ho & Hb). cbn [through].
  apply post_bind, (post_weaken _ _ (λ out _, out = Exit 1 ∨ ∃ a, out = Ret a ∧ resolved host a)).
  - unfold resolved. destruct (inet_aton host) as [a|] eqn:Ea.
    + pose proof (Haton _ _ Ea) as Hl. post_step. apply post_load_long; [done|]. cbn [through]. post_step. apply post_say.
      intros. cbn [through]. apply post_ret. eauto.
    + post_step. apply post_hostent; cbn [through]; [intros hp p2 Hhp|intros p2].
      * destruct (host_v4 _ _ _ _ Hhp) as (a & l & Hl & Ha). rewrite Hl. post_step. unfold ld. cbn [head]. post_steps.
        apply post_load_long; [done|]. cbn [through]. post_step. apply post_say. intros. cbn [through]. apply post_ret. right. eauto 10.
      * apply post_quit; [|intros; by left]. rewrite !strlen_app. change (strlen "unknown host: ") with 14. change (strlen nl) with 1. lia.
  - intros out p2 [->|(a & -> & Ha & Hres)]; cbn [through]; [by left|].
    destruct (append_addr strict 0 addrs a Hf Ha ltac:(lia)) as [Hfit Hput].
    unfold store_opt. rewrite Ho, Hb. rewrite (proj2 (Nat.leb_le _ _) Hfit). post_steps. right.
    eexists _, a. split; [reflexivity|]. split; [by split|]. right. split; [by destruct addrs|].
    rewrite Hput. split; [cbn; rewrite length_app, Hc; simpl; lia|]. split; [apply Forall_app; by split; [|constructor]|].
    split; [cbn; rewrite length_app; simpl; lia|done].
Qed.

Lemma route_taken strict len addrs dest : Forall (λ a, List.length a = 4%nat) addrs → List.length dest = 4%nat → (List.length addrs < 10)%nat →
  take (8 + 4 * List.length addrs) (route_bytes strict len (addrs ++ [dest])) =
  [if strict then IPOPT_SSRR else IPOPT_LSRR; len; 4] ++ List.concat addrs ++ dest ++ [0].
Proof.
  intros Hf Hd Hn. unfold route_bytes. rewrite List.concat_app, length_app. cbn [List.concat List.length]. rewrite app_nil_r.
  assert (Hr : (OPTSIZE - 3 - 4 * (List.length addrs + 1) = S (36 - 4 * List.length addrs))%nat) by (unfold OPTSIZE; lia).
  rewrite Hr. cbn [replicate].
  replace (8 + 4 * List.length addrs)%nat with (List.length ([if strict then IPOPT_SSRR else IPOPT_LSRR; len; 4] ++ List.concat addrs ++ dest ++ [0])).
  2: { rewrite !length_app, length_concat4, Hd by done. cbn [List.length]. lia. }
  replace ([if strict then IPOPT_SSRR else IPOPT_LSRR; len; 4] ++ (List.concat addrs ++ dest) ++ 0 :: replicate (36 - 4 * List.length addrs) 0)
    with (([if strict then IPOPT_SSRR else IPOPT_LSRR; len; 4] ++ List.concat addrs ++ dest ++ [0]) ++ replicate (36 - 4 * List.length addrs) 0)
    by by rewrite <- !app_assoc.
  by rewrite take_app_length.
Qed.

Lemma sroute_set_post o strict addrs fd port dest s p : addrs ≠ [] → route_built strict addrs s → (List.length addrs < 10)%nat → List.length dest = 4%nat →
  post (sroute_set 4 o fd (SaIn port dest) s) p (λ out p', out = Exit 1 ∨
    ∃ s', out = Ret s' ∧ sroute_cnt s' = 0 ∧
      Event (sys_setsockopt fd IPPROTO_IP IP_OPTIONS (route_opt strict addrs dest)) (Ok tt) ∈ p_trace p').
Proof.
  intros Hne (Hc & Hf & Ho & Hb) Hn Hd. unfold sroute_set. rewrite Hc, Ho, Hb.
  set (len := u8 (3 + (Z.of_nat (List.length addrs) + 1) * 4)).
  assert (Hlen : len = 3 + 4 * (Z.of_nat (List.length addrs) + 1)) by (unfold len, u8; rewrite Z.mod_small; lia).
  post_step. replace (store_opt (route_bytes strict 0 addrs) 1 [len]) with (mret (M := M) (route_bytes strict len addrs)) by done.
  post_steps. apply post_load_long; [done|]. cbn [through]. post_step.
  destruct (append_addr strict len addrs dest Hf Hd Hn) as [Hfit Hput].
  unfold store_opt. rewrite (proj2 (Nat.leb_le _ _) Hfit). post_steps. rewrite Hput.
  replace (ld (u8_at (route_bytes strict len (addrs ++ [dest])) 1)) with (mret (M := M) len) by done. post_steps.
  apply post_say. intros p1. cbn [through]. post_step. apply post_say. intros p2. cbn [through]. cbn zeta.
  assert (Hal : align4 (3 + 4 * List.length addrs + Z.to_nat 4) = (8 + 4 * List.length addrs)%nat).
  { unfold align4. change (Z.to_nat 4) with 4%nat.
    replace (Z.of_nat (3 + 4 * List.length addrs + 4) + 3) with (2 + (Z.of_nat (List.length addrs) + 2) * 4) by lia.
    rewrite Z.div_add by lia. change (2 / 4) with 0. lia. }
  rewrite Hal, route_taken by done.
  assert (Hroom : (8 + 4 * List.length addrs <=? List.length (route_bytes strict len (addrs ++ [dest])) = true)%nat).
  { apply Nat.leb_le. unfold route_bytes. rewrite !length_app, length_replicate, length_concat4 by (apply Forall_app; by split; [|constructor]).
    rewrite length_app. unfold OPTSIZE. simpl. lia. }
  rewrite Hroom. post_steps. unfold or_die. post_steps.
  - destruct a. right. eexists. split; [reflexivity|]. split; [done|]. unfold route_opt. rewrite <- Hlen. by left.
  - eapply post_weaken; [by apply sock_err_sys_post|]. intros out p' ->. by left.
Qed.

Definition route_option (strict : bool) (host : string) : ascii * string := (if strict then "G"%char else "g"%char, host).
Lemma set_routes_post o strict hosts : ∀ addrs s p, Forall (λ h, strlen h < 1000) hosts → (List.length addrs ≤ 9)%nat → route_inv strict addrs s →
  post (set_options inet_aton 4 o s (route_option strict <$> hosts)) p (λ out _,
    out = Exit 1 ∨ (List.length addrs + List.length hosts ≤ 9)%nat ∧
      ∃ s' addrs', out = Ret (o, s') ∧ Forall2 resolved hosts addrs' ∧ route_inv strict (addrs ++ addrs') s').
Proof.
  induction hosts as [|host hosts IH]; intros addrs s p Hh Hl Hinv; cbn [fmap list_fmap set_options].
  { post_steps. right. split; [simpl; lia|]. exists s, []. rewrite app_nil_r. by split_and!. }
  apply Forall_cons in Hh as [Hh1 Hh]. cbn [route_option].
  replace (set_option inet_aton 4 o s (if strict then "G"%char else "g"%char) host)
    with (s ← sroute_doopt inet_aton 4 o strict host s; mret (o, s)) by by destruct strict.
  post_step. post_step. destruct (decide (List.length addrs = 9%nat)) as [E|E].
  - assert (Hc : sroute_cnt s = 9) by (destruct Hinv as [(-> & _)|(_ & Hc & _)]; [done|lia]).
    unfold sroute_doopt. rewrite Hc. apply post_quit; [|intros; by left].
    rewrite strlen_app. change (strlen "too many source routes with: ") with 29. lia.
  - eapply post_weaken; [apply sroute_doopt_post; try done; lia|].
    intros out p' [->|(s' & a & -> & Hres & Hinv')]; cbn [through]; [by left|]. post_steps.
    eapply post_weaken; [apply (IH (addrs ++ [a])); try done; rewrite length_app; simpl; lia|].
    intros out p2 [->|[Hle (s2 & addrs' & -> & Hall & Hinv2)]]; [by left|right].
    rewrite length_app in Hle. simpl in *. split; [lia|]. exists s2, (a :: addrs').
    split; [done|]. split; [by constructor|]. by rewrite <- app_assoc in Hinv2.
Qed.
End route.

(** C35: the addresses given with -g or -G become the source route, in order and with
    the server at the end, of the length that its second byte says and filled to a whole number of
    words; more than nine, an unknown host or a refusal of the system end the program.  No store is
    outside the 44 bytes.  This is where [sizeof(u_long)] is 4. *)
Theorem sroute_option {K : Kernel} {SOk : StrerrorOk K} {IOk : InetOk K} (inet_aton : string → option (list Z))
    (o : opts) (strict : bool) (hosts : list string) (fd port : Z) (dest : list Z) (p : proc) :
  (∀ s a, inet_aton s = Some a → List.length a = 4%nat) →
  hosts ≠ [] → Forall (λ h, strlen h < 1000) hosts → List.length dest = 4%nat →
  post (r ← set_options inet_aton 4 o sroute0 (route_option strict <$> hosts);
        sroute_set 4 r.1 fd (SaIn port dest) r.2) p (λ out p',
    out = Exit 1 ∨
    (List.length hosts ≤ 9)%nat ∧ ∃ addrs s', Forall2 (resolved inet_aton) hosts addrs ∧ out = Ret s' ∧ sroute_cnt s' = 0 ∧
      Event (sys_setsockopt fd IPPROTO_IP IP_OPTIONS (route_opt strict addrs dest)) (Ok tt) ∈ p_trace p').
Proof.
  intros Ha Hne Hh Hd. apply post_bind. eapply post_weaken; [apply (set_routes_post inet_aton Ha o strict hosts [] sroute0); [done|simpl; lia|by left]|].
  intros out p1 [->|[Hl (s' & addrs & -> & Hall & Hinv)]]; cbn [through fst snd]; [by left|].
  simpl in Hl. pose proof (Forall2_length _ _ _ Hall) as Hlen.
  change ([] ++ addrs) with addrs in Hinv. destruct Hinv as [(-> & _)|(Hn & Hb)]; [by destruct hosts|].
  eapply post_weaken; [apply sroute_set_post; [exact Hn|exact Hb|simpl; lia|done]|].
  intros out p2 [->|(s2 & -> & Hc & He)]; [by left|right]. split; [done|]. by exists addrs, s2.
Qed.

(** ** Concrete runs *)

(** A system whose sockets have Internet addresses and whose options stay as set;
    addresses are read as libfree does. *)
Definition inet_kernel : Kernel := λ A t c,
  (match c in sys A return A → A with
   | sys_getsockname _ => λ _, Ok (SaIn 256 [10; 0; 0; 9])
   | sys_getsockopt _ _ _ _ => λ _, Ok 1
   | _ => λ a, a
   end) (plain t c).
#[global] Instance inet_kernel_strerror : StrerrorOk inet_kernel.
Proof. split. intros t e. by vm_compute. Qed.
#[global] Instance inet_kernel_ok : InetOk inet_kernel.
Proof. split; [done|]. intros t fd sa [= <-]. eauto. Qed.

Definition client_opts : opts := set keepalive 1 (set reuseaddr 1 opts0).
Lemma cliopen_acts_witness :
  (let out := @cliopen inet_kernel Inet.inet_aton 8 3 client_opts "10.0.0.1" "7" (None, None) sroute0 proc0 in
   (∃ b s, out.1 = Ret (0, SaIn (htons 7) [10; 0; 0; 1], b, s)) ∧
   seen act1 (p_trace out.2) =
     [Opened 0; Opt 0 SOL_SOCKET SO_REUSEADDR (le32_bytes 1); Conn 0 (SaIn (htons 7) [10; 0; 0; 1]);
      Opt 0 SOL_SOCKET SO_KEEPALIVE (le32_bytes 1)]) ∧
  post (@cliopen inet_kernel Inet.inet_aton 8 3 client_opts "10.0.0.1" "7" (None, None) sroute0) proc0 (λ out p',
    (out = Exit 1 ∧ seen act1 (p_trace p') = seen act1 (p_trace proc0)) ∨
    ∃ fd sa, @named inet_kernel Inet.inet_aton client_opts "10.0.0.1" "7" sa ∧
      follows act1 False (client_plan Inet.inet_aton client_opts fd sa) (λ '(fd', sa', _, _), fd' = fd ∧ sa' = sa) proc0 out p').
Proof.
  split; [vm_compute; split; [by eexists _, _|done]|]. by apply (cliopen_acts (K := inet_kernel)).
Defined.

Lemma sroute_option_witness :
  let hosts := ["10.0.0.1"; "10.0.0.2"]%string in
  post (r ← @set_options inet_kernel (λ s, a ← Inet.inet_aton s; if decide (List.length a = 4%nat) then Some a else None) 4
              opts0 sroute0 (route_option false <$> hosts);
        @sroute_set inet_kernel 4 r.1 3 (SaIn 0 [10; 0; 0; 3]) r.2) proc0 (λ out p',
    out = Exit 1 ∨ ∃ s', out = Ret s' ∧
      Event (sys_setsockopt 3 IPPROTO_IP IP_OPTIONS [131; 15; 4; 10; 0; 0; 1; 10; 0; 0; 2; 10; 0; 0; 3; 0]) (Ok tt) ∈ p_trace p').
Proof.
  intros hosts. eapply post_weaken.
  - apply (sroute_option (K := inet_kernel) _ opts0 false hosts 3 0 [10; 0; 0; 3] proc0); [|done| |done].
    + intros s a (b & Hb & H)%bind_Some. case_decide; [by injection H as <-|done].
    + repeat constructor; by vm_compute.
  - intros out p' [->|(_ & addrs & s' & Hall & -> & _ & He)]; [by left|right]. exists s'. split; [done|].
    unfold hosts in Hall. apply Forall2_cons_inv_l in Hall as (a & l & [_ Ha] & Hall & ->).
    apply Forall2_cons_inv_l in Hall as (b & l2 & [_ Hb] & Hall & ->). apply Forall2_nil_inv_l in Hall as ->.
    vm_compute in Ha, Hb. subst a b. exact He.
Defined.

(** ** Where the code does not do what it means *)

(** [IN_MULTICAST] is given the address in network byte order: a group is not
    joined, and a host whose last byte looks like a group's first is. *)
Example join_mcast_order :
  let calls a := List.length (p_trace (@join_mcast inet_kernel opts0 3 (SaIn 0 a) proc0).2) in
  calls [224; 0; 0; 1] = 0%nat ∧ calls [10; 0; 0; 224] = 1%nat.
Proof. by vm_compute. Qed.

(** Where [sizeof(u_long)] is 8 a source route reads beyond the address. *)
Example sroute_long : (@sroute_doopt inet_kernel Inet.inet_aton 8 opts0 false "10.0.0.1" sroute0 proc0).1 = UB.
Proof. by vm_compute. Qed.

(** A server whose service is unknown reports it and reads through [NULL]. *)
Example server_unknown : (@server_addr inet_kernel Inet.inet_aton opts0 None "nosuch" proc0).1 = UB.
Proof. by vm_compute. Qed.

(** [strcpy] to [localip] with an argument that is too long. *)
Example localip_overflow :
  (@set_option inet_kernel Inet.inet_aton 8 opts0 sroute0 "l" "0000010.0000000.0000000.00000001.80" proc0).1 = UB.
Proof. by vm_compute. Qed.

(** The usage message fits in the buffer of the reports. *)
Example usage_fits : (@usage inet_kernel unit "missing <port>" proc0).1 = Exit 1.
Proof. by vm_compute. Qed.
