(* ===== verification/Tellwait.v ===== *)
(** The sock server with -F: the parent in the loop of src/unpv13e/sock/servopen.c and
    its children, who tell each other by signals through tellwait.c.

    A state has the place of the parent in its code, the variable [sigflag], whether
    SIGUSR2 is pending for the parent and whether it blocks it, and what the last child has
    done.  A step is a statement of one process or the delivery of the signal, so that
    the executions are all the interleavings; [sigsuspend] takes its mask and waits in one
    step, as it is documented to.  [old] is whether the mask saved by [TELL_WAIT] has SIGUSR2: it
    is usually empty.  A call of the parent that fails ends the program and has no step; a call of the child that
    fails before it has told the parent ends the child. *)
From S2P Require Import Prelude.
From stdpp Require Import relations.

(** Where the parent is. *)
Inductive parent_pc :=
| P_accept      (** [accept], [fork], [close(newfd)] *)
| P_test        (** [while (sigflag == 0)] *)
| P_suspend     (** about to call [sigsuspend(&zeromask)] *)
| P_wait        (** in [sigsuspend] *)
| P_reset       (** [sigflag = 0] *)
| P_mask.       (** [sigprocmask(SIG_SETMASK, &oldmask, NULL)] *)

#[global] Instance parent_pc_eq : EqDecision parent_pc.
Proof. solve_decision. Defined.

(** The last child: [C_running] before [TELL_PARENT]; [C_failed] when an error ended it there. *)
Inductive child_pc := C_none | C_running | C_told | C_failed.

Record tw := Tw {
  pc : parent_pc;
  sigflag : bool;
  pending : bool;
  blocked : bool;
  child : child_pc;
  conns : nat         (** the connections accepted *)
}.

(** After [TELL_WAIT]. *)
Definition tw0 : tw := Tw P_accept false false true C_none 0.

Section tellwait.
Context (old : bool).

(** The handler [sig_usr], after which the parent is at [l]. *)
Definition sig_usr (l : parent_pc) (s : tw) : tw := Tw l true false (blocked s) (child s) (conns s).
Definition at_pc (l : parent_pc) (s : tw) : tw := Tw l (sigflag s) (pending s) (blocked s) (child s) (conns s).

(** The statement that the parent is at; [None] when it waits. *)
Definition parent_step (s : tw) : option tw :=
  match pc s with
  | P_accept => Some (Tw P_test (sigflag s) (pending s) (blocked s) C_running (S (conns s)))
  | P_test => Some (at_pc (if sigflag s then P_reset else P_suspend) s)
  | P_suspend => Some (at_pc P_wait s)
  | P_wait => if pending s then Some (sig_usr P_test s) else None
  | P_reset => Some (Tw P_mask false (pending s) (blocked s) (child s) (conns s))
  | P_mask => Some (Tw P_accept (sigflag s) (pending s) old (child s) (conns s))
  end.
(** [TELL_PARENT]: [kill(pid, SIGUSR2)]. *)
Definition child_step (s : tw) : option tw :=
  match child s with
  | C_running => Some (Tw (pc s) (sigflag s) true (blocked s) C_told (conns s))
  | _ => None
  end.
(** [err_sys] or [err_quit] in what the child does before. *)
Definition child_fails (s : tw) : option tw :=
  match child s with
  | C_running => Some (Tw (pc s) (sigflag s) (pending s) (blocked s) C_failed (conns s))
  | _ => None
  end.
(** The signal is delivered where it is not blocked; in [sigsuspend] this is the
    step of the parent. *)
Definition deliver (s : tw) : option tw :=
  match pc s with
  | P_wait => None
  | l => if pending s && negb (blocked s) then Some (sig_usr l s) else None
  end.

Inductive step (s s' : tw) : Prop :=
| step_parent : parent_step s = Some s' → step s s'
| step_child : child_step s = Some s' → step s s'
| step_failure : child_fails s = Some s' → step s s'
| step_signal : deliver s = Some s' → step s s'.

(** The parent waits for a signal that was delivered before it slept, or that will not come. *)
Definition lost (s : tw) : Prop := pc s = P_wait ∧ child s = C_told ∧ pending s = false.
Definition abandoned (s : tw) : Prop := pc s = P_wait ∧ child s = C_failed ∧ pending s = false.

(** ** The invariant *)

Definition waiting (l : parent_pc) : bool :=
  match l with P_test | P_suspend | P_wait => true | _ => false end.
(** The signal of the last child is in one place: not sent, pending, or in the
    flag; what is before [sigsuspend] depends on whether it is blocked. *)
Definition tw_inv (s : tw) : Prop :=
  match child s with
  | C_none => pc s = P_accept ∧ sigflag s = false ∧ pending s = false
  | C_running | C_failed => waiting (pc s) = true ∧ sigflag s = false ∧ pending s = false
  | C_told =>
      if waiting (pc s) then sigflag s = negb (pending s)
      else pending s = false ∧ sigflag s = match pc s with P_reset => true | _ => false end
  end ∧
  (blocked s = true → match pc s with P_suspend | P_wait => sigflag s = false | _ => True end) ∧
  (if decide (conns s = 0%nat) then pc s = P_accept ∧ blocked s = true ∧ child s = C_none
   else child s ≠ C_none ∧ blocked s = if decide (conns s = 1%nat) then (if decide (pc s = P_accept) then old else true) else old).

Lemma tw_inv_init : tw_inv tw0.
Proof. by vm_compute. Qed.
Lemma tw_inv_step s s' : tw_inv s → step s s' → tw_inv s'.
Proof.
  intros Hi [Hs|Hs|Hs|Hs]; destruct s as [l f pe b c n]; unfold tw_inv in *; cbn in *.
  all: destruct l, c, f, pe, b; cbn in *; simplify_eq/=; repeat case_decide; simplify_eq/=; naive_solver lia.
Qed.
Lemma tw_inv_reached s : rtc step tw0 s → tw_inv s.
Proof.
  intros H. assert (Hind : ∀ a b, rtc step a b → tw_inv a → tw_inv b); [|by eapply Hind, tw_inv_init].
  induction 1 as [|a b d Hab _ IH]; [done|]. intros Ha. by eapply IH, tw_inv_step.
Qed.

(** ** The end of a round *)

Definition pc_weight (l : parent_pc) : nat :=
  match l with P_test => 5 | P_suspend => 4 | P_wait => 3 | P_reset => 2 | P_mask => 1 | P_accept => 0 end%nat.
(** The steps that are left before the parent accepts again. *)
Definition weight (s : tw) : nat :=
  (pc_weight (pc s) + (if pending s then 5 else 0) + match child s with C_running => 10 | _ => 0 end)%nat.
(** The steps of a round: no connection is accepted. *)
Definition round (s s' : tw) : Prop := step s s' ∧ conns s' = conns s.

Lemma round_weight s s' : round s s' → (weight s' < weight s)%nat.
Proof.
  intros [[Hs|Hs|Hs|Hs] Hc]; destruct s as [l f pe b c n]; unfold weight in *; cbn in *.
  all: destruct l, c, f, pe, b; cbn in *; try discriminate; injection Hs as <-; cbn in *; lia.
Qed.
Lemma rounds_weight n s s' : nsteps round n s s' → (n + weight s' ≤ weight s)%nat.
Proof. induction 1 as [|n a b d Hab _ IH]; [lia|]. apply round_weight in Hab. lia. Qed.

Lemma tw_progress s : tw_inv s → (∃ s', step s s') ∨ lost s ∨ abandoned s.
Proof.
  intros (Hc & _). destruct (pc s) eqn:Hl; try (left; eexists; apply step_parent; unfold parent_step; by rewrite Hl).
  destruct (child s) eqn:Hch; [naive_solver|left; eexists; apply step_child; unfold child_step; by rewrite Hch| |];
  [destruct (pending s) eqn:Hp; [left; eexists; apply step_parent; unfold parent_step; by rewrite Hl, Hp|by right; left]|right; right].
  by destruct Hc as (_ & _ & Hp).
Qed.
Lemma stuck s s' : lost s ∨ abandoned s → ¬ step s s'.
Proof.
  intros [(Hl & Hc & Hp)|(Hl & Hc & Hp)] [Hs|Hs|Hs|Hs]; unfold parent_step, child_step, child_fails, deliver in Hs;
    rewrite ?Hl, ?Hc, ?Hp in Hs; done.
Qed.
Lemma lost_when s : tw_inv s → lost s → old = false ∧ (2 ≤ conns s)%nat.
Proof.
  intros (Hc & Hb & Hn) (Hl & Ht & Hp). rewrite Ht, Hl in Hc. cbn in Hc. rewrite Hp in Hc. cbn in Hc.
  rewrite Hl in Hb, Hn. case_decide; [naive_solver|]. destruct Hn as [_ Hn].
  case_decide; [rewrite decide_False in Hn by done; specialize (Hb Hn); congruence|].
  split; [|lia]. destruct old; [|done]. specialize (Hb Hn). congruence.
Qed.
End tellwait.

(** C22: whatever the interleaving, and whether its children tell it or end by an error before, the parent of the sock
    server accepts a connection only
    when the child of the last one has told it that it is done with the terminal; from the
    acceptance of a connection to the next there is a bounded number of steps; and a step can always be taken unless the parent
    sleeps for ever: on a child that ended before it told, or on a signal that had already come, which does not happen with the
    first connection, nor ever when the saved mask blocks the signal. *)
Theorem tell_wait_rounds (old : bool) (s : tw) :
  rtc (step old) tw0 s →
  (pc s = P_accept → child s = C_none ∨ child s = C_told) ∧
  (∀ n s', nsteps (round old) n s s' → (n + weight s' ≤ weight s)%nat) ∧
  ((∃ s', step old s s') ∨ (lost s ∧ old = false ∧ (2 ≤ conns s)%nat) ∨ abandoned s).
Proof.
  intros Hr%tw_inv_reached. split_and!.
  - intros Hl. destruct Hr as [Hr _]. rewrite Hl in Hr. destruct (child s); naive_solver.
  - intros n s'. apply rounds_weight.
  - destruct (tw_progress old s Hr) as [|[Hlost|Hab]]; [by left|right; left|by right; right]. split; [done|]. by apply lost_when.
Qed.

(** The run of a list of choices: the parent, the child, its failure, the signal. *)
Inductive who := Par | Chi | Err | Sig.
Definition move (old : bool) (w : who) (s : tw) : option tw :=
  match w with Par => parent_step old s | Chi => child_step s | Err => child_fails s | Sig => deliver s end.
Fixpoint moves (old : bool) (ws : list who) (s : tw) : option tw :=
  match ws with [] => Some s | w :: ws => s ← move old w s; moves old ws s end.
Lemma moves_steps old ws : ∀ s s', moves old ws s = Some s' → rtc (step old) s s'.
Proof.
  induction ws as [|w ws IH]; intros s s' H; [by injection H as ->; apply rtc_refl|].
  cbn in H. apply bind_Some in H as (s1 & H1 & H2). eapply rtc_l; [|by apply IH].
  destruct w; [by apply step_parent|by apply step_child|by apply step_failure|by apply step_signal].
Qed.

(** A connection from its acceptance to the next, the child first. *)
Definition quick : list who := [Par; Chi; Sig; Par; Par; Par].
Definition first : list who := [Par; Par; Par; Chi; Par; Par; Par; Par].
Lemma tell_wait_rounds_witness :
  ∃ s, rtc (step false) tw0 s ∧ conns s = 3%nat ∧ pc s = P_accept ∧ (pc s = P_accept → child s = C_none ∨ child s = C_told).
Proof.
  destruct (moves false (first ++ quick ++ quick) tw0) as [s|] eqn:E; [|vm_compute in E; discriminate].
  exists s. pose proof (moves_steps _ _ _ _ E) as Hr. split; [exact Hr|].
  pose proof (proj1 (tell_wait_rounds false s Hr)) as H. vm_compute in E. injection E as <-. done.
Defined.

(** With the second connection the wake-up can be lost: [WAIT_CHILD] has put back the mask that
    [TELL_WAIT] saved, so that the signal is delivered between the test of [sigflag] and
    [sigsuspend]; the parent then never accepts again. *)
Theorem tell_wait_lost : ∃ s, rtc (step false) tw0 s ∧ lost s ∧ conns s = 2%nat ∧ ∀ s', ¬ step false s s'.
Proof.
  destruct (moves false (first ++ [Par; Par; Chi; Sig; Par]) tw0) as [s|] eqn:E; [|vm_compute in E; discriminate].
  exists s. split; [by eapply moves_steps|].
  assert (Hl : lost s) by (vm_compute in E; injection E as <-; done).
  split; [exact Hl|]. split; [by vm_compute in E; injection E as <-|]. intros s'. apply stuck. by left.
Qed.

(** A child that ends by an error before it has told its parent leaves it asleep: no other connection is
    accepted. *)
Theorem tell_wait_abandoned old : ∃ s, rtc (step old) tw0 s ∧ abandoned s ∧ conns s = 1%nat ∧ ∀ s', ¬ step old s s'.
Proof.
  exists (Tw P_wait false false true C_failed 1). split; [by eapply (moves_steps old [Par; Err; Par; Par])|].
  split; [done|]. split; [done|]. intros s'. apply stuck. by right.
Qed.
