(* ===== verification/Key.v ===== *)
(** The PF_KEY programs (src/unpv13e/key): messages of security associations in
    memory, their construction (add.c, register.c, dump.c) and their printing
    (printsadbmsg.c, name.c).

    The structures and numbers are those of RFC 2367; the algorithms under an
    [#ifdef SADB_X_...] are extensions that it does not have.  The text of a time in the local
    zone is a parameter.  A [%d] given a 64-bit argument, undefined in ISO C, prints
    its low 32 bits, as on the configured system. *)
From S2P Require Import Prelude Machine Posix Wrap Frame Inet Sockaddr Packet Gai NetLib.

Definition PF_KEY : Z := 15.
Definition PF_KEY_V2 : Z := 2.
Definition SADB_ADD : Z := 3.
Definition SADB_REGISTER : Z := 7.
Definition SADB_DUMP : Z := 10.
Definition SADB_SATYPE_UNSPEC : Z := 0.
Definition SADB_SATYPE_AH : Z := 2.
Definition SADB_SATYPE_ESP : Z := 3.
Definition SADB_SASTATE_MATURE : Z := 1.
Definition SADB_SAFLAGS_PFS : Z := 1.
Definition SADB_EXT_SA : Z := 1.
Definition SADB_EXT_LIFETIME_CURRENT : Z := 2.
Definition SADB_EXT_LIFETIME_HARD : Z := 3.
Definition SADB_EXT_ADDRESS_SRC : Z := 5.
Definition SADB_EXT_ADDRESS_DST : Z := 6.
Definition SADB_EXT_KEY_AUTH : Z := 8.
Definition SADB_EXT_SUPPORTED_AUTH : Z := 14.
Definition IPPROTO_TCP : Z := 6.
Definition BUFLEN : nat := 4096.
(** [sizeof] of the structures. *)
Definition SIZEOF_MSG : Z := 16.
Definition SIZEOF_SA : Z := 16.
Definition SIZEOF_ADDRESS : Z := 8.
Definition SIZEOF_KEY : Z := 8.
Definition SIZEOF_SUPPORTED : Z := 8.
Definition SIZEOF_ALG : Z := 8.

(** ** name.c *)

Definition idlist : Type := list (Z * string).
Definition satype : idlist :=
  [(0, "unspec"); (2, "ah"); (3, "esp"); (5, "rsvp"); (6, "ospfv2"); (7, "ripv2"); (8, "mip")]%string.
Definition ahalg : idlist := [(0, "none"); (2, "HMAC-MD5-96"); (3, "HMAC-SHA-1-96")]%string.
Definition espalg : idlist := [(0, "none"); (2, "DES-CBC"); (3, "3DES-CBC"); (11, "NULL")]%string.

Fixpoint idlistlookup (name : string) (il : idlist) : Z :=
  match il with
  | [] => -1
  | (val, n) :: il => if strcmp name n =? 0 then val else idlistlookup name il
  end.
Definition getsatypebyname (name : string) : Z := idlistlookup name satype.
Definition getsaalgbyname (type : Z) (name : string) : Z :=
  if type =? SADB_SATYPE_AH then idlistlookup name ahalg
  else if type =? SADB_SATYPE_ESP then idlistlookup name espalg
  else -1.

(** ** printsadbmsg.c: names *)

(** The cases of a [switch] that return a text, and its default. *)
Fixpoint switch (cases : list (Z * string)) (n : Z) (default_ : string) : string :=
  match cases with
  | [] => default_
  | (m, s) :: cases => if n =? m then s else switch cases n default_
  end.
Definition unknown (what : string) (n : Z) : string := "[Unknown " +:+ what +:+ " " +:+ fmt_d n +:+ "]".
Definition get_sadb_msg_type (type : Z) : string :=
  switch [(0, "Reserved"); (1, "Get SPI"); (2, "Update"); (3, "Add"); (4, "Delete"); (5, "Get"); (6, "Acquire");
          (7, "Register"); (8, "Expire"); (9, "Flush"); (10, "Dump")]%string type (unknown "type" type).
Definition get_sadb_satype (type : Z) : string :=
  switch [(0, "Unspecified"); (2, "IPsec AH"); (3, "IPsec ESP"); (5, "RSVP"); (6, "OSPFv2"); (7, "RIPv2");
          (8, "Mobile IP")]%string type (unknown "satype" type).
Definition get_auth_alg (alg : Z) : string :=
  switch [(0, "None"); (2, "HMAC-MD5"); (3, "HMAC-SHA-1")]%string alg (unknown "authentication algorithm" alg).
Definition get_encrypt_alg (alg : Z) : string :=
  switch [(0, "None"); (2, "DES-CBC"); (3, "3DES-CBC"); (11, "Null")]%string alg (unknown "encryption algorithm" alg).
Definition get_sa_state (state : Z) : string :=
  switch [(0, "Larval"); (1, "Mature"); (2, "Dying"); (3, "Dead")]%string state (unknown "SA state" state).
Definition get_sadb_alg_type (alg authenc : Z) : string :=
  if authenc =? SADB_EXT_SUPPORTED_AUTH then get_auth_alg alg else get_encrypt_alg alg.

(** [%02x] of a byte. *)
Definition fmt_02x (b : Z) : string := if b <? 16 then String "0" (fmt_x b) else fmt_x b.

(** The address at offset [i]: its family, then the fields of its structure. *)
Definition sa_at (buf : list Z) (i : Z) : option sockaddr :=
  family ← u16_at buf i;
  if family =? AF_INET then port ← u16_at buf (i + 2); addr ← bytes_at buf (i + 4) 4; Some (SaIn port addr)
  else if family =? AF_INET6 then port ← u16_at buf (i + 2); addr ← bytes_at buf (i + 8) 16; Some (SaIn6 port addr)
  else if family =? AF_UNIX then Some (SaUn (chr <$> take 108 (drop (Z.to_nat (i + 2)) buf)))
  else Some (SaOther family []).

Section key.
Context {K : Kernel} {R : Resolver} (localtime_c : Z → string).

(** ** printsadbmsg.c: an extension at offset [ext] of the buffer *)

Section print.
Context (buf : list Z).

Definition sa_print (ext : Z) : M unit :=
  spi ← ld (u32_at buf (ext + 4));
  replay ← ld (u8_at buf (ext + 8));
  state ← ld (u8_at buf (ext + 9));
  printf (" SA: SPI=" +:+ fmt_d (i32 spi) +:+ " Replay Window=" +:+ fmt_d replay +:+ " State=" +:+
          get_sa_state state +:+ nl) ;;
  auth ← ld (u8_at buf (ext + 10));
  printf ("  Authentication Algorithm: " +:+ get_auth_alg auth +:+ nl) ;;
  encrypt ← ld (u8_at buf (ext + 11));
  printf ("  Encryption Algorithm: " +:+ get_encrypt_alg encrypt +:+ nl) ;;
  flags ← ld (u32_at buf (ext + 12));
  if has flags SADB_SAFLAGS_PFS then printf ("  Perfect Forward Secrecy" +:+ nl) else mret tt.

(** [for (alg = ...; len > 0; len -= sizeof( *alg), alg++)] *)
Fixpoint supported_loop (fuel : nat) (exttype alg len : Z) : M unit :=
  if len <=? 0 then mret tt
  else
    match fuel with
    | O => stop NoFuel
    | S fuel =>
        id ← ld (u8_at buf alg);
        ivlen ← ld (u8_at buf (alg + 1));
        minbits ← ld (u16_at buf (alg + 2));
        maxbits ← ld (u16_at buf (alg + 4));
        printf ("  " +:+ get_sadb_alg_type id exttype +:+ " ivlen " +:+ fmt_d ivlen +:+ " bits " +:+
                fmt_d minbits +:+ "-" +:+ fmt_d maxbits +:+ nl) ;;
        supported_loop fuel exttype (alg + SIZEOF_ALG) (len - SIZEOF_ALG)
    end.
Definition supported_print (ext : Z) : M unit :=
  exttype ← ld (u16_at buf (ext + 2));
  printf (" Supported " +:+ (if exttype =? SADB_EXT_SUPPORTED_AUTH then "authentication" else "encryption") +:+
          " algorithms:" +:+ nl) ;;
  extlen ← ld (u16_at buf ext);
  let len := extlen * 8 - SIZEOF_SUPPORTED in
  if len =? 0 then printf ("  None" +:+ nl)
  else supported_loop (Z.to_nat len) exttype (ext + SIZEOF_SUPPORTED) len.

Definition lifetime_print (ext : Z) : M unit :=
  exttype ← ld (u16_at buf (ext + 2));
  printf (" " +:+ (if exttype =? SADB_EXT_LIFETIME_CURRENT then "Current"
                   else if exttype =? SADB_EXT_LIFETIME_HARD then "Hard" else "Soft") +:+ " lifetime:" +:+ nl) ;;
  allocations ← ld (u32_at buf (ext + 4));
  bytes ← ld (le_at buf (ext + 8) 8);
  printf ("  " +:+ fmt_d (i32 allocations) +:+ " allocations, " +:+ fmt_d (i32 bytes) +:+ " bytes") ;;
  addtime ← ld (le_at buf (ext + 16) 8);
  usetime ← ld (le_at buf (ext + 24) 8);
  if exttype =? SADB_EXT_LIFETIME_CURRENT then
    printf (nl +:+ "  added at " +:+ localtime_c (i64_of addtime) +:+ ", ") ;;
    if usetime =? 0 then printf ("never used" +:+ nl)
    else printf ("first used at " +:+ localtime_c (i64_of usetime) +:+ nl)
  else printf (fmt_d (i32 addtime) +:+ " addtime, " +:+ fmt_d (i32 usetime) +:+ " usetime" +:+ nl).

Definition address_print (ext : Z) : M unit :=
  exttype ← ld (u16_at buf (ext + 2));
  printf (" " +:+ (if exttype =? SADB_EXT_ADDRESS_SRC then "Source"
                   else if exttype =? SADB_EXT_ADDRESS_DST then "Dest" else "Proxy") +:+ " address: ") ;;
  sa ← ld (sa_at buf (ext + SIZEOF_ADDRESS));
  extlen ← ld (u16_at buf ext);
  text ← sock_ntop sa (extlen * 8 - SIZEOF_ADDRESS);
  printf ("  " +:+ default "(null)" text) ;;
  prefixlen ← ld (u8_at buf (ext + 5));
  printf (if prefixlen =? 0 then " " else "/" +:+ fmt_d prefixlen +:+ " ") ;;
  proto ← ld (u8_at buf (ext + 4));
  (if proto =? IPPROTO_UDP then printf "(UDP)"
   else if proto =? IPPROTO_TCP then printf "(TCP)"
   else if proto =? 0 then mret tt
   else printf ("(IP proto " +:+ fmt_d proto +:+ ")")) ;;
  printf nl.

(** [for (bits = ...; bits > 0; p++, bits -= 8)] *)
Fixpoint key_bytes (fuel : nat) (p bits : Z) : M unit :=
  if bits <=? 0 then mret tt
  else
    match fuel with
    | O => stop NoFuel
    | S fuel => b ← ld (u8_at buf p); printf (fmt_02x b) ;; key_bytes fuel (p + 1) (bits - 8)
    end.
Definition key_print (ext : Z) : M unit :=
  exttype ← ld (u16_at buf (ext + 2));
  bits ← ld (u16_at buf (ext + 4));
  printf (" " +:+ (if exttype =? SADB_EXT_KEY_AUTH then "Authentication" else "Encryption") +:+ " key, " +:+
          fmt_d bits +:+ " bits: 0x") ;;
  key_bytes (Z.to_nat bits) (ext + SIZEOF_KEY) bits ;;
  printf nl.

(** The [switch] on the type of an extension. *)
Definition ext_print (ext : Z) : M unit :=
  type ← ld (u16_at buf (ext + 2));
  if type =? 0 then printf (" Reserved Extension" +:+ nl)
  else if type =? 1 then sa_print ext
  else if (2 <=? type) && (type <=? 4) then lifetime_print ext
  else if (5 <=? type) && (type <=? 7) then address_print ext
  else if (8 <=? type) && (type <=? 9) then key_print ext
  else if (10 <=? type) && (type <=? 11) then printf (" [identity...]" +:+ nl)
  else if type =? 12 then printf (" [sensitivity...]" +:+ nl)
  else if type =? 13 then printf (" [proposal...]" +:+ nl)
  else if (14 <=? type) && (type <=? 15) then supported_print ext
  else if type =? 16 then printf (" [spirange...]" +:+ nl)
  else printf (" [unknown extension " +:+ fmt_d type +:+ "]" +:+ nl).

(** [while (msglen > 0)] *)
Fixpoint ext_loop (fuel : nat) (ext msglen : Z) : M unit :=
  if msglen <=? 0 then mret tt
  else
    match fuel with
    | O => stop NoFuel
    | S fuel =>
        ext_print ext ;;
        extlen ← ld (u16_at buf ext);
        ext_loop fuel (ext + Z.shiftl extlen 3) (msglen - Z.shiftl extlen 3)
    end.

Definition print_sadb_msg (fuel : nat) (msglen : Z) : M unit :=
  len ← ld (u16_at buf 4);
  if negb (msglen =? len * 8) then
    err_msg ("SADB Message length (" +:+ fmt_d (len * 8) +:+ ") doesn't match msglen (" +:+ fmt_d msglen +:+ ")" +:+ nl)
  else
    version ← ld (u8_at buf 0);
    if negb (version =? PF_KEY_V2) then err_msg ("SADB Message version not PF_KEY_V2" +:+ nl)
    else
      type ← ld (u8_at buf 1);
      errno ← ld (u8_at buf 2);
      satype ← ld (u8_at buf 3);
      seq ← ld (u32_at buf 8);
      pid ← ld (u32_at buf 12);
      printf ("SADB Message " +:+ get_sadb_msg_type type +:+ ", errno " +:+ fmt_d errno +:+ ", satype " +:+
              get_sadb_satype satype +:+ ", seq " +:+ fmt_d (i32 seq) +:+ ", pid " +:+ fmt_d (i32 pid) +:+ nl) ;;
      (if negb (errno =? 0) then
         text ← call (sys_strerror errno);
         printf (" errno " +:+ text +:+ nl)
       else mret tt) ;;
      if msglen =? SIZEOF_MSG then mret tt
      else ext_loop fuel SIZEOF_MSG (msglen - SIZEOF_MSG).
End print.

(** ** add.c *)

(** A store of [bs] at offset [i] of the buffer. *)
Definition st (buf : list Z) (i : nat) (bs : list Z) : M (list Z) :=
  if (i + List.length bs <=? List.length buf)%nat then mret (put buf i bs) else stop UB.
(** The bytes of an address: the structures have no other field that is not zero. *)
Definition sa_bytes (sa : sockaddr) : list Z :=
  match sa with
  | SaIn port addr => sockaddr_in_bytes port addr
  | SaIn6 port addr => sockaddr_in6_bytes port addr
  | _ => []
  end.
Definition salen (sa : sockaddr) : Z :=
  match sa with SaIn _ _ => SIZEOF_SOCKADDR_IN | SaIn6 _ _ => SIZEOF_SOCKADDR_IN6 | _ => 0 end.
Definition prefix_all (sa : sockaddr) : Z :=
  match sa with SaIn _ _ => 32 | SaIn6 _ _ => 128 | _ => 0 end.

(** The fields of the structures, in the order of their bytes. *)
Definition msg_bytes (version type errno satype len seq pid : Z) : list Z :=
  [u8 version; u8 type; u8 errno; u8 satype] ++ le_bytes 2 len ++ le_bytes 2 0 ++ le_bytes 4 seq ++ le_bytes 4 pid.
Definition sa_ext_bytes (len exttype spi replay state auth encrypt flags : Z) : list Z :=
  le_bytes 2 len ++ le_bytes 2 exttype ++ le_bytes 4 spi ++ [u8 replay; u8 state; u8 auth; u8 encrypt] ++ le_bytes 4 flags.
Definition address_bytes (len exttype proto prefixlen : Z) : list Z :=
  le_bytes 2 len ++ le_bytes 2 exttype ++ [u8 proto; u8 prefixlen] ++ le_bytes 2 0.
Definition key_ext_bytes (len exttype bits : Z) : list Z :=
  le_bytes 2 len ++ le_bytes 2 exttype ++ le_bytes 2 bits ++ le_bytes 2 0.
Definition htonl (z : Z) : Z := foldr (λ b v, b + 256 * v) 0 (be32 (u32 z)).

(** An address extension at [p]; what it adds to [len] and [p]. *)
Definition put_address (buf : list Z) (p : Z) (exttype : Z) (sa : sockaddr) : M (list Z * Z) :=
  let extlen := (SIZEOF_ADDRESS + salen sa + 7) / 8 in
  buf ← st buf (Z.to_nat p) (address_bytes extlen exttype 0 (prefix_all sa));
  buf ← st buf (Z.to_nat (p + SIZEOF_ADDRESS)) (sa_bytes sa);
  mret (buf, u16 extlen * 8).

(** The request: the buffer and [len]. *)
Definition add_request (src dst : sockaddr) (type alg spi keybits : Z) (keydata : list Z) (pid : Z) : M (list Z * Z) :=
  let buf := replicate BUFLEN 0 in
  buf ← st buf 0 (msg_bytes PF_KEY_V2 SADB_ADD 0 type 0 0 pid);
  let len := SIZEOF_MSG in
  buf ← st buf (Z.to_nat len)
    (sa_ext_bytes (SIZEOF_SA / 8) SADB_EXT_SA (htonl spi) 0 SADB_SASTATE_MATURE alg 0 0);
  let len := len + SIZEOF_SA / 8 * 8 in
  '(buf, n) ← put_address buf len SADB_EXT_ADDRESS_SRC src;
  let len := len + n in
  '(buf, n) ← put_address buf len SADB_EXT_ADDRESS_DST dst;
  let len := len + n in
  let keybytes := Z.quot keybits 8 in
  let extlen := u64 (SIZEOF_KEY + keybytes + 7) / 8 in
  buf ← st buf (Z.to_nat len) (key_ext_bytes extlen SADB_EXT_KEY_AUTH keybits);
  key ← ld (bytes_at keydata 0 keybytes);
  buf ← (if 0 <=? keybytes then st buf (Z.to_nat (len + SIZEOF_KEY)) key else stop UB);
  let len := len + u16 extlen * 8 in
  buf ← st buf 4 (le_bytes 2 (Z.quot len 8));
  mret (buf, len).

(** The replies up to the one to this request. *)
Fixpoint reply_loop (fuel : nat) (s mypid type : Z) (buf : list Z) : M unit :=
  match fuel with
  | O => stop NoFuel
  | S fuel =>
      bs ← Read s (Z.of_nat BUFLEN);
      buf ← st buf 0 bs;
      pid ← ld (u32_at buf 12);
      t ← ld (u8_at buf 1);
      if (pid =? u32 mypid) && (t =? type) then print_sadb_msg buf BUFLEN (Z.of_nat (List.length bs))
      else reply_loop fuel s mypid type buf
  end.

Definition sadb_add (fuel : nat) (src dst : sockaddr) (type alg spi keybits : Z) (keydata : list Z) : M unit :=
  s ← Socket PF_KEY SOCK_RAW PF_KEY_V2;
  mypid ← call sys_getpid;
  pid ← call sys_getpid;
  '(buf, len) ← add_request src dst type alg spi keybits keydata pid;
  printf ("Sending add message:" +:+ nl) ;;
  print_sadb_msg buf BUFLEN len ;;
  Write s (take (Z.to_nat len) buf) ;;
  printf (nl +:+ "Reply returned:" +:+ nl) ;;
  reply_loop fuel s mypid SADB_ADD buf ;;
  syscall (sys_close s) ;; mret tt.

(** *** main *)

Definition hex_value (c : ascii) : option Z :=
  if isdigit c then Some (ord c - 48)
  else if (97 <=? ord c) && (ord c <=? 102) then Some (ord c - 87)
  else if (65 <=? ord c) && (ord c <=? 70) then Some (ord c - 55)
  else None.
(** [sscanf(s, "%2x", &c)]: white space, then at most two characters: a sign, a prefix
    0x, digits. *)
Definition scan_2x (s : string) : option Z :=
  match skip_space s with
  | String c s =>
      match hex_value c, s with
      | Some v, String d _ =>
          if (ord c =? 48) && ((ord d =? 120) || (ord d =? 88)) then None
          else match hex_value d with Some w => Some (16 * v + w) | None => Some v end
      | Some v, EmptyString => Some v
      | None, String d _ =>
          if ord c =? 43 then hex_value d
          else if ord c =? 45 then (λ w, u32 (- w)) <$> hex_value d
          else None
      | None, EmptyString => None
      end
  | EmptyString => None
  end.

(** The digits of a base at the beginning of a text: their value and how many. *)
Fixpoint scan_base (base acc : Z) (n : nat) (s : string) : Z * nat :=
  match s with
  | String c s' =>
      match hex_value c with
      | Some v => if v <? base then scan_base base (acc * base + v) (S n) s' else (acc, n)
      | None => (acc, n)
      end
  | EmptyString => (acc, n)
  end.
(** [strtoul(s, &ep, 0)]: the value and [*ep]; [None] when [ep] is [s]. *)
Definition strtoul0 (s : string) : option (Z * string) :=
  let t := skip_space s in
  let '(neg, t) := match t with
    | String "-" t' => (true, t') | String "+" t' => (false, t') | _ => (false, t) end in
  let base := match t with
    | String "0" (String x (String d _)) =>
        if ((ord x =? 120) || (ord x =? 88)) && isxdigit d then 16 else 8
    | String "0" _ => 8
    | _ => 10 end in
  let t := if base =? 16 then str_drop 2 t else t in
  match scan_base base 0 0 t with
  | (_, O) => None
  | (v, n) => let v := Z.min v (2 ^ 64 - 1) in Some (u64 (if neg : bool then - v else v), str_drop n t)
  end.

(** [for (i = 0; i < keybits; i += 8)]: the bytes stored, and the rest of the text. *)
Fixpoint key_loop (fuel : nat) (arg : string) (keybits i : Z) (p : string) (kp : list Z) : M (list Z * string) :=
  if keybits <=? i then mret (kp, p)
  else
    match fuel with
    | O => stop NoFuel
    | S fuel =>
        if strlen p <? 2 then
          err_quit (arg +:+ ": not enough bytes (expected " +:+ fmt_d (Z.quot keybits 8) +:+ ")" +:+ nl)
        else
          match scan_2x p with
          | None => err_quit (arg +:+ " contains invalid hex digit" +:+ nl)
          | Some c => key_loop fuel arg keybits (i + 8) (str_drop 2 p) (kp ++ [u8 c])
          end
    end.
Definition key_arg (arg : string) (keybits : Z) : M (list Z) :=
  let p := match arg with
    | String "0" (String x p) => if (ord x =? 120) || (ord x =? 88) then p else arg
    | _ => arg end in
  r ← malloc (u64 (Z.quot keybits 8));
  '(keydata, p) ← match r with
    | Some _ => key_loop (Z.to_nat keybits) arg keybits 0 p []
    | None =>
        if 0 <? keybits then
          if strlen p <? 2 then
            err_quit (arg +:+ ": not enough bytes (expected " +:+ fmt_d (Z.quot keybits 8) +:+ ")" +:+ nl)
          else match scan_2x p with
               | None => err_quit (arg +:+ " contains invalid hex digit" +:+ nl)
               | Some _ => stop UB   (** [*kp++ = c] through a null pointer *)
               end
        else mret ([], p)
    end;
  if 0 <? strlen p then err_quit (arg +:+ ": too many bytes (expected " +:+ fmt_d (Z.quot keybits 8) +:+ ")" +:+ nl)
  else mret keydata.
Definition bits_arg (arg : string) : M Z :=
  match strtoul0 arg with
  | Some (v, "") =>
      let keybits := i32 v in
      if Z.rem keybits 8 =? 0 then mret keybits else err_quit ("Invalid number of bits " +:+ arg +:+ nl)
  | _ => err_quit ("Invalid number of bits " +:+ arg +:+ nl)
  end.
Definition lookup_arg (arg : string) : M addrinfo :=
  '(ret, res) ← gai (Some arg) None (Some (Hints 0 0 0 0));
  if negb (ret =? 0) then err_quit (arg +:+ ": " +:+ gai_error ret +:+ nl)
  else ld (head res).
Definition add_main (fuel : nat) (a1 a2 a3 a4 a5 : string) : M unit :=
  src ← lookup_arg a1;
  dst ← lookup_arg a2;
  if negb (ai_family src =? ai_family dst) then
    err_quit (a1 +:+ " and " +:+ a2 +:+ " not same addr family" +:+ nl)
  else
    let alg := getsaalgbyname SADB_SATYPE_AH a3 in
    if alg <? 0 then err_quit ("Unknown SA type / algorithm pair ah/" +:+ a3 +:+ nl)
    else
      keybits ← bits_arg a4;
      keydata ← key_arg a5 keybits;
      src ← ld (snd <$> ai_addr src);
      dst ← ld (snd <$> ai_addr dst);
      sadb_add fuel src dst SADB_SATYPE_AH alg 39030 keybits keydata.

(** ** register.c and dump.c *)

(** [stale] is what the uninitialised [buf] holds. *)
Definition sadb_register (fuel : nat) (stale : list Z) (type : Z) : M unit :=
  s ← Socket PF_KEY SOCK_RAW PF_KEY_V2;
  mypid ← call sys_getpid;
  let msg := msg_bytes PF_KEY_V2 SADB_REGISTER 0 type (SIZEOF_MSG / 8) 0 mypid in
  printf ("Sending register message:" +:+ nl) ;;
  print_sadb_msg msg 1 SIZEOF_MSG ;;
  Write s msg ;;
  printf (nl +:+ "Reply returned:" +:+ nl) ;;
  reply_loop fuel s mypid SADB_REGISTER stale ;;
  syscall (sys_close s) ;; mret tt.

Fixpoint dump_loop (fuel : nat) (s : Z) (buf : list Z) : M unit :=
  match fuel with
  | O => stop NoFuel
  | S fuel =>
      bs ← Read s (Z.of_nat BUFLEN);
      buf ← st buf 0 bs;
      print_sadb_msg buf BUFLEN (Z.of_nat (List.length bs)) ;;
      seq ← ld (u32_at buf 8);
      if seq =? 0 then mret tt else dump_loop fuel s buf
  end.
Definition sadb_dump (fuel : nat) (stale : list Z) (type : Z) : M unit :=
  s ← Socket PF_KEY SOCK_RAW PF_KEY_V2;
  pid ← call sys_getpid;
  let msg := msg_bytes PF_KEY_V2 SADB_DUMP 0 type (SIZEOF_MSG / 8) 0 pid in
  printf ("Sending dump message:" +:+ nl) ;;
  print_sadb_msg msg 1 SIZEOF_MSG ;;
  Write s msg ;;
  printf (nl +:+ "Messages returned:" +:+ nl) ;;
  dump_loop fuel s stale ;;
  syscall (sys_close s) ;; mret tt.

(** The options that [getopt] finds: -t, or another character. *)
Fixpoint type_option (opts : list (ascii * string)) (satype : Z) : M Z :=
  match opts with
  | [] => mret satype
  | (c, optarg) :: opts =>
      if Ascii.eqb c "t" then
        let satype := getsatypebyname optarg in
        if satype =? -1 then err_quit ("invalid -t option " +:+ optarg) else type_option opts satype
      else err_quit ("unrecognized option: " +:+ String c "")
  end.
Definition register_main (fuel : nat) (stale : list Z) (opts : list (ascii * string)) : M unit :=
  satype ← type_option opts SADB_SATYPE_UNSPEC;
  if satype =? SADB_SATYPE_UNSPEC then err_quit "must specify SA type"
  else sadb_register fuel stale satype.
Definition dump_main (fuel : nat) (stale : list Z) (opts : list (ascii * string)) : M unit :=
  satype ← type_option opts SADB_SATYPE_UNSPEC;
  sadb_dump fuel stale satype.
End key.

(** ** What is printed *)

(** The characters put on the standard output, and the messages written. *)
Definition out1 (e : event) : list (ascii + list Z) :=
  match e with
  | Event c _ => match c with
                 | sys_fputs fd s => if fd =? STDOUT_FILENO then inl <$> chars s else []
                 | sys_write _ buf => [inr buf]
                 | _ => []
                 end
  end.

(** [says m T]: [m] returns, having printed a text of [T]. *)
Definition says (m : M unit) (T : string → Prop) : Prop :=
  runs out1 m (λ o new, o = Ret tt ∧ ∃ s, T s ∧ new = inl <$> chars s).
Definition cat (T1 T2 : string → Prop) (s : string) : Prop := ∃ a b, T1 a ∧ T2 b ∧ s = a +:+ b.
Notation "T1 +++ T2" := (cat T1 T2) (at level 60, right associativity).

Lemma chars_app s t : chars (s +:+ t) = chars s ++ chars t.
Proof. induction s as [|c s IH]; [done|]. cbn. by rewrite <- IH. Qed.

Section says.
Context {K : Kernel}.

Lemma says_printf s : says (printf s) (eq s).
Proof. unfold says, printf. runs_steps; (split; [done|]); exists s; by rewrite app_nil_r. Qed.
Lemma says_nothing : says (mret tt) (eq ""%string).
Proof. apply runs_ret. split; [done|]. by exists ""%string. Qed.
Lemma says_then {A} (m : M A) (k : A → M unit) (R : A → Prop) (T1 T2 : string → Prop) :
  runs out1 m (λ o new, ∃ a s, o = Ret a ∧ R a ∧ T1 s ∧ new = inl <$> chars s) →
  (∀ a, R a → says (k a) T2) → says (m ≫= k) (T1 +++ T2).
Proof.
  intros Hm Hk. apply runs_bind. eapply runs_weaken; [exact Hm|]. intros o new (a & s & -> & HR & Hs & ->). cbn [passes].
  eapply runs_weaken; [by apply Hk|]. intros o' new' (-> & s' & Hs' & ->). split; [done|].
  exists (s +:+ s'). split; [by exists s, s'|]. by rewrite chars_app, fmap_app.
Qed.
Lemma says_seq (m k : M unit) (T1 T2 : string → Prop) : says m T1 → says k T2 → says (m ;; k) (T1 +++ T2).
Proof.
  intros Hm Hk. eapply (says_then m (λ _, k) (λ _, True)); [|done].
  eapply runs_weaken; [exact Hm|]. intros o new (-> & s & Hs & ->). by exists tt, s.
Qed.
Lemma says_ld {A} (o : option A) a (k : A → M unit) T : o = Some a → says (k a) T → says (ld o ≫= k) T.
Proof. intros Ho H. by rewrite (ld_bind _ _ _ Ho). Qed.
Lemma says_weaken m (T T' : string → Prop) : says m T → (∀ s, T s → T' s) → says m T'.
Proof. intros Hm HT. eapply runs_weaken; [exact Hm|]. naive_solver. Qed.
End says.


Lemma cat_eq a b s : (eq a +++ eq b) s ↔ s = a +:+ b.
Proof. split; [intros (? & ? & <- & <- & ->); done|intros ->; by exists a, b]. Qed.

(** Loads of an extension that begins after [pre]. *)
Lemma le_at_shift pre b k n : 0 ≤ k → le_at (pre ++ b) (Z.of_nat (List.length pre) + k) n = le_at b k n.
Proof. intros Hk. rewrite le_at_app_r by lia. f_equal. lia. Qed.
Lemma le_at_start pre b n : le_at (pre ++ b) (Z.of_nat (List.length pre)) n = le_at b 0 n.
Proof. rewrite le_at_app_r by lia. f_equal. lia. Qed.
Lemma u8_at_shift pre b k : 0 ≤ k → u8_at (pre ++ b) (Z.of_nat (List.length pre) + k) = u8_at b k.
Proof. intros Hk. rewrite u8_at_app_r by lia. f_equal. lia. Qed.
Lemma bytes_at_shift pre b k n : 0 ≤ k → bytes_at (pre ++ b) (Z.of_nat (List.length pre) + k) n = bytes_at b k n.
Proof. intros Hk. rewrite bytes_at_app_r by lia. f_equal. lia. Qed.

(** ** Messages *)

(** An extension, as RFC 2367 describes it. *)
Inductive ext :=
| XSa (spi replay state auth encrypt flags : Z)
| XLifetime (exttype allocations bytes addtime usetime : Z)
| XAddress (exttype proto prefixlen : Z) (sa : sockaddr)
| XKey (exttype bits : Z) (key : list Z)
| XSupported (exttype : Z) (algs : list (Z * Z * Z * Z))
| XOther (exttype : Z) (data : list Z).

(** Zeros up to a multiple of eight. *)
Definition pad8 (n : nat) : list Z := replicate (Z.to_nat (- Z.of_nat n mod 8)) 0.
Definition alg_bytes (a : Z * Z * Z * Z) : list Z :=
  let '(id, ivlen, minbits, maxbits) := a in [id; ivlen] ++ le_bytes 2 minbits ++ le_bytes 2 maxbits ++ le_bytes 2 0.
Definition ext_words (x : ext) : Z :=
  match x with
  | XSa _ _ _ _ _ _ => 2
  | XLifetime _ _ _ _ _ => 4
  | XAddress _ _ _ sa => (SIZEOF_ADDRESS + salen sa + 7) / 8
  | XKey _ _ key => (SIZEOF_KEY + Z.of_nat (List.length key) + 7) / 8
  | XSupported _ algs => 1 + Z.of_nat (List.length algs)
  | XOther _ data => (4 + Z.of_nat (List.length data)) / 8
  end.
Definition ext_bytes (x : ext) : list Z :=
  match x with
  | XSa spi replay state auth encrypt flags => sa_ext_bytes 2 SADB_EXT_SA spi replay state auth encrypt flags
  | XLifetime exttype allocations bytes addtime usetime =>
      le_bytes 2 4 ++ le_bytes 2 exttype ++ le_bytes 4 allocations ++ le_bytes 8 bytes ++ le_bytes 8 addtime ++ le_bytes 8 usetime
  | XAddress exttype proto prefixlen sa =>
      address_bytes (ext_words x) exttype proto prefixlen ++ sa_bytes sa ++ pad8 (List.length (sa_bytes sa))
  | XKey exttype bits key => key_ext_bytes (ext_words x) exttype bits ++ key ++ pad8 (List.length key)
  | XSupported exttype algs => le_bytes 2 (ext_words x) ++ le_bytes 2 exttype ++ le_bytes 4 0 ++ mjoin (alg_bytes <$> algs)
  | XOther exttype data => le_bytes 2 (ext_words x) ++ le_bytes 2 exttype ++ data
  end.
(** The fields are in the range of their types, and the length is right. *)
Definition alg_ok (a : Z * Z * Z * Z) : Prop :=
  let '(id, ivlen, minbits, maxbits) := a in
  0 ≤ id < 256 ∧ 0 ≤ ivlen < 256 ∧ 0 ≤ minbits < 2 ^ 16 ∧ 0 ≤ maxbits < 2 ^ 16.
Definition ext_ok (x : ext) : Prop :=
  ext_words x < 2 ^ 16 ∧
  match x with
  | XSa spi replay state auth encrypt flags =>
      0 ≤ spi < 2 ^ 32 ∧ 0 ≤ replay < 256 ∧ 0 ≤ state < 256 ∧ 0 ≤ auth < 256 ∧ 0 ≤ encrypt < 256 ∧ 0 ≤ flags < 2 ^ 32
  | XLifetime exttype allocations bytes addtime usetime =>
      2 ≤ exttype ≤ 4 ∧ 0 ≤ allocations < 2 ^ 32 ∧ 0 ≤ bytes < 2 ^ 64 ∧ 0 ≤ addtime < 2 ^ 64 ∧ 0 ≤ usetime < 2 ^ 64
  | XAddress exttype proto prefixlen sa =>
      5 ≤ exttype ≤ 7 ∧ 0 ≤ proto < 256 ∧ 0 ≤ prefixlen < 256 ∧ is_inet sa ∧ sockaddr_ok sa
  | XKey exttype bits key =>
      8 ≤ exttype ≤ 9 ∧ bits = 8 * Z.of_nat (List.length key) ∧ bits < 2 ^ 16 ∧ bytes_ok key
  | XSupported exttype algs => 14 ≤ exttype ≤ 15 ∧ Forall alg_ok algs
  | XOther exttype data =>
      (exttype = 0 ∨ 10 ≤ exttype ≤ 13 ∨ 16 ≤ exttype < 2 ^ 16) ∧ Z.of_nat (List.length data) mod 8 = 4
  end.

(** The text of an address, from which it can be read back. *)
Definition sockaddr_text (sa : sockaddr) (s : string) : Prop :=
  ∃ text, inet_pton (sa_family sa) text = PtonOk (addr_of sa) ∧
    let port := ntohs (sock_get_port sa) in
    s = if port =? 0 then text
        else match sa with
             | SaIn6 _ _ => "[" +:+ text +:+ "]:" +:+ fmt_d port
             | _ => text +:+ ":" +:+ fmt_d port
             end.
Definition hex_bytes (bs : list Z) : string := foldr (λ b s, fmt_02x b +:+ s) ""%string bs.
Definition alg_line (exttype : Z) (a : Z * Z * Z * Z) : string :=
  let '(id, ivlen, minbits, maxbits) := a in
  "  " +:+ get_sadb_alg_type id exttype +:+ " ivlen " +:+ fmt_d ivlen +:+ " bits " +:+ fmt_d minbits +:+ "-" +:+
  fmt_d maxbits +:+ nl.
Definition lifetime_name (exttype : Z) : string :=
  if exttype =? 2 then "Current" else if exttype =? 3 then "Hard" else "Soft".
Definition address_name (exttype : Z) : string :=
  if exttype =? 5 then "Source" else if exttype =? 6 then "Dest" else "Proxy".
Definition proto_name (proto : Z) : string :=
  if proto =? 17 then "(UDP)" else if proto =? 6 then "(TCP)" else if proto =? 0 then ""
  else "(IP proto " +:+ fmt_d proto +:+ ")".
Definition other_name (exttype : Z) : string :=
  if exttype =? 0 then "Reserved Extension" else if exttype <=? 11 then "[identity...]"
  else if exttype =? 12 then "[sensitivity...]" else if exttype =? 13 then "[proposal...]"
  else if exttype =? 16 then "[spirange...]" else "[unknown extension " +:+ fmt_d exttype +:+ "]".

Section text.
Context (localtime_c : Z → string).
Definition ext_text (x : ext) : string → Prop :=
  match x with
  | XSa spi replay state auth encrypt flags => eq (
      " SA: SPI=" +:+ fmt_d (i32 spi) +:+ " Replay Window=" +:+ fmt_d replay +:+ " State=" +:+ get_sa_state state +:+ nl +:+
      "  Authentication Algorithm: " +:+ get_auth_alg auth +:+ nl +:+
      "  Encryption Algorithm: " +:+ get_encrypt_alg encrypt +:+ nl +:+
      (if Z.testbit flags 0 then "  Perfect Forward Secrecy" +:+ nl else ""))
  | XLifetime exttype allocations bytes addtime usetime => eq (
      " " +:+ lifetime_name exttype +:+ " lifetime:" +:+ nl +:+
      "  " +:+ fmt_d (i32 allocations) +:+ " allocations, " +:+ fmt_d (i32 bytes) +:+ " bytes" +:+
      (if exttype =? 2 then
         nl +:+ "  added at " +:+ localtime_c (i64_of addtime) +:+ ", " +:+
         (if usetime =? 0 then "never used" +:+ nl else "first used at " +:+ localtime_c (i64_of usetime) +:+ nl)
       else fmt_d (i32 addtime) +:+ " addtime, " +:+ fmt_d (i32 usetime) +:+ " usetime" +:+ nl))
  | XAddress exttype proto prefixlen sa =>
      eq (" " +:+ address_name exttype +:+ " address:   ") +++ sockaddr_text sa +++
      eq ((if prefixlen =? 0 then " " else "/" +:+ fmt_d prefixlen +:+ " ") +:+ proto_name proto +:+ nl)
  | XKey exttype bits key => eq (
      " " +:+ (if exttype =? 8 then "Authentication" else "Encryption") +:+ " key, " +:+ fmt_d bits +:+ " bits: 0x" +:+
      hex_bytes key +:+ nl)
  | XSupported exttype algs => eq (
      " Supported " +:+ (if exttype =? 14 then "authentication" else "encryption") +:+ " algorithms:" +:+ nl +:+
      (if decide (algs = []) then "  None" +:+ nl else foldr (λ a s, alg_line exttype a +:+ s) "" algs))
  | XOther exttype _ => eq (" " +:+ other_name exttype +:+ nl)
  end.
End text.

(** ** Printing a message *)

Lemma u8_field bs k v : 0 ≤ v < 256 → u8_at bs k = Some (u8 v) → u8_at bs k = Some v.
Proof. intros Hv ->. unfold u8. by rewrite Z.mod_small. Qed.
(** A load of a field of the bytes at hand. *)
Ltac field :=
  rewrite ?le_at_start, ?le_at_shift, ?u8_at_shift by lia;
  first
    [ match goal with |- le_at _ _ ?n = Some ?v => transitivity (le_at (le_bytes n v) 0 n); [reflexivity|apply le_at_stored; lia] end
    | reflexivity
    | apply u8_field; [lia|reflexivity] ].
Section says_eq.
Context {K : Kernel}.
Lemma says_eq m s s' : says m (eq s') → s' = s → says m (eq s).
Proof. by intros H ->. Qed.
Lemma says_seq_eq m k s1 s2 : says m (eq s1) → says k (eq s2) → says (m ;; k) (eq (s1 +:+ s2)).
Proof. intros Hm Hk. eapply says_weaken; [by apply says_seq|]. intros s Hs%cat_eq. done. Qed.

Lemma says_if (b : bool) m k s1 s2 : (b = true → says m (eq s1)) → (b = false → says k (eq s2)) →
  says (if b then m else k) (eq (if b then s1 else s2)).
Proof. destruct b; auto. Qed.
End says_eq.

Lemma bytes_at_here x b y i n : i = Z.of_nat (List.length x) → n = Z.of_nat (List.length b) → bytes_at (x ++ b ++ y) i n = Some b.
Proof.
  intros -> ->. unfold bytes_at. rewrite !length_app, (proj2 (Z.leb_le _ _)), (proj2 (Z.leb_le _ _)) by lia. cbn [andb].
  by rewrite !Nat2Z.id, drop_app_length, take_app_length.
Qed.
Lemma sa_at_bytes x sa y : is_inet sa → sockaddr_ok sa →
  sa_at (x ++ sa_bytes sa ++ y) (Z.of_nat (List.length x)) = Some sa.
Proof.
  intros Hi Hok. destruct sa as [port addr|port addr| |]; try done; destruct Hok as (Hp & Hl & Hb).
  - assert (H1 : u16_at (x ++ sa_bytes (SaIn port addr) ++ y) (Z.of_nat (List.length x)) = Some AF_INET)
      by (unfold u16_at; rewrite le_at_start; reflexivity).
    assert (H2 : u16_at (x ++ sa_bytes (SaIn port addr) ++ y) (Z.of_nat (List.length x) + 2) = Some port)
      by (unfold u16_at; field).
    assert (H3 : bytes_at (x ++ sa_bytes (SaIn port addr) ++ y) (Z.of_nat (List.length x) + 4) 4 = Some addr).
    { rewrite bytes_at_shift by lia.
      change (sa_bytes (SaIn port addr) ++ y) with ((le_bytes 2 AF_INET ++ le_bytes 2 port) ++ (addr ++ replicate 8 0) ++ y).
      rewrite <- (app_assoc addr). apply bytes_at_here; [done|lia]. }
    unfold sa_at. cbn [mbind option_bind]. rewrite H1. cbn [mbind option_bind]. change (AF_INET =? AF_INET) with true. cbn iota.
    rewrite H2. cbn [mbind option_bind]. by rewrite H3.
  - assert (H1 : u16_at (x ++ sa_bytes (SaIn6 port addr) ++ y) (Z.of_nat (List.length x)) = Some AF_INET6)
      by (unfold u16_at; rewrite le_at_start; reflexivity).
    assert (H2 : u16_at (x ++ sa_bytes (SaIn6 port addr) ++ y) (Z.of_nat (List.length x) + 2) = Some port)
      by (unfold u16_at; field).
    assert (H3 : bytes_at (x ++ sa_bytes (SaIn6 port addr) ++ y) (Z.of_nat (List.length x) + 8) 16 = Some addr).
    { rewrite bytes_at_shift by lia.
      change (sa_bytes (SaIn6 port addr) ++ y)
        with ((le_bytes 2 AF_INET6 ++ le_bytes 2 port ++ replicate 4 0) ++ (addr ++ replicate 4 0) ++ y).
      rewrite <- (app_assoc addr). apply bytes_at_here; [done|lia]. }
    unfold sa_at. rewrite H1. cbn [mbind option_bind]. change (AF_INET6 =? AF_INET) with false.
    change (AF_INET6 =? AF_INET6) with true. cbn iota. rewrite H2. cbn [mbind option_bind]. by rewrite H3.
Qed.

Lemma ext_words_bound x : 0 ≤ ext_words x.
Proof.
  assert (Hs : ∀ sa, 0 ≤ salen sa) by (intros []; vm_compute; congruence).
  destruct x as [| | |? ? sa| |]; cbn [ext_words]; try specialize (Hs sa); try apply Z.div_pos;
    unfold SIZEOF_ADDRESS, SIZEOF_KEY; lia.
Qed.

Section ext_print.
Context {K : Kernel} (localtime_c : Z → string) (pre rest : list Z).
Let off : Z := Z.of_nat (List.length pre).

Lemma says_sa spi replay state auth encrypt flags :
  ext_ok (XSa spi replay state auth encrypt flags) →
  says (sa_print (pre ++ ext_bytes (XSa spi replay state auth encrypt flags) ++ rest) off)
    (ext_text localtime_c (XSa spi replay state auth encrypt flags)).
Proof.
  intros (_ & H1 & H2 & H3 & H4 & H5 & H6). unfold off, sa_print, ext_text. cbn [ext_bytes].
  eapply (says_ld _ spi). { unfold u32_at. field. }
  eapply (says_ld _ replay). { field. }
  eapply (says_ld _ state). { field. }
  eapply says_eq.
  { apply says_seq_eq; [apply says_printf|]. eapply (says_ld _ auth); [field|].
    apply says_seq_eq; [apply says_printf|]. eapply (says_ld _ encrypt); [field|].
    apply says_seq_eq; [apply says_printf|]. eapply (says_ld _ flags); [unfold u32_at; field|].
    instantiate (1 := if Z.testbit flags 0 then "  Perfect Forward Secrecy" +:+ nl else ""%string).
    unfold has, SADB_SAFLAGS_PFS. replace (Z.land flags 1) with (Z.b2z (Z.testbit flags 0)).
    - destruct (Z.testbit flags 0); [apply says_printf|apply says_nothing].
    - change 1 with (Z.ones 1). rewrite Z.land_ones by lia. rewrite Z.bit0_mod. by rewrite Z.pow_1_r. }
  by rewrite ?str_app_assoc.
Qed.

Lemma says_lifetime exttype allocations bytes addtime usetime :
  ext_ok (XLifetime exttype allocations bytes addtime usetime) →
  says (lifetime_print localtime_c (pre ++ ext_bytes (XLifetime exttype allocations bytes addtime usetime) ++ rest) off)
    (ext_text localtime_c (XLifetime exttype allocations bytes addtime usetime)).
Proof.
  intros (_ & H1 & H2 & H3 & H4 & H5). unfold off, lifetime_print, ext_text. cbn [ext_bytes].
  eapply (says_ld _ exttype). { unfold u16_at. field. }
  eapply says_eq.
  { apply says_seq_eq; [apply says_printf|]. eapply (says_ld _ allocations); [unfold u32_at; field|].
    eapply (says_ld _ bytes); [field|]. apply says_seq_eq; [apply says_printf|].
    eapply (says_ld _ addtime); [field|]. eapply (says_ld _ usetime); [field|].
    apply says_if; intros _; [|apply says_printf]. apply says_seq_eq; [apply says_printf|].
    apply says_if; intros _; apply says_printf. }
  unfold lifetime_name, SADB_EXT_LIFETIME_CURRENT, SADB_EXT_LIFETIME_HARD. by rewrite ?str_app_assoc.
Qed.

Lemma says_address exttype proto prefixlen sa :
  ext_ok (XAddress exttype proto prefixlen sa) →
  says (address_print (pre ++ ext_bytes (XAddress exttype proto prefixlen sa) ++ rest) off)
    (ext_text localtime_c (XAddress exttype proto prefixlen sa)).
Proof.
  intros (Hw & H1 & H2 & H3 & Hi & Hok). unfold off, address_print, ext_text. cbn [ext_bytes].
  eapply (says_ld _ exttype). { unfold u16_at. field. }
  eapply says_weaken.
  { eapply says_seq; [apply says_printf|]. eapply (says_ld _ sa).
    { rewrite <- !app_assoc, (app_assoc pre).
      replace (Z.of_nat (List.length pre) + SIZEOF_ADDRESS)
        with (Z.of_nat (List.length (pre ++ address_bytes (ext_words (XAddress exttype proto prefixlen sa)) exttype proto prefixlen)))
        by (rewrite length_app; unfold SIZEOF_ADDRESS; cbn; lia).
      by apply sa_at_bytes. }
    eapply (says_ld _ (ext_words (XAddress exttype proto prefixlen sa))).
    { unfold u16_at. rewrite le_at_start.
      transitivity (le_at (le_bytes 2 (ext_words (XAddress exttype proto prefixlen sa))) 0 2); [reflexivity|].
      apply le_at_stored. split; [|done]. by destruct sa. }
    eapply (says_then _ _ (λ r, ∃ s, r = Some s ∧ sockaddr_text sa s) (eq ""%string)).
    { intros p. destruct (sock_ntop_text sa (ext_words (XAddress exttype proto prefixlen sa) * 8 - SIZEOF_ADDRESS) p Hi Hok)
        as (text & Ht & _ & _ & Hs & _). eapply post_eq; [exact Hs|].
      exists []. rewrite app_nil_r. split; [done|]. eexists _, ""%string. split; [done|]. split; [|done].
      eexists. split; [done|]. exists text. split; [done|]. by destruct sa. }
    intros r (s & -> & Hs). cbn [default]. apply says_seq.
    { eapply (says_weaken _ _ (eq "  " +++ sockaddr_text sa)%string); [apply says_printf|].
      intros s' <-. by exists "  "%string, s. }
    eapply (says_ld _ prefixlen); [field|]. apply says_seq; [apply says_printf|].
    eapply (says_ld _ proto); [field|]. apply says_seq; [|apply says_printf].
    instantiate (1 := eq (proto_name proto)). unfold proto_name.
    repeat (apply says_if; intros _); try apply says_printf. apply says_nothing. }
  intros s (a & b & <- & (a1 & b1 & <- & (a2 & b2 & (a3 & b3 & <- & Ha3 & ->) & (a4 & b4 & <- & (a5 & b5 & <- & <- & ->) & ->) & ->) & ->) & ->).
  eexists _, _. split; [reflexivity|]. split.
  { eexists _, _. split; [exact Ha3|]. split; reflexivity. }
  unfold address_name, SADB_EXT_ADDRESS_SRC, SADB_EXT_ADDRESS_DST. cbn [append]. rewrite ?str_app_assoc.
  destruct (exttype =? 5), (exttype =? 6), (prefixlen =? 0); reflexivity.
Qed.

Lemma says_key_bytes y : ∀ key x fuel, bytes_ok key → (8 * List.length key ≤ fuel)%nat →
  says (key_bytes (x ++ key ++ y) fuel (Z.of_nat (List.length x)) (8 * Z.of_nat (List.length key))) (eq (hex_bytes key)).
Proof.
  induction key as [|b key IH]; intros x fuel Hk Hf.
  - destruct fuel; apply says_nothing.
  - apply Forall_cons in Hk as [Hb Hk]. cbn [List.length] in *. destruct fuel as [|fuel]; [lia|]. cbn [key_bytes].
    destruct (Z.leb_spec (8 * Z.of_nat (S (List.length key))) 0); [lia|].
    eapply says_ld. { apply u8_at_lookup; [lia|]. rewrite Nat2Z.id, lookup_app_r, Nat.sub_diag by lia. reflexivity. }
    apply says_seq_eq; [apply says_printf|]. specialize (IH (x ++ [b]) fuel Hk ltac:(lia)).
    rewrite <- app_assoc in IH. cbn [app] in IH. rewrite length_app in IH. cbn [List.length] in IH.
    replace (Z.of_nat (List.length x) + 1) with (Z.of_nat (List.length x + 1)) by lia.
    by replace (8 * Z.of_nat (S (List.length key)) - 8) with (8 * Z.of_nat (List.length key)) by lia.
Qed.
Lemma says_key exttype bits key :
  ext_ok (XKey exttype bits key) →
  says (key_print (pre ++ ext_bytes (XKey exttype bits key) ++ rest) off) (ext_text localtime_c (XKey exttype bits key)).
Proof.
  intros (Hw & H1 & -> & H3 & Hk). unfold off, key_print, ext_text. cbn [ext_bytes].
  eapply (says_ld _ exttype). { unfold u16_at. field. }
  eapply (says_ld _ (8 * Z.of_nat (List.length key))). { unfold u16_at. field. }
  eapply says_eq.
  { apply says_seq_eq; [apply says_printf|]. apply says_seq_eq; [|apply says_printf].
    rewrite <- !app_assoc, (app_assoc pre).
    replace (Z.of_nat (List.length pre) + SIZEOF_KEY)
      with (Z.of_nat (List.length (pre ++ key_ext_bytes (ext_words (XKey exttype (8 * Z.of_nat (List.length key)) key)) exttype
              (8 * Z.of_nat (List.length key)))))
      by (rewrite length_app; unfold SIZEOF_KEY; cbn; lia).
    apply says_key_bytes; [done|lia]. }
  unfold SADB_EXT_KEY_AUTH. by rewrite ?str_app_assoc.
Qed.

Lemma says_supported_loop exttype y : ∀ algs x fuel, Forall alg_ok algs → (8 * List.length algs ≤ fuel)%nat →
  says (supported_loop (x ++ mjoin (alg_bytes <$> algs) ++ y) fuel exttype (Z.of_nat (List.length x)) (8 * Z.of_nat (List.length algs)))
    (eq (foldr (λ a s, alg_line exttype a +:+ s) ""%string algs)).
Proof.
  induction algs as [|a algs IH]; intros x fuel Hk Hf.
  - destruct fuel; apply says_nothing.
  - apply Forall_cons in Hk as [Ha Hk]. cbn [List.length] in *. destruct fuel as [|fuel]; [lia|]. cbn [supported_loop].
    destruct (Z.leb_spec (8 * Z.of_nat (S (List.length algs))) 0); [lia|].
    destruct a as [[[id ivlen] minbits] maxbits]. destruct Ha as (H1 & H2 & H3 & H4).
    specialize (IH (x ++ alg_bytes (id, ivlen, minbits, maxbits)) fuel Hk ltac:(lia)).
    rewrite <- app_assoc, length_app in IH. cbn [fmap list_fmap mjoin list_join] in *. rewrite <- app_assoc.
    eapply (says_ld _ id). { rewrite u8_at_app_r, Z.sub_diag by lia. reflexivity. }
    eapply (says_ld _ ivlen). { rewrite u8_at_shift by lia. reflexivity. }
    eapply (says_ld _ minbits). { unfold u16_at. field. }
    eapply (says_ld _ maxbits). { unfold u16_at. field. }
    apply says_seq_eq; [apply says_printf|].
    replace (Z.of_nat (List.length x) + SIZEOF_ALG) with (Z.of_nat (List.length x + List.length (alg_bytes (id, ivlen, minbits, maxbits))))
      by (unfold SIZEOF_ALG; cbn; lia).
    by replace (8 * Z.of_nat (S (List.length algs)) - SIZEOF_ALG) with (8 * Z.of_nat (List.length algs)) by (unfold SIZEOF_ALG; lia).
Qed.
Lemma says_supported exttype algs :
  ext_ok (XSupported exttype algs) →
  says (supported_print (pre ++ ext_bytes (XSupported exttype algs) ++ rest) off) (ext_text localtime_c (XSupported exttype algs)).
Proof.
  intros (Hw & H1 & Hk). unfold off, supported_print, ext_text. cbn [ext_bytes].
  eapply (says_ld _ exttype). { unfold u16_at. field. }
  eapply says_eq.
  { apply says_seq_eq; [apply says_printf|]. cbn [ext_words] in *.
    eapply (says_ld _ (1 + Z.of_nat (List.length algs))). { unfold u16_at. field. }
    replace ((1 + Z.of_nat (List.length algs)) * 8 - SIZEOF_SUPPORTED) with (8 * Z.of_nat (List.length algs))
      by (unfold SIZEOF_SUPPORTED; lia).
    instantiate (1 := if decide (algs = []) then ("  None" +:+ nl) else foldr (λ a s, alg_line exttype a +:+ s) "" algs).
    destruct (decide (algs = [])) as [->|Hne]; [apply says_printf|].
    destruct (Z.eqb_spec (8 * Z.of_nat (List.length algs)) 0) as [E|]; [by destruct algs|].
    rewrite <- !app_assoc, (app_assoc pre), (app_assoc (pre ++ _)), (app_assoc ((pre ++ _) ++ _)).
    set (h := (((pre ++ le_bytes 2 (1 + Z.of_nat (List.length algs))) ++ le_bytes 2 exttype) ++ le_bytes 4 0)).
    replace (Z.of_nat (List.length pre) + SIZEOF_SUPPORTED) with (Z.of_nat (List.length h))
      by (unfold h; rewrite !length_app, !length_le_bytes; unfold SIZEOF_SUPPORTED; lia).
    apply says_supported_loop; [done|lia]. }
  unfold SADB_EXT_SUPPORTED_AUTH. by rewrite ?str_app_assoc.
Qed.

(** Any extension. *)
Definition ext_type (x : ext) : Z :=
  match x with
  | XSa _ _ _ _ _ _ => 1
  | XLifetime t _ _ _ _ | XAddress t _ _ _ | XKey t _ _ | XSupported t _ | XOther t _ => t
  end.
Lemma ext_type_at x : ext_ok x → u16_at (pre ++ ext_bytes x ++ rest) (off + 2) = Some (ext_type x).
Proof.
  intros [Hw Hx]. unfold off, u16_at. destruct x; cbn [ext_bytes ext_type] in *; try field.
Qed.
Lemma ext_len_at x : ext_ok x → u16_at (pre ++ ext_bytes x ++ rest) off = Some (ext_words x).
Proof.
  intros [Hw Hx]. pose proof (ext_words_bound x) as H0. unfold off, u16_at. rewrite le_at_start.
  transitivity (le_at (le_bytes 2 (ext_words x)) 0 2); [by destruct x|]. apply le_at_stored. lia.
Qed.
Lemma says_ext x : ext_ok x → says (ext_print localtime_c (pre ++ ext_bytes x ++ rest) off) (ext_text localtime_c x).
Proof.
  intros Hx. unfold ext_print. eapply says_ld; [by apply ext_type_at|]. pose proof (proj2 Hx) as Hr.
  destruct x as [|t|t|t|t|t data]; cbn [ext_type] in *; cbv beta.
  - by apply says_sa.
  - destruct Hr as [Hr _]. assert (t = 2 ∨ t = 3 ∨ t = 4) as [->|[->| ->]] by lia; by apply says_lifetime.
  - destruct Hr as [Hr _]. assert (t = 5 ∨ t = 6 ∨ t = 7) as [->|[->| ->]] by lia; by apply says_address.
  - destruct Hr as [Hr _]. assert (t = 8 ∨ t = 9) as [->| ->] by lia; by apply says_key.
  - destruct Hr as [Hr _]. assert (t = 14 ∨ t = 15) as [->| ->] by lia; by apply says_supported.
  - destruct Hr as [[->|[Hr|Hr]] _]; [apply says_printf| |].
    + assert (t = 10 ∨ t = 11 ∨ t = 12 ∨ t = 13) as [->|[->|[->| ->]]] by lia; apply says_printf.
    + unfold ext_text, other_name.
      repeat (match goal with |- context [?a =? ?b] => destruct (Z.eqb_spec a b); [try lia|]
              | |- context [?a <=? ?b] => destruct (Z.leb_spec a b); [try lia|]; cbn [andb]
              | |- context [?a <=? ?b] => destruct (Z.leb_spec a b); [|try lia]; cbn [andb] end);
      subst; (eapply says_eq; [apply says_printf|by rewrite ?str_app_assoc]).
Qed.
End ext_print.

(** ** Printing a message *)

Record hdr := Hdr { m_type : Z; m_errno : Z; m_satype : Z; m_seq : Z; m_pid : Z }.
Definition hdr_ok (h : hdr) : Prop :=
  0 ≤ m_type h < 256 ∧ 0 ≤ m_errno h < 256 ∧ 0 ≤ m_satype h < 256 ∧ 0 ≤ m_seq h < 2 ^ 32 ∧ 0 ≤ m_pid h < 2 ^ 32.
Definition exts_bytes (xs : list ext) : list Z := mjoin (ext_bytes <$> xs).
Definition msg_words (xs : list ext) : Z := 2 + sumz ext_words xs.
Definition message (h : hdr) (xs : list ext) : list Z :=
  msg_bytes PF_KEY_V2 (m_type h) (m_errno h) (m_satype h) (msg_words xs) (m_seq h) (m_pid h) ++ exts_bytes xs.
Definition hdr_text (h : hdr) : string :=
  "SADB Message " +:+ get_sadb_msg_type (m_type h) +:+ ", errno " +:+ fmt_d (m_errno h) +:+ ", satype " +:+ get_sadb_satype (m_satype h) +:+
  ", seq " +:+ fmt_d (i32 (m_seq h)) +:+ ", pid " +:+ fmt_d (i32 (m_pid h)) +:+ nl.
(** What [strerror] answers for the error, if there is one. *)
Definition errno_text {K : Kernel} (errno : Z) (s : string) : Prop :=
  if errno =? 0 then s = ""%string else ∃ t, s = " errno " +:+ answer t (sys_strerror errno) +:+ nl.
Definition message_text {K : Kernel} (localtime_c : Z → string) (h : hdr) (xs : list ext) : string → Prop :=
  eq (hdr_text h) +++ errno_text (m_errno h) +++ foldr (λ x T, ext_text localtime_c x +++ T) (eq ""%string) xs.

Lemma length_pad8 n : Z.of_nat (List.length (pad8 n)) = - Z.of_nat n mod 8.
Proof. unfold pad8. rewrite length_replicate. zdiv. Qed.
Lemma length_ext_bytes x : ext_ok x → Z.of_nat (List.length (ext_bytes x)) = 8 * ext_words x.
Proof.
  intros [Hw Hx]. destruct x as [| |t proto plen sa|t bits key|t algs|t data]; cbn [ext_bytes ext_words] in *; try done.
  - destruct Hx as (_ & _ & _ & Hi & Hok). rewrite !length_app, !Nat2Z.inj_add, length_pad8.
    destruct sa as [port addr|port addr| |]; try done; destruct Hok as (_ & Hl & _); cbn [sa_bytes salen];
      unfold sockaddr_in_bytes, sockaddr_in6_bytes, address_bytes; rewrite !length_app, !length_le_bytes, !length_replicate, Hl; done.
  - rewrite !length_app, !Nat2Z.inj_add, length_pad8. unfold key_ext_bytes.
    rewrite !length_app, !length_le_bytes. unfold SIZEOF_KEY. cbn [List.length]. zdiv.
  - rewrite !length_app, !length_le_bytes.
    assert (H : List.length (mjoin (alg_bytes <$> algs)) = (8 * List.length algs)%nat).
    { clear. induction algs as [|[[[]]] algs IH]; [done|]. rewrite fmap_cons.
      change (mjoin (?x :: ?l)) with (x ++ mjoin l). rewrite length_app, IH. cbn [List.length alg_bytes app le_bytes]. lia. }
    rewrite H. lia.
  - rewrite !length_app, !length_le_bytes. destruct Hx as [_ Hx]. zdiv.
Qed.

Section message_print.
Context {K : Kernel} (localtime_c : Z → string).

Lemma says_ext_loop rest : ∀ xs pre fuel, Forall ext_ok xs → Forall (λ x, 0 < ext_words x) xs → (List.length xs ≤ fuel)%nat →
  says (ext_loop localtime_c (pre ++ exts_bytes xs ++ rest) fuel (Z.of_nat (List.length pre)) (8 * sumz ext_words xs))
    (foldr (λ x T, ext_text localtime_c x +++ T) (eq ""%string) xs).
Proof.
  induction xs as [|x xs IH]; intros pre fuel Hok Hpos Hf.
  - destruct fuel; apply says_nothing.
  - apply Forall_cons in Hok as [Hx Hok]. apply Forall_cons in Hpos as [Hw Hpos]. cbn [List.length] in Hf.
    destruct fuel as [|fuel]; [lia|]. cbn [ext_loop sumz foldr]. unfold exts_bytes. cbn [fmap list_fmap mjoin list_join].
    assert (0 ≤ sumz ext_words xs) by (apply sumz_nonneg, ext_words_bound).
    destruct (Z.leb_spec (8 * (ext_words x + sumz ext_words xs)) 0); [lia|]. rewrite <- app_assoc.
    apply says_seq; [by apply says_ext|]. eapply says_ld; [by apply ext_len_at|].
    rewrite Z.shiftl_mul_pow2 by lia. change (2 ^ 3) with 8. specialize (IH (pre ++ ext_bytes x) fuel Hok Hpos ltac:(lia)).
    rewrite <- app_assoc, length_app, Nat2Z.inj_add, length_ext_bytes in IH by done.
    replace (8 * (ext_words x + sumz ext_words xs) - ext_words x * 8) with (8 * sumz ext_words xs) by lia.
    replace (Z.of_nat (List.length pre) + ext_words x * 8) with (Z.of_nat (List.length pre) + 8 * ext_words x) by lia.
    exact IH.
Qed.

Lemma says_errno errno :
  says (if negb (errno =? 0) then text ← call (sys_strerror errno); printf (" errno " +:+ text +:+ nl) else mret tt)
    (errno_text errno).
Proof.
  unfold errno_text. destruct (errno =? 0) eqn:E; cbn [negb].
  - eapply says_weaken; [apply says_nothing|]. by intros s <-.
  - intros p. apply post_bind, post_call. intros text Ht. cbn [through].
    eapply post_weaken; [apply says_printf|]. intros o p' (new & Hs & -> & s & <- & ->).
    exists (inl <$> chars (" errno " +:+ text +:+ nl)). rewrite Hs. cbn [add_event p_trace seen out1]. rewrite app_nil_r.
    split; [done|]. split; [done|]. eexists. split; [|done]. exists (p_trace p). by rewrite Ht.
Qed.
Lemma says_message h xs rest fuel : hdr_ok h → Forall ext_ok xs → Forall (λ x, 0 < ext_words x) xs →
  msg_words xs < 2 ^ 16 → (List.length xs ≤ fuel)%nat →
  says (print_sadb_msg localtime_c (message h xs ++ rest) fuel (8 * msg_words xs)) (message_text localtime_c h xs).
Proof.
  intros (H1 & He & H2 & H3 & H4) Hok Hpos Hlen Hf. unfold print_sadb_msg, message.
  assert (0 ≤ sumz ext_words xs) by (apply sumz_nonneg, ext_words_bound).
  rewrite <- app_assoc. eapply (says_ld _ (msg_words xs)). { unfold u16_at, msg_words in *. field. }
  replace (negb (8 * msg_words xs =? msg_words xs * 8)) with false by (symmetry; apply negb_false_iff, Z.eqb_eq; lia).
  eapply (says_ld _ PF_KEY_V2). { reflexivity. }
  change (negb (PF_KEY_V2 =? PF_KEY_V2)) with false. cbn iota.
  eapply (says_ld _ (m_type h)). { field. }
  eapply (says_ld _ (m_errno h)). { field. }
  eapply (says_ld _ (m_satype h)). { field. }
  eapply (says_ld _ (m_seq h)). { unfold u32_at. field. }
  eapply (says_ld _ (m_pid h)). { unfold u32_at. field. }
  unfold message_text. apply says_seq; [apply says_printf|]. apply says_seq; [by apply says_errno|].
  set (m := msg_bytes _ _ _ _ _ _ _).
  pose proof (says_ext_loop rest xs m fuel Hok Hpos Hf) as HL.
  destruct (Z.eqb_spec (8 * msg_words xs) SIZEOF_MSG) as [E|E].
  - destruct xs as [|x xs]; [apply says_nothing|]. apply Forall_cons in Hpos as [Hw _]. unfold msg_words, SIZEOF_MSG in E.
    cbn [sumz] in *. assert (0 ≤ sumz ext_words xs) by (apply sumz_nonneg, ext_words_bound). lia.
  - replace (8 * msg_words xs - SIZEOF_MSG) with (8 * sumz ext_words xs) by (unfold msg_words, SIZEOF_MSG; lia). exact HL.
Qed.
End message_print.

(** ** The request of add.c *)

Lemma le_bytes_mod n v : le_bytes n v = le_bytes n (v mod 256 ^ Z.of_nat n).
Proof.
  revert v. induction n as [|n IH]; intros v; [done|]. cbn [le_bytes].
  rewrite Nat2Z.inj_succ, Z.pow_succ_r by lia. assert (0 < 256 ^ Z.of_nat n) by (apply Z.pow_pos_nonneg; lia).
  rewrite Z.rem_mul_r by lia. set (X := (v / 256) mod 256 ^ Z.of_nat n).
  replace ((v mod 256 + 256 * X) mod 256) with (v mod 256) by zdiv.
  replace ((v mod 256 + 256 * X) / 256) with X by zdiv. by rewrite IH.
Qed.
Lemma st_app a b bs p i : i = List.length a → (List.length bs ≤ List.length b)%nat →
  st (a ++ b) i bs p = (Ret (a ++ bs ++ drop (List.length bs) b), p).
Proof.
  intros -> H. unfold st. rewrite length_app. rewrite (proj2 (Nat.leb_le _ _)) by lia. by rewrite put_app.
Qed.
Lemma st_zeros a n bs p i : i = List.length a →
  st (a ++ replicate n 0) i bs p =
  if decide (List.length bs ≤ n)%nat then (Ret ((a ++ bs) ++ replicate (n - List.length bs) 0), p) else (UB, p).
Proof.
  intros Hi. case_decide.
  - rewrite st_app by (rewrite ?length_replicate; done). by rewrite drop_replicate, <- app_assoc.
  - unfold st. rewrite length_app, length_replicate. by rewrite (proj2 (Nat.leb_gt _ _)) by lia.
Qed.
Lemma length_sa_bytes sa : is_inet sa → sockaddr_ok sa → Z.of_nat (List.length (sa_bytes sa)) = salen sa.
Proof.
  intros Hi Hok. destruct sa as [port addr|port addr| |]; try done; destruct Hok as (_ & Hl & _); cbn [sa_bytes salen];
    unfold sockaddr_in_bytes, sockaddr_in6_bytes; rewrite !length_app, !length_le_bytes, !length_replicate, Hl; done.
Qed.
Definition address_ext (exttype : Z) (sa : sockaddr) : ext := XAddress exttype 0 (prefix_all sa) sa.
Lemma zeros_split n m : (m ≤ n)%nat → replicate n 0 = replicate m 0 ++ replicate (n - m) 0.
Proof. intros H. rewrite <- replicate_add. f_equal. lia. Qed.

Lemma put_address_app a n exttype sa p i : is_inet sa → sockaddr_ok sa → 5 ≤ exttype ≤ 7 → i = Z.of_nat (List.length a) → (64 ≤ n)%nat →
  put_address (a ++ replicate n 0) i exttype sa p =
  (Ret ((a ++ ext_bytes (address_ext exttype sa)) ++ replicate (n - List.length (ext_bytes (address_ext exttype sa))) 0,
        8 * ext_words (address_ext exttype sa)), p).
Proof.
  intros Hi Hok Ht -> Hn. pose proof (length_sa_bytes sa Hi Hok) as Hl.
  assert (Hs : 16 ≤ salen sa ≤ 28) by (destruct sa; vm_compute; try done; split; congruence).
  assert (Hx : ext_ok (address_ext exttype sa)).
  { split; [destruct sa; vm_compute; congruence|]. split; [lia|]. split; [lia|]. split; [by destruct sa|done]. }
  pose proof (length_ext_bytes _ Hx) as Hw.
  unfold put_address. change ((SIZEOF_ADDRESS + salen sa + 7) / 8) with (ext_words (address_ext exttype sa)).
  set (h := address_bytes (ext_words (address_ext exttype sa)) exttype 0 (prefix_all sa)).
  assert (Hh : List.length h = 8%nat) by done.
  erewrite run_bind. 2: { rewrite st_zeros by lia. rewrite decide_True by lia. reflexivity. }
  erewrite run_bind. 2: { rewrite st_zeros; [rewrite decide_True by lia; reflexivity|]. rewrite length_app. unfold SIZEOF_ADDRESS. lia. }
  change (ext_bytes (address_ext exttype sa)) with (h ++ sa_bytes sa ++ pad8 (List.length (sa_bytes sa))) in *.
  rewrite !length_app in Hw |- *. pose proof (length_pad8 (List.length (sa_bytes sa))) as Hp.
  replace (u16 (ext_words (address_ext exttype sa)) * 8) with (8 * ext_words (address_ext exttype sa)).
  2: { unfold u16. rewrite Z.mod_small; [lia|]. split; [apply ext_words_bound|]. by destruct Hx. }
  unfold mret, M_ret. do 3 f_equal. rewrite <- !app_assoc. do 3 f_equal.
  assert (E : pad8 (List.length (sa_bytes sa)) = replicate (List.length (pad8 (List.length (sa_bytes sa)))) 0)
    by (unfold pad8 at 2; rewrite length_replicate; reflexivity).
  pose proof (Z.mod_pos_bound (- Z.of_nat (List.length (sa_bytes sa))) 8 ltac:(lia)). rewrite E at 1. rewrite <- replicate_add. f_equal. lia.
Qed.

Definition add_exts (src dst : sockaddr) (alg spi : Z) (key : list Z) : list ext :=
  [XSa (htonl spi) 0 SADB_SASTATE_MATURE alg 0 0; address_ext SADB_EXT_ADDRESS_SRC src; address_ext SADB_EXT_ADDRESS_DST dst;
   XKey SADB_EXT_KEY_AUTH (8 * Z.of_nat (List.length key)) key].
Definition add_hdr (type pid : Z) : hdr := Hdr SADB_ADD 0 type 0 (u32 pid).

Lemma address_ext_ok t sa : is_inet sa → sockaddr_ok sa → 5 ≤ t ≤ 7 → ext_ok (address_ext t sa) ∧ 3 ≤ ext_words (address_ext t sa) ≤ 5.
Proof.
  intros Hi Hok Ht. split; [|destruct sa; vm_compute; try done; split; congruence].
  split; [destruct sa; vm_compute; congruence|]. split; [lia|]. split; [lia|]. split; [by destruct sa|done].
Qed.
(** The key extension, where it fits and where it does not. *)
Lemma put_key a n key p (k : list Z → M (list Z * Z)) :
  let x := XKey SADB_EXT_KEY_AUTH (8 * Z.of_nat (List.length key)) key in
  Z.of_nat n mod 8 = 0 → (n ≤ BUFLEN)%nat →
  (buf ← st (a ++ replicate n 0) (List.length a) (key_ext_bytes (ext_words x) SADB_EXT_KEY_AUTH (8 * Z.of_nat (List.length key)));
   loaded ← ld (bytes_at key 0 (Z.of_nat (List.length key)));
   buf ← (if 0 <=? Z.of_nat (List.length key) then st buf (8 + List.length a) loaded else stop UB);
   k buf) p =
  if decide (8 * ext_words x ≤ Z.of_nat n) then k ((a ++ ext_bytes x) ++ replicate (n - Z.to_nat (8 * ext_words x)) 0) p else (UB, p).
Proof.
  intros x Hm Hn. set (h := key_ext_bytes _ _ _). assert (Hh : List.length h = 8%nat) by done.
  assert (Hb : bytes_at key 0 (Z.of_nat (List.length key)) = Some key).
  { pose proof (bytes_at_here [] key [] 0 (Z.of_nat (List.length key)) eq_refl eq_refl) as H. by rewrite app_nil_r in H. }
  rewrite (proj2 (Z.leb_le 0 _)) by lia. pose proof (length_pad8 (List.length key)) as Hp.
  assert (Hw : 8 * ext_words x = 8 + Z.of_nat (List.length key) + Z.of_nat (List.length (pad8 (List.length key)))).
  { cbn [x ext_words]. unfold SIZEOF_KEY. zdiv. }
  assert (Hp8 : Z.of_nat (List.length (pad8 (List.length key))) < 8) by zdiv.
  case_decide as Hd.
  - erewrite run_bind. 2: { rewrite st_zeros by lia. rewrite decide_True by lia. reflexivity. }
    erewrite run_bind. 2: { rewrite Hb. reflexivity. }
    erewrite run_bind. 2: { rewrite st_zeros by (rewrite length_app; lia). rewrite decide_True by lia. reflexivity. }
    f_equal. change (ext_bytes x) with (h ++ key ++ pad8 (List.length key)). rewrite <- !app_assoc. do 3 f_equal.
    assert (E : pad8 (List.length key) = replicate (List.length (pad8 (List.length key))) 0)
      by (unfold pad8 at 2; rewrite length_replicate; reflexivity).
    rewrite E. rewrite <- replicate_add. f_equal. lia.
  - unfold mbind, M_bind. rewrite st_zeros by lia. case_decide; [|done]. rewrite Hb. cbn [ld mret M_ret].
    unfold mret, M_ret. rewrite st_zeros by (rewrite length_app; lia). rewrite decide_False; [done|]. zdiv.
Qed.

Lemma add_request_message src dst type alg spi key pid p :
  is_inet src → sockaddr_ok src → is_inet dst → sockaddr_ok dst → Z.of_nat (List.length key) < 2 ^ 31 →
  let xs := add_exts src dst alg spi key in
  add_request src dst type alg spi (8 * Z.of_nat (List.length key)) key pid p =
  if decide (8 * msg_words xs ≤ Z.of_nat BUFLEN) then
    (Ret (message (add_hdr type pid) xs ++ replicate (BUFLEN - Z.to_nat (8 * msg_words xs)) 0, 8 * msg_words xs), p)
  else (UB, p).
Proof.
  intros Hsi Hso Hdi Hdo Hk xs. unfold add_request.
  set (m := msg_bytes PF_KEY_V2 SADB_ADD 0 type 0 0 pid). set (sx := sa_ext_bytes _ _ _ _ _ _ _ _).
  destruct (address_ext_ok SADB_EXT_ADDRESS_SRC src Hsi Hso ltac:(unfold SADB_EXT_ADDRESS_SRC; lia)) as [Hs1%length_ext_bytes Hs2].
  destruct (address_ext_ok SADB_EXT_ADDRESS_DST dst Hdi Hdo ltac:(unfold SADB_EXT_ADDRESS_DST; lia)) as [Hd1%length_ext_bytes Hd2].
  assert (HB : BUFLEN = 4096%nat) by done. revert HB. generalize BUFLEN as B. intros B HB.
  set (es := ext_bytes (address_ext SADB_EXT_ADDRESS_SRC src)) in *. set (ed := ext_bytes (address_ext SADB_EXT_ADDRESS_DST dst)) in *.
  assert (Hm : List.length m = 16%nat) by done. assert (Hx : List.length sx = 16%nat) by done.
  set (ws := ext_words (address_ext SADB_EXT_ADDRESS_SRC src)) in *. set (wd := ext_words (address_ext SADB_EXT_ADDRESS_DST dst)) in *.
  assert (Hes : (List.length es ≤ 40)%nat) by (clearbody es ws; lia).
  assert (Hed : (List.length ed ≤ 40)%nat) by (clearbody ed wd; lia).
  erewrite run_bind. 2: { rewrite (st_zeros [] B) by done. rewrite decide_True by lia. reflexivity. }
  erewrite run_bind. 2: { rewrite st_zeros by done. rewrite decide_True by lia. reflexivity. }
  erewrite run_bind. 2: { apply put_address_app; [done|done|unfold SADB_EXT_ADDRESS_SRC; lia|rewrite !length_app, Hm, Hx; done|rewrite Hm, Hx; lia]. }
  fold es. fold ws. cbn beta iota.
  erewrite run_bind.
  2: { apply put_address_app; [done|done|unfold SADB_EXT_ADDRESS_DST; lia|rewrite !length_app, Hm, Hx; change (List.length []) with 0%nat; change (SIZEOF_MSG + SIZEOF_SA / 8 * 8) with 32; clearbody es ws; lia|rewrite Hm, Hx; lia]. }
  fold ed. fold wd. cbn beta iota.
  assert (exists a, a = ((([] ++ m) ++ sx) ++ es) ++ ed) as [a Ha] by eauto. rewrite <- Ha.
  assert (Hla : Z.of_nat (List.length a) = 32 + 8 * ws + 8 * wd)
    by (rewrite Ha, !length_app, Hm, Hx; cbn [List.length]; clearbody es ws ed wd; lia).
  set (x := XKey SADB_EXT_KEY_AUTH (8 * Z.of_nat (List.length key)) key).
  assert (Hq : Z.quot (8 * Z.of_nat (List.length key)) 8 = Z.of_nat (List.length key)) by (rewrite Z.mul_comm; by apply Z.quot_mul).
  assert (He : u64 (SIZEOF_KEY + Z.of_nat (List.length key) + 7) / 8 = ext_words x)
    by (unfold u64; rewrite Z.mod_small by (unfold SIZEOF_KEY; lia); done).
  rewrite Hq, He. clear Hq. change (SIZEOF_MSG + SIZEOF_SA / 8 * 8) with 32.
  replace (Z.to_nat (32 + 8 * ws + 8 * wd)) with (List.length a) by (clearbody es ws ed wd; lia).
  replace (Z.to_nat (32 + 8 * ws + 8 * wd + SIZEOF_KEY)) with (8 + List.length a)%nat
    by (unfold SIZEOF_KEY; clearbody es ws ed wd; lia).
  assert (Hn : Z.of_nat (B - List.length m - List.length sx - List.length es - List.length ed) = 4096 - Z.of_nat (List.length a))
    by (rewrite Hla, Hm, Hx; clearbody es ws ed wd; lia).
  etransitivity. { apply (put_key a _ key p); [rewrite Hn, Hla; clearbody ws wd; zdiv|rewrite Hm, Hx; unfold BUFLEN; lia]. }
  fold x. replace (8 * msg_words xs) with (Z.of_nat (List.length a) + 8 * ext_words x).
  2: { unfold msg_words, xs, add_exts. cbn [sumz]. fold ws wd x. change (ext_words (XSa _ _ _ _ _ _)) with 2. lia. }
  pose proof (ext_words_bound x) as Hx0.
  rewrite Hn. destruct (decide (8 * ext_words x ≤ 4096 - Z.of_nat (List.length a))) as [Hd|Hd], (decide _) as [Hd'|Hd']; try lia; [|done].
  assert (Hu : u16 (ext_words x) = ext_words x) by (unfold u16; rewrite Z.mod_small; lia). rewrite Hu.
  assert (Hw : (32 + 8 * ws + 8 * wd + ext_words x * 8) ÷ 8 = msg_words xs).
  { replace (32 + 8 * ws + 8 * wd + ext_words x * 8) with (msg_words xs * 8); [by apply Z.quot_mul|].
    unfold msg_words, xs, add_exts. cbn [sumz]. fold ws wd x. change (ext_words (XSa _ _ _ _ _ _)) with 2. lia. }
  rewrite Hw.
  set (z := replicate _ 0). set (h4 := [u8 PF_KEY_V2; u8 SADB_ADD; u8 0; u8 type]).
  set (t := le_bytes 2 0 ++ le_bytes 4 0 ++ le_bytes 4 pid).
  assert (Hm' : m = h4 ++ le_bytes 2 0 ++ t) by done.
  replace ((a ++ ext_bytes x) ++ z) with (h4 ++ le_bytes 2 0 ++ t ++ sx ++ es ++ ed ++ ext_bytes x ++ z)
    by (rewrite Ha, Hm'; cbn [app]; rewrite <- !app_assoc; done).
  erewrite run_bind. 2: { apply st_app; [done|]. rewrite !length_app, !length_le_bytes. lia. }
  unfold mret, M_ret. do 2 f_equal. f_equal; [|lia]. unfold message, exts_bytes. cbn [xs add_exts fmap list_fmap].
  assert (Ht : msg_bytes PF_KEY_V2 (m_type (add_hdr type pid)) (m_errno (add_hdr type pid)) (m_satype (add_hdr type pid)) (msg_words xs) (m_seq (add_hdr type pid))
                 (m_pid (add_hdr type pid)) = h4 ++ le_bytes 2 (msg_words xs) ++ t).
  { unfold msg_bytes, t, add_hdr. cbn [m_type m_errno m_satype m_seq m_pid]. rewrite (le_bytes_mod 4 pid). done. }
  rewrite Ht. change (mjoin [?u; ?v; ?w; ?y]) with (u ++ v ++ w ++ y ++ []). fold es ed x.
  change (ext_bytes (XSa (htonl spi) 0 SADB_SASTATE_MATURE alg 0 0)) with sx. rewrite app_nil_r, <- !app_assoc.
  change (drop (List.length (le_bytes 2 (msg_words xs))) (le_bytes 2 0 ++ ?l)) with l. do 7 f_equal.
  unfold z. f_equal. lia.
Qed.

(** ** The key as text *)

Definition hex_ok (b : Z) : bool :=
  match fmt_02x b with
  | String c (String d "") =>
      match hex_value c, hex_value d with
      | Some v, Some w => (16 * v + w =? b) && negb (isspace c) && negb ((ord d =? 120) || (ord d =? 88))
      | _, _ => false
      end
  | _ => false
  end.
Lemma scan_hex b t : 0 ≤ b < 256 → ∃ c d, fmt_02x b +:+ t = String c (String d t) ∧ scan_2x (String c (String d t)) = Some b.
Proof.
  intros Hb. assert (H : hex_ok b = true) by (apply (zrange_forall hex_ok 256); [by vm_compute|done]).
  unfold hex_ok in H. destruct (fmt_02x b) as [|c [|d []]]; try done. exists c, d. split; [done|].
  destruct (hex_value c) as [v|] eqn:Hc; [|done]. destruct (hex_value d) as [w|] eqn:Hd; [|done].
  apply andb_true_iff in H as [[Hv Hs]%andb_true_iff Hx]. apply negb_true_iff in Hs, Hx. apply Z.eqb_eq in Hv.
  unfold scan_2x. cbn [skip_space]. rewrite Hs, Hc, Hx, andb_false_r, Hd. by rewrite Hv.
Qed.
Lemma strlen_hex key : bytes_ok key → strlen (hex_bytes key) = 2 * Z.of_nat (List.length key).
Proof.
  induction 1 as [|b key Hb _ IH]; [done|]. cbn [hex_bytes foldr] in *. destruct (scan_hex b (hex_bytes key) Hb) as (c & d & E & _).
  unfold hex_bytes in E. rewrite E. unfold strlen in *. cbn [String.length List.length]. fold (hex_bytes key) in *. lia.
Qed.

Section key_arg.
Context {K : Kernel}.

(** The digits of [key], when [n] bytes are asked for. *)
Lemma key_loop_hex arg n : ∀ key i kp fuel p, bytes_ok key → (8 * (n - i) ≤ fuel)%nat → (i ≤ n)%nat →
  post (key_loop fuel arg (8 * Z.of_nat n) (8 * Z.of_nat i) (hex_bytes key) kp) p (λ o p',
    if (n - i <=? List.length key)%nat then o = Ret (kp ++ take (n - i) key, hex_bytes (drop (n - i) key)) ∧ p' = p else o = Exit 1).
Proof.
  induction key as [|b key IH]; intros i kp fuel p Hk Hf Hi.
  - destruct (Nat.leb_spec (n - i) (List.length (@nil Z))) as [Hn|Hn]; cbn [List.length] in Hn.
    + assert (i = n) as -> by lia. destruct fuel; cbn [key_loop]; rewrite Z.leb_refl; apply post_ret;
        rewrite Nat.sub_diag; cbn [take drop]; by rewrite app_nil_r.
    + destruct fuel as [|fuel]; [lia|]. cbn [key_loop]. destruct (Z.leb_spec (8 * Z.of_nat n) (8 * Z.of_nat i)); [lia|].
      cbn [hex_bytes foldr]. change (strlen "" <? 2) with true. cbn iota. eapply post_weaken; [apply err_quit_exits|]. by intros o p' [-> _].
  - apply Forall_cons in Hk as [Hb Hk]. destruct (decide (i = n)) as [->|Hne].
    + rewrite Nat.sub_diag. destruct fuel; cbn [key_loop]; rewrite Z.leb_refl; apply post_ret;
        cbn [take drop Nat.leb]; by rewrite app_nil_r.
    + destruct fuel as [|fuel]; [lia|]. cbn [key_loop]. destruct (Z.leb_spec (8 * Z.of_nat n) (8 * Z.of_nat i)); [lia|].
      destruct (scan_hex b (hex_bytes key) Hb) as (c & d & E & Hs). change (hex_bytes (b :: key)) with (fmt_02x b +:+ hex_bytes key). rewrite E.
      replace (strlen (String c (String d (hex_bytes key))) <? 2) with false
        by (symmetry; apply Z.ltb_ge; unfold strlen; cbn [String.length]; lia).
      rewrite Hs. cbn [str_drop]. replace (8 * Z.of_nat i + 8) with (8 * Z.of_nat (S i)) by lia.
      eapply post_weaken; [apply (IH (S i) _ _ p Hk); lia|]. intros o p'. unfold u8. rewrite Z.mod_small by done.
      replace (n - i)%nat with (S (n - S i)) by lia. cbn [List.length take drop Nat.leb].
      destruct (n - S i <=? List.length key)%nat; [|done]. by rewrite <- app_assoc.
Qed.

(** With room for it, the key that [0x] and its digits denote; another number of digits
    is refused. *)
Lemma key_arg_hex key n p : bytes_ok key → (0 < n)%nat →
  post (key_arg ("0x" +:+ hex_bytes key) (8 * Z.of_nat n)) p (λ o _,
    (List.length key = n ∧ o = Ret key) ∨ (List.length key ≠ n ∧ o = Exit 1) ∨
    o = UB ∧ answer (p_trace p) (sys_malloc (u64 (Z.of_nat n))) = false).
Proof.
  intros Hk Hn. unfold key_arg. change ("0x" +:+ hex_bytes key) with (String "0" (String "x" (hex_bytes key))). cbv beta iota.
  change ((ord "x" =? 120) || (ord "x" =? 88)) with true. cbn iota.
  replace (Z.quot (8 * Z.of_nat n) 8) with (Z.of_nat n) by (rewrite Z.mul_comm; symmetry; by apply Z.quot_mul).
  unfold malloc. apply post_bind, post_bind, post_call. intros ok Hans. cbn [through]. destruct ok.
  - apply post_bind. unfold alloc, post at 1. cbn [through]. apply post_ret. cbn [through]. apply post_bind.
    eapply post_weaken; [apply (key_loop_hex _ n key 0 [] (Z.to_nat (8 * Z.of_nat n)) _ Hk); lia|].
    intros o p'. rewrite Nat.sub_0_r. destruct (Nat.leb_spec n (List.length key)) as [Hl|Hl].
    + intros [-> _]. cbn [through app]. rewrite strlen_hex by (by apply Forall_drop). rewrite length_drop.
      destruct (Z.ltb_spec 0 (2 * Z.of_nat (List.length key - n))).
      * eapply post_weaken; [apply err_quit_exits|]. intros o p2 [-> _]. right. left. split; [lia|done].
      * apply post_ret. left. rewrite take_ge by lia. split; [lia|done].
    + intros ->. cbn [through]. right. left. split; [lia|done].
  - apply post_ret. cbn [through]. apply post_bind. destruct (Z.ltb_spec 0 (8 * Z.of_nat n)); [|lia].
    rewrite strlen_hex by done. destruct (Z.ltb_spec (2 * Z.of_nat (List.length key)) 2).
    + eapply post_weaken; [apply err_quit_exits|]. intros o p2 [-> _]. cbn [through]. right. left. split; [lia|done].
    + destruct key as [|b key]; [cbn in *; lia|]. apply Forall_cons in Hk as [Hb Hk].
      destruct (scan_hex b (hex_bytes key) Hb) as (c & d & E & Hs). change (hex_bytes (b :: key)) with (fmt_02x b +:+ hex_bytes key). rewrite E, Hs.
      right. right. split; [done|]. by rewrite Hans.
Qed.
End key_arg.

(** ** Whole runs *)

(** Any continuation adds to what was shown. *)
Lemma runs_any {K : Kernel} {B0 A} (obs1 : event → list B0) (m : M A) : framed (λ _, True) m → runs obs1 m (λ _ _, True).
Proof.
  intros Hm p. eapply post_weaken; [by apply framed_post|]. intros o p' [(t & -> & _) _].
  assert (H : ∃ new, seen obs1 (t ++ p_trace p) = seen obs1 (p_trace p) ++ new).
  { clear. induction t as [|e t [new IH]]; [exists []; by rewrite app_nil_r|]. exists (new ++ obs1 e).
    cbn [app seen]. by rewrite IH, app_assoc. }
  destruct H as [new H]. by exists new.
Qed.

Section framed_print.
Context {K : Kernel} (localtime_c : Z → string).
Let P (e : event) : Prop := True.

Lemma framed_printf_any s : framed P (printf s).
Proof. unfold printf. framed_tac. Qed.
Lemma framed_err_any b level s : framed P (err_doit b level s).
Proof. apply framed_report. done. Qed.
Lemma framed_ntop_any sa len : framed P (sock_ntop sa len).
Proof. unfold sock_ntop, ntop, ntop_unix. framed_tac. Qed.
Lemma framed_key_bytes buf fuel : ∀ p bits, framed P (key_bytes buf fuel p bits).
Proof. induction fuel; intros; cbn [key_bytes]; framed_tac; auto using framed_printf_any. Qed.
Lemma framed_supported_loop buf fuel : ∀ t a l, framed P (supported_loop buf fuel t a l).
Proof. induction fuel; intros; cbn [supported_loop]; framed_tac; auto using framed_printf_any. Qed.
#[local] Hint Resolve framed_printf_any framed_err_any framed_ntop_any framed_key_bytes framed_supported_loop : framed.
Lemma framed_sa_print buf ext : framed P (sa_print buf ext).
Proof. unfold sa_print. framed_tac. Qed.
Lemma framed_lifetime_print buf ext : framed P (lifetime_print localtime_c buf ext).
Proof. unfold lifetime_print. framed_tac. Qed.
Lemma framed_address_print buf ext : framed P (address_print buf ext).
Proof. unfold address_print. framed_tac. Qed.
Lemma framed_key_print buf ext : framed P (key_print buf ext).
Proof. unfold key_print. framed_tac. Qed.
Lemma framed_supported_print buf ext : framed P (supported_print buf ext).
Proof. unfold supported_print. framed_tac. Qed.
#[local] Hint Resolve framed_sa_print framed_lifetime_print framed_address_print framed_key_print framed_supported_print : framed.
Lemma framed_ext_print buf ext : framed P (ext_print localtime_c buf ext).
Proof. unfold ext_print. framed_tac. Qed.
#[local] Hint Resolve framed_ext_print : framed.
Lemma framed_ext_loop buf fuel : ∀ ext l, framed P (ext_loop localtime_c buf fuel ext l).
Proof. induction fuel; intros; cbn [ext_loop]; framed_tac; auto with framed. Qed.
#[local] Hint Resolve framed_ext_loop : framed.
Lemma framed_print_sadb_msg buf fuel len : framed P (print_sadb_msg localtime_c buf fuel len).
Proof. unfold print_sadb_msg, err_msg. framed_tac. Qed.
#[local] Hint Resolve framed_print_sadb_msg : framed.
Lemma framed_reply_loop fuel : ∀ s pid type buf, framed P (reply_loop localtime_c fuel s pid type buf).
Proof.
  induction fuel; intros; cbn [reply_loop]; unfold Read, or_err_sys, err_sys, st; framed_tac; auto with framed.
Qed.
End framed_print.


(** [ends C m]: whatever it does, [m] does not run out of fuel unless [C]. *)
Definition ends (C : Prop) {A} (m : M A) : Prop := ∀ p, post m p (λ o _, o = NoFuel → C).
Section rules.
Context {K : Kernel} (C : Prop).
Lemma ends_bind {A B} (m : M A) (k : A → M B) : ends C m → (∀ a, ends C (k a)) → ends C (m ≫= k).
Proof. intros Hm Hk p. apply post_bind. eapply post_weaken; [apply Hm|]. intros [] p' H; cbn [through]; try done; [apply Hk|auto]. Qed.
Lemma ends_ret {A} (a : A) : ends C (mret a).
Proof. intros p. by apply post_ret. Qed.
Lemma ends_ld {A} (o : option A) : ends C (ld o).
Proof. intros p. by destruct o. Qed.
Lemma ends_call {A} (c : sys A) : ends C (call c).
Proof. intros p. by apply post_call. Qed.
Lemma ends_printf s : ends C (printf s).
Proof. intros p. unfold printf. apply post_bind, post_syscall; intros; cbn [through]; by apply post_ret. Qed.
Lemma ends_set_errno e : ends C (set_errno e).
Proof. done. Qed.
Lemma ends_err_msg s : ends C (err_msg s).
Proof. intros p. eapply post_weaken; [apply err_doit_reports|]. by intros o p' [-> _]. Qed.
End rules.
Ltac ends_tac := repeat (progress intros || lazymatch goal with
  | |- ends _ (mbind _ _) => apply ends_bind
  | |- ends _ (printf _) => apply ends_printf
  | |- ends _ (mret _) => apply ends_ret
  | |- ends _ (ld _) => apply ends_ld
  | |- ends _ (set_errno _) => apply ends_set_errno
  | |- ends _ (err_msg _) => apply ends_err_msg
  | |- ends _ (call _) => apply ends_call
  | |- ends _ (if ?b then _ else _) => destruct b
  | |- ends _ (match ?x with _ => _ end) => destruct x
  end).

Section ends.
Context {K : Kernel} (localtime_c : Z → string) (buf : list Z).
Section prints.
Context (C : Prop).
Lemma ends_ntop sa len : ends C (sock_ntop sa len).
Proof. unfold sock_ntop, ntop, ntop_unix. ends_tac. done. Qed.
Lemma ends_key_bytes fuel : ∀ p bits, bits ≤ Z.of_nat fuel → ends C (key_bytes buf fuel p bits).
Proof.
  induction fuel as [|fuel IH]; intros p bits Hf; cbn [key_bytes]; destruct (Z.leb_spec bits 0); try lia; ends_tac.
  apply IH. lia.
Qed.
Lemma ends_supported_loop t fuel : ∀ a len, len ≤ Z.of_nat fuel → ends C (supported_loop buf fuel t a len).
Proof.
  induction fuel as [|fuel IH]; intros a len Hf; cbn [supported_loop]; destruct (Z.leb_spec len 0); try lia; ends_tac.
  apply IH. unfold SIZEOF_ALG. lia.
Qed.
Lemma ends_ext ext : ends C (ext_print localtime_c buf ext).
Proof.
  unfold ext_print, sa_print, lifetime_print, address_print, key_print, supported_print.
  ends_tac; first [apply ends_ntop|apply ends_key_bytes; lia|apply ends_supported_loop; lia|idtac]; ends_tac.
Qed.
End prints.

(** From one extension to the next. *)
Definition next_ext (i j : Z) : Prop := ∃ w, u16_at buf i = Some w ∧ j = i + 8 * w.
(** An extension of length 0 among those of the message. *)
Definition empty_ext (msglen k : Z) : Prop := rtc next_ext SIZEOF_MSG k ∧ k < msglen ∧ u16_at buf k = Some 0.

Context (Hbuf : bytes_ok buf).
Lemma u16_range i w : u16_at buf i = Some w → 0 ≤ w.
Proof.
  unfold u16_at. cbn [le_at]. destruct (u8_at buf i) as [a|] eqn:Ha, (u8_at buf (i + 1)) as [b|] eqn:Hb; try done.
  intros [= <-]. pose proof (u8_at_byte _ _ _ Hbuf Ha). pose proof (u8_at_byte _ _ _ Hbuf Hb). lia.
Qed.
Lemma next_forward i k : rtc next_ext i k → i ≤ k.
Proof. induction 1 as [|i j k (w & Hw & ->) _ IH]; [lia|]. apply u16_range in Hw. lia. Qed.
Lemma ext_loop_ends fuel : ∀ i msglen p, msglen ≤ 8 * Z.of_nat fuel →
  post (ext_loop localtime_c buf fuel i msglen) p (λ o _,
    o = NoFuel → ∃ k, rtc next_ext i k ∧ k < i + msglen ∧ u16_at buf k = Some 0).
Proof.
  induction fuel as [|fuel IH]; intros i msglen p Hf; cbn [ext_loop]; destruct (Z.leb_spec msglen 0); try lia; try by apply post_ret.
  apply post_bind. eapply post_weaken; [apply (ends_ext False i)|]. intros [] p1 Ho; cbn [through]; try done.
  destruct (u16_at buf i) as [w|] eqn:Hw; [|done]. apply post_bind, post_ret. cbn [through]. rewrite Z.shiftl_mul_pow2 by lia. change (2 ^ 3) with 8.
  pose proof (u16_range _ _ Hw). destruct (decide (w = 0)) as [->|Hne].
  - eapply post_weaken with (Q := λ _ _, True); [by apply post_true|]. intros o p2 _ _.
    exists i. split; [apply rtc_refl|]. split; [lia|done].
  - eapply post_weaken; [apply (IH (i + w * 8) (msglen - w * 8) p1); lia|]. intros o p2 Hk E. destruct (Hk E) as (k & Hr & Hlt & Hz).
    exists k. split; [|split; [lia|done]]. eapply rtc_l; [|exact Hr]. exists w. split; [done|lia].
Qed.
Lemma ext_loop_stuck fuel : ∀ i k msglen p, rtc next_ext i k → k < i + msglen → u16_at buf k = Some 0 →
  post (ext_loop localtime_c buf fuel i msglen) p (λ o _, o ≠ Ret tt).
Proof.
  induction fuel as [|fuel IH]; intros i k msglen p Hr Hk Hz; pose proof (next_forward _ _ Hr); cbn [ext_loop];
    destruct (Z.leb_spec msglen 0); try lia; [done|].
  apply post_bind. eapply post_weaken with (Q := λ _ _, True); [by apply post_true|].
  intros [] p1 _; cbn [through]; try done. destruct (u16_at buf i) as [w|] eqn:Hw; [|done]. apply post_bind, post_ret. cbn [through].
  rewrite Z.shiftl_mul_pow2 by lia. change (2 ^ 3) with 8.
  destruct Hr as [k|i j k (w' & Hw' & ->) Hr].
  - simplify_eq. change (0 * 8) with 0. rewrite Z.add_0_r, Z.sub_0_r. apply (IH k k); [apply rtc_refl|lia|done].
  - simplify_eq. rewrite (Z.mul_comm w'). apply (IH _ k); [done|lia|done].
Qed.
End ends.

(** ** Properties *)

Section properties.
Context {K : Kernel} (localtime_c : Z → string).

Lemma htonl_range z : 0 ≤ htonl z < 2 ^ 32.
Proof.
  assert (H : ∀ x, 0 ≤ Z.land x 255 < 256).
  { intros x. change 255 with (Z.ones 8). rewrite Z.land_ones by lia. by apply Z.mod_pos_bound. }
  unfold htonl, be32. cbn [foldr]. set (w := u32 z).
  pose proof (H (Z.shiftr w 24)). pose proof (H (Z.shiftr w 16)). pose proof (H (Z.shiftr w 8)). pose proof (H w). lia.
Qed.
Lemma framed_err_unseen b level s : framed (unseen out1) (err_doit b level s).
Proof. unfold err_doit. repeat first [apply framed_call; intros; reflexivity|progress framed_tac]. Qed.
Lemma runs_Socket family t proto (Q : outcome Z → list (ascii + list Z) → Prop) : (∀ s, Q (Ret s) []) → Q (Exit 1) [] → runs out1 (Socket family t proto) Q.
Proof.
  intros H1 H2. unfold Socket, or_err_sys. apply runs_bind, runs_syscall; intros; cbn [passes app]; [by apply runs_ret|].
  apply runs_unseen; [apply framed_bind; [apply framed_err_unseen|framed_tac]|]. intros p. eapply post_weaken; [apply err_sys_exits|]. by intros o p' [-> _].
Qed.

(** C25: a message made of well-formed extensions is printed from its first to its last: its header (with the text of
    its error, when it has one), then, in order and each once, the text of every extension.  Of an association, a
    lifetime, an address, a key and a list of algorithms this shows all the fields, the addresses in the form that
    [inet_pton] reads back, the keys in the digits that denote them, and the numbers of a lifetime, unless they are
    times of day, as the low 32 bits that [%d] takes of them; of the flags of an association only the one for perfect
    forward secrecy is named, and of an extension of another type it shows only the name of the
    type.  The turns of the loop are
    the extensions, and what follows the message in the buffer is not read. *)
Theorem print_message_correct (h : hdr) (xs : list ext) (rest : list Z) (fuel : nat) :
  hdr_ok h → Forall ext_ok xs → Forall (λ x, 0 < ext_words x) xs → msg_words xs < 2 ^ 16 → (List.length xs ≤ fuel)%nat →
  says (print_sadb_msg localtime_c (message h xs ++ rest) fuel (8 * msg_words xs)) (message_text localtime_c h xs).
Proof. apply says_message. Qed.

(** C26: on any bytes whatever, the loop over the extensions ends within one turn for eight
    bytes, unless one that it reaches has length 0; then no number of turns is enough,
    since it never moves past that one. *)
Theorem print_sadb_msg_ends (buf : list Z) (msglen : Z) (p : proc) :
  bytes_ok buf →
  (∀ fuel, msglen ≤ 8 * Z.of_nat fuel →
     post (print_sadb_msg localtime_c buf fuel msglen) p (λ o _, o = NoFuel → ∃ k, empty_ext buf msglen k)) ∧
  (∀ k, empty_ext buf msglen k → u16_at buf 4 = Some (msglen / 8) → msglen mod 8 = 0 → u8_at buf 0 = Some PF_KEY_V2 →
     ∀ fuel, post (print_sadb_msg localtime_c buf fuel msglen) p (λ o _, o ≠ Ret tt)).
Proof.
  intros Hb. split.
  - intros fuel Hf. assert (Hl : ends (∃ k, empty_ext buf msglen k) (ext_loop localtime_c buf fuel SIZEOF_MSG (msglen - SIZEOF_MSG))).
    { intros p1. eapply post_weaken; [apply ext_loop_ends; [done|unfold SIZEOF_MSG; lia]|]. intros o p2 H E.
      destruct (H E) as (k & Hr & Hk & Hz). exists k. split; [done|]. split; [lia|done]. }
    revert p. change (ends (∃ k, empty_ext buf msglen k) (print_sadb_msg localtime_c buf fuel msglen)).
    unfold print_sadb_msg. ends_tac. exact Hl.
  - intros k (Hr & Hk & Hz) H4 Hm H0 fuel. pose proof (next_forward buf Hb _ _ Hr) as Hge. unfold SIZEOF_MSG in Hge.
    unfold print_sadb_msg. rewrite (ld_bind _ _ _ H4). replace (msglen =? msglen / 8 * 8) with true by (symmetry; apply Z.eqb_eq; zdiv).
    rewrite (ld_bind _ _ _ H0). change (negb true) with false. change (negb (PF_KEY_V2 =? PF_KEY_V2)) with false. cbn iota.
    replace (msglen =? SIZEOF_MSG) with false by (symmetry; apply Z.eqb_neq; unfold SIZEOF_MSG; lia).
    assert (Hstep : ∀ {A} (m : M A) (f : A → M unit), (∀ a p1, post (f a) p1 (λ o _, o ≠ Ret tt)) → ∀ p1, post (m ≫= f) p1 (λ o _, o ≠ Ret tt)).
    { intros A m f Hf p1. apply post_bind. eapply post_weaken; [apply post_true|]. intros [] p2 _; cbn [through]; done. }
    repeat (apply Hstep; intros). apply (ext_loop_stuck _ _ Hb _ _ k); [done|unfold SIZEOF_MSG; lia|done].
Qed.

Lemma length_message h xs : Forall ext_ok xs → Z.of_nat (List.length (message h xs)) = 8 * msg_words xs.
Proof.
  intros Hok. unfold message, msg_words, exts_bytes. rewrite length_app, Nat2Z.inj_add. change (Z.of_nat (List.length (msg_bytes _ _ _ _ _ _ _))) with 16.
  assert (H : Z.of_nat (List.length (mjoin (ext_bytes <$> xs))) = 8 * sumz ext_words xs); [|lia].
  induction Hok as [|x xs Hx _ IH]; [done|]. rewrite fmap_cons. change (mjoin (?x :: ?l)) with (x ++ mjoin l).
  rewrite length_app, Nat2Z.inj_add, IH, length_ext_bytes by done. cbn [sumz]. lia.
Qed.
Lemma add_exts_ok src dst alg spi key :
  is_inet src → sockaddr_ok src → is_inet dst → sockaddr_ok dst → bytes_ok key → Z.of_nat (List.length key) < 2 ^ 31 → 0 ≤ alg < 256 →
  8 * msg_words (add_exts src dst alg spi key) ≤ Z.of_nat BUFLEN →
  Forall ext_ok (add_exts src dst alg spi key) ∧ Forall (λ x, 0 < ext_words x) (add_exts src dst alg spi key).
Proof.
  intros Hsi Hso Hdi Hdo Hk Hkl Ha Hfit.
  destruct (address_ext_ok SADB_EXT_ADDRESS_SRC src Hsi Hso ltac:(unfold SADB_EXT_ADDRESS_SRC; lia)) as [Hs1 Hs2].
  destruct (address_ext_ok SADB_EXT_ADDRESS_DST dst Hdi Hdo ltac:(unfold SADB_EXT_ADDRESS_DST; lia)) as [Hd1 Hd2].
  set (x := XKey SADB_EXT_KEY_AUTH (8 * Z.of_nat (List.length key)) key).
  assert (Hx : 8 * ext_words x ≤ 4096 ∧ 0 < ext_words x ∧ Z.of_nat (List.length key) ≤ 8 * ext_words x).
  { unfold msg_words, add_exts in Hfit. cbn [sumz] in Hfit. fold x in Hfit. change (ext_words (XSa _ _ _ _ _ _)) with 2 in Hfit.
    unfold BUFLEN in Hfit. split; [lia|]. unfold x. cbn [ext_words]. unfold SIZEOF_KEY. zdiv. }
  unfold add_exts. fold x. repeat split; repeat first [apply Forall_cons_2|apply Forall_nil_2]; try done; try lia.
  - split; [done|]. unfold htonl, SADB_SASTATE_MATURE. pose proof (htonl_range spi). unfold htonl in *. repeat split; lia.
  - split; [lia|]. repeat split; try done; unfold SADB_EXT_KEY_AUTH; lia.
Qed.

(** The end and the output of [sadb_add]: nothing, when there is no socket; a store outside the
    buffer; or the text of the message, the message, and whatever follows. *)
Definition add_result (type : Z) (xs : list ext) (o : outcome unit) (new : list (ascii + list Z)) : Prop :=
  (o = Exit 1 ∧ new = []) ∨ (o = UB ∧ new = [] ∧ Z.of_nat BUFLEN < 8 * msg_words xs) ∨
  ∃ pid text more, message_text localtime_c (add_hdr type pid) xs text ∧
    new = (inl <$> chars ("Sending add message:" +:+ nl +:+ text)) ++ inr (message (add_hdr type pid) xs) :: more.

(** C27: what add.c sends for two Internet addresses and a key is one message, of the four extensions
    that RFC 2367 asks for, zero wherever no field is; it has printed it first, with the
    addresses and the key that were given.  A key that does not fit in the buffer is copied beyond
    its end. *)
Theorem sadb_add_sends (fuel : nat) (src dst : sockaddr) (type alg spi : Z) (key : list Z) :
  is_inet src → sockaddr_ok src → is_inet dst → sockaddr_ok dst → bytes_ok key → Z.of_nat (List.length key) < 2 ^ 31 →
  0 ≤ type < 256 → 0 ≤ alg < 256 →
  runs out1 (sadb_add localtime_c fuel src dst type alg spi (8 * Z.of_nat (List.length key)) key)
    (add_result type (add_exts src dst alg spi key)).
Proof.
  intros Hsi Hso Hdi Hdo Hk Hkl Ht Ha. set (xs := add_exts src dst alg spi key). unfold add_result, sadb_add. apply runs_bind, runs_Socket; [intros sk; cbn [passes app]|by left].
  apply runs_bind, runs_call. intros mypid. cbn [passes app]. apply runs_bind, runs_call. intros pid. cbn [passes app].
  apply runs_bind. intros p. pose proof (add_request_message src dst type alg spi key pid p Hsi Hso Hdi Hdo Hkl) as Hreq. cbn zeta in Hreq.
  fold xs in Hreq. case_decide as Hfit.
  2: { eapply post_eq; [exact Hreq|]. exists []. rewrite app_nil_r. split; [done|]. right. left. split; [done|]. split; [done|lia]. }
  eapply post_eq; [exact Hreq|]. exists []. rewrite app_nil_r. split; [done|]. cbn [passes app].
  set (m := message (add_hdr type pid) xs) in *.
  destruct (add_exts_ok src dst alg spi key Hsi Hso Hdi Hdo Hk Hkl Ha Hfit) as (He & Hp). fold xs in He, Hp.
  assert (Hsay : says (print_sadb_msg localtime_c (m ++ replicate (BUFLEN - Z.to_nat (8 * msg_words xs)) 0) BUFLEN (8 * msg_words xs))
            (message_text localtime_c (add_hdr type pid) xs)).
  { apply says_message; [|exact He|exact Hp|unfold BUFLEN in Hfit; lia|change (List.length xs) with 4%nat; unfold BUFLEN; lia].
    split; [cbn; unfold SADB_ADD; lia|]. split; [cbn; lia|]. split; [exact Ht|]. split; [cbn; lia|]. apply u32_bound. }
  eapply runs_bind, runs_weaken; [apply (says_printf ("Sending add message:" +:+ nl))|]. intros o1 n1 (-> & s1 & <- & ->). cbn [passes].
  eapply runs_bind, runs_weaken; [exact Hsay|]. intros o2 n2 (-> & text & Htext & ->). cbn [passes].
  assert (Htake : take (Z.to_nat (8 * msg_words xs)) (m ++ replicate (BUFLEN - Z.to_nat (8 * msg_words xs)) 0) = m).
  { apply take_app_length'. pose proof (length_message (add_hdr type pid) xs He). fold m in H. lia. }
  rewrite Htake. apply runs_bind. unfold Write. apply runs_bind.
  assert (Hend : ∀ new (o : outcome unit),
    (o = Exit 1 ∧ (inl <$> chars ("Sending add message:" +:+ nl)) ++ (inl <$> chars text) ++ inr m :: new = []) ∨
    (o = UB ∧ (inl <$> chars ("Sending add message:" +:+ nl)) ++ (inl <$> chars text) ++ inr m :: new = [] ∧ Z.of_nat BUFLEN < 8 * msg_words xs) ∨
    ∃ pid0 text0 more, message_text localtime_c (add_hdr type pid0) xs text0 ∧
      (inl <$> chars ("Sending add message:" +:+ nl)) ++ (inl <$> chars text) ++ inr m :: new =
      (inl <$> chars ("Sending add message:" +:+ nl +:+ text0)) ++ inr (message (add_hdr type pid0) xs) :: more).
  { intros new o. right. right. exists pid, text, new. split; [exact Htext|]. fold m. by rewrite <- str_app_assoc, chars_app, fmap_app, <- app_assoc. }
  assert (Herr : ∀ (A : Type) s, runs out1 (err_sys (A := A) s) (λ o new, o = Exit 1 ∧ new = [])).
  { intros A s. apply runs_unseen; [apply framed_bind; [apply framed_err_unseen|framed_tac]|]. intros p1. eapply post_weaken; [apply err_sys_exits|]. by intros o p' [-> _]. }
  assert (Hrest : runs out1 (printf (nl +:+ "Reply returned:" +:+ nl) ;; reply_loop localtime_c fuel sk mypid SADB_ADD
     (m ++ replicate (BUFLEN - Z.to_nat (8 * msg_words xs)) 0) ;; syscall (sys_close sk) ;; mret tt) (λ _ _, True)).
  { apply runs_any. framed_tac; auto using framed_printf_any, framed_reply_loop. }
  apply runs_syscall; intros; cbn [passes out1 app].
  - destruct (_ =? _).
    + apply runs_ret. cbn [passes]. eapply runs_weaken; [exact Hrest|]. intros o new _. rewrite <- ?app_assoc. apply Hend.
    + eapply runs_weaken; [apply Herr|]. intros o new (-> & ->). cbn [passes]. rewrite <- ?app_assoc. apply Hend.
  - eapply runs_weaken; [apply Herr|]. intros o new (-> & ->). cbn [passes]. rewrite <- ?app_assoc. apply Hend.
Qed.

(** The key of the command line: [0x] and the two digits of each byte denote the key, and
    no other number of digits is accepted for it; those are the digits that are printed of the
    key, so that what is typed is what the printing of the request shows. *)
Theorem key_arg_roundtrip (key : list Z) (n : nat) (p : proc) :
  bytes_ok key → (0 < n)%nat →
  post (key_arg ("0x" +:+ hex_bytes key) (8 * Z.of_nat n)) p (λ o _,
    (List.length key = n ∧ o = Ret key) ∨ (List.length key ≠ n ∧ o = Exit 1) ∨
    o = UB ∧ answer (p_trace p) (sys_malloc (u64 (Z.of_nat n))) = false).
Proof. apply key_arg_hex. Qed.
End properties.

(** ** Examples *)

Definition h0 : hdr := Hdr SADB_ADD 17 SADB_SATYPE_AH 0 42.
Definition xs0 : list ext :=
  [XSa (htonl 39030) 0 1 2 0 1; XLifetime 3 7 0 600 60; XAddress 5 17 32 (SaIn (htons 500) [10; 0; 0; 1]);
   XKey 8 32 [1; 35; 69; 103]; XSupported 15 [(2, 8, 64, 64)]; XOther 12 [0; 0; 0; 0]].
Lemma xs0_ok : Forall ext_ok xs0.
Proof.
  unfold xs0. repeat apply Forall_cons_2; try apply Forall_nil_2; (split; [vm_compute; reflexivity|]); repeat split; try (vm_compute; congruence).
  - repeat apply Forall_cons_2; try apply Forall_nil_2; lia.
  - repeat apply Forall_cons_2; try apply Forall_nil_2; lia.
  - repeat apply Forall_cons_2; try apply Forall_nil_2. vm_compute. repeat split; congruence.
  - lia.
Qed.

Lemma print_message_correct_witness :
  (@print_sadb_msg plain_kernel (λ _, "now"%string) (message h0 xs0 ++ [255]) 6 (8 * msg_words xs0) proc0).1 = Ret tt ∧
  says (@print_sadb_msg plain_kernel (λ _, "now"%string) (message h0 xs0 ++ [255]) 6 (8 * msg_words xs0))
    (message_text (K := plain_kernel) (λ _, "now"%string) h0 xs0).
Proof.
  split; [by vm_compute|]. apply (print_message_correct (K := plain_kernel) _ h0 xs0 [255] 6).
  - repeat split; vm_compute; congruence.
  - exact xs0_ok.
  - repeat apply Forall_cons_2; try apply Forall_nil_2; vm_compute; reflexivity.
  - vm_compute. reflexivity.
  - cbn. lia.
Defined.

(** A message of one extension, Reserved, of length 0. *)
Definition endless : list Z := msg_bytes PF_KEY_V2 1 0 0 3 0 0 ++ replicate 8 0.
Lemma print_sadb_msg_ends_witness :
  empty_ext endless 24 16 ∧
  post (@print_sadb_msg plain_kernel (λ _, ""%string) endless 1000 24) proc0 (λ o _, o ≠ Ret tt).
Proof.
  assert (He : empty_ext endless 24 16) by (split; [apply rtc_refl|split; [lia|reflexivity]]). split; [exact He|].
  apply (proj2 (print_sadb_msg_ends (K := plain_kernel) (λ _, ""%string) endless 24 proc0
    ltac:(apply (bool_decide_unpack _); vm_compute; exact I)) 16 He); reflexivity.
Defined.

Definition src0 : sockaddr := SaIn 0 [10; 0; 0; 1].
Definition dst0 : sockaddr := SaIn6 0 (replicate 15 0 ++ [1]).
Definition key0 : list Z := [1; 35; 69; 103].
Lemma sadb_add_sends_witness :
  (@sadb_add plain_kernel (λ _, ""%string) 0 src0 dst0 SADB_SATYPE_AH 2 39030 (8 * Z.of_nat 4) key0 proc0).1 = NoFuel ∧
  8 * msg_words (add_exts src0 dst0 2 39030 key0) ≤ Z.of_nat BUFLEN ∧
  runs out1 (@sadb_add plain_kernel (λ _, ""%string) 0 src0 dst0 SADB_SATYPE_AH 2 39030 (8 * Z.of_nat 4) key0)
    (add_result (K := plain_kernel) (λ _, ""%string) SADB_SATYPE_AH (add_exts src0 dst0 2 39030 key0)).
Proof.
  split; [by vm_compute|]. split; [by vm_compute|].
  apply (sadb_add_sends (K := plain_kernel) (λ _, ""%string) 0 src0 dst0 SADB_SATYPE_AH 2 39030 key0);
    first [exact I|by apply (bool_decide_unpack _); vm_compute|by vm_compute|unfold SADB_SATYPE_AH; lia].
Defined.

Lemma key_arg_roundtrip_witness :
  bytes_ok key0 ∧ post (@key_arg plain_kernel ("0x" +:+ hex_bytes key0) (8 * Z.of_nat 4)) proc0 (λ o _, o = Ret key0).
Proof.
  assert (H : bytes_ok key0) by (by apply (bool_decide_unpack _); vm_compute). split; [exact H|].
  eapply post_weaken; [apply (key_arg_roundtrip (K := plain_kernel) key0 4 proc0 H ltac:(lia))|].
  intros o p' [[_ ->]|[[Hl _]|[_ Hm]]]; [done|by destruct Hl|]. vm_compute in Hm. discriminate.
Defined.

(** A sign and a character that is no digit are accepted in a key. *)
Example key_arg_lax : (@key_arg plain_kernel "0x-15g" 16 proc0).1 = Ret [255; 5].
Proof. by vm_compute. Qed.
(** A key extension may say it has more bits than it has bytes. *)
Example key_print_beyond :
  (@print_sadb_msg plain_kernel (λ _, ""%string) (msg_bytes PF_KEY_V2 3 0 0 3 0 0 ++ key_ext_bytes 1 8 64) 1 24 proc0).1 = UB.
Proof. by vm_compute. Qed.
