(* ===== verification/Readers.v ===== *)
(** The other versions of readline in src/unpv13e: server/readline.c, which reads one
    byte at a time; server/readline_r.c, whose state is an argument, and
    web_child_r.c, which uses it; threads/readline.c, whose state belongs to the
    thread.  The reference is the buffered readline of lib (Stream.v). *)
From S2P Require Import Prelude Machine Posix Wrap Stream Frame Servers FdPass Child.

Section readers.
Context {K : Kernel}.

(** ** server/readline.c *)

(** The [for] loop from [n] on; result: the return value and the characters stored. *)
Fixpoint readline1_loop (fd n : Z) (todo : nat) (stored : list Z) : M (Z * list Z) :=
  match todo with
  | O => mret (n, stored)
  | S todo' =>
      rc ← syscall (sys_read fd 1);
      match rc with
      | Some [c] =>
          let stored := stored ++ [c] in
          if c =? NEWLINE then mret (n, stored) else readline1_loop fd (n + 1) todo' stored
      | Some [] => if n =? 1 then mret (0, stored) else mret (n, stored)
      | Some _ => stop UB
      | None => mret (-1, stored)
      end
  end.
Definition readline1 (fd maxlen : Z) : M (Z * list Z) := readline1_loop fd 1 (Z.to_nat (maxlen - 1)) [].
Definition Readline1 (fd maxlen : Z) : M (Z * list Z) :=
  '(n, line) ← readline1 fd maxlen;
  if n =? -1 then err_sys "readline error" else mret (n, line).

(** web_child.c linked with it, as in the threaded servers. *)
Fixpoint web_child1 (fuel : nat) (sockfd : Z) (result : list Z) : M unit :=
  match fuel with
  | O => stop NoFuel
  | S f =>
      '(nread, line) ← Readline1 sockfd MAXLINE;
      if nread =? 0 then mret tt
      else
        let ntowrite := atoi (to_string (cstr_bytes line)) in
        if (ntowrite <=? 0) || (MAXN <? ntowrite)
        then err_quit ("client request for " +:+ fmt_d ntowrite +:+ " bytes")
        else
          Writen fuel sockfd (take (Z.to_nat ntowrite) result) ;;
          web_child1 f sockfd result
  end.

(** ** server/readline_r.h, readline_r.c *)

(** [rl_cnt], [rl_bufptr] and [rl_buf] are those of readline.c; the characters at
    [read_ptr] are a result. *)
Record Rline := mkRline {
  read_fd : Z;
  read_maxlen : Z;
  rline : rl
}.

(** The fill of [rl_buf] at label [again]. *)
Fixpoint my_read_r_fill (fuel : nat) (rptr : Rline) : M (Z * Rline) :=
  match fuel with
  | O => stop NoFuel
  | S f =>
      r ← syscall (sys_read (read_fd rptr) MAXLINE);
      let buf := read_buf (rline rptr) in
      let with_rl := mkRline (read_fd rptr) (read_maxlen rptr) in
      match r with
      | None =>
          let rptr := with_rl (RL (-1) (read_ptr (rline rptr)) buf) in
          e ← get_errno;
          if e =? EINTR then my_read_r_fill f rptr else mret (-1, rptr)
      | Some bs =>
          let cnt := Z.of_nat (List.length bs) in
          let buf := bs ++ drop (List.length bs) buf in
          if cnt =? 0 then mret (0, with_rl (RL 0 (read_ptr (rline rptr)) buf))
          else mret (1, with_rl (RL cnt 0 buf))
      end
  end.

Definition my_read_r (fuel : nat) (rptr : Rline) : M (Z * Z * Rline) :=
  '(rc, rptr) ← (if read_cnt (rline rptr) <=? 0 then my_read_r_fill fuel rptr else mret (1, rptr));
  let s := rline rptr in
  if rc =? 1 then
    mret (1, read_buf s !!! read_ptr s,
          mkRline (read_fd rptr) (read_maxlen rptr) (RL (read_cnt s - 1) (S (read_ptr s)) (read_buf s)))
  else mret (rc, 0, rptr).

(** [rl_buf] keeps what is in memory. *)
Definition readline_rinit (fd maxlen : Z) (rptr : Rline) : Rline :=
  mkRline fd maxlen (RL 0 0 (read_buf (rline rptr))).

Fixpoint readline_r_loop (fuel : nat) (n : Z) (todo : nat) (stored : list Z) (rptr : Rline) : M (Z * list Z * Rline) :=
  match todo with
  | O => mret (n, stored, rptr)
  | S todo' =>
      '(rc, c, rptr) ← my_read_r fuel rptr;
      if rc =? 1 then
        let stored := stored ++ [c] in
        if c =? NEWLINE then mret (n, stored, rptr)
        else readline_r_loop fuel (n + 1) todo' stored rptr
      else if rc =? 0 then
        if n =? 1 then mret (0, stored, rptr) else mret (n, stored, rptr)
      else mret (-1, stored, rptr)
  end.
Definition readline_r (fuel : nat) (rptr : Rline) : M (Z * list Z * Rline) :=
  readline_r_loop fuel 1 (Z.to_nat (read_maxlen rptr - 1)) [] rptr.
Definition Readline_r (fuel : nat) (rptr : Rline) : M (Z * list Z * Rline) :=
  '(n, line, rptr) ← readline_r fuel rptr;
  if n =? -1 then err_sys "readline_r error" else mret (n, line, rptr).

(** ** server/web_child_r.c *)

Fixpoint web_child_r_loop (fuel : nat) (sockfd : Z) (result : list Z) (rptr : Rline) : M Rline :=
  match fuel with
  | O => stop NoFuel
  | S f =>
      '(nread, line, rptr) ← Readline_r fuel rptr;
      if nread =? 0 then mret rptr
      else
        let ntowrite := atoi (to_string (cstr_bytes line)) in
        if (ntowrite <=? 0) || (MAXN <? ntowrite)
        then err_quit ("client request for " +:+ fmt_d ntowrite +:+ " bytes")
        else
          Writen fuel sockfd (take (Z.to_nat ntowrite) result) ;;
          web_child_r_loop f sockfd result rptr
  end.
(** [rline] on the stack is not initialised. *)
Definition web_child_r (fuel : nat) (sockfd : Z) (result : list Z) (rptr : Rline) : M Rline :=
  web_child_r_loop fuel sockfd result (readline_rinit sockfd MAXLINE rptr).

(** ** threads/readline.c

    [tsd] is what [pthread_getspecific(rl_key)] returns: the [Rline] of the
    calling thread, if it has one.  [rl_once], [readline_once] and [rl_key] are the
    addresses and the key. *)
Definition SIZEOF_RLINE : Z := 4112.
Definition readline_once (readline_destructor : Z) : M Z := Pthread_key_create readline_destructor.

Definition thread_data (rl_once readline_once rl_key : Z) (tsd : option rl) : M rl :=
  Pthread_once rl_once readline_once ;;
  match tsd with
  | Some tsd => mret tsd
  | None =>
      ptr ← Calloc SIZEOF_RLINE;
      Pthread_setspecific rl_key ptr ;;
      mret rl0
  end.
Definition thread_readline (fuel : nat) (rl_once readline_once rl_key fd maxlen : Z) (tsd : option rl)
    : M (Z * list Z * rl) :=
  tsd ← thread_data rl_once readline_once rl_key tsd;
  readline_loop fuel fd 1 (Z.to_nat (maxlen - 1)) [] tsd.
Definition thread_Readline (fuel : nat) (rl_once readline_once rl_key fd maxlen : Z) (tsd : option rl)
    : M (Z * list Z * rl) :=
  '(n, line, s) ← thread_readline fuel rl_once readline_once rl_key fd maxlen tsd;
  if n <? 0 then err_sys "readline error" else mret (n, line, s).
End readers.

(** ** Equivalence of readline_r and readline *)

(** The result of a computation, changed by a function. *)
Definition map_out {A B} (f : A → B) (o : outcome A) : outcome B :=
  match o with
  | Ret a => Ret (f a) | Exit s => Exit s | Abort => Abort | UB => UB | NoFuel => NoFuel
  end.
(** What the results of a computation satisfy, whatever the state. *)
Definition returns {A} (P : A → Prop) (m : M A) : Prop :=
  ∀ p, post m p (λ o _, match o with Ret a => P a | _ => True end).
Lemma returns_ret {A} (P : A → Prop) a : P a → returns P (mret a).
Proof. by intros H p. Qed.
Lemma returns_bind {A B} (P : B → Prop) (m : M A) (k : A → M B) : (∀ a, returns P (k a)) → returns P (m ≫= k).
Proof.
  intros Hk p. unfold post, mbind, M_bind. destruct (m p) as [[] p']; try done. apply (Hk a p').
Qed.
(** The two computations do the same and [f] relates their results; when they end the
    process, they do so after the same history and a report, whose text may differ. *)
Definition same_end {A} (o : outcome A) (p1 p2 : proc) : Prop :=
  match o with
  | Exit _ => p1 = p2 ∨ ∃ q, reported q p1 ∧ reported q p2
  | _ => p1 = p2
  end.
Definition maps_to {A B} (f : A → B) (m : M A) (m' : M B) : Prop :=
  ∀ p, (m' p).1 = map_out f (m p).1 ∧ same_end (m p).1 (m p).2 (m' p).2.

Lemma maps_eq {A B} (f : A → B) (m : M A) (m' : M B) p : (m' p).1 = map_out f (m p).1 → (m' p).2 = (m p).2 →
  (m' p).1 = map_out f (m p).1 ∧ same_end (m p).1 (m p).2 (m' p).2.
Proof. intros H1 H2. split; [done|]. rewrite H2. destruct (m p) as [[] p']; by try left. Qed.
Lemma maps_ret {A B} (f : A → B) a b : b = f a → maps_to f (mret a) (mret b).
Proof. by intros -> p. Qed.
Lemma maps_same {A} (m : M A) : maps_to id m m.
Proof. intros p. apply maps_eq; [by destruct (m p) as [[] p']|done]. Qed.
Lemma maps_bind_returns {A B C D} (P : A → Prop) (f : A → B) (g : C → D) (m : M A) (m' : M B) (k : A → M C) (k' : B → M D) :
  maps_to f m m' → returns P m → (∀ a, P a → maps_to g (k a) (k' (f a))) → maps_to g (m ≫= k) (m' ≫= k').
Proof.
  intros Hm HP Hk p. unfold mbind, M_bind. specialize (Hm p) as [Ho Hp]. specialize (HP p). unfold post in HP.
  destruct (m p) as [[] p1], (m' p) as [[] p2]; cbn in *; try done; simplify_eq; try done. by apply Hk.
Qed.
Lemma maps_bind {A B C D} (f : A → B) (g : C → D) (m : M A) (m' : M B) (k : A → M C) (k' : B → M D) :
  maps_to f m m' → (∀ a, maps_to g (k a) (k' (f a))) → maps_to g (m ≫= k) (m' ≫= k').
Proof.
  intros Hm Hk. apply (maps_bind_returns (λ _, True) f); [done| |auto].
  intros p. unfold post. by destruct (m p) as [[] p'].
Qed.
Lemma maps_bind_same {A C D} (g : C → D) (m : M A) (k : A → M C) (k' : A → M D) :
  (∀ a, maps_to g (k a) (k' a)) → maps_to g (m ≫= k) (m ≫= k').
Proof. intros Hk. apply (maps_bind id); [apply maps_same|]. done. Qed.
Lemma maps_report {A B} (f : A → B) (m : M A) (m' : M B) :
  (∀ p, post m p (λ o p', o = Exit 1 ∧ reported p p')) → (∀ p, post m' p (λ o p', o = Exit 1 ∧ reported p p')) →
  maps_to f m m'.
Proof.
  intros Hm Hm' p. specialize (Hm p). specialize (Hm' p). unfold post in *.
  destruct (m p) as [o1 p1], (m' p) as [o2 p2], Hm as [-> H1], Hm' as [-> H2]. split; [done|]. right. eauto.
Qed.

(** What [readline_r] returns where [readline] returns [n] with [line]: at the
    end of the file after some data, one more. *)
Definition r_count (maxlen n : Z) (line : list Z) : Z :=
  if (n <=? 0) || (n =? maxlen) || bool_decide (last line = Some NEWLINE) then n else n + 1.
Definition to_r (fd maxlen : Z) : Z * list Z * rl → Z * list Z * Rline :=
  λ '(n, line, s), (r_count maxlen n line, line, mkRline fd maxlen s).

Section equivalence.
Context {K : Kernel} (fd maxlen : Z).

Abbreviation Rl := (mkRline fd maxlen).

Lemma my_read_r_fill_maps fuel : ∀ s, maps_to (prod_map id Rl) (my_read_fill fuel fd s) (my_read_r_fill fuel (Rl s)).
Proof.
  induction fuel as [|f IH]; intros s; [done|]. cbn [my_read_fill my_read_r_fill read_fd rline read_maxlen].
  apply maps_bind_same. intros [bs|].
  - case_match; by apply maps_ret.
  - apply maps_bind_same. intros e. case_match; [apply IH|by apply maps_ret].
Qed.
Lemma my_read_r_maps fuel s : maps_to (prod_map id Rl) (my_read fuel fd s) (my_read_r fuel (Rl s)).
Proof.
  unfold my_read, my_read_r. cbn [rline]. apply (maps_bind (prod_map id Rl)).
  - case_match; [apply my_read_r_fill_maps|by apply maps_ret].
  - intros [rc s']. cbn. case_match; by apply maps_ret.
Qed.
Lemma readline_r_loop_maps fuel todo : ∀ n stored s,
  n + Z.of_nat todo = maxlen → n = Z.of_nat (List.length stored) + 1 → NEWLINE ∉ stored →
  maps_to (to_r fd maxlen) (readline_loop fuel fd n todo stored s) (readline_r_loop fuel n todo stored (Rl s)).
Proof.
  induction todo as [|todo IH]; intros n stored s Hn Hs Hnl; cbn [readline_loop readline_r_loop].
  { apply maps_ret. unfold to_r, r_count. rewrite (proj2 (Z.eqb_eq n maxlen)) by lia. by rewrite orb_true_r. }
  apply (maps_bind (prod_map id Rl)); [apply my_read_r_maps|]. intros [[rc c] s']. cbn.
  destruct (rc =? 1); [|destruct (rc =? 0)].
  - destruct (Z.eqb_spec c NEWLINE) as [->|Hc].
    + apply maps_ret. unfold to_r, r_count. rewrite last_snoc, (bool_decide_eq_true_2 (_ = _)) by done. by rewrite orb_true_r.
    + apply IH; [lia|rewrite length_app; cbn; lia|set_solver].
  - destruct (Z.eqb_spec n 1) as [->|Hn1]; apply maps_ret; unfold to_r, r_count; [done|].
    rewrite (proj2 (Z.leb_gt (n - 1) 0)), (proj2 (Z.eqb_neq (n - 1) maxlen)) by lia. rewrite bool_decide_eq_false_2.
    { cbn. by rewrite Z.sub_add. }
    intros Hl%last_Some_elem_of. done.
  - by apply maps_ret.
Qed.
Lemma readline_r_maps fuel s :
  0 < maxlen → maps_to (to_r fd maxlen) (readline fuel fd maxlen s) (readline_r fuel (Rl s)).
Proof. intros Hm. apply readline_r_loop_maps; [cbn; lia|done|apply not_elem_of_nil]. Qed.
End equivalence.

(** The return value is 0 or negative for both or for none. *)
Lemma r_count_sign maxlen n line : -1 ≤ n → (r_count maxlen n line =? 0) = (n =? 0) ∧ (r_count maxlen n line =? -1) = (n <? 0).
Proof. intros Hn. unfold r_count. repeat case_match; split; zbool; lia. Qed.

Section web_equivalence.
Context {K : Kernel}.

Lemma readline_returns fuel fd maxlen s : returns (λ '(n, _, _), -1 ≤ n) (readline fuel fd maxlen s).
Proof.
  unfold readline. assert (H1 : 1 ≤ 1) by lia. revert H1. generalize 1 at 2 3 as n. generalize (@nil Z) as l. revert s.
  induction (Z.to_nat (maxlen - 1)) as [|todo IH]; intros s l n Hn; cbn [readline_loop]; [apply returns_ret; lia|].
  apply returns_bind. intros [[rc c] s']. case_match; [case_match; [apply returns_ret; lia|apply IH; lia]|].
  case_match; apply returns_ret; lia.
Qed.
Lemma Readline_r_maps fuel fd s :
  maps_to (to_r fd MAXLINE) (Readline fuel fd MAXLINE s) (Readline_r fuel (mkRline fd MAXLINE s)).
Proof.
  unfold Readline, Readline_r. eapply maps_bind_returns; [by apply readline_r_maps|apply readline_returns|].
  intros [[n line] s'] Hn. cbn [to_r]. destruct (r_count_sign MAXLINE n line Hn) as [_ ->].
  case_match; [apply maps_report; apply err_sys_exits|by apply maps_ret].
Qed.
Lemma Readline_returns fuel fd maxlen s : returns (λ '(n, _, _), -1 ≤ n) (Readline fuel fd maxlen s).
Proof.
  unfold Readline. intros p. apply post_bind. eapply post_weaken; [apply readline_returns|].
  intros [[[n line] s']| | | |] p' Hn; cbn [through]; try done. case_match; [|done].
  eapply post_weaken; [apply err_sys_exits|]. by intros o p2 [-> _].
Qed.
Lemma web_child_r_maps fd result fuel : ∀ s,
  maps_to (mkRline fd MAXLINE) (web_child fuel fd result s) (web_child_r_loop fuel fd result (mkRline fd MAXLINE s)).
Proof.
  induction fuel as [|f IH]; intros s; [done|]. cbn [web_child web_child_r_loop].
  eapply maps_bind_returns; [apply Readline_r_maps|apply Readline_returns|]. intros [[n line] s'] Hn. cbn [to_r].
  destruct (r_count_sign MAXLINE n line Hn) as [-> _].
  case_match; [by apply maps_ret|]. cbn zeta. case_match; [apply maps_report; apply err_quit_exits|].
  apply maps_bind_same. intros []. apply IH.
Qed.
End web_equivalence.

(** ** One byte at a time *)

(** The results of [readline1]: [line] is all that was received, so that nothing is read
    ahead; at the end of the file the value returned counts one byte more than the
    line has.  An interrupted read is an error. *)
Definition readline1_post (fd maxlen : Z) (p : proc) (o : outcome (Z * list Z)) (p' : proc) : Prop :=
  match o with
  | Ret (n, line) =>
      received fd (p_trace p') = received fd (p_trace p) ++ line ∧ Z.of_nat (List.length line) < maxlen ∧
      ((n = Z.of_nat (List.length line) ∧ ∃ l, line = l ++ [NEWLINE] ∧ (NEWLINE ∉ l)) ∨
       (n = 0 ∧ line = [] ∧ at_eof fd (p_trace p')) ∨
       (n = Z.of_nat (List.length line) + 1 ∧ line ≠ [] ∧ (NEWLINE ∉ line) ∧ at_eof fd (p_trace p')) ∨
       (n = maxlen ∧ Z.of_nat (List.length line) = maxlen - 1 ∧ NEWLINE ∉ line) ∨
       (n = -1 ∧ (NEWLINE ∉ line) ∧ ∃ t, p_trace p' = Event (sys_read fd 1) (Err (p_errno p')) :: t))
  | _ => False
  end.

Lemma readline1_loop_post {K : Kernel} {KOk : ReadWriteOk K} fd maxlen p0 todo : ∀ n stored p,
  n + Z.of_nat todo = maxlen → n = Z.of_nat (List.length stored) + 1 → NEWLINE ∉ stored →
  received fd (p_trace p) = received fd (p_trace p0) ++ stored →
  post (readline1_loop fd n todo stored) p (readline1_post fd maxlen p0).
Proof.
  induction todo as [|todo IH]; intros n stored p Hn Hs Hnl Hr; cbn [readline1_loop].
  { apply post_ret. split; [done|]. split; [lia|]. right. right. right. left. split_and!; [lia|lia|done]. }
  post_step. apply post_syscall; intros a Ha; cbn [through].
  - pose proof (read_count _ _ _ _ Ha ltac:(lia)) as Hlen.
    destruct a as [|c [|c' a]]; [| |cbn in Hlen; lia].
    + assert (Heof : at_eof fd (p_trace (add_event (sys_read fd 1) (Ok []) p))) by by eexists _, _.
      assert (Hrec : received fd (p_trace (add_event (sys_read fd 1) (Ok []) p)) = received fd (p_trace p0) ++ stored)
        by by rewrite received_read, app_nil_r.
      destruct (Z.eqb_spec n 1) as [->|Hn1]; apply post_ret; (split; [done|]); (split; [lia|]).
      * right. left. destruct stored; [done|cbn in Hs; lia].
      * right. right. left. split; [lia|]. split; [|done]. intros ->. cbn in Hs. lia.
    + assert (Hrec : received fd (p_trace (add_event (sys_read fd 1) (Ok [c]) p)) = received fd (p_trace p0) ++ (stored ++ [c])).
      { by rewrite received_read, Hr, app_assoc. }
      destruct (Z.eqb_spec c NEWLINE) as [->|Hc].
      * apply post_ret. split; [done|]. rewrite length_app. cbn. split; [lia|]. left. split; [lia|]. by exists stored.
      * apply IH; [lia|rewrite length_app; cbn; lia|set_solver|done].
  - apply post_ret. split; [by rewrite <- Hr; apply received_read_err|]. split; [lia|].
    right. right. right. right. split; [done|]. split; [done|]. by exists (p_trace p).
Qed.

Lemma or_errno_bind {K : Kernel} {A B C} (c : sys (res A)) msg (k : A → M B) (k' : B → proc → Prop) p (Q : outcome C → proc → Prop) :
  (∀ a, post (k a) (add_event c (Ok a) p) (through Q k')) → (∀ p', Q (Exit 1) p') →
  post (or_errno c msg ≫= k) p (through Q k').
Proof.
  intros Hk HQ. apply post_bind, post_bind, post_call. intros [a|e] _; cbn [through]; [by apply post_ret, Hk|].
  apply post_bind, post_set_errno. cbn [through]. eapply post_weaken; [apply err_sys_exits|]. intros o p' [-> _]. apply HQ.
Qed.

(** ** Properties *)

(** C17: the reentrant server is the server: with the state of readline_r.c on its stack,
    whatever that memory held, [web_child_r] makes the same calls, gets the same
    outcome and leaves the same state as [web_child] with the static variables of readline.c
    empty, up to the text of the last report.  So does [readline_r] where [readline] is
    called, except for the value returned at the end of a file that does not end in a newline,
    which counts one byte more than the line has. *)
Theorem web_child_r_equiv (K : Kernel) fuel sockfd result rptr :
  maps_to (mkRline sockfd MAXLINE) (web_child fuel sockfd result (RL 0 0 (read_buf (rline rptr))))
    (web_child_r fuel sockfd result rptr) ∧
  ∀ maxlen s, 0 < maxlen →
    maps_to (to_r sockfd maxlen) (readline fuel sockfd maxlen s) (readline_r fuel (mkRline sockfd maxlen s)).
Proof.
  split; [apply web_child_r_maps|]. intros maxlen s Hm. by apply readline_r_maps.
Qed.

(** The one-byte readline returns the next line of the stream and reads nothing
    ahead, under the conditions of [readline1_post]. *)
Theorem readline1_correct (K : Kernel) (KOk : ReadWriteOk K) fd maxlen p :
  0 < maxlen → post (readline1 fd maxlen) p (readline1_post fd maxlen p).
Proof. intros Hm. apply readline1_loop_post; [lia|done|apply not_elem_of_nil|by rewrite app_nil_r]. Qed.

(** A thread's first call of readline sets up its data once, in a block of its own; with
    its data, it reads as the readline of lib does with its static variables. *)
Theorem thread_readline_equiv (K : Kernel) fuel rl_once once rl_key fd maxlen p :
  (∀ tsd, thread_readline fuel rl_once once rl_key fd maxlen (Some tsd) p =
     (Pthread_once rl_once once ;; readline fuel fd maxlen tsd) p) ∧
  post (thread_readline fuel rl_once once rl_key fd maxlen None) p (λ o p',
    o = Exit 1 ∨ ∃ p1, p_live p1 = {[p_next p]} ∪ p_live p ∧ readline fuel fd maxlen rl0 p1 = (o, p')).
Proof.
  split.
  { intros tsd. unfold thread_readline, thread_data, mbind, M_bind. by destruct (Pthread_once rl_once once p) as [[] p']. }
  unfold thread_readline, thread_data. apply post_bind.
  apply or_errno_bind; [intros []|by left]. apply post_bind, post_bind, post_malloc; intros _; cbn [through].
  2: { eapply post_weaken; [apply err_sys_exits|]. intros o p' [-> _]. by left. }
  apply post_ret. cbn [through]. apply or_errno_bind; [intros []|by left]. apply post_ret. cbn [through].
  set (p1 := add_event _ _ _). unfold post. destruct (readline_loop _ _ _ _ _ _ p1) as [o p'] eqn:E.
  right. by exists p1.
Qed.

(** A stream of two lines, the last without its newline. *)
Lemma web_child_r_equiv_witness :
  let rptr := mkRline 9 9 (RL 3 5 (replicate (Z.to_nat MAXLINE) 1)) in
  maps_to (mkRline 5 MAXLINE) (web_child (K := tape_kernel three 1 []) 20 5 [1; 2; 3; 4] (RL 0 0 (read_buf (rline rptr))))
    (web_child_r (K := tape_kernel three 1 []) 20 5 [1; 2; 3; 4] rptr) ∧
  maps_to (to_r 5 10) (readline (K := tape_kernel [50; 10; 51] 3 []) 5 5 10 rl0) (readline_r (K := tape_kernel [50; 10; 51] 3 []) 5 (mkRline 5 10 rl0)) ∧
  (r_count 10 1 [51] = 2).
Proof.
  split_and!; [apply (web_child_r_equiv (tape_kernel three 1 []))|by apply (proj2 (web_child_r_equiv (tape_kernel [50; 10; 51] 3 []) 5 5 [] (mkRline 5 10 rl0)))|done].
Defined.
Lemma readline1_correct_witness :
  post (readline1 (K := tape_kernel [50; 10; 51] 3 []) 5 10) proc0 (readline1_post 5 10 proc0) ∧
  ((readline1 (K := tape_kernel [50; 10; 51] 3 []) 5 10) proc0).1 = Ret (2, [50; 10]).
Proof. split; [by apply (readline1_correct _ (tape_ok _ _ _))|reflexivity]. Defined.

(** At the end of the file the two bytes count as three. *)
Example readline1_eof : (readline1 (K := tape_kernel [50; 51] 3 []) 5 10 proc0).1 = Ret (3, [50; 51]).
Proof. reflexivity. Qed.
