(* ===== verification/Lockserv.v ===== *)
(** The servers whose children or threads all accept: src/unpv13e/server (serv00.c to serv04.c,
    serv06.c, serv07.c, serv09.c with their children and threads), the lock around
    [accept] (lock_fcntl.c, lock_pthread.c), and the clients that test them.

    A child is a process with a trace of its own; a thread is treated as one, since all it
    shares is the mutex and its own counter.  The [Lock] is an interface that the two
    implementations meet; [web_child] is one too, [Service], as the threads are linked
    with another readline.  What the processes do together is an interleaving of what each
    shows, and, for liveness, a machine whose steps the children follow. *)
From Stdlib Require Import SpecFloat.
From S2P Require Import Prelude Machine Posix Wrap Stream Frame Servers NetLib Rtt Daemon FdPass Child Rounds Prefork Readers.

Definition SO_LINGER : Z := 13.
Definition SIGTERM : Z := 15.
Definition SIGCHLD : Z := 17.
Definition ECHILD : Z := 10.
Definition SEEK_SET : Z := 0.
Definition WNOHANG : Z := 1.
Definition PROT_READ_WRITE : Z := 3.
Definition MAP_SHARED : Z := 1.
Definition MAP_ANON : Z := 32.
Definition PTHREAD_PROCESS_SHARED : Z := 1.
Definition SIZEOF_PTHREAD_MUTEX_T : Z := 40.
Definition SIZEOF_THREAD : Z := 16.
Definition RUSAGE_SELF : Z := 0.
Definition RUSAGE_CHILDREN : Z := -1.
Definition LONG_MAX : Z := 2 ^ 63 - 1.

(** [for ( ; ; )], for a number of turns. *)
Fixpoint forever {A} (turn : A → M A) (turns : nat) (s : A) : M A :=
  match turns with O => mret s | S t => s ← turn s; forever turn t s end.

(** ** The lock *)

Class Lock := {
  my_lock_wait : nat → M unit;
  my_lock_release : M unit
}.

Section locks.
Context {K : Kernel}.

(** *** lock_fcntl.c *)

Record flock := Flock { l_type : Z; l_whence : Z; l_start : Z; l_len : Z }.
(** The static variables, after [my_lock_init]. *)
Record lock_file := LockFile { lock_fd : Z; lock_it : flock; unlock_it : flock }.

Definition fcntl_flock (fd cmd : Z) (l : flock) : M (option Z) :=
  syscall (sys_fcntl_lock fd cmd (l_type l) (l_whence l) (l_start l) (l_len l)).

(** [strncpy] ends [lock_file] only where [pathname] is shorter. *)
Definition fcntl_lock_init (pathname : option string) : M lock_file :=
  match pathname with
  | None => stop UB
  | Some pathname =>
      if 1024 <=? strlen pathname then stop UB
      else
        '(lock_fd, lock_file) ← Mkstemp pathname;
        Unlink lock_file ;;
        mret (LockFile lock_fd (Flock F_WRLCK SEEK_SET 0 0) (Flock F_UNLCK SEEK_SET 0 0))
  end.

Fixpoint fcntl_lock_wait (s : lock_file) (fuel : nat) : M unit :=
  match fuel with
  | O => stop NoFuel
  | S f =>
      rc ← fcntl_flock (lock_fd s) F_SETLKW (lock_it s);
      match rc with
      | Some _ => mret tt
      | None =>
          e ← get_errno;
          if e =? EINTR then fcntl_lock_wait s f else err_sys "fcntl error for my_lock_wait"
      end
  end.
Definition fcntl_lock_release (s : lock_file) : M unit :=
  rc ← fcntl_flock (lock_fd s) F_SETLKW (unlock_it s);
  match rc with Some _ => mret tt | None => err_sys "fcntl error for my_lock_release" end.

Definition fcntl_Lock (s : lock_file) : Lock := {|
  my_lock_wait := fcntl_lock_wait s;
  my_lock_release := fcntl_lock_release s
|}.

(** *** lock_pthread.c *)

(** The result is [mptr]; [pathname] is not used. *)
Definition pthread_lock_init (pathname : option string) : M Z :=
  fd ← Open "/dev/zero" O_RDWR 0;
  mptr ← Mmap 0 SIZEOF_PTHREAD_MUTEX_T PROT_READ_WRITE MAP_SHARED fd 0;
  Close fd ;;
  mattr ← Pthread_mutexattr_init;
  Pthread_mutexattr_setpshared mattr PTHREAD_PROCESS_SHARED ;;
  Pthread_mutex_init mptr mattr ;;
  mret mptr.
Definition pthread_lock_wait (mptr : Z) : M unit := Pthread_mutex_lock mptr.
Definition pthread_lock_release (mptr : Z) : M unit := Pthread_mutex_unlock mptr.

Definition pthread_Lock (mptr : Z) : Lock := {|
  my_lock_wait := λ _, pthread_lock_wait mptr;
  my_lock_release := pthread_lock_release mptr
|}.
End locks.

Section children.
Context {K : Kernel} {A : Type} (serve : Z → A → M A) (fuel : nat) (listenfd : Z).

(** [cptr\[i\]++] and [tptr\[i\].thread_count++]. *)
Definition incr (n : Z) : M Z := if n =? LONG_MAX then stop UB else mret (n + 1).

(** ** child02.c *)

Definition child02_turn (s : A) : M A :=
  '(connfd, _) ← Accept fuel listenfd;
  s ← serve connfd s;
  Close connfd ;;
  mret s.

(** What every child does first. *)
Definition child_start (addrlen : Z) : M unit :=
  Malloc addrlen ;;
  pid ← call sys_getpid;
  printf ("child " +:+ fmt_d pid +:+ " starting" +:+ nl).

Definition child02_main (turns : nat) (addrlen : Z) (s : A) : M A :=
  child_start addrlen ;;
  forever child02_turn turns s.

(** The parent gets the child's process ID. *)
Definition fork_child {B} (child_main : M B) : M Z :=
  pid ← Fork;
  if 0 <? pid then mret pid else child_main ;; stop NoFuel.
Definition child02_make (turns : nat) (addrlen : Z) (s : A) : M Z := fork_child (child02_main turns addrlen s).

(** ** child02l.c *)

Definition child02l_turn (s : gset Z * A) : M (gset Z * A) :=
  rset ← fd_set_add listenfd s.1;
  '(ready, _) ← Select (elements rset) [] None;
  if bool_decide (listenfd ∈ ready) then
    '(connfd, _) ← Accept fuel listenfd;
    a ← serve connfd s.2;
    Close connfd ;;
    mret (list_to_set ready, a)
  else err_quit "listenfd readable".
Definition child02l_main (turns : nat) (addrlen : Z) (s : A) : M (gset Z * A) :=
  child_start addrlen ;;
  forever child02l_turn turns (∅, s).
Definition child02l_make (turns : nat) (addrlen : Z) (s : A) : M Z := fork_child (child02l_main turns addrlen s).

(** ** child02m.c: the child's own counter [cptr\[i\]] goes with its state *)

Definition child02m_turn (s : Z * A) : M (Z * A) :=
  '(connfd, _) ← Accept fuel listenfd;
  n ← incr s.1;
  a ← serve connfd s.2;
  Close connfd ;;
  mret (n, a).
Definition child02m_main (turns : nat) (addrlen : Z) (s : Z * A) : M (Z * A) :=
  child_start addrlen ;;
  forever child02m_turn turns s.
Definition child02m_make (turns : nat) (addrlen : Z) (s : Z * A) : M Z := fork_child (child02m_main turns addrlen s).

Section locked.
Context {L : Lock}.

(** ** child03.c *)

Definition child03_turn (s : A) : M A :=
  my_lock_wait fuel ;;
  '(connfd, _) ← Accept fuel listenfd;
  my_lock_release ;;
  s ← serve connfd s;
  Close connfd ;;
  mret s.
Definition child03_main (turns : nat) (addrlen : Z) (s : A) : M A :=
  child_start addrlen ;;
  forever child03_turn turns s.
Definition child03_make (turns : nat) (addrlen : Z) (s : A) : M Z := fork_child (child03_main turns addrlen s).

(** ** child04.c: the same text, linked with lock_pthread.c *)

Definition child04_main (turns : nat) (addrlen : Z) (s : A) : M A :=
  child_start addrlen ;;
  forever child03_turn turns s.
Definition child04_make (turns : nat) (addrlen : Z) (s : A) : M Z := fork_child (child04_main turns addrlen s).

(** ** child03m.c *)

Definition child03m_turn (s : Z * A) : M (Z * A) :=
  my_lock_wait fuel ;;
  '(connfd, _) ← Accept fuel listenfd;
  my_lock_release ;;
  n ← incr s.1;
  a ← serve connfd s.2;
  Close connfd ;;
  mret (n, a).
Definition child03m_main (turns : nat) (addrlen : Z) (s : Z * A) : M (Z * A) :=
  child_start addrlen ;;
  forever child03m_turn turns s.
Definition child03m_make (turns : nat) (addrlen : Z) (s : Z * A) : M Z := fork_child (child03m_main turns addrlen s).
End locked.

(** ** pthread07.c and pthread09.c *)

Definition thread_start (addrlen i : Z) : M unit :=
  Malloc addrlen ;;
  printf ("thread " +:+ fmt_d i +:+ " starting" +:+ nl).

(** [s.1] is [tptr\[i\].thread_count]. *)
Definition pthread07_turn (mlock : Z) (s : Z * A) : M (Z * A) :=
  Pthread_mutex_lock mlock ;;
  '(connfd, _) ← Accept fuel listenfd;
  Pthread_mutex_unlock mlock ;;
  n ← incr s.1;
  a ← serve connfd s.2;
  Close connfd ;;
  mret (n, a).
Definition pthread07_main (mlock : Z) (turns : nat) (addrlen i : Z) (s : Z * A) : M (Z * A) :=
  thread_start addrlen i ;;
  forever (pthread07_turn mlock) turns s.
Definition pthread07_make (thread_main i : Z) : M Z := Pthread_create 0 thread_main i.

Definition pthread09_turn (s : Z * A) : M (Z * A) :=
  '(connfd, _) ← Accept fuel listenfd;
  n ← incr s.1;
  a ← serve connfd s.2;
  Close connfd ;;
  mret (n, a).
Definition pthread09_main (turns : nat) (addrlen i : Z) (s : Z * A) : M (Z * A) :=
  thread_start addrlen i ;;
  forever pthread09_turn turns s.
Definition pthread09_make (thread_main i : Z) : M Z := Pthread_create 0 thread_main i.
End children.

(** ** Signals and the processor time *)

(** A program that waits, and the handler of [signo] that may run there. *)
Definition on_signal {K : Kernel} (signo : Z) (handler : M unit) : M unit :=
  came ← call (sys_flag signo);
  if (came : bool) then handler else mret tt.

Section signals.
Context {K : Kernel} (fmt_g : spec_float → string).

(** ** pr_cpu_time.c; [fmt_g] is the conversion [%g] *)

Definition seconds (tv_sec tv_usec : Z) : spec_float :=
  dadd (double_of_Z tv_sec) (ddiv (double_of_Z tv_usec) (double_of_Z 1000000)).
Definition pr_cpu_time : M unit :=
  '(mu_sec, mu_usec, (ms_sec, ms_usec)) ← or_err_sys (sys_getrusage RUSAGE_SELF) "getrusage error";
  '(cu_sec, cu_usec, (cs_sec, cs_usec)) ← or_err_sys (sys_getrusage RUSAGE_CHILDREN) "getrusage error";
  let user := seconds mu_sec mu_usec in
  let user := dadd user (seconds cu_sec cu_usec) in
  let sys := seconds ms_sec ms_usec in
  let sys := dadd sys (seconds cs_sec cs_usec) in
  printf (nl +:+ "user time = " +:+ fmt_g user +:+ ", sys time = " +:+ fmt_g sys +:+ nl).

(** [sig_int] of serv00.c, serv01.c and serv06.c. *)
Definition sig_int_alone : M unit := pr_cpu_time ;; exit 0.

(** ** sig_chld_waitpid.c *)

Fixpoint sig_chld (fuel : nat) : M unit :=
  match fuel with
  | O => stop NoFuel
  | S f =>
      r ← syscall (sys_waitpid (-1) WNOHANG);
      match r with
      | Some (pid, _) => if 0 <? pid then sig_chld f else mret tt
      | None => mret tt
      end
  end.

(** ** The handlers of the preforked servers *)

Fixpoint kill_all (pids : list Z) : M unit :=
  match pids with
  | [] => mret tt
  | pid :: pids' => syscall (sys_kill pid SIGTERM) ;; kill_all pids'
  end.
(** [while (wait(NULL) > 0)]. *)
Fixpoint wait_all (fuel : nat) : M unit :=
  match fuel with
  | O => stop NoFuel
  | S f =>
      r ← syscall sys_wait;
      match r with
      | Some (pid, _) => if 0 <? pid then wait_all f else mret tt
      | None => mret tt
      end
  end.
Definition wait_done (fuel : nat) : M unit :=
  wait_all fuel ;;
  e ← get_errno;
  if negb (e =? ECHILD) then err_sys "wait error" else mret tt.
Definition reap (fuel : nat) (pids : list Z) : M unit :=
  kill_all pids ;;
  wait_done fuel.

Fixpoint print_counts (what : string) (i : Z) (counts : list Z) : M unit :=
  match counts with
  | [] => mret tt
  | n :: counts' =>
      printf (what +:+ " " +:+ fmt_d i +:+ ", " +:+ fmt_d n +:+ " connections" +:+ nl) ;;
      print_counts what (i + 1) counts'
  end.

(** serv02.c, serv03.c, serv04.c *)
Definition sig_int02 (fuel : nat) (pids : list Z) : M unit := reap fuel pids ;; pr_cpu_time ;; exit 0.
Definition sig_int03 (fuel : nat) (pids : list Z) : M unit := reap fuel pids ;; pr_cpu_time ;; exit 0.
Definition sig_int04 (fuel : nat) (pids : list Z) : M unit := reap fuel pids ;; pr_cpu_time ;; exit 0.
(** serv02m.c, serv03m.c; [cptr] is the shared array when the signal comes. *)
Definition sig_int02m (fuel : nat) (pids cptr : list Z) : M unit :=
  reap fuel pids ;; pr_cpu_time ;; print_counts "child" 0 cptr ;; exit 0.
Definition sig_int03m (fuel : nat) (pids cptr : list Z) : M unit :=
  reap fuel pids ;; pr_cpu_time ;; print_counts "child" 0 cptr ;; exit 0.
(** serv07.c, serv09.c; the counts of [tptr]. *)
Definition sig_int07 (tptr : list Z) : M unit := pr_cpu_time ;; print_counts "thread" 0 tptr ;; exit 0.
Definition sig_int09 (tptr : list Z) : M unit := pr_cpu_time ;; print_counts "thread" 0 tptr ;; exit 0.

(** serv05.c, whose children are in [cptr], and serv08.c *)
Definition sig_int05 (fuel : nat) (cptr : list Child) : M unit :=
  reap fuel (child_pid <$> cptr) ;; pr_cpu_time ;; print_counts "child" 0 (child_count <$> cptr) ;; exit 0.
Definition sig_int08 (tptr : list Z) : M unit := pr_cpu_time ;; print_counts "thread" 0 tptr ;; exit 0.

(** [for ( ; ; ) pause();] *)
Fixpoint pause_loop (turns : nat) (sig_int : M unit) : M unit :=
  match turns with
  | O => mret tt
  | S t =>
      signo ← call sys_pause;
      (if signo =? SIGINT then sig_int else mret tt) ;;
      pause_loop t sig_int
  end.

(** ** meter.c *)

Definition meter (nchildren : Z) : M Z :=
  Mmap 0 (u64 (nchildren * 8)) PROT_READ_WRITE (Z.lor MAP_ANON MAP_SHARED) (-1) 0.
End signals.

(** ** The main programs *)

Section mains.
Context {K : Kernel} {R : Resolver} (fmt_g : spec_float → string) (fuel turns : nat).

(** The listening socket from the command line, where [extra] more arguments follow the
    port. *)
Definition listen_args (argv : list string) (extra : nat) (usage : string) : M (Z * Z) :=
  let argc := List.length argv in
  if Nat.eqb argc (2 + extra) then Tcp_listen None (argv !! 1%nat)
  else if Nat.eqb argc (3 + extra) then Tcp_listen (argv !! 1%nat) (argv !! 2%nat)
  else err_quit usage.
Definition last_arg (argv : list string) : Z := atoi (default "" (last argv)).

(** [pids\[i\] = child_make(i, listenfd, addrlen)] for the children from [i] on. *)
Fixpoint make_all (child_make : nat → M Z) (todo i : nat) : M (list Z) :=
  match todo with
  | O => mret []
  | S todo' =>
      pid ← child_make i;
      pids ← make_all child_make todo' (S i);
      mret (pid :: pids)
  end.

Section one_process.
Context {A : Type} (serve : Z → A → M A) (s0 : A).

(** *** serv00.c *)

Definition serv00_turn (listenfd : Z) (s : A) : M A :=
  on_signal SIGINT (sig_int_alone fmt_g) ;;
  '(connfd, _) ← Accept fuel listenfd;
  s ← serve connfd s;
  Close connfd ;;
  mret s.
Definition serv00 (sig_int : Z) (argv : list string) : M A :=
  '(listenfd, addrlen) ← listen_args argv 0 "usage: serv00 [ <host> ] <port#>";
  Malloc addrlen ;;
  Signal SIGINT sig_int ;;
  forever (serv00_turn listenfd) turns s0.

(** *** serv01.c *)

Definition serv01_turn (listenfd : Z) (s : A) : M A :=
  on_signal SIGCHLD (sig_chld fuel) ;;
  on_signal SIGINT (sig_int_alone fmt_g) ;;
  r ← syscall (sys_accept listenfd);
  match r with
  | None =>
      e ← get_errno;
      if e =? EINTR then mret s else err_sys "accept error"
  | Some (connfd, _) =>
      childpid ← Fork;
      if childpid =? 0 then
        Close listenfd ;;
        serve connfd s ;;
        exit 0
      else
        Close connfd ;;
        mret s
  end.
Definition serv01 (sig_chld sig_int : Z) (argv : list string) : M A :=
  '(listenfd, addrlen) ← listen_args argv 0 "usage: serv01 [ <host> ] <port#>";
  Malloc addrlen ;;
  Signal SIGCHLD sig_chld ;;
  Signal SIGINT sig_int ;;
  forever (serv01_turn listenfd) turns s0.

(** *** serv06.c; [doit] is the address, [self] the calling thread *)

Definition serv06_turn (doit listenfd : Z) (_ : unit) : M unit :=
  on_signal SIGINT (sig_int_alone fmt_g) ;;
  '(connfd, _) ← Accept fuel listenfd;
  Pthread_create 0 doit connfd ;;
  mret tt.
Definition serv06 (sig_int doit : Z) (argv : list string) : M unit :=
  '(listenfd, addrlen) ← listen_args argv 0 "usage: serv06 [ <host> ] <port#>";
  Malloc addrlen ;;
  Signal SIGINT sig_int ;;
  forever (serv06_turn doit listenfd) turns tt.
Definition serv06_doit (self arg : Z) (s : A) : M A :=
  Pthread_detach self ;;
  s ← serve arg s;
  Close arg ;;
  mret s.
End one_process.

(** *** The preforked servers; [child_make i listenfd addrlen] is that of their child *)

Definition serv02 (child_make : nat → Z → Z → M Z) (sig_int : Z) (argv : list string) : M unit :=
  '(listenfd, addrlen) ← listen_args argv 1 "usage: serv02 [ <host> ] <port#> <#children>";
  let nchildren := last_arg argv in
  Calloc (u64 (nchildren * 4)) ;;
  pids ← make_all (λ i, child_make i listenfd addrlen) (Z.to_nat nchildren) 0;
  Signal SIGINT sig_int ;;
  pause_loop turns (sig_int02 fmt_g fuel pids).

(** [counts]: the shared array when a signal comes. *)
Definition serv02m (child_make : nat → Z → Z → M Z) (sig_int : Z) (counts : list Z) (argv : list string) : M unit :=
  '(listenfd, addrlen) ← listen_args argv 1 "usage: serv02 [ <host> ] <port#> <#children>";
  let nchildren := last_arg argv in
  Calloc (u64 (nchildren * 4)) ;;
  meter nchildren ;;
  pids ← make_all (λ i, child_make i listenfd addrlen) (Z.to_nat nchildren) 0;
  Signal SIGINT sig_int ;;
  pause_loop turns (sig_int02m fmt_g fuel pids counts).

Definition serv03 (child_make : lock_file → nat → Z → Z → M Z) (sig_int : Z) (argv : list string) : M unit :=
  '(listenfd, addrlen) ← listen_args argv 1 "usage: serv03 [ <host> ] <port#> <#children>";
  let nchildren := last_arg argv in
  Calloc (u64 (nchildren * 4)) ;;
  lock ← fcntl_lock_init (Some "/tmp/lock.XXXXXX");
  pids ← make_all (λ i, child_make lock i listenfd addrlen) (Z.to_nat nchildren) 0;
  Signal SIGINT sig_int ;;
  pause_loop turns (sig_int03 fmt_g fuel pids).

Definition serv03m (child_make : lock_file → nat → Z → Z → M Z) (sig_int : Z) (counts : list Z) (argv : list string) : M unit :=
  '(listenfd, addrlen) ← listen_args argv 1 "usage: serv03 [ <host> ] <port#> <#children>";
  let nchildren := last_arg argv in
  Calloc (u64 (nchildren * 4)) ;;
  meter nchildren ;;
  lock ← fcntl_lock_init (Some "/tmp/lock.XXXXXX");
  pids ← make_all (λ i, child_make lock i listenfd addrlen) (Z.to_nat nchildren) 0;
  Signal SIGINT sig_int ;;
  pause_loop turns (sig_int03m fmt_g fuel pids counts).

Definition serv04 (child_make : Z → nat → Z → Z → M Z) (sig_int : Z) (argv : list string) : M unit :=
  '(listenfd, addrlen) ← listen_args argv 1 "usage: serv04 [ <host> ] <port#> <#children>";
  let nchildren := last_arg argv in
  Calloc (u64 (nchildren * 4)) ;;
  lock ← pthread_lock_init None;
  pids ← make_all (λ i, child_make lock i listenfd addrlen) (Z.to_nat nchildren) 0;
  Signal SIGINT sig_int ;;
  pause_loop turns (sig_int04 fmt_g fuel pids).

(** *** The threaded servers; [thread_make i] starts a thread *)

Definition serv07 (thread_make : nat → Z → Z → M Z) (sig_int : Z) (counts : list Z) (argv : list string) : M unit :=
  '(listenfd, addrlen) ← listen_args argv 1 "usage: serv07 [ <host> ] <port#> <#threads>";
  let nthreads := last_arg argv in
  Calloc (u64 (nthreads * SIZEOF_THREAD)) ;;
  make_all (λ i, thread_make i listenfd addrlen) (Z.to_nat nthreads) 0 ;;
  Signal SIGINT sig_int ;;
  pause_loop turns (sig_int07 fmt_g counts).
Definition serv09 (thread_make : nat → Z → Z → M Z) (sig_int : Z) (counts : list Z) (argv : list string) : M unit :=
  '(listenfd, addrlen) ← listen_args argv 1 "usage: serv09 [ <host> ] <port#> <#threads>";
  let nthreads := last_arg argv in
  Calloc (u64 (nthreads * SIZEOF_THREAD)) ;;
  make_all (λ i, thread_make i listenfd addrlen) (Z.to_nat nthreads) 0 ;;
  Signal SIGINT sig_int ;;
  pause_loop turns (sig_int09 fmt_g counts).

(** ** client.c and clientrst.c *)

Definition client_usage : string :=
  "usage: client <hostname or IPaddr> <port> <#children> <#loops/child> <#bytes/request>".
Definition client_request (nbytes : Z) : string := fmt_d nbytes +:+ nl.

(** The exchange on a connection; [reply] has room for [MAXN] bytes. *)
Definition client_exchange (fd nbytes : Z) : M unit :=
  let request := to_bytes (client_request nbytes) in
  Write fd request ;;
  reply ← Readn fuel fd (u64 nbytes);
  let n := Z.of_nat (List.length reply) in
  if MAXN <? n then stop UB
  else if negb (n =? nbytes) then err_quit ("server returned " +:+ fmt_d n +:+ " bytes")
  else Close fd.

(** The [nloops] turns of a child from [j] on. *)
Fixpoint client_loop (host port : string) (nbytes : Z) (todo : nat) : M unit :=
  match todo with
  | O => mret tt
  | S todo' =>
      fd ← Tcp_connect host port;
      client_exchange fd nbytes ;;
      client_loop host port nbytes todo'
  end.
(** clientrst.c: every third connection of the third child is first reset. *)
Fixpoint clientrst_loop (host port : string) (nbytes i : Z) (todo : nat) (j : Z) : M unit :=
  match todo with
  | O => mret tt
  | S todo' =>
      fd ← Tcp_connect host port;
      fd ← (if (i =? 2) && (j mod 3 =? 0) then
              Setsockopt fd SOL_SOCKET SO_LINGER (le32_bytes 1 ++ le32_bytes 0) ;;
              Close fd ;;
              Tcp_connect host port
            else mret fd);
      client_exchange fd nbytes ;;
      clientrst_loop host port nbytes i todo' (j + 1)
  end.

(** The children from [i] on; [child i] is what the child does. *)
Fixpoint client_children (child : Z → M unit) (todo : nat) (i : Z) : M unit :=
  match todo with
  | O => mret tt
  | S todo' =>
      pid ← Fork;
      if pid =? 0 then
        child i ;;
        printf ("child " +:+ fmt_d i +:+ " done" +:+ nl) ;;
        exit 0
      else client_children child todo' (i + 1)
  end.

Definition client (argv : list string) : M unit :=
  match argv with
  | [_; host; port; nchildren; nloops; nbytes] =>
      client_children (λ _, client_loop host port (atoi nbytes) (Z.to_nat (atoi nloops)))
        (Z.to_nat (atoi nchildren)) 0 ;;
      wait_done fuel ;;
      exit 0
  | _ => err_quit client_usage
  end.
Definition clientrst (argv : list string) : M unit :=
  match argv with
  | [_; host; port; nchildren; nloops; nbytes] =>
      client_children (λ i, clientrst_loop host port (atoi nbytes) i (Z.to_nat (atoi nloops)) 0)
        (Z.to_nat (atoi nchildren)) 0 ;;
      wait_done fuel ;;
      exit 0
  | _ => err_quit client_usage
  end.
End mains.

(** ** The interfaces *)

(** A lock shows that it was taken or given back, and nothing else but the report when it cannot. *)
Definition lock_post (shown : act) (o : outcome unit) (new : list act) : Prop :=
  match o with
  | Ret _ => new = [shown]
  | Exit st => st = 1 ∧ last_words new
  | NoFuel => new = []
  | _ => False
  end.

Class LockLaws {K : Kernel} (L : Lock) : Prop := {
  wait_shows : ∀ lfd fuel, runs (act1 lfd) (my_lock_wait fuel) (lock_post Acquire);
  wait_tires : ∀ fuel, tires fuel (my_lock_wait fuel);
  release_shows : ∀ lfd, runs (act1 lfd) my_lock_release (lock_post Release);
  release_tires : ∀ fuel, tires fuel my_lock_release
}.
(** ** The two locks *)

Definition lock_ok (s : lock_file) : Prop := l_type (lock_it s) = F_WRLCK ∧ l_type (unlock_it s) = F_UNLCK.

Section lock_laws.
Context {K : Kernel}.

Lemma fcntl_wait_shows s lfd fuel : lock_ok s → runs (act1 lfd) (fcntl_lock_wait s fuel) (lock_post Acquire).
Proof.
  intros [Hl _]. induction fuel as [|f IH]; cbn [fcntl_lock_wait]; [by apply runs_stop|].
  unfold fcntl_flock. apply runs_bind, runs_syscall; intros; cbn [passes].
  - apply runs_ret. cbn. by rewrite Hl.
  - apply runs_bind, runs_get_errno. intros e'. cbn [passes app act1]. case_match; [exact IH|by apply err_sys_shows].
Qed.
(** The wait ends as soon as a call is not interrupted. *)
Lemma fcntl_wait_spent s fuel p : post (fcntl_lock_wait s fuel) p (λ o p',
  (interrupted (p_trace p) ≤ interrupted (p_trace p'))%nat ∧
  (o = NoFuel → fuel ≤ interrupted (p_trace p') - interrupted (p_trace p))%nat).
Proof.
  revert p. induction fuel as [|f IH]; intros p; cbn [fcntl_lock_wait]; [apply post_stop; split; [done|lia]|].
  unfold fcntl_flock. apply post_bind, post_syscall; intros; cbn [through].
  - apply post_ret. cbn. split; [lia|done].
  - apply post_bind, post_get_errno. cbn [through p_errno with_errno]. destruct (e =? EINTR) eqn:E.
    + eapply post_weaken; [apply IH|]. cbn. rewrite E. intros o p' [H1 H2]. split; [lia|]. intros ->. specialize (H2 eq_refl). lia.
    + eapply post_weaken; [apply err_sys_exits|]. intros o p' [-> Hr]. apply reported_unmoved in Hr as (_ & _ & _ & _ & Hr & _).
      cbn in Hr. split; [lia|done].
Qed.
Lemma fcntl_lock_laws s : lock_ok s → LockLaws (fcntl_Lock s).
Proof.
  intros Hok. split; cbn.
  - intros lfd fuel. by apply fcntl_wait_shows.
  - intros fuel p. eapply post_weaken; [apply fcntl_wait_spent|]. intros o p' [_ H] E. exists 0. specialize (H E). lia.
  - intros lfd. destruct Hok as [_ Hu]. unfold fcntl_lock_release, fcntl_flock. runs_steps.
    + cbn. by rewrite Hu.
    + by apply err_sys_shows.
  - intros fuel. apply tires_fine. unfold fcntl_lock_release, fcntl_flock. fine_tac.
Qed.
#[global] Instance pthread_lock_laws mptr : LockLaws (pthread_Lock mptr).
Proof.
  split; cbn; intros; try (apply or_errno_shows; by try intros []); apply tires_fine; unfold pthread_lock_wait, pthread_lock_release,
    Pthread_mutex_lock, Pthread_mutex_unlock, or_errno; fine_tac.
Qed.
Lemma fcntl_lock_init_ok pathname p : post (fcntl_lock_init pathname) p (λ o _, ∀ s, o = Ret s → lock_ok s).
Proof.
  unfold fcntl_lock_init. destruct pathname as [pathname|]; [|done]. case_match; [done|].
  apply post_bind. eapply post_weaken; [apply post_true|]. intros [[fd file]|st| | |] p1 _; cbn [through]; try done.
  apply post_bind. eapply post_weaken; [apply post_true|]. intros [u|st| | |] p2 _; cbn [through]; try done.
  apply post_ret. by intros s [= <-].
Qed.
End lock_laws.

(** ** [web_child] with the other readline *)

Section services.
Context {K : Kernel} {KOk : ReadWriteOk K}.

(** [web_child] with the readline of server/readline.c. *)
Definition web_child1_post (fuel : nat) (fd : Z) (p : proc) (o : outcome unit) (p' : proc) : Prop :=
  (List.length (received fd (p_trace p)) ≤ List.length (received fd (p_trace p')))%nat ∧
  (interrupted (p_trace p) ≤ interrupted (p_trace p'))%nat ∧
  match o with
  | Ret _ => True
  | Exit st => st = 1
  | NoFuel => (fuel ≤ Z.to_nat MAXN + (List.length (received fd (p_trace p')) - List.length (received fd (p_trace p))) +
                 (interrupted (p_trace p') - interrupted (p_trace p)))%nat
  | _ => False
  end.

Lemma framed_readline1 (P : event → Prop) fd maxlen : (∀ e, quiet e → P e) → (∀ n r, P (Event (sys_read fd n) r)) →
  framed P (Readline1 fd maxlen).
Proof.
  intros Hq Hr. unfold Readline1, readline1. apply framed_bind.
  - generalize 1 at 1. generalize (@nil Z). induction (Z.to_nat (maxlen - 1)) as [|todo IH]; intros l n; cbn [readline1_loop]; [framed_tac|].
    apply framed_bind; [apply framed_bind; [by apply framed_call|framed_tac]|]. framed_tac.
  - intros [n l]. case_match; [by apply framed_err_sys|framed_tac].
Qed.
Lemma Readline1_post fd p : post (Readline1 fd MAXLINE) p (λ o p', (interrupted (p_trace p) ≤ interrupted (p_trace p'))%nat ∧
  match o with
  | Ret (n, line) => received fd (p_trace p') = received fd (p_trace p) ++ line ∧ (n = 0 ∨ line ≠ [])
  | Exit st => st = 1 ∧ (List.length (received fd (p_trace p)) ≤ List.length (received fd (p_trace p')))%nat
  | _ => False
  end).
Proof.
  eapply post_weaken.
  { apply post_and; [|apply (framed_post (λ _, True)), framed_readline1; done].
    unfold Readline1. apply post_bind. eapply post_weaken; [by apply readline1_correct|].
    instantiate (1 := λ o p', match o with
      | Ret (n, line) => received fd (p_trace p') = received fd (p_trace p) ++ line ∧ (n = 0 ∨ line ≠ [])
      | Exit st => st = 1 ∧ (List.length (received fd (p_trace p)) ≤ List.length (received fd (p_trace p')))%nat
      | _ => False end).
    intros [[n line]| | | |] p1 Ho; cbn [through]; try done. destruct Ho as (Hr & Hlen & Hcase).
    destruct (Z.eqb_spec n (-1)) as [->|Hn].
    - eapply post_weaken; [apply err_sys_exits|]. intros o p2 [-> Hrep].
      destruct (reported_streams _ _ fd Hrep) as (E1 & _). rewrite E1, Hr, length_app. split; [done|lia].
    - apply post_ret. split; [done|]. destruct Hcase as [(-> & l & -> & _)|[(-> & _)|[(_ & ? & _)|[(_ & Hl & _)|(-> & _)]]]];
        [right; by destruct l|by left|by right| |done].
      right. intros ->. unfold MAXLINE in Hl. cbn in Hl. lia. }
  intros o p' [Ho Hf%frame_later%later_counts]. split; [lia|]. destruct o as [[n line]| | | |]; done.
Qed.

Lemma web_child1_ends fuel fd result : ∀ p, post (web_child1 fuel fd result) p (web_child1_post fuel fd p).
Proof.
  induction fuel as [|f IH]; intros p; cbn [web_child1]; [apply post_stop; split_and!; lia|].
  apply post_bind. eapply post_weaken; [apply Readline1_post|]. intros o p1 [Hi1 Ho].
  destruct o as [[n line]|st| | |]; cbn [through]; try done; [|destruct Ho; unfold web_child1_post; split_and!; done || lia].
  destruct Ho as [Hr1 Hn]. assert (Hl1 := f_equal List.length Hr1). rewrite length_app in Hl1.
  destruct (Z.eqb_spec n 0) as [->|Hn0]; [apply post_ret; split_and!; done || lia|]. cbn zeta.
  assert (0 < List.length line)%nat by (destruct Hn as [|Hn]; [done|destruct line; [done|cbn; lia]]).
  case_match eqn:Hreq.
  { eapply post_weaken; [apply err_quit_exits|]. intros o p2 [-> Hrep].
    destruct (reported_streams _ _ fd Hrep) as (E1 & _ & E2). unfold web_child1_post. rewrite E1, E2. split_and!; done || lia. }
  apply post_bind. eapply post_weaken; [apply (Writen_post fd)|].
  intros o p2 (dn & rest & Hb & _ & Hr2 & Hi2 & Ho). destruct o as [[]| | | |]; cbn [through]; try done.
  - eapply post_weaken; [apply IH|]. unfold web_child1_post. rewrite Hr2. intros o p3 (? & ? & Ho3).
    split_and!; [lia|lia|]. destruct o; try done. lia.
  - unfold web_child1_post. rewrite Hr2. split_and!; done || lia.
  - unfold web_child1_post. rewrite Hr2. rewrite length_take in Ho. zbool. split_and!; lia.
Qed.
Lemma readline1_loop_shows lfd fd todo : ∀ n stored, runs (act1 lfd) (readline1_loop fd n todo stored) (λ o new,
  Forall (is_input fd) new ∧ ∀ m line, o = Ret (m, line) → m ≠ -1 →
    last line = Some NEWLINE ∨ List.length line = (List.length stored + todo)%nat ∨ last new = Some (Input fd [])).
Proof.
  induction todo as [|todo IH]; intros n stored; cbn [readline1_loop].
  { apply runs_ret. split; [done|]. intros m line [= _ <-] _. right. left. lia. }
  apply runs_bind, runs_syscall; [intros bs|intros e]; cbn [passes act1].
  - assert (Hin : Forall (is_input fd) [Input fd bs]) by (repeat constructor; by eexists).
    destruct bs as [|c [|c' bs]].
    + case_match; apply runs_ret; (split; [done|]); intros; by right; right.
    + cbn zeta. destruct (Z.eqb_spec c NEWLINE) as [->|Hc].
      * apply runs_ret. split; [done|]. intros m line [= _ <-] _. left. apply last_snoc.
      * eapply runs_weaken; [apply IH|]. intros o new2 [Hn2 Ho]. split; [by apply Forall_app|].
        intros m line E Hm. destruct (Ho m line E Hm) as [?|[El|El]]; [by left|right; left|right; right].
        -- rewrite length_app in El. cbn in El. lia.
        -- rewrite last_app. by rewrite El.
    + by apply runs_stop.
  - apply runs_ret. split; [done|]. by intros m line [= <- _].
Qed.
Lemma Readline1_acts lfd fd p : post (Readline1 fd MAXLINE) p (λ o p', ∃ new,
  seen (act1 lfd) (p_trace p') = seen (act1 lfd) (p_trace p) ++ new ∧
  match o with
  | Ret (n, line) => Forall (is_input fd) new ∧ bytes new = line ∧
      (n = 0 ∧ line = [] ∧ last new = Some (Input fd []) ∨ n ≠ 0 ∧ line_read fd line new)
  | Exit st => st = 1 ∧ ∃ l w, new = l ++ w ∧ Forall (is_input fd) l ∧ last_words w
  | _ => False
  end).
Proof.
  unfold Readline1. apply post_bind. eapply post_weaken.
  { apply (runs_post (act1 lfd)); [by apply (readline1_correct K KOk fd MAXLINE p)|apply (readline1_loop_shows lfd fd _ 1 [])]. }
  intros o p1 [Ho (new & Hs & Hn & Hl)]. destruct o as [[n line]| | | |]; cbn [through]; try done.
  destruct Ho as (Hr & Hlen & Hcase). assert (E : line = bytes new) by by eapply inputs_received.
  destruct (Z.eqb_spec n (-1)) as [->|Hneg].
  - eapply post_weaken; [exact (err_sys_shows lfd _ (λ o w, o = Exit 1 ∧ last_words w) (λ w Hw, conj eq_refl Hw) p1)|].
    intros o p2 (w & Hs2 & -> & Hw). exists (new ++ w). rewrite Hs2, Hs, app_assoc. split; [done|]. split; [done|]. by exists new, w.
  - apply post_ret. exists new. split; [done|]. split; [done|]. split; [done|].
    assert (Hlast := Hl n line eq_refl Hneg). cbn [List.length] in Hlast.
    destruct Hcase as [(-> & l & -> & Hnl)|[(-> & -> & _)|[(-> & Hne & Hnl & _)|[(-> & Hl2 & Hnl)|(-> & _)]]]]; [| | | |done].
    + right. split; [rewrite length_app; cbn; lia|]. split; [by destruct l|]. rewrite removelast_last. split; [done|].
      left. apply last_snoc.
    + left. split_and!; try done. by destruct Hlast as [?|[?|?]].
    + right. split; [lia|]. split; [done|]. destruct (exists_last Hne) as (l & a & ->). rewrite removelast_last.
      split; [set_solver|]. by destruct Hlast as [?|[El|?]]; [left|right; left; rewrite El|right; right].
    + right. split; [done|]. assert (Hne : line ≠ []) by by intros ->. split; [done|].
      destruct (exists_last Hne) as (l & a & ->). rewrite removelast_last. split; [set_solver|by right; left].
Qed.
Lemma web_child1_acts lfd fd result fuel : ∀ p, post (web_child1 fuel fd result) p (λ o p', ∃ new,
  seen (act1 lfd) (p_trace p') = seen (act1 lfd) (p_trace p) ++ new ∧ service_post result fd (λ _, True) [] o new).
Proof.
  induction fuel as [|f IH]; intros p; cbn [web_child1].
  { apply post_stop. exists []. rewrite app_nil_r. split; [done|]. by apply cut_reading. }
  apply post_bind. eapply post_weaken; [by apply (Readline1_acts lfd fd)|].
  intros o p1 (ins & Hs1 & Ho). destruct o as [[n line]| | | |]; cbn [through]; try done.
  2: { destruct Ho as (-> & l & w & -> & Hl & Hw). exists (l ++ w). split; [done|]. by apply service_post_refused. }
  destruct Ho as (Hin & Hu & [(-> & -> & Hlast)|[Hn Hline]]).
  { apply post_ret. exists ins. split; [done|]. split; [done|]. by apply service_end. }
  rewrite (proj2 (Z.eqb_neq n 0)) by done. fold (request line).
  assert (Hquit : ∀ msg, post (err_quit msg) p1 (λ o p', ∃ new,
    seen (act1 lfd) (p_trace p') = seen (act1 lfd) (p_trace p) ++ new ∧ service_post result fd (λ _ : unit, True) [] o new)).
  { intros msg. eapply post_weaken; [exact (err_quit_shows lfd msg (λ o w, o = Exit 1 ∧ last_words w) (λ w Hw, conj eq_refl Hw) p1)|].
    intros o p2 (w & Hs2 & -> & Hw). exists (ins ++ w). rewrite Hs2, Hs1, app_assoc. split; [done|]. by apply service_post_refused. }
  destruct (Z.leb_spec (request line) 0); [|destruct (Z.ltb_spec MAXN (request line))]; cbn [orb]; [apply Hquit|apply Hquit|].
  assert (Hv : valid line) by (split; [apply Hline|lia]). fold (reply result line).
  assert (Hu' : [] ++ bytes ins = line ++ []) by by rewrite app_nil_r.
  apply post_bind. eapply post_weaken; [apply (Writen_acts lfd)|].
  intros o p2 (outs & w & Hs2 & Hout & Hpre & Ho). destruct o as [[]| | | |]; cbn [through]; try done.
  - destruct Ho as [Hb ->]. eapply post_weaken; [by apply IH|]. intros o p3 (new & Hs3 & Hpost).
    exists (ins ++ outs ++ new). rewrite Hs3, Hs2, Hs1, app_nil_r, <- !app_assoc. split; [done|].
    by eapply service_post_line.
  - destruct Ho as [-> Hw]. exists ((ins ++ outs) ++ w). rewrite Hs2, Hs1, <- !app_assoc. split; [done|]. split; [done|].
    exists (ins ++ outs), w. split; [by rewrite <- app_assoc|]. split; [by eapply cut_writing|done].
  - subst w. exists (ins ++ outs). rewrite Hs2, Hs1, app_nil_r, <- !app_assoc. split; [done|]. by eapply cut_writing.
Qed.
#[global] Instance web_child1_service fuel result :
  Service (λ _ : unit, True) result fuel (λ fd _, web_child1 fuel fd result).
Proof.
  split.
  - intros lfd fd s _ p. apply web_child1_acts.
  - intros fd s _ p. eapply post_weaken; [by apply web_child1_ends|]. intros o p' (_ & _ & Ho) ->. exists fd. lia.
Qed.
End services.

(** ** Rounds *)

(** What comes before the service of a connection, without and with the lock, and after it. *)
Definition plain_start (connfd : Z) : list act := [Accepted connfd].
Definition locked_start (connfd : Z) : list act := [Acquire; Accepted connfd; Release].
Definition closing (connfd : Z) : list act := [Closed connfd].

Section rounds.
Context {K : Kernel} {B : Type} (lfd : Z) (result : list Z) (start : Z → list act).
Context (I : nat → B → Prop) (bad : nat → Prop).
Local Abbreviation round := (round result start closing).
Local Abbreviation begun := (begun result start closing).
Local Abbreviation rounds_post := (rounds_post result start closing I bad).

Definition turn_post (k : nat) (o : outcome B) (new : list act) : Prop :=
  match o with
  | Ret s => I (S k) s ∧ ∃ fd, round fd new
  | Exit st => st = 1 ∧ ∃ fd l w, new = l ++ w ∧ begun fd l ∧ last_words w
  | UB => bad k ∧ ∃ fd, begun fd new
  | NoFuel => ∃ fd, begun fd new
  | Abort => False
  end.

Lemma forever_shows turn : (∀ k s, I k s → runs (act1 lfd) (turn s) (turn_post k)) →
  ∀ turns k s, I k s → runs (act1 lfd) (forever turn turns s) (rounds_post k turns).
Proof.
  intros Hturn turns. induction turns as [|t IH]; intros k s Hs; cbn [forever].
  { apply runs_ret. exists [], [], 0, []. rewrite Nat.add_0_r. split_and!; try done. apply begun_start, prefix_nil. }
  apply runs_bind. eapply runs_weaken; [by apply Hturn|]. intros o new Ho.
  destruct o as [s'|st| | |]; cbn [passes]; try done.
  - destruct Ho as [Hs' [fd Hround]]. eapply runs_weaken; [by apply IH|].
    intros o new2 (rs & rest & fd' & w & -> & Hrs & Hb & Ho).
    exists ((fd, new) :: rs), rest, fd', w. cbn [fmap list_fmap snd]. change (mjoin (?x :: ?l)) with (x ++ mjoin l).
    split; [by rewrite app_assoc|]. split; [by constructor|]. split; [done|].
    destruct o; try done; cbn [List.length]; rewrite <- plus_n_Sm; [|done]. destruct Ho as (? & ? & ? & ?). split_and!; [done|done|done|lia].
  - destruct Ho as [-> (fd & l & w & -> & Hb & Hw)]. by exists [], l, fd, w.
  - destruct Ho as [Hbad [fd Hb]]. exists [], new, fd, []. by rewrite Nat.add_0_r, app_nil_r.
  - destruct Ho as [fd Hb]. exists [], new, fd, []. by rewrite app_nil_r.
Qed.

Lemma tires_forever fuel turn : (∀ k s, I k s → tires fuel (turn s)) → (∀ k s, I k s → runs (act1 lfd) (turn s) (turn_post k)) →
  ∀ turns k s, I k s → tires fuel (forever turn turns s).
Proof.
  intros Ht Hr turns. induction turns as [|t IH]; intros k s Hs p; cbn [forever]; [by apply post_ret|].
  apply post_bind. eapply post_weaken; [exact (post_and _ _ _ _ (Ht k s Hs p) (Hr k s Hs p))|].
  intros [s'|st| | |] p' [Ho (new & _ & Hn)]; cbn [through]; try done; auto. destruct Hn as [Hs' _]. by apply (IH (S k)).
Qed.

(** A turn that stops before the service, having shown [l]. *)
Lemma turn_exits k fd l w : l `prefix_of` start fd → last_words w → turn_post k (Exit 1) (l ++ w).
Proof. intros Hl Hw. split; [done|]. exists fd, l, w. split; [done|]. split; [by apply begun_start|done]. Qed.
Lemma turn_tired k fd l : l `prefix_of` start fd → turn_post k NoFuel l.
Proof. intros Hl. exists fd. by apply begun_start. Qed.
Lemma turn_overflows k fd l : bad k → l `prefix_of` start fd → turn_post k UB l.
Proof. intros Hb Hl. split; [done|]. exists fd. by apply begun_start. Qed.

(** Serving and closing the connection. *)
Lemma serve_close {A} (J : A → Prop) fuel serve {HS : Service J result fuel serve} connfd s (f : A → B) k :
  J s → (∀ s', J s' → I (S k) (f s')) →
  runs (act1 lfd) (s ← serve connfd s; Close connfd ;; mret (f s)) (λ o new, turn_post k o (start connfd ++ new)).
Proof.
  intros Hs Hf. apply runs_bind. eapply runs_weaken; [by apply (serve_shows lfd connfd s)|].
  intros o sv Ho. destruct o as [s'|st| | |]; cbn [passes service_post] in *; try done.
  - destruct Ho as [Hs' Hsv]. apply runs_bind, or_err_sys_shows; [intros []|done|intros w Hw]; cbn [passes act1].
    + apply runs_ret. rewrite app_nil_r. split; [by apply Hf|]. exists connfd, sv. by split.
    + split; [done|]. exists connfd, (start connfd ++ sv ++ []), w. rewrite app_nil_r, <- app_assoc. split; [done|].
      split; [|done]. rewrite <- (app_nil_r sv) at 1. apply begun_finish; [done|apply prefix_nil|done].
  - destruct Ho as (-> & l & w & -> & Hc & Hw). split; [done|]. exists connfd, (start connfd ++ l), w.
    split; [by rewrite <- app_assoc|]. split; [by apply begun_service|done].
  - exists connfd. by apply begun_service.
Qed.
End rounds.

(** A start that shows nothing. *)
Definition starts {K : Kernel} {A} (lfd : Z) (m : M A) : Prop :=
  runs (act1 lfd) m (λ o new, match o with Ret _ => new = [] | Exit st => st = 1 ∧ last_words new | _ => False end).

Section starts.
Context {K : Kernel} (lfd : Z).

Lemma starts_bind {A B} (m : M A) (k : A → M B) : starts lfd m → (∀ a, starts lfd (k a)) → starts lfd (m ≫= k).
Proof.
  intros Hm Hk. apply runs_bind. eapply runs_weaken; [exact Hm|]. intros o new Ho.
  destruct o; cbn [passes]; try done. subst. apply Hk.
Qed.
Lemma starts_forever {A B} (m : M A) (k : M B) result start I bad turns :
  starts lfd m → runs (act1 lfd) k (rounds_post (B := B) result start closing I bad 0 turns) →
  runs (act1 lfd) (m ;; k) (rounds_post result start closing I bad 0 turns).
Proof.
  intros Hm Hk. apply runs_bind. eapply runs_weaken; [exact Hm|]. intros o new Ho.
  destruct o; cbn [passes]; try done; [by subst|]. destruct Ho as [-> Hw]. exists [], [], 0, new. split_and!; try done.
  apply begun_start, prefix_nil.
Qed.
Lemma Malloc_starts n : starts lfd (Malloc n).
Proof.
  apply runs_bind. intros p. apply post_malloc; intros _; exists []; cbn; rewrite ?app_nil_r; (split; [done|]); cbn [passes].
  - by apply runs_ret.
  - by apply err_sys_shows.
Qed.
Lemma printf_starts s : starts lfd (printf s).
Proof. unfold starts, printf. runs_steps; done. Qed.
Lemma child_start_starts addrlen : starts lfd (child_start addrlen).
Proof.
  apply starts_bind; [apply Malloc_starts|]. intros _. apply starts_bind; [|intros; apply printf_starts].
  by apply runs_call.
Qed.
Lemma thread_start_starts addrlen i : starts lfd (thread_start addrlen i).
Proof. apply starts_bind; [apply Malloc_starts|]. intros _. apply printf_starts. Qed.
End starts.

(** ** The turns *)

(** The states of a child, and of one that counts from [n0]. *)
Definition uncounted {A} (J : A → Prop) (_ : nat) (s : A) : Prop := J s.
Definition counted {A} (J : A → Prop) (n0 : Z) (k : nat) (s : Z * A) : Prop := s.1 = n0 + Z.of_nat k ∧ J s.2.
Definition never (_ : nat) : Prop := False.
Definition overflows (n0 : Z) (k : nat) : Prop := n0 + Z.of_nat k = LONG_MAX.

Section binds.
Context {K : Kernel} (lfd : Z).

(** Taking and giving back a lock, and counting; [before] was shown already. *)
Lemma acquire_bind {B} (m : M unit) (k : M B) (Q : outcome B → list act → Prop) :
  runs (act1 lfd) m (lock_post Acquire) → runs (act1 lfd) k (λ o new, Q o ([Acquire] ++ new)) →
  (∀ w, last_words w → Q (Exit 1) w) → Q NoFuel [] → runs (act1 lfd) (m ;; k) Q.
Proof.
  intros Hm Hk H1 H2. apply runs_bind. eapply runs_weaken; [exact Hm|]. intros o new Ho.
  destruct o; cbn [passes lock_post] in *; try done; [by subst|destruct Ho as [-> Hw]; auto|by subst].
Qed.
Lemma release_bind {B} (m : M unit) (k : M B) before (Q : outcome B → list act → Prop) :
  runs (act1 lfd) m (lock_post Release) → runs (act1 lfd) k (λ o new, Q o ((before ++ [Release]) ++ new)) →
  (∀ w, last_words w → Q (Exit 1) (before ++ w)) → Q NoFuel before → runs (act1 lfd) (m ;; k) (λ o new, Q o (before ++ new)).
Proof.
  intros Hm Hk H1 H2. apply runs_bind. eapply runs_weaken; [exact Hm|]. intros o new Ho.
  destruct o; cbn [passes lock_post] in *; try done; [|destruct Ho as [-> Hw]; auto|by subst; rewrite app_nil_r].
  subst. eapply runs_weaken; [exact Hk|]. intros o new' H. cbn beta in H. by rewrite <- app_assoc in H.
Qed.
Lemma incr_bind {B} n (k : Z → M B) before (Q : outcome B → list act → Prop) :
  (n ≠ LONG_MAX → runs (act1 lfd) (k (n + 1)) (λ o new, Q o (before ++ new))) → (n = LONG_MAX → Q UB before) →
  runs (act1 lfd) (incr n ≫= k) (λ o new, Q o (before ++ new)).
Proof.
  intros Hk Hb. apply runs_bind. unfold incr. destruct (Z.eqb_spec n LONG_MAX) as [E|E].
  - apply runs_stop. cbn [passes]. rewrite app_nil_r. auto.
  - apply runs_ret. cbn [passes]. by apply Hk.
Qed.
End binds.

(** What was shown is the beginning of what comes before the service. *)
Ltac begun fd := intros; first
  [ apply (turn_exits _ _ _ _ _ fd); [first [apply prefix_nil | eexists; reflexivity] | assumption]
  | apply (turn_tired _ _ _ _ _ fd); first [apply prefix_nil | eexists; reflexivity]
  | apply (turn_exits _ _ _ _ _ fd []); [apply prefix_nil | assumption] ].

Section children_show.
Context {K : Kernel} {A : Type} (J : A → Prop) (result : list Z) (fuel : nat) (serve : Z → A → M A) {HS : Service J result fuel serve}.
Context (lfd : Z).

Lemma child02_turn_shows k s : uncounted J k s →
  runs (act1 lfd) (child02_turn serve fuel lfd s) (turn_post result plain_start (uncounted J) never k).
Proof.
  intros Hs. apply runs_bind, Accept_shows; cbn [passes]; [|begun 0|begun 0].
  intros connfd sa. by apply (serve_close lfd result plain_start _ _ J fuel serve connfd s (λ s, s)).
Qed.
Lemma child02l_turn_shows k s : lfd < FD_SETSIZE → J s.2 →
  runs (act1 lfd) (child02l_turn serve fuel lfd s) (turn_post result plain_start (λ _ s, J s.2) never k).
Proof.
  intros Hfd Hs. unfold child02l_turn, fd_set_add. destruct (Z.leb_spec FD_SETSIZE lfd); [lia|].
  apply runs_bind, runs_ret. cbn [passes]. apply runs_bind, or_err_sys_shows; [|done|begun 0].
  intros [ready w]. cbn [passes app act1]. case_bool_decide; [|apply err_quit_shows; begun 0].
  apply runs_bind, Accept_shows; cbn [passes app]; [|begun 0|begun 0].
  intros connfd sa. by apply (serve_close lfd result plain_start _ _ J fuel serve connfd s.2 (λ a, (list_to_set ready, a))).
Qed.
Lemma counting_turn_shows n0 k s : counted J n0 k s →
  runs (act1 lfd) (child02m_turn serve fuel lfd s) (turn_post result plain_start (counted J n0) (overflows n0) k).
Proof.
  intros [Hn Hs]. apply runs_bind, Accept_shows; cbn [passes]; [|begun 0|begun 0].
  intros connfd sa. apply (incr_bind lfd _ _ (plain_start connfd)).
  - intros _. apply (serve_close lfd result plain_start _ _ J fuel serve connfd s.2 (λ a, (s.1 + 1, a))); [done|].
    intros s' Hs'. split; [cbn; lia|done].
  - intros E. apply (turn_overflows _ _ _ _ _ connfd); [unfold overflows; congruence|done].
Qed.

Section with_lock.
Context {L : Lock} {LL : LockLaws L}.

Lemma child03_turn_shows k s : uncounted J k s →
  runs (act1 lfd) (child03_turn serve fuel lfd s) (turn_post result locked_start (uncounted J) never k).
Proof.
  intros Hs. apply acquire_bind; [apply wait_shows| |begun 0|begun 0].
  apply runs_bind, Accept_shows; cbn [passes]; [|begun 0|begun 0]. intros connfd sa.
  apply (release_bind lfd _ _ [Acquire; Accepted connfd]); [apply release_shows| |begun connfd|begun connfd].
  by apply (serve_close lfd result locked_start _ _ J fuel serve connfd s (λ s, s)).
Qed.
Lemma child03m_turn_shows n0 k s : counted J n0 k s →
  runs (act1 lfd) (child03m_turn serve fuel lfd s) (turn_post result locked_start (counted J n0) (overflows n0) k).
Proof.
  intros [Hn Hs]. apply acquire_bind; [apply wait_shows| |begun 0|begun 0].
  apply runs_bind, Accept_shows; cbn [passes]; [|begun 0|begun 0]. intros connfd sa.
  apply (release_bind lfd _ _ [Acquire; Accepted connfd]); [apply release_shows| |begun connfd|begun connfd].
  apply (incr_bind lfd _ _ (locked_start connfd)).
  - intros _. apply (serve_close lfd result locked_start _ _ J fuel serve connfd s.2 (λ a, (s.1 + 1, a))); [done|].
    intros s' Hs'. split; [cbn; lia|done].
  - intros E. apply (turn_overflows _ _ _ _ _ connfd); [unfold overflows; congruence|done].
Qed.
End with_lock.
End children_show.

Section children_tire.
Context {K : Kernel} {A : Type} (J : A → Prop) (result : list Z) (fuel : nat) (serve : Z → A → M A) {HS : Service J result fuel serve}.

Lemma fine_Malloc n : fine_run True (Malloc n).
Proof.
  intros p. apply post_bind, post_malloc; intros _; cbn [through]; [done|].
  eapply post_weaken; [apply err_sys_exits|]. by intros o p' [-> _].
Qed.
Lemma fine_child_start addrlen : fine_run True (child_start addrlen).
Proof. apply fine_bind; [apply fine_Malloc|]. fine_tac. Qed.
Lemma fine_thread_start addrlen i : fine_run True (thread_start addrlen i).
Proof. apply fine_bind; [apply fine_Malloc|]. fine_tac. Qed.
Lemma fine_incr n : fine_run True (incr n).
Proof. unfold incr. fine_tac. Qed.
Lemma fine_or_errno {B} (c : sys (res B)) msg : fine_run True (or_errno c msg).
Proof. unfold or_errno. fine_tac. Qed.

Ltac tire := repeat first
  [ progress intros
  | apply tires_fine; first [apply fine_child_start | apply fine_thread_start | apply fine_incr | apply fine_or_errno
      | apply fine_or_err_sys | apply fine_err_quit | apply fine_ret | by apply fine_ub ]
  | apply tires_Accept
  | (apply (serve_tires (I := J) (result := result)); assumption)
  | apply wait_tires
  | apply release_tires
  | match goal with |- tires _ (match ?x with _ => _ end) => destruct x end
  | apply tires_bind ].

Lemma child02_turn_tires lfd s : J s → tires fuel (child02_turn serve fuel lfd s).
Proof. unfold child02_turn, Close. tire. Qed.
Lemma child02l_turn_tires lfd s : J s.2 → tires fuel (child02l_turn serve fuel lfd s).
Proof. unfold child02l_turn, fd_set_add, Select, Close. tire. Qed.
Lemma child02m_turn_tires lfd s : J s.2 → tires fuel (child02m_turn serve fuel lfd s).
Proof. unfold child02m_turn, Close. tire. Qed.
Lemma child03_turn_tires {L : Lock} {LL : LockLaws L} lfd s : J s → tires fuel (child03_turn serve fuel lfd s).
Proof. unfold child03_turn, Close. tire. Qed.
Lemma child03m_turn_tires {L : Lock} {LL : LockLaws L} lfd s : J s.2 → tires fuel (child03m_turn serve fuel lfd s).
Proof. unfold child03m_turn, Close. tire. Qed.
End children_tire.

(** What a child or thread does, from its start: rounds, fuel that runs out only on
    what the system does, and no undefined behaviour but that of a counter. *)
Definition does_rounds {K : Kernel} {B} (lfd : Z) (fuel : nat) (result : list Z) (start : Z → list act) (I : nat → B → Prop) (bad : nat → Prop)
    (turns : nat) (m : M B) : Prop :=
  runs (act1 lfd) m (rounds_post result start closing I bad 0 turns) ∧ tires fuel m.

Lemma does_rounds_intro {K : Kernel} {B} lfd fuel result start (I : nat → B → Prop) bad turns (m : M unit) turn s :
  starts lfd m → fine_run True m → I 0%nat s →
  (∀ k s, I k s → runs (act1 lfd) (turn s) (turn_post result start I bad k)) → (∀ k s, I k s → tires fuel (turn s)) →
  does_rounds lfd fuel result start I bad turns (m ;; forever turn turns s).
Proof.
  intros Hm Hf Hs Hr Ht. split.
  - apply starts_forever; [done|]. by apply forever_shows.
  - apply tires_bind; [by apply tires_fine|]. intros _. by apply (tires_forever lfd result start I bad fuel turn Ht Hr turns 0).
Qed.

(** ** The children together *)

(** Where a child is; [Gone] when its process has ended. *)
Inductive phase := Idle | Holding | Got (connfd : Z) | Serving (connfd : Z) | Gone.
Definition phase_step (ph : phase) (a : act) : option phase :=
  match ph, a with
  | Idle, Acquire => Some Holding
  | Holding, Accepted connfd => Some (Got connfd)
  | Got connfd, Release => Some (Serving connfd)
  | Serving connfd, (Input fd _ | Output fd _) => if fd =? connfd then Some ph else None
  | Serving connfd, Closed fd => if fd =? connfd then Some Idle else None
  | Gone, _ => None
  | _, Report _ => Some ph
  | _, Ended => Some Gone
  | _, _ => None
  end.
Fixpoint phases (ph : phase) (l : list act) : option phase :=
  match l with [] => Some ph | a :: l' => ph' ← phase_step ph a; phases ph' l' end.
Definition in_lock (ph : phase) : bool := match ph with Holding | Got _ => true | _ => false end.

(** Whether a process that showed [l] holds the lock. *)
Definition hold1 (h : bool) (a : act) : bool :=
  match a with Acquire => true | Release | Ended => false | _ => h end.
Definition holds_lock (l : list act) : bool := fold_left hold1 l false.

(** A history of all the processes, and what process [i] showed in it. *)
Definition proj (i : nat) (g : list (nat * act)) : list act := snd <$> filter (λ x, x.1 = i) g.
(** fcntl(2), pthread_mutex_lock(3): a lock is not given while another process has it. *)
Definition exclusive (g : list (nat * act)) : Prop :=
  ∀ g1 i g2, g = g1 ++ (i, Acquire) :: g2 → ∀ j, j ≠ i → holds_lock (proj j g1) = false.

(** What a process shows from its start to its end, if it has come to it. *)
Definition life {B} (o : outcome B) (shown : list act) : list act :=
  match o with Ret _ | NoFuel => shown | _ => shown ++ [Ended] end.
Definition life_of {B} (lfd : Z) (m : M B) (p : proc) : list act :=
  life (m p).1 (seen (act1 lfd) (p_trace (m p).2)).

(** The processes and threads that take the lock to accept. *)
Inductive locked_child (lfd : Z) : list act → Prop :=
| is_child03 (K : Kernel) A (J : A → Prop) result fuel serve (HS : Service J result fuel serve) (L : Lock) (LL : LockLaws L) turns addrlen s p :
    J s → seen (act1 lfd) (p_trace p) = [] → locked_child lfd (life_of lfd (child03_main serve fuel lfd turns addrlen s) p)
| is_child03m (K : Kernel) A (J : A → Prop) result fuel serve (HS : Service J result fuel serve) (L : Lock) (LL : LockLaws L) turns addrlen n s p :
    J s → seen (act1 lfd) (p_trace p) = [] → locked_child lfd (life_of lfd (child03m_main serve fuel lfd turns addrlen (n, s)) p)
| is_pthread07 (K : Kernel) A (J : A → Prop) result fuel serve (HS : Service J result fuel serve) mlock turns addrlen i n s p :
    J s → seen (act1 lfd) (p_trace p) = [] → locked_child lfd (life_of lfd (pthread07_main serve fuel lfd mlock turns addrlen i (n, s)) p).

Section children_do.
Context {K : Kernel} {A : Type} (J : A → Prop) (result : list Z) (fuel : nat) (serve : Z → A → M A) {HS : Service J result fuel serve}.
Context (lfd : Z) (turns : nat) (addrlen : Z).

Lemma child02_does s : J s → does_rounds lfd fuel result plain_start (uncounted J) never turns (child02_main serve fuel lfd turns addrlen s).
Proof.
  intros Hs. apply does_rounds_intro; [apply child_start_starts|apply fine_child_start|done|apply child02_turn_shows; done|].
  intros k s'. by apply (child02_turn_tires J result).
Qed.
Lemma child02l_does s : lfd < FD_SETSIZE → J s →
  does_rounds lfd fuel result plain_start (λ _ s, J s.2) never turns (child02l_main serve fuel lfd turns addrlen s).
Proof.
  intros Hfd Hs. apply does_rounds_intro; [apply child_start_starts|apply fine_child_start|done| |].
  - intros k s'. by apply child02l_turn_shows.
  - intros k s'. by apply (child02l_turn_tires J result).
Qed.
Lemma counting_does (m : M unit) n s : starts lfd m → fine_run True m → J s →
  does_rounds lfd fuel result plain_start (counted J n) (overflows n) turns (m ;; forever (child02m_turn serve fuel lfd) turns (n, s)).
Proof.
  intros Hm Hf Hs. apply does_rounds_intro; [done|done|split; [cbn; lia|done]| |].
  - apply counting_turn_shows. done.
  - intros k s' [_ Hs']. by apply (child02m_turn_tires J result).
Qed.
Lemma child03_does {L : Lock} {LL : LockLaws L} s : J s →
  does_rounds lfd fuel result locked_start (uncounted J) never turns (child03_main serve fuel lfd turns addrlen s).
Proof.
  intros Hs. apply does_rounds_intro; [apply child_start_starts|apply fine_child_start|done|apply child03_turn_shows; done|].
  intros k s'. by apply (child03_turn_tires J result).
Qed.
Lemma counting_locked_does {L : Lock} {LL : LockLaws L} (m : M unit) n s : starts lfd m → fine_run True m → J s →
  does_rounds lfd fuel result locked_start (counted J n) (overflows n) turns (m ;; forever (child03m_turn serve fuel lfd) turns (n, s)).
Proof.
  intros Hm Hf Hs. apply does_rounds_intro; [done|done|split; [cbn; lia|done]| |].
  - apply child03m_turn_shows; done.
  - intros k s' [_ Hs']. by apply (child03m_turn_tires J result).
Qed.
End children_do.
#[local] Hint Resolve child_start_starts thread_start_starts fine_child_start fine_thread_start : core.

(** *** The phases of a child *)

Lemma phases_app ph l1 l2 : phases ph (l1 ++ l2) = (ph' ← phases ph l1; phases ph' l2).
Proof.
  revert ph. induction l1 as [|a l1 IH]; intros ph; [done|]. cbn [app phases mbind option_bind].
  destruct (phase_step ph a); [apply IH|done].
Qed.
Lemma phases_serving fd l : Forall (λ a, is_input fd a ∨ is_output fd a) l → phases (Serving fd) l = Some (Serving fd).
Proof. induction 1 as [|a l [[bs ->]|[bs ->]] _ IH]; [done| |]; cbn; by rewrite Z.eqb_refl. Qed.
Lemma phases_words ph w : ph ≠ Gone → last_words w → phases ph w = Some ph.
Proof. intros Hph [->|[s ->]]; [done|]. by destruct ph. Qed.
Lemma phases_start fd : phases Idle (locked_start fd) = Some (Serving fd).
Proof. done. Qed.
Lemma phases_rounds result rs : Forall (λ r, round result locked_start closing r.1 r.2) rs → phases Idle (mjoin rs.*2) = Some Idle.
Proof.
  induction 1 as [|[fd l] rs (sv & Hsv%service_on & Hl) _ IH]; [done|]. cbn [fst snd fmap list_fmap] in *.
  change (mjoin (?x :: ?l)) with (x ++ mjoin l). rewrite Hl, !phases_app, phases_start. cbn [mbind option_bind].
  rewrite phases_app, (phases_serving fd sv Hsv). cbn. by rewrite Z.eqb_refl.
Qed.
Lemma phases_begun result fd l : begun result locked_start closing fd l → ∃ ph, phases Idle l = Some ph ∧ ph ≠ Gone.
Proof.
  intros [l' [k Hk]|sv Hsv%service_cut_on|sv k Hsv%service_on [k' Hk] Hne].
  - unfold locked_start in Hk. destruct l' as [|a [|b [|c [|d l']]]]; simplify_eq/=; eauto.
  - exists (Serving fd). rewrite phases_app, phases_start. cbn [mbind option_bind]. by rewrite phases_serving.
  - unfold closing in *. destruct k as [|a [|b k]]; simplify_eq/=; try done. exists (Serving fd).
    by rewrite !app_nil_r, phases_serving.
Qed.
Lemma does_rounds_phases {K : Kernel} {B} lfd fuel result (I : nat → B → Prop) bad turns (m : M B) p :
  does_rounds lfd fuel result locked_start I bad turns m → seen (act1 lfd) (p_trace p) = [] →
  is_Some (phases Idle (life_of lfd m p)).
Proof.
  intros [Hr _] Hp. specialize (Hr p). unfold post, life_of in *. destruct (m p) as [o p']. cbn [fst snd].
  destruct Hr as (new & -> & rs & rest & fd & w & -> & Hrs & Hb & Ho). rewrite Hp. cbn [app].
  destruct (phases_begun _ fd rest Hb) as (ph & Hph & Hg).
  assert (H : phases Idle (mjoin rs.*2 ++ rest ++ w) = Some ph).
  { rewrite phases_app, (phases_rounds result) by done. cbn [mbind option_bind]. rewrite phases_app, Hph. cbn [mbind option_bind].
    apply phases_words; [done|]. destruct o; naive_solver. }
  unfold life. destruct o; try (by eauto); rewrite phases_app, H; destruct ph; by eauto.
Qed.
Lemma locked_child_phases lfd l : locked_child lfd l → is_Some (phases Idle l).
Proof.
  intros [K A J result fuel serve HS L LL turns addrlen s p Hs Hp|K A J result fuel serve HS L LL turns addrlen n s p Hs Hp|
    K A J result fuel serve HS mlock turns addrlen i n s p Hs Hp]; (eapply does_rounds_phases; [|exact Hp]).
  - by apply (child03_does J).
  - by apply (counting_locked_does J).
  - by apply (counting_locked_does J result fuel serve lfd turns (L := pthread_Lock mlock)).
Qed.
Lemma phases_hold l ph0 ph h : in_lock ph0 = h → phases ph0 l = Some ph → fold_left hold1 l h = in_lock ph.
Proof.
  revert ph0 h. induction l as [|a l IH]; intros ph0 h Hh Hl; cbn [phases fold_left] in *; [congruence|].
  destruct (phase_step ph0 a) as [ph1|] eqn:E; [|done]. apply (IH ph1); [|done].
  subst h. destruct ph0, a; simplify_eq/=; try done; case_match; by simplify_eq.
Qed.
Lemma phases_accept l1 fd l2 : is_Some (phases Idle (l1 ++ Accepted fd :: l2)) → holds_lock l1 = true.
Proof.
  intros [ph Hph]. rewrite phases_app in Hph. destruct (phases Idle l1) as [ph1|] eqn:E; [|done].
  unfold holds_lock. rewrite (phases_hold l1 Idle ph1 false eq_refl E). cbn in Hph. by destruct ph1.
Qed.
Lemma proj_app i g1 g2 : proj i (g1 ++ g2) = proj i g1 ++ proj i g2.
Proof. unfold proj. by rewrite filter_app, fmap_app. Qed.
Lemma proj_cons_eq i a g : proj i ((i, a) :: g) = a :: proj i g.
Proof. unfold proj. by rewrite filter_cons_True. Qed.
Lemma proj_cons_ne i j a g : i ≠ j → proj j ((i, a) :: g) = proj j g.
Proof. intros H. unfold proj. by rewrite filter_cons_False. Qed.

Lemma holds_snoc l a : holds_lock (l ++ [a]) = hold1 (holds_lock l) a.
Proof. unfold holds_lock. by rewrite fold_left_app. Qed.
(** No two processes ever hold the lock. *)
Lemma exclusive_holders g : exclusive g → ∀ g1 g2, g = g1 ++ g2 → ∀ i j,
  holds_lock (proj i g1) = true → holds_lock (proj j g1) = true → i = j.
Proof.
  intros Hex g1. induction g1 as [|[k a] g1 IH] using rev_ind; intros g2 -> i j Hi Hj; [done|].
  rewrite <- app_assoc in Hex, IH. cbn [app] in *.
  assert (Hprev : ∀ i, holds_lock (proj i (g1 ++ [(k, a)])) = if decide (k = i) then hold1 (holds_lock (proj i g1)) a else holds_lock (proj i g1)).
  { intros x. rewrite proj_app. case_decide as E; [subst; by rewrite proj_cons_eq, holds_snoc|by rewrite proj_cons_ne, app_nil_r]. }
  rewrite Hprev in Hi, Hj. specialize (IH _ eq_refl).
  repeat case_decide; subst; try done; try (by apply IH).
  all: destruct a; cbn in Hi, Hj; try done; try (by apply IH).
  - by rewrite (Hex g1 j g2 eq_refl i ltac:(done)) in Hi.
  - by rewrite (Hex g1 i g2 eq_refl j ltac:(done)) in Hj.
Qed.

(** ** Starting and ending the children *)

(** What the parent does to processes. *)
Inductive end_act := Forked (pid : Z) | Killed (pid signo : Z) | Reaped (pid : Z) | NoMore (e : Z).
Definition proc1 (e : event) : list end_act :=
  match e with
  | Event c a =>
      match c in sys A return A → list end_act with
      | sys_fork => λ r, match r with Ok pid => [Forked pid] | Err _ => [] end
      | sys_kill pid signo => λ _, [Killed pid signo]
      | sys_wait => λ r, match r with Ok (pid, _) => [Reaped pid] | Err e => [NoMore e] end
      | _ => λ _, []
      end a
  end.
Lemma quiet_no_proc e : quiet e → unseen proc1 e.
Proof. destruct e as [A c a]. by destruct c. Qed.

(** The children that [wait] has not returned yet. *)
Definition alive1 (a : end_act) : Z := match a with Forked pid => Z.b2z (0 <? pid) | Reaped _ => -1 | _ => 0 end.
Definition alive (t : trace) : Z := sumz alive1 (seen proc1 t).
(** wait(2): each child is returned once. *)
Class WaitOk (K : Kernel) : Prop := {
  wait_child : ∀ t pid st, answer t sys_wait = Ok (pid, st) → 0 < pid ∧ 0 < alive t
}.

Section ending.
Context {K : Kernel} {KW : WaitOk K} (fmt_g : spec_float → string).

Lemma framed_proc_cpu_time : framed (unseen proc1) (pr_cpu_time fmt_g).
Proof.
  unfold pr_cpu_time, or_err_sys.
  repeat first [apply framed_err_sys, quiet_no_proc | apply framed_call; intros; reflexivity | progress framed_tac].
Qed.
Lemma fine_pr_cpu_time ub : fine_run ub (pr_cpu_time fmt_g).
Proof. unfold pr_cpu_time. fine_tac. Qed.
Lemma framed_print_counts what counts : ∀ i, framed (unseen proc1) (print_counts what i counts).
Proof.
  induction counts as [|n counts IH]; intros i; cbn [print_counts]; [framed_tac|]. apply framed_bind; [|intros; apply IH].
  unfold printf. repeat first [apply framed_call; intros; reflexivity | progress framed_tac].
Qed.
Lemma fine_print_counts ub what counts : ∀ i, fine_run ub (print_counts what i counts).
Proof. induction counts as [|n counts IH]; intros i; cbn [print_counts]; fine_tac. Qed.

(** The [wait] loop: every child once, then the error. *)
Lemma wait_all_post fuel : ∀ p, 0 ≤ alive (p_trace p) < Z.of_nat fuel →
  post (wait_all fuel) p (λ o p', o = Ret tt ∧ ∃ rs, Z.of_nat (List.length rs) ≤ alive (p_trace p) ∧
    seen proc1 (p_trace p') = seen proc1 (p_trace p) ++ (Reaped <$> rs) ++ [NoMore (p_errno p')]).
Proof.
  induction fuel as [|f IH]; intros p Hf; cbn [wait_all]; [lia|].
  apply post_bind, post_syscall; [intros [pid st] Hw|intros e _]; cbn [through].
  - destruct (wait_child _ _ _ Hw) as [Hpid Hal]. rewrite (proj2 (Z.ltb_lt 0 pid)) by done.
    set (p1 := add_event _ _ p). assert (H1 : alive (p_trace p1) = alive (p_trace p) - 1).
    { unfold alive, p1. cbn [add_event p_trace seen proc1]. rewrite sumz_app. cbn. lia. }
    eapply post_weaken; [apply IH; lia|]. intros o p' [-> (rs & Hrs & Hs)]. split; [done|]. exists (pid :: rs).
    split; [cbn [List.length]; lia|]. rewrite Hs. unfold p1. cbn [add_event p_trace seen proc1]. by rewrite <- app_assoc.
  - apply post_ret. split; [done|]. exists []. split; [cbn; lia|done].
Qed.
Lemma kill_all_post pids : ∀ p, post (kill_all pids) p (λ o p', o = Ret tt ∧ alive (p_trace p') = alive (p_trace p) ∧
    seen proc1 (p_trace p') = seen proc1 (p_trace p) ++ ((λ pid, Killed pid SIGTERM) <$> pids)).
Proof.
  induction pids as [|pid pids IH]; intros p; cbn [kill_all]; [apply post_ret; by rewrite app_nil_r|].
  apply post_bind, post_syscall; intros; cbn [through]; (eapply post_weaken; [apply IH|]); intros o p' (-> & Ha & Hs);
    (split; [done|]); rewrite Ha, Hs; unfold alive; cbn [add_event with_errno p_trace seen proc1];
    (split; [rewrite sumz_app; cbn; lia|]); by rewrite <- app_assoc.
Qed.

(** From the first kill to the end of the process. *)
Definition reap_post (pids : list Z) (p : proc) (o : outcome unit) (p' : proc) : Prop :=
  ∃ rs e, Z.of_nat (List.length rs) ≤ alive (p_trace p) ∧
    seen proc1 (p_trace p') = seen proc1 (p_trace p) ++ ((λ pid, Killed pid SIGTERM) <$> pids) ++ (Reaped <$> rs) ++ [NoMore e] ∧
    (o = Exit 0 ∧ e = ECHILD ∨ o = Exit 1).
Lemma reap_then fuel pids (m : M unit) p : 0 ≤ alive (p_trace p) < Z.of_nat fuel →
  framed (unseen proc1) m → (∀ p, post m p (λ o _, o = Exit 0 ∨ o = Exit 1)) →
  post (reap fuel pids ;; m) p (reap_post pids p).
Proof.
  intros Hf Hfr Hm. apply post_bind, post_bind. eapply post_weaken; [apply kill_all_post|].
  intros o p1 (-> & Ha & Hs1). cbn [through]. unfold wait_done. apply post_bind. eapply post_weaken; [apply wait_all_post; lia|].
  intros o p2 (-> & rs & Hrs & Hs2). cbn [through]. apply post_bind, post_get_errno. cbn [through].
  rewrite Ha in Hrs. rewrite Hs1, <- app_assoc in Hs2. destruct (Z.eqb_spec (p_errno p2) ECHILD) as [He|He]; cbn [negb].
  - apply post_ret. cbn [through]. eapply post_weaken; [exact (post_and _ _ _ _ (Hm p2) (framed_post _ m p2 Hfr))|].
    intros o p3 [Ho Hs3%frame_seen]. exists rs, (p_errno p2). rewrite Hs3, Hs2. split; [done|]. split; [done|]. naive_solver.
  - eapply post_weaken; [exact (post_and _ _ _ _ (err_sys_exits _ p2) (framed_post _ _ p2 (framed_err_sys (A := unit) _ quiet_no_proc _)))|].
    intros o p3 [[-> _] Hs3%frame_seen]. cbn [through]. exists rs, (p_errno p2). rewrite Hs3, Hs2. split; [done|]. split; [done|]. by right.
Qed.
Lemma ends_exit (m : M unit) : fine_run False m → ∀ p, post (m ;; exit 0) p (λ o _, o = Exit 0 ∨ o = Exit (A := unit) 1).
Proof.
  intros Hm p. apply post_bind. eapply post_weaken; [apply Hm|]. intros [u|st| | |] p' Ho; cbn [through]; cbn in Ho; subst; try done.
  - by left.
  - by right.
Qed.
Lemma reap_plain fuel pids p : 0 ≤ alive (p_trace p) < Z.of_nat fuel →
  post (reap fuel pids ;; pr_cpu_time fmt_g ;; exit 0) p (reap_post pids p).
Proof.
  intros Hf. apply reap_then; [done|apply framed_bind; [apply framed_proc_cpu_time|framed_tac]|].
  apply ends_exit, fine_pr_cpu_time.
Qed.
Lemma reap_counts fuel pids counts p : 0 ≤ alive (p_trace p) < Z.of_nat fuel →
  post (reap fuel pids ;; pr_cpu_time fmt_g ;; print_counts "child" 0 counts ;; exit 0) p (reap_post pids p).
Proof.
  intros Hf. apply reap_then; [done| |].
  - apply framed_bind; [apply framed_proc_cpu_time|]. intros _. apply framed_bind; [apply framed_print_counts|framed_tac].
  - intros p'. apply post_bind. eapply post_weaken; [apply fine_pr_cpu_time|].
    intros [u|st| | |] p2 Ho; cbn [through]; cbn in Ho; subst; try done; try (by right). apply ends_exit, fine_print_counts.
Qed.

(** The parent knows every child it made, in order. *)
Lemma make_all_post (child_main : nat → M Z) n : ∀ i p,
  post (make_all (λ i, fork_child (child_main i)) n i) p (λ o p', ∀ pids, o = Ret pids →
    seen proc1 (p_trace p') = seen proc1 (p_trace p) ++ (Forked <$> pids) ∧ List.length pids = n ∧ Forall (λ pid, 0 < pid) pids ∧
    alive (p_trace p') = alive (p_trace p) + Z.of_nat n).
Proof.
  induction n as [|n IH]; intros i p; cbn [make_all].
  { apply post_ret. intros pids [= <-]. rewrite app_nil_r. split_and!; try done. lia. }
  apply post_bind. unfold fork_child. apply post_bind, post_bind, post_syscall; [intros pid _|intros e _]; cbn [through].
  2: { eapply post_weaken; [apply err_sys_exits|]. by intros o p' [-> _]. }
  apply post_ret. cbn [through]. destruct (Z.ltb_spec 0 pid) as [Hpos|_].
  - apply post_ret. cbn [through]. apply post_bind. eapply post_weaken; [apply IH|].
    intros [pids| | | |] p' Hp; cbn [through]; try done. destruct (Hp pids eq_refl) as (Hs & Hl & Hpp & Ha).
    apply post_ret. intros ? [= <-]. cbn [List.length fmap list_fmap]. rewrite Ha, Hs. unfold alive.
    cbn [add_event p_trace seen proc1]. rewrite <- app_assoc, sumz_app. cbn [sumz alive1]. rewrite (proj2 (Z.ltb_lt 0 pid)) by done.
    split_and!; [done|lia|by constructor|cbn; lia].
  - apply post_bind. eapply post_weaken; [apply post_true|]. intros [] p' _; cbn [through]; done.
Qed.
End ending.

(** ** The client *)

Section client_facts.
Context {K : Kernel} {KOk : ReadWriteOk K}.

Lemma framed_readn fuel fd n : framed (no_write fd) (readn fuel fd n).
Proof.
  unfold readn. generalize (@nil Z). revert n. induction fuel as [|f IH]; intros n l; cbn [readn_loop]; [framed_tac|].
  case_match; [|framed_tac]. apply framed_bind; [apply framed_bind; [by apply framed_call|framed_tac]|].
  intros [bs|]; [case_match; [framed_tac|apply IH]|]. apply framed_bind; [framed_tac|]. intros e. case_match; [apply IH|framed_tac].
Qed.

(** The exchange of a client that asks for [nbytes] bytes. *)
Definition exchange_post (fuel : nat) (fd nbytes : Z) (p : proc) (o : outcome unit) (p' : proc) : Prop :=
  match o with
  | Ret _ => nbytes ≤ MAXN ∧ written fd (p_trace p') = written fd (p_trace p) ++ to_bytes (client_request nbytes) ∧
      ∃ reply, received fd (p_trace p') = received fd (p_trace p) ++ reply ∧ Z.of_nat (List.length reply) = nbytes
  | Exit st => st = 1
  | UB => MAXN < nbytes
  | NoFuel => (fuel ≤ Z.to_nat nbytes + interrupted (p_trace p'))%nat
  | Abort => False
  end.
Lemma client_exchange_post fuel fd nbytes p : 0 ≤ nbytes < 2 ^ 31 →
  post (client_exchange fuel fd nbytes) p (exchange_post fuel fd nbytes p).
Proof.
  intros Hn. unfold client_exchange. cbn zeta.
  assert (Hexit : ∀ A msg q (k : A → proc → Prop), post (err_sys msg) q (through (exchange_post fuel fd nbytes p) k)).
  { intros A msg q k. eapply post_weaken; [apply err_sys_exits|]. by intros o p' [-> _]. }
  set (req := to_bytes (client_request nbytes)).
  apply post_bind. unfold Write. apply post_bind, post_syscall; [intros m _|intros e _]; cbn [through]; [|apply Hexit].
  destruct (Z.eqb_spec m (Z.of_nat (List.length req))) as [->|_]; [|apply Hexit].
  apply post_ret. cbn [through]. set (p1 := add_event _ _ p).
  assert (Hw1 : written fd (p_trace p1) = written fd (p_trace p) ++ req).
  { unfold p1. cbn [add_event p_trace written written1]. by rewrite Z.eqb_refl, Nat2Z.id, firstn_all. }
  assert (Hr1 : received fd (p_trace p1) = received fd (p_trace p)) by (cbn; by rewrite app_nil_r).
  assert (Hu : u64 nbytes = nbytes) by (apply Z.mod_small; lia). rewrite Hu.
  apply post_bind. unfold Readn. apply post_bind.
  eapply post_weaken; [exact (post_and _ _ _ _ (readn_correct fuel fd nbytes p1 (proj1 Hn)) (framed_post _ _ p1 (framed_readn fuel fd nbytes)))|].
  intros o p2 [(new & Hr2 & Hlen & Ho) Hw2%(no_write_written fd)]. destruct o as [[bs|]| | | |]; cbn [through]; try done.
  2: { unfold exchange_post. lia. }
  destruct Ho as [-> Ho]. apply post_ret. cbn [through].
  destruct (Z.ltb_spec MAXN (Z.of_nat (List.length new))); [apply post_stop; unfold exchange_post; lia|].
  destruct (Z.eqb_spec (Z.of_nat (List.length new)) nbytes) as [E|_]; cbn [negb].
  2: { eapply post_weaken; [apply err_quit_exits|]. by intros o p' [-> _]. }
  apply post_bind, post_syscall; [intros [] _|intros e _]; cbn [through].
  2: { eapply post_weaken; [apply err_sys_exits|]. by intros o p' [-> _]. }
  apply post_ret. split; [lia|]. cbn [add_event p_trace written written1 received received1]. rewrite !app_nil_r, Hw2, Hw1, Hr2, Hr1.
  split; [done|]. by exists new.
Qed.
End client_facts.

(** What a client asks for is what [web_child] understands. *)
Lemma client_request_valid n : 0 < n ≤ MAXN →
  valid (to_bytes (client_request n)) ∧ request (to_bytes (client_request n)) = n ∧
  ∃ digits, to_bytes (client_request n) = digits ++ [NEWLINE] ∧ NEWLINE ∉ digits.
Proof.
  intros Hn.
  pose (ok := λ n, (request (to_bytes (client_request n)) =? n) &&
     bool_decide (last (to_bytes (client_request n)) = Some NEWLINE ∧ NEWLINE ∉ removelast (to_bytes (client_request n)))).
  assert (H : forallb ok (zseq 1 (Z.to_nat MAXN)) = true) by (vm_compute; reflexivity).
  rewrite forallb_forall in H. specialize (H n). rewrite <- list_elem_of_In, elem_of_zseq in H. specialize (H ltac:(lia)).
  apply andb_true_iff in H as [Hr%Z.eqb_eq [Hl Hd]%bool_decide_eq_true].
  assert (Hne : to_bytes (client_request n) ≠ []) by (by intros E; rewrite E in Hl).
  split; [split; [done|rewrite Hr; lia]|]. split; [done|].
  exists (removelast (to_bytes (client_request n))). split; [|done].
  rewrite (app_removelast_last 0 Hne) at 1. f_equal. f_equal.
  destruct (exists_last Hne) as (l & a & E). rewrite E in *. rewrite last_snoc in Hl. rewrite last_last. congruence.
Qed.

(** ** Handlers that leave descriptors alone *)

Section handlers.
Context {K : Kernel} (fmt_g : spec_float → string).

Lemma framed_on_signal signo handler : framed steady handler → framed steady (on_signal signo handler).
Proof. intros H. unfold on_signal. apply framed_bind; [apply framed_call; intros; exact I|]. intros []; [done|framed_tac]. Qed.
Lemma framed_sig_chld fuel : framed steady (sig_chld fuel).
Proof.
  induction fuel as [|f IH]; cbn [sig_chld]; [framed_tac|]. apply framed_bind; [framed_tac|].
  intros [[pid st]|]; [case_match; [exact IH|framed_tac]|framed_tac].
Qed.
Lemma framed_sig_int_alone : framed steady (sig_int_alone fmt_g).
Proof.
  assert (Hq : ∀ e, quiet e → steady e) by (intros [A c a] H; by destruct c).
  unfold sig_int_alone, pr_cpu_time, or_err_sys, printf.
  repeat first [apply framed_err_sys, Hq | progress framed_tac].
Qed.
End handlers.

(** ** Properties *)

(** C13: every child and thread does rounds: it shows one connection after the other, each
    accepted, served to the end of its stream and closed before the next; where there is a lock it is
    taken before [accept] and given back after it, before the first byte of the connection is read.  What is
    served is the specification [service]: each line that comes in is answered, before the next is read, by
    exactly the bytes it asks for.  A child that stops does so within a round, by [exit(1)] after its
    report; one that counts has counted exactly its
    connections, and its only undefined behaviour is a counter at LONG_MAX.  Fuel runs out only on
    a client that goes on sending or on interrupted calls.  The function that serves is one that meets
    the interface [Service], as both versions of [web_child] do, and the lock one that meets
    [LockLaws], as both locks do; the listening descriptor of child02l.c is below FD_SETSIZE. *)
Theorem children_rounds (K : Kernel) (A : Type) (J : A → Prop) result fuel serve (HS : Service J result fuel serve)
    (L : Lock) (LL : LockLaws L) lfd mlock turns addrlen i n s :
  J s →
  does_rounds lfd fuel result plain_start (uncounted J) never turns (child02_main serve fuel lfd turns addrlen s) ∧
  (lfd < FD_SETSIZE →
   does_rounds lfd fuel result plain_start (λ _ s, J s.2) never turns (child02l_main serve fuel lfd turns addrlen s)) ∧
  does_rounds lfd fuel result plain_start (counted J n) (overflows n) turns (child02m_main serve fuel lfd turns addrlen (n, s)) ∧
  does_rounds lfd fuel result locked_start (uncounted J) never turns (child03_main serve fuel lfd turns addrlen s) ∧
  does_rounds lfd fuel result locked_start (uncounted J) never turns (child04_main serve fuel lfd turns addrlen s) ∧
  does_rounds lfd fuel result locked_start (counted J n) (overflows n) turns (child03m_main serve fuel lfd turns addrlen (n, s)) ∧
  does_rounds lfd fuel result locked_start (counted J n) (overflows n) turns (pthread07_main serve fuel lfd mlock turns addrlen i (n, s)) ∧
  does_rounds lfd fuel result plain_start (counted J n) (overflows n) turns (pthread09_main serve fuel lfd turns addrlen i (n, s)).
Proof.
  intros Hs. split_and!.
  - by apply child02_does.
  - intros Hfd. by apply child02l_does.
  - by apply (counting_does J).
  - by apply child03_does.
  - by apply child03_does.
  - by apply (counting_locked_does J).
  - by apply (counting_locked_does J result fuel serve lfd turns (L := pthread_Lock mlock)).
  - by apply (counting_does J).
Qed.

(** C14: in any interleaving of the histories of the children and threads that use a lock, of
    whatever kernels, clients and implementation of the lock, a process that accepts a connection
    holds the lock, and no other does: so between the moment one takes the lock and
    gives it back, no other accepts.  Of the lock this supposes only that it is not given while
    another live process has it. *)
Theorem accept_exclusive (lfd : Z) (g : list (nat * act)) :
  (∀ i, locked_child lfd (proj i g)) → exclusive g →
  ∀ g1 i connfd g2, g = g1 ++ (i, Accepted connfd) :: g2 →
    holds_lock (proj i g1) = true ∧ ∀ j, j ≠ i → holds_lock (proj j g1) = false.
Proof.
  intros Hkids Hex g1 i connfd g2 Hg.
  assert (Hi : holds_lock (proj i g1) = true).
  { pose proof (locked_child_phases _ _ (Hkids i)) as Hp. rewrite Hg, proj_app, proj_cons_eq in Hp. by apply phases_accept in Hp. }
  split; [done|]. intros j Hj. destruct (holds_lock (proj j g1)) eqn:E; [|done].
  destruct Hj. by apply (exclusive_holders g Hex g1 _ Hg).
Qed.

(** The parent of the concurrent server keeps no connection: whatever signals come, when a turn
    ends it has the descriptors it had at the beginning, and none of the children's; a
    child that is done has ended.  The iterative server too has closed its connection. *)
Theorem serv01_keeps_nothing (K : Kernel) (KAcc : AcceptOk K) (A : Type) fmt_g fuel (serve : Z → A → M A) listenfd s p :
  post (serv01_turn fmt_g fuel serve listenfd s) p (λ o p', ∀ s', o = Ret s' → s' = s ∧ open_fds (p_trace p') = open_fds (p_trace p)) ∧
  ((∀ fd s p, post (serve fd s) p (λ _ p', open_fds (p_trace p') = open_fds (p_trace p))) →
   post (serv00_turn fmt_g fuel serve listenfd s) p (λ o p', ∀ s', o = Ret s' → open_fds (p_trace p') = open_fds (p_trace p))).
Proof.
  split.
  - unfold serv01_turn. apply post_bind. eapply post_weaken; [apply framed_post, framed_on_signal, framed_sig_chld|].
    intros [u|st| | |] p1 (_ & Ho1 & _)%frame_unmoved; cbn [through]; try done.
    apply post_bind. eapply post_weaken; [apply framed_post, framed_on_signal, framed_sig_int_alone|].
    intros [u'|st| | |] p2 (_ & Ho2 & _)%frame_unmoved; cbn [through]; try done.
    apply post_bind, post_syscall; [intros [connfd sa] Hacc|intros e _]; cbn [through].
    + destruct (accept_fresh _ _ _ _ Hacc) as [_ Hfresh]. apply post_bind, post_bind, post_syscall; [intros pid _|intros e _]; cbn [through].
      2: { eapply post_weaken; [apply err_sys_exits|]. by intros o p' [-> _]. }
      apply post_ret. cbn [through]. case_match.
      * apply post_bind. eapply post_weaken; [apply post_true|]. intros [] p3 _; cbn [through]; try done.
        apply post_bind. eapply post_weaken; [apply post_true|]. by intros [] p4 _.
      * apply post_bind, post_bind, post_syscall; [intros [] _|intros e _]; cbn [through].
        2: { eapply post_weaken; [apply err_sys_exits|]. by intros o p' [-> _]. }
        apply post_ret. cbn [through]. apply post_ret. intros s' [= <-]. split; [done|]. cbn. set_solver.
    + apply post_bind, post_get_errno. cbn [through]. case_match.
      * apply post_ret. intros s' [= <-]. split; [done|]. cbn. congruence.
      * eapply post_weaken; [apply err_sys_exits|]. by intros o p' [-> _].
  - intros Hserve. unfold serv00_turn. apply post_bind. eapply post_weaken; [apply framed_post, framed_on_signal, framed_sig_int_alone|].
    intros [u'|st| | |] p2 (_ & Ho2 & _)%frame_unmoved; cbn [through]; try done.
    apply post_bind. eapply post_weaken.
    { apply (Accept_run unmoved listenfd fuel p2) with (k := fuel); [intros; apply unmoved_abort|done|lia|lia]. }
    intros [[connfd sa]|st| | |] p3 [_ Ho]; cbn [through]; try done. destruct Ho as (p4 & (_ & Ho4 & _) & Hacc & ->).
    destruct (accept_fresh _ _ _ _ Hacc) as [_ Hfresh].
    apply post_bind. eapply post_weaken; [apply Hserve|]. intros [s'|st| | |] p5 Ho5; cbn [through]; try done.
    apply post_bind, post_bind, post_syscall; [intros [] _|intros e _]; cbn [through].
    2: { eapply post_weaken; [apply err_sys_exits|]. by intros o p' [-> _]. }
    apply post_ret. cbn [through]. apply post_ret. intros s2 _. cbn in *. set_solver.
Qed.

(** C16: Control-C ends the preforked servers.  The parent knows every child it has made, in the
    order of the forks; the handler sends SIGTERM to each of them once, then takes the
    status of its children until there is none, within as many turns as are left, and exits: with 0 only when
    [wait] has said that there is no child, else with 1 after a report. *)
Theorem sig_int_reaps (K : Kernel) (KW : WaitOk K) fmt_g fuel (child_main : nat → M Z) n i counts p p1 pids :
  alive (p_trace p) = 0 → (n < fuel)%nat →
  make_all (λ i, fork_child (child_main i)) n i p = (Ret pids, p1) →
  seen proc1 (p_trace p1) = seen proc1 (p_trace p) ++ (Forked <$> pids) ∧ List.length pids = n ∧ alive (p_trace p1) = Z.of_nat n ∧
  post (sig_int02 fmt_g fuel pids) p1 (reap_post pids p1) ∧
  post (sig_int03 fmt_g fuel pids) p1 (reap_post pids p1) ∧
  post (sig_int04 fmt_g fuel pids) p1 (reap_post pids p1) ∧
  post (sig_int02m fmt_g fuel pids counts) p1 (reap_post pids p1) ∧
  post (sig_int03m fmt_g fuel pids counts) p1 (reap_post pids p1) ∧
  (∀ cptr, child_pid <$> cptr = pids → post (sig_int05 fmt_g fuel cptr) p1 (reap_post pids p1)).
Proof.
  intros Ha Hn Hm. pose proof (make_all_post child_main n i p) as Hp. unfold post in Hp at 1. rewrite Hm in Hp.
  destruct (Hp pids eq_refl) as (Hs & Hl & _ & Ha1). rewrite Ha in Ha1. split; [done|]. split; [done|]. split; [lia|].
  split_and!; try (apply reap_plain; lia); try (apply reap_counts; lia). intros cptr <-. apply reap_counts. lia.
Qed.

(** The client and the server understand each other: what a client writes for [n] bytes is one
    line that the server takes as a request for exactly [n], for every [n] that it serves; the
    client comes back from the exchange only with the [nbytes] bytes it asked for.  A
    request for more than [MAXN] is not refused by the client, whose array has room for that many only. *)
Theorem client_served (K : Kernel) (KOk : ReadWriteOk K) fuel fd nbytes p :
  0 ≤ nbytes < 2 ^ 31 →
  post (client_exchange fuel fd nbytes) p (exchange_post fuel fd nbytes p) ∧
  (0 < nbytes ≤ MAXN → valid (to_bytes (client_request nbytes)) ∧ request (to_bytes (client_request nbytes)) = nbytes ∧
     ∃ digits, to_bytes (client_request nbytes) = digits ++ [NEWLINE] ∧ NEWLINE ∉ digits).
Proof. intros Hn. split; [by apply client_exchange_post|apply client_request_valid]. Qed.

(** ** Witnesses *)

Definition lock3 : lock_file := LockFile 3 (Flock F_WRLCK SEEK_SET 0 0) (Flock F_UNLCK SEEK_SET 0 0).
Definition serve3 (fd : Z) (s : rl) : @M rl := web_child (K := clients) 20 fd [1; 2; 3; 4] s.
Definition clients_service : Service (K := clients) between [1; 2; 3; 4] 20 serve3 :=
  web_child_service (KOk := proj1 clients_ok) 20 [1; 2; 3; 4].
Definition lock3_laws : LockLaws (K := clients) (fcntl_Lock (K := clients) lock3) :=
  fcntl_lock_laws (K := clients) lock3 (conj eq_refl eq_refl).
Lemma rl0_between : between rl0.
Proof. split; [apply rl0_ok|reflexivity]. Qed.

(** What the served connection [fd] shows in these rounds. *)
Definition round3 (fd : Z) : list act := locked_start fd ++ [Input fd three; Output fd [1; 2; 3]; Input fd []] ++ closing fd.
Lemma children_rounds_witness :
  does_rounds (K := clients) 3 20 [1; 2; 3; 4] locked_start (uncounted between) never 2
    (child03_main (K := clients) serve3 20 3 (L := fcntl_Lock (K := clients) lock3) 2 16 rl0) ∧
  seen (act1 3) (p_trace (child03_main (K := clients) serve3 20 3 (L := fcntl_Lock (K := clients) lock3) 2 16 rl0 proc0).2) =
    round3 4 ++ round3 11.
Proof.
  split; [|vm_compute; reflexivity].
  destruct (children_rounds clients rl _ [1; 2; 3; 4] 20 serve3 clients_service (fcntl_Lock (K := clients) lock3) lock3_laws 3 5 2 16 0 0 rl0 rl0_between)
    as (_ & _ & _ & H & _). exact H.
Defined.

Definition run3 (turns : nat) : list act :=
  life_of 3 (child03_main (K := clients) serve3 20 3 (L := fcntl_Lock (K := clients) lock3) turns 16 rl0) proc0.
Lemma run3_child turns : locked_child 3 (run3 turns).
Proof. apply (is_child03 3 clients rl _ _ 20 serve3 clients_service _ lock3_laws); [apply rl0_between|done]. Qed.

(** Two children that serve a connection each, the second accepting while the first serves. *)
Definition two_children : list (nat * act) :=
  [(0%nat, Acquire); (0%nat, Accepted 4); (0%nat, Release); (1%nat, Acquire); (1%nat, Accepted 4); (0%nat, Input 4 three);
   (0%nat, Output 4 [1; 2; 3]); (1%nat, Release); (0%nat, Input 4 []); (1%nat, Input 4 three); (0%nat, Closed 4);
   (1%nat, Output 4 [1; 2; 3]); (1%nat, Input 4 []); (1%nat, Closed 4)].
Lemma accept_exclusive_witness :
  holds_lock (proj 1 (take 4 two_children)) = true ∧ holds_lock (proj 0 (take 4 two_children)) = false.
Proof.
  assert (Hkids : ∀ i, locked_child 3 (proj i two_children)).
  { intros [|[|i]].
    - replace (proj 0 two_children) with (run3 1) by (vm_compute; reflexivity). apply run3_child.
    - replace (proj 1 two_children) with (run3 1) by (vm_compute; reflexivity). apply run3_child.
    - replace (proj (S (S i)) two_children) with (run3 0) by (vm_compute; reflexivity). apply run3_child. }
  assert (Hex : exclusive two_children).
  { intros g1 i g2 Hg j Hj. unfold two_children in Hg.
    do 15 (destruct g1 as [|? g1]; simplify_eq/=; try solve [destruct j as [|[|j]]; done]). }
  destruct (accept_exclusive 3 two_children Hkids Hex (take 4 two_children) 1 4 (drop 5 two_children) eq_refl) as [H1 H2].
  split; [exact H1|apply (H2 0%nat); lia].
Defined.

(** Two children that [wait] returns, then no more. *)
Definition parenting : Kernel := λ A t c,
  (match c in sys A return A → A with
   | sys_fork => λ _, Ok (100 + Z.of_nat (List.length t))
   | sys_wait => λ _, if 0 <? alive t then Ok (100, 0) else Err ECHILD
   | _ => λ a, a
   end) (plain t c).
Lemma parenting_ok : WaitOk parenting.
Proof. split. intros t pid st. unfold answer, parenting. destruct (Z.ltb_spec 0 (alive t)); [|done]. by intros [= <- _]. Qed.
Lemma sig_int_reaps_witness :
  match make_all (λ _, fork_child (K := parenting) (mret 0)) 2 0 proc0 with
  | (Ret pids, p1) => pids = [100; 101] ∧ post (sig_int02 (K := parenting) (λ _, "0"%string) 5 pids) p1 (reap_post pids p1) ∧
      (sig_int02 (K := parenting) (λ _, "0"%string) 5 pids p1).1 = Exit 0
  | _ => False
  end.
Proof.
  destruct (make_all (λ _, fork_child (K := parenting) (mret 0)) 2 0 proc0) as [o p1] eqn:E.
  assert (Ho : o = Ret [100; 101]) by (vm_compute in E; by simplify_eq). subst o.
  split; [done|]. split.
  - apply (sig_int_reaps parenting parenting_ok (λ _, "0"%string) 5 (λ _, mret 0) 2 0 [] proc0 p1 [100; 101]); [reflexivity|lia|exact E].
  - vm_compute in E. simplify_eq. vm_compute. reflexivity.
Defined.

Lemma client_served_witness :
  post (client_exchange (K := tape_kernel (replicate 20 7) 5 []) 20 5 12) proc0 (exchange_post 20 5 12 proc0) ∧
  request (to_bytes (client_request 12)) = 12 ∧
  (client_exchange (K := tape_kernel (replicate 20 7) 5 []) 20 5 12 proc0).1 = Ret tt.
Proof.
  assert (H : 0 ≤ 12 < 2 ^ 31) by lia.
  destruct (client_served _ (tape_ok (replicate 20 7) 5 []) 20 5 12 proc0 H) as [H1 H2].
  split; [exact H1|]. split; [apply H2; unfold MAXN; lia|vm_compute; reflexivity].
Defined.

(** A server that sends all it is asked for overruns the client's array. *)
Example client_overrun :
  (client_exchange (K := tape_kernel (replicate 20000 7) 20000 []) 5 5 20000 proc0).1 = UB.
Proof. vm_compute. reflexivity. Qed.
(** The descriptor that a thread would count past LONG_MAX. *)
Example counter_full : (incr LONG_MAX proc0).1 = UB ∧ (incr 5 proc0).1 = Ret 6.
Proof. split; reflexivity. Qed.
