(* ===== verification/Heartbeat.v ===== *)
(** Heartbeats by out-of-band data: src/unpv13e/oob (heartbeatcli.c, heartbeatserv.c).

    The client sends a probe at every alarm and the server sends it back; each counts its
    alarms since it last heard from the other and ends the process when there are too many.  The
    static variables are a record; a run is the sequence of signals that come, each with its
    handler. *)
From S2P Require Import Prelude Machine Posix Wrap Stream Frame.

Definition SIGURG : Z := 23.
Definition F_SETOWN : Z := 8.
Definition MSG_OOB : Z := 1.
Definition INT_MAX : Z := 2 ^ 31 - 1.

(** [maxn] is [maxnprobes] of the client, [maxnalarms] of the server. *)
Record hb := Hb { servfd : Z; nsec : Z; maxn : Z; nprobes : Z }.
Definition set_nprobes (n : Z) (s : hb) : hb := Hb (servfd s) (nsec s) (maxn s) n.

Section heartbeat.
Context {K : Kernel}.

(** The arguments as the functions adjust them. *)
Definition hb_args (fd nsec_arg maxn_arg n : Z) : hb :=
  let nsec := if nsec_arg <? 1 then 1 else nsec_arg in
  let maxn := if maxn_arg <? nsec then nsec else maxn_arg in
  Hb fd nsec maxn n.

(** [Signal(SIGURG, ...)] and the rest; [sig_urg] and [sig_alrm] are the addresses. *)
Definition hb_start (sig_urg sig_alrm : Z) (s : hb) : M hb :=
  Signal SIGURG sig_urg ;;
  pid ← call sys_getpid;
  Fcntl (servfd s) F_SETOWN pid ;;
  Signal SIGALRM sig_alrm ;;
  call (sys_alarm (nsec s)) ;;
  mret s.

(** [++nprobes]. *)
Definition count_probe (s : hb) : M hb :=
  if nprobes s =? INT_MAX then stop UB else mret (set_nprobes (nprobes s + 1) s).

(** ** heartbeatcli.c *)

Definition heartbeat_cli (sig_urg sig_alrm servfd_arg nsec_arg maxnprobes_arg : Z) : M hb :=
  hb_start sig_urg sig_alrm (hb_args servfd_arg nsec_arg maxnprobes_arg 0).

Definition cli_sig_urg (s : hb) : M hb :=
  n ← syscall (sys_recv (servfd s) 1 MSG_OOB);
  match n with
  | Some _ => mret (set_nprobes 0 s)
  | None =>
      e ← get_errno;
      if negb (e =? EWOULDBLOCK) then err_sys "recv error" else mret (set_nprobes 0 s)
  end.

Definition cli_sig_alrm (s : hb) : M hb :=
  s ← count_probe s;
  if maxn s <? nprobes s then
    call (sys_fputs STDERR_FILENO ("server is unreachable" +:+ nl)) ;;
    exit 0
  else
    Send (servfd s) (to_bytes "1") MSG_OOB ;;
    call (sys_alarm (nsec s)) ;;
    mret s.

(** ** heartbeatserv.c

    [heartbeat_serv] leaves [nprobes] as it is.  [c] is what the variable of [sig_urg]
    holds before [recv], which stores a byte only when there is one. *)

Definition heartbeat_serv (sig_urg sig_alrm servfd_arg nsec_arg maxnalarms_arg nprobes : Z) : M hb :=
  hb_start sig_urg sig_alrm (hb_args servfd_arg nsec_arg maxnalarms_arg nprobes).

Definition serv_sig_urg (c : Z) (s : hb) : M hb :=
  n ← syscall (sys_recv (servfd s) 1 MSG_OOB);
  c ← match n with
      | Some bs => mret (default c (head bs))
      | None =>
          e ← get_errno;
          if negb (e =? EWOULDBLOCK) then err_sys "recv error" else mret c
      end;
  Send (servfd s) [c] MSG_OOB ;;
  mret (set_nprobes 0 s).

Definition serv_sig_alrm (s : hb) : M hb :=
  s ← count_probe s;
  if maxn s <? nprobes s then
    printf ("no probes from client" +:+ nl) ;;
    exit 0
  else
    call (sys_alarm (nsec s)) ;;
    mret s.

(** ** Runs *)

Inductive sig := Urg | Alrm.
Fixpoint hb_run (sig_urg sig_alrm : hb → M hb) (sigs : list sig) (s : hb) : M hb :=
  match sigs with
  | [] => mret s
  | Urg :: sigs' => s ← sig_urg s; hb_run sig_urg sig_alrm sigs' s
  | Alrm :: sigs' => s ← sig_alrm s; hb_run sig_urg sig_alrm sigs' s
  end.
Definition cli_run : list sig → hb → M hb := hb_run cli_sig_urg cli_sig_alrm.
Definition serv_run (c : Z) : list sig → hb → M hb := hb_run (serv_sig_urg c) serv_sig_alrm.
End heartbeat.

(** ** Specification *)

(** The alarms since the last sign of the other side, after [k] of them. *)
Fixpoint silence (k : Z) (sigs : list sig) : Z :=
  match sigs with
  | [] => k
  | Urg :: sigs' => silence 0 sigs'
  | Alrm :: sigs' => silence (k + 1) sigs'
  end.
(** No alarm comes after [m] others in a row. *)
Definition calm (m k : Z) (sigs : list sig) : Prop := ∀ l1 l2, sigs = l1 ++ Alrm :: l2 → silence k l1 < m.

(** What the handlers show. *)
Inductive hb_act := Heard (bs : list Z) | Sent (buf : list Z) | Armed (sec : Z).
Definition hb1 (e : event) : list hb_act :=
  match e with
  | Event c a =>
      match c in sys A return A → list hb_act with
      | sys_recv _ _ flags => λ r, match r with Ok bs => if flags =? MSG_OOB then [Heard bs] else [] | Err _ => [] end
      | sys_send _ buf flags => λ r, match r with Ok _ => if flags =? MSG_OOB then [Sent buf] else [] | Err _ => [] end
      | sys_alarm sec => λ _, [Armed sec]
      | _ => λ _, []
      end a
  end.

(** The possible reactions to a signal: the client's and the server's.  At urgent data the server
    sends the byte it has read, or what its variable held where there was none to read. *)
Definition cli_reacts (s : hb) (x : sig) (r : list hb_act) : Prop :=
  match x with
  | Urg => r = [] ∨ ∃ bs, r = [Heard bs]
  | Alrm => r = [Sent (to_bytes "1"); Armed (nsec s)]
  end.
Definition serv_reacts (c : Z) (s : hb) (x : sig) (r : list hb_act) : Prop :=
  match x with
  | Urg => (∃ b bs, r = [Heard (b :: bs); Sent [b]]) ∨ r = [Heard []; Sent [c]] ∨ r = [Sent [c]]
  | Alrm => r = [Armed (nsec s)]
  end.

(** The results of a run: all the signals handled, each with its reaction, or the end at the
    first alarm after [maxn] others in a row, or at a call that failed. *)
Definition hb_post (reacts : sig → list hb_act → Prop) (s : hb) (sigs : list sig) (o : outcome hb) (new : list hb_act) : Prop :=
  match o with
  | Ret s' => (∃ rs, Forall2 reacts sigs rs ∧ new = mjoin rs) ∧ calm (maxn s) (nprobes s) sigs ∧
      s' = set_nprobes (silence (nprobes s) sigs) s
  | Exit st =>
      ∃ l1 x l2 rs r, sigs = l1 ++ x :: l2 ∧ calm (maxn s) (nprobes s) l1 ∧ Forall2 reacts l1 rs ∧ new = mjoin rs ++ r ∧
      (st = 0 ∧ x = Alrm ∧ maxn s ≤ silence (nprobes s) l1 ∧ r = [] ∨
       st = 1 ∧ ∃ r', reacts x r' ∧ r `prefix_of` r')
  | _ => False
  end.

Lemma quiet_hb e : quiet e → unseen hb1 e.
Proof. destruct e as [A c a]. by destruct c. Qed.

Section facts.
Context {K : Kernel}.

Lemma err_sys_hb {A} msg (Q : outcome A → list hb_act → Prop) : Q (Exit 1) [] → runs hb1 (err_sys msg) Q.
Proof.
  intros HQ. apply runs_unseen; [apply framed_err_sys, quiet_hb|]. intros p.
  eapply post_weaken; [apply err_sys_exits|]. by intros o p' [-> _].
Qed.
Lemma get_errno_hb (Q : outcome Z → list hb_act → Prop) : (∀ e, Q (Ret e) []) → runs hb1 get_errno Q.
Proof. intros HQ p. exists []. rewrite app_nil_r. split; [done|apply HQ]. Qed.

(** A handler: it returns having shown a reaction, or a call failed after part of one. *)
Definition handles (reacts : list hb_act → Prop) (s' : hb) (m : M hb) : Prop :=
  runs hb1 m (λ o new, match o with
    | Ret s1 => s1 = s' ∧ reacts new
    | Exit st => st = 1 ∧ ∃ r, reacts r ∧ new `prefix_of` r
    | _ => False end).
(** The handler of the alarm, which may be the last. *)
Definition alarms (reacts : list hb_act → Prop) (s : hb) (m : M hb) : Prop :=
  if maxn s <? nprobes s + 1 then runs hb1 m (λ o new, o = Exit 0 ∧ new = [])
  else handles reacts (set_nprobes (nprobes s + 1) s) m.

Lemma calm_cons_urg m k sigs : calm m 0 sigs → calm m k (Urg :: sigs).
Proof. intros H l1 l2 E. destruct l1 as [|x l1]; simplify_eq/=. by eapply H. Qed.
Lemma calm_cons_alrm m k sigs : k < m → calm m (k + 1) sigs → calm m k (Alrm :: sigs).
Proof. intros Hk H l1 l2 E. destruct l1 as [|x l1]; simplify_eq/=; [done|]. by eapply H. Qed.

Lemma calm_nil m k : calm m k [].
Proof. intros [|? l1] l2; done. Qed.

(** One more signal at the beginning of a run. *)
Lemma hb_post_cons reacts s s1 x sigs r o new :
  maxn s1 = maxn s → (∀ k, set_nprobes k s1 = set_nprobes k s) → silence (nprobes s) [x] = nprobes s1 →
  (∀ l, calm (maxn s) (nprobes s1) l → calm (maxn s) (nprobes s) (x :: l)) → reacts x r →
  hb_post reacts s1 sigs o new → hb_post reacts s (x :: sigs) o (r ++ new).
Proof.
  intros Hm Hset Hs Hcalm Hr Ho. assert (Hsil : ∀ l, silence (nprobes s) (x :: l) = silence (nprobes s1) l) by (intros l; rewrite <- Hs; by destruct x).
  destruct o as [s2|st| | |]; try done; cbn [hb_post] in *; rewrite ?Hm, ?Hsil in *.
  - destruct Ho as ((rs & Hrs & ->) & Hc & ->). split; [|split; [by apply Hcalm|by rewrite Hset]].
    exists (r :: rs). split; [by constructor|done].
  - destruct Ho as (l1 & y & l2 & rs & r1 & -> & Hc & Hrs & -> & Hend). exists (x :: l1), y, l2, (r :: rs), r1.
    rewrite Hsil. split; [done|]. split; [by apply Hcalm|]. split; [by constructor|]. split; [by rewrite app_assoc|done].
Qed.
Lemma hb_post_fails (reacts : sig → list hb_act → Prop) s x sigs r new :
  reacts x r → new `prefix_of` r → hb_post reacts s (x :: sigs) (Exit 1) new.
Proof.
  intros Hr Hp. exists [], x, sigs, [], new. split; [done|]. split; [apply calm_nil|]. split; [constructor|]. split; [done|].
  right. split; [done|]. by exists r.
Qed.

Lemma hb_run_post (sig_urg sig_alrm : hb → M hb) (reacts : hb → sig → list hb_act → Prop) :
  (∀ s n, reacts (set_nprobes n s) = reacts s) →
  (∀ s, handles (reacts s Urg) (set_nprobes 0 s) (sig_urg s)) →
  (∀ s, maxn s < INT_MAX → nprobes s ≤ maxn s → alarms (reacts s Alrm) s (sig_alrm s)) →
  ∀ sigs s, maxn s < INT_MAX → 0 ≤ nprobes s ≤ maxn s → runs hb1 (hb_run sig_urg sig_alrm sigs s) (hb_post (reacts s) s sigs).
Proof.
  intros Hreact Hurg Halrm sigs. induction sigs as [|x sigs IH]; intros s Hmax Hn; cbn [hb_run].
  { apply runs_ret. split; [by exists []|]. split; [apply calm_nil|by destruct s]. }
  destruct x; apply runs_bind.
  - eapply runs_weaken; [apply Hurg|]. intros o new Ho. destruct o as [s1|st| | |]; cbn [passes]; try done.
    2: { destruct Ho as (-> & r & Hr & Hp). by apply (hb_post_fails _ _ _ _ r). }
    destruct Ho as [-> Hr]. eapply runs_weaken; [apply IH; cbn; lia|]. rewrite Hreact. intros o new' Ho.
    apply (hb_post_cons _ _ (set_nprobes 0 s)); try done. intros l Hl. by apply calm_cons_urg.
  - specialize (Halrm s Hmax ltac:(lia)). unfold alarms in Halrm. destruct (Z.ltb_spec (maxn s) (nprobes s + 1)) as [Hlt|Hge].
    { eapply runs_weaken; [exact Halrm|]. intros o new [-> ->]. cbn [passes]. exists [], Alrm, sigs, [], [].
      split; [done|]. split; [apply calm_nil|]. split; [constructor|]. split; [done|]. left. cbn [silence]. split_and!; done || lia. }
    eapply runs_weaken; [exact Halrm|]. intros o new Ho. destruct o as [s1|st| | |]; cbn [passes]; try done.
    2: { destruct Ho as (-> & r & Hr & Hp). by apply (hb_post_fails _ _ _ _ r). }
    destruct Ho as [-> Hr]. eapply runs_weaken; [apply IH; cbn; lia|]. rewrite Hreact. intros o new' Ho.
    apply (hb_post_cons _ _ (set_nprobes (nprobes s + 1) s)); try done. intros l Hl. apply calm_cons_alrm; [lia|done].
Qed.
End facts.

Section handlers.
Context {K : Kernel}.

Lemma Send_hb fd buf (Q : outcome unit → list hb_act → Prop) :
  Q (Ret tt) [Sent buf] → Q (Exit 1) [Sent buf] → Q (Exit 1) [] → runs hb1 (Send fd buf MSG_OOB) Q.
Proof.
  intros H1 H2 H3. unfold Send. apply runs_bind, runs_syscall; cbn [passes hb1]; [intros n|intros e].
  - rewrite Z.eqb_refl. case_match; [by apply runs_ret|by apply err_sys_hb].
  - by apply err_sys_hb.
Qed.
Lemma count_probe_hb s (k : hb → M hb) (Q : outcome hb → list hb_act → Prop) :
  nprobes s < INT_MAX → runs hb1 (k (set_nprobes (nprobes s + 1) s)) Q → runs hb1 (count_probe s ≫= k) Q.
Proof.
  intros Hn Hk. unfold count_probe. rewrite (proj2 (Z.eqb_neq (nprobes s) INT_MAX)) by lia. by apply runs_bind, runs_ret.
Qed.
Lemma cli_sig_urg_handles s : handles (cli_reacts s Urg) (set_nprobes 0 s) (cli_sig_urg s).
Proof.
  apply runs_bind, runs_syscall; cbn [passes hb1]; [intros bs|intros e].
  - apply runs_ret. split; [done|]. right. by exists bs.
  - apply runs_bind, get_errno_hb. cbn [passes]. intros e'. case_match.
    + apply err_sys_hb. split; [done|]. exists []. split; [by left|done].
    + apply runs_ret. split; [done|]. by left.
Qed.
Lemma serv_sig_urg_handles c s : handles (serv_reacts c s Urg) (set_nprobes 0 s) (serv_sig_urg c s).
Proof.
  assert (Hsend : ∀ before b, serv_reacts c s Urg (before ++ [Sent [b]]) →
    runs hb1 (Send (servfd s) [b] MSG_OOB ;; mret (set_nprobes 0 s)) (λ o new,
      match o with
      | Ret s1 => s1 = set_nprobes 0 s ∧ serv_reacts c s Urg (before ++ new)
      | Exit st => st = 1 ∧ ∃ r, serv_reacts c s Urg r ∧ before ++ new `prefix_of` r
      | _ => False end)).
  { intros before b Hb. apply runs_bind, Send_hb; cbn [passes].
    - by apply runs_ret.
    - split; [done|]. by eexists.
    - split; [done|]. eexists. split; [exact Hb|]. rewrite app_nil_r. by apply prefix_app_r. }
  apply runs_bind, runs_syscall; cbn [passes hb1]; [intros bs|intros e].
  - rewrite Z.eqb_refl. apply runs_bind, runs_ret. cbn [passes app]. destruct bs as [|b bs]; cbn [head default].
    + apply (Hsend [Heard []] c). right. by left.
    + apply (Hsend [Heard (b :: bs)] b). left. by exists b, bs.
  - apply runs_bind, runs_bind, get_errno_hb. cbn [passes app]. intros e'. case_match.
    + apply err_sys_hb. cbn [passes app]. split; [done|]. exists [Sent [c]]. split; [by right; right|apply prefix_nil].
    + apply runs_ret. cbn [passes app]. apply (Hsend [] c). by right; right.
Qed.
Lemma cli_sig_alrm_alarms s : maxn s < INT_MAX → nprobes s ≤ maxn s → alarms (cli_reacts s Alrm) s (cli_sig_alrm s).
Proof.
  intros Hm Hn. unfold alarms, cli_sig_alrm. destruct (Z.ltb_spec (maxn s) (nprobes s + 1)) as [Hlt|Hge].
  - apply count_probe_hb; [lia|]. cbn [set_nprobes maxn nprobes]. rewrite (proj2 (Z.ltb_lt _ _)) by done.
    apply runs_bind, runs_call. cbn [passes]. intros u. by apply runs_stop.
  - unfold handles. apply count_probe_hb; [lia|]. cbn [set_nprobes maxn nprobes servfd nsec]. rewrite (proj2 (Z.ltb_ge _ _)) by lia.
    apply runs_bind, Send_hb; cbn [passes].
    + apply runs_bind, runs_call. cbn [passes hb1]. intros u. apply runs_ret. by split.
    + split; [done|]. eexists. split; [reflexivity|]. by exists [Armed (nsec s)].
    + split; [done|]. eexists. split; [reflexivity|]. apply prefix_nil.
Qed.
Lemma serv_sig_alrm_alarms c s : maxn s < INT_MAX → nprobes s ≤ maxn s → alarms (serv_reacts c s Alrm) s (serv_sig_alrm s).
Proof.
  intros Hm Hn. unfold alarms, serv_sig_alrm. destruct (Z.ltb_spec (maxn s) (nprobes s + 1)) as [Hlt|Hge].
  - apply count_probe_hb; [lia|]. cbn [set_nprobes maxn nprobes]. rewrite (proj2 (Z.ltb_lt _ _)) by done.
    unfold printf, exit. runs_steps; done.
  - unfold handles. apply count_probe_hb; [lia|]. cbn [set_nprobes maxn nprobes servfd nsec]. rewrite (proj2 (Z.ltb_ge _ _)) by lia.
    apply runs_bind, runs_call. cbn [passes hb1]. intros u. apply runs_ret. by split.
Qed.
End handlers.

(** The count is the length of the last row of alarms. *)
Lemma silence_app k l1 l2 : silence k (l1 ++ l2) = silence (silence k l1) l2.
Proof. revert k. induction l1 as [|[] l1 IH]; intros k; [done|apply IH|apply IH]. Qed.
Lemma silence_row l : 0 ≤ silence 0 l ∧
  ∃ l0, l = l0 ++ replicate (Z.to_nat (silence 0 l)) Alrm ∧ (l0 = [] ∨ last l0 = Some Urg).
Proof.
  induction l as [|x l [IH0 (l0 & IH & Hl0)]] using rev_ind; [split; [done|by exists []; split; [|left]]|].
  rewrite silence_app. destruct x; cbn [silence].
  - split; [done|]. exists (l ++ [Urg]). rewrite app_nil_r. split; [done|]. right. apply last_snoc.
  - split; [lia|]. exists l0. split; [|done]. rewrite Z2Nat.inj_add, Nat.add_1_r by lia. rewrite replicate_S_end, app_assoc. by rewrite <- IH.
Qed.

(** ** Properties *)

(** C23: the heartbeats.  Over any sequence of alarms and urgent data, whatever the system answers: the
    client sends one probe and sets one alarm for each alarm; the server sets one for each
    alarm, and sends back the byte for each urgent datum; both reset their count at each sign of the
    other side.  Each ends with status 0 exactly at the first alarm that follows [maxn] alarms in a row
    (since the start, or since the last sign), and otherwise only, with status 1, when a call fails. *)
Theorem heartbeats_correct (K : Kernel) c fd nsec maxn sigs :
  maxn < INT_MAX → nsec < INT_MAX →
  let s := hb_args fd nsec maxn 0 in
  runs hb1 (cli_run sigs s) (hb_post (cli_reacts s) s sigs) ∧
  runs hb1 (serv_run c sigs s) (hb_post (serv_reacts c s) s sigs) ∧
  ∀ l, ∃ l0, l = l0 ++ replicate (Z.to_nat (silence (nprobes s) l)) Alrm ∧ (l0 = [] ∨ last l0 = Some Urg).
Proof.
  intros Hmax Hsec s. assert (Hs : Heartbeat.maxn s < INT_MAX ∧ 0 ≤ nprobes s ≤ Heartbeat.maxn s).
  { unfold s, hb_args. cbn [Heartbeat.maxn nprobes]. unfold INT_MAX in *. destruct (Z.ltb_spec nsec 1); ztest; lia. }
  destruct Hs as [Hs1 Hs2]. split_and!.
  - apply hb_run_post; [done|apply cli_sig_urg_handles|apply cli_sig_alrm_alarms|done|done].
  - apply (hb_run_post _ _ (serv_reacts c)); [done|apply serv_sig_urg_handles|apply serv_sig_alrm_alarms|done|done].
  - intros l. apply silence_row.
Qed.

(** Three alarms without a sign end a client that allows two. *)
Lemma heartbeats_correct_witness :
  let s := hb_args 4 1 2 0 in
  runs hb1 (cli_run (K := plain_kernel) [Alrm; Urg; Alrm; Alrm; Alrm; Urg] s) (hb_post (cli_reacts s) s [Alrm; Urg; Alrm; Alrm; Alrm; Urg]) ∧
  (cli_run (K := plain_kernel) [Alrm; Urg; Alrm; Alrm; Alrm; Urg] s proc0).1 = Exit 0 ∧
  match (cli_run (K := plain_kernel) [Alrm; Alrm; Urg; Alrm; Alrm] s proc0).1 with Ret s' => nprobes s' = 2 | _ => False end.
Proof.
  cbn zeta. split; [|split; vm_compute; reflexivity].
  destruct (heartbeats_correct plain_kernel 0 4 1 2 [Alrm; Urg; Alrm; Alrm; Alrm; Urg] ltac:(unfold INT_MAX; lia) ltac:(unfold INT_MAX; lia)) as [H _].
  exact H.
Defined.

(** With nothing to read, the server sends back whatever its variable holds. *)
Definition would_block : Kernel := λ A t c,
  (match c in sys A return A → A with sys_recv _ _ _ => λ _, Err EWOULDBLOCK | _ => λ a, a end) (plain t c).
Example serv_leak :
  seen hb1 (p_trace (serv_sig_urg (K := would_block) 99 (hb_args 4 1 2 0) proc0).2) = [Sent [99]].
Proof. vm_compute. reflexivity. Qed.
(** [heartbeat_serv] does not reset [nprobes]: called again, it goes on counting. *)
Example serv_second_start :
  match (heartbeat_serv (K := plain_kernel) 1 2 4 1 2 2 proc0).1 with
  | Ret s => (serv_run (K := plain_kernel) 0 [Alrm] s proc0).1 = Exit 0
  | _ => False
  end.
Proof. vm_compute. reflexivity. Qed.
