(* ===== verification/Myopen.v ===== *)
(** A descriptor opened by another program: src/unpv13e/unixdomain (myopen.c, openfile.c,
    mycat.c).

    [my_open] forks; the child becomes the program openfile, which opens the file and passes
    the descriptor back over a stream pipe, or exits with the error.  The parent and the child
    are two runs of the same function, with a system each: what the second relies on is
    what the first shows. *)
From S2P Require Import Prelude Machine Posix Wrap Stream Frame Servers Daemon FdPass Child.

Definition BUFFSIZE : Z := 8192.
Definition O_RDONLY : Z := 0.

(** The macros of <sys/wait.h>. *)
Definition WIFEXITED (status : Z) : bool := Z.land status 127 =? 0.
Definition WEXITSTATUS (status : Z) : Z := Z.land (Z.shiftr status 8) 255.

Section myopen.
Context {K : Kernel}.

(** ** openfile.c *)

Definition exit_errno {A} : M A := e ← get_errno; exit (if 0 <? e then e else 255).
Definition openfile (argv : list string) : M Z :=
  match argv with
  | [_; sockfd; filename; mode] =>
      r ← syscall (sys_open filename (atoi mode) 0);
      match r with
      | None => exit_errno
      | Some fd =>
          n ← write_fd (atoi sockfd) [0] fd;
          if n <? 0 then exit_errno else exit 0
      end
  | _ => err_quit "openfile <sockfd#> <filename> <mode>"
  end.

(** [execl]: the process goes on as the program, with the same descriptors. *)
Definition exec_openfile (args : list string) : M Z :=
  r ← syscall (sys_execl "./openfile" args);
  match r with Some _ => openfile args | None => mret (-1) end.

(** ** myopen.c *)

Definition my_open (pathname : string) (mode : Z) : M Z :=
  '(sockfd0, sockfd1) ← Socketpair AF_LOCAL SOCK_STREAM 0;
  childpid ← Fork;
  if childpid =? 0 then
    Close sockfd0 ;;
    exec_openfile ["openfile"; snprintf 10 (fmt_d sockfd1); pathname; snprintf 10 (fmt_d mode)] ;;
    err_sys "execl error"
  else
    Close sockfd1 ;;
    '(_, status) ← Waitpid childpid 0;
    if negb (WIFEXITED status) then err_quit "child did not terminate"
    else
      let status := WEXITSTATUS status in
      fd ← (if status =? 0 then
              '(_, _, fd) ← Read_fd sockfd0 1 None;
              match fd with Some fd => mret fd | None => stop UB end
            else
              set_errno status ;;
              mret (-1));
      Close sockfd0 ;;
      mret fd.

(** ** mycat.c *)

Fixpoint cat_loop (fuel : nat) (fd : Z) : M unit :=
  match fuel with
  | O => stop NoFuel
  | S f =>
      buff ← Read fd BUFFSIZE;
      if 0 <? Z.of_nat (List.length buff) then Write STDOUT_FILENO buff ;; cat_loop f fd
      else mret tt
  end.
Definition mycat (fuel : nat) (argv : list string) : M unit :=
  match argv with
  | [_; pathname] =>
      fd ← my_open pathname O_RDONLY;
      if fd <? 0 then err_sys ("cannot open " +:+ pathname)
      else cat_loop fuel fd ;; exit 0
  | _ => err_quit "usage: mycat <pathname>"
  end.
End myopen.

(** ** Numbers through their text *)

Lemma digit_char_digit d : 0 ≤ d < 10 → isdigit (digit_char d) = true ∧ ord (digit_char d) - 48 = d.
Proof.
  intros Hd. assert (H : (λ d, isdigit (digit_char d) && (ord (digit_char d) - 48 =? d)) d = true).
  { apply (zrange_forall (λ d, isdigit (digit_char d) && (ord (digit_char d) - 48 =? d)) 10); [reflexivity|done]. }
  cbn beta in H. apply andb_true_iff in H as [H1 H2%Z.eqb_eq]. done.
Qed.
Lemma fmt_digits_value fuel n s : 0 ≤ n < 10 ^ Z.of_nat fuel →
  ∃ k, 0 ≤ k ∧ ∀ acc, digits_value acc (fmt_digits fuel 10 n s) = digits_value (acc * 10 ^ k + n) s.
Proof.
  revert n s. induction fuel as [|f IH]; intros n s Hn.
  { exists 0. split; [done|]. intros acc. cbn in Hn |- *. f_equal. lia. }
  cbn [fmt_digits]. destruct (digit_char_digit (n mod 10)) as [Hd Hv]; [apply Z.mod_pos_bound; lia|].
  assert (Hone : ∀ acc, digits_value acc (String (digit_char (n mod 10)) s) = digits_value (acc * 10 + n mod 10) s).
  { intros acc. cbn [digits_value]. by rewrite Hd, Hv. }
  destruct (Z.ltb_spec n 10).
  - exists 1. split; [done|]. intros acc. rewrite Hone. f_equal. rewrite Z.mod_small by lia. lia.
  - destruct (IH (n / 10) (String (digit_char (n mod 10)) s)) as (k & Hk & Hval).
    { rewrite Nat2Z.inj_succ, Z.pow_succ_r in Hn by lia. split; [apply Z.div_pos; lia|]. apply Z.div_lt_upper_bound; lia. }
    exists (k + 1). split; [lia|]. intros acc. rewrite Hval, Hone. f_equal. rewrite Z.pow_add_r by lia.
    pose proof (Z.div_mod n 10 ltac:(lia)). lia.
Qed.
Lemma fmt_digits_first fuel n s : 0 ≤ n < 10 ^ Z.of_nat fuel → (0 < fuel)%nat →
  ∃ c s', fmt_digits fuel 10 n s = String c s' ∧ isdigit c = true.
Proof.
  revert n s. induction fuel as [|f IH]; intros n s Hn Hf; [lia|]. cbn [fmt_digits].
  destruct (digit_char_digit (n mod 10)) as [Hd _]; [apply Z.mod_pos_bound; lia|].
  destruct (Z.ltb_spec n 10); [by eexists _, _|].
  destruct f as [|f]; [cbn in Hn; lia|]. apply IH; [|lia].
  rewrite Nat2Z.inj_succ, Z.pow_succ_r in Hn by lia. split; [apply Z.div_pos; lia|]. apply Z.div_lt_upper_bound; lia.
Qed.
Lemma strtol10_digits c s : isdigit c = true →
  strtol10 (String c s) = Z.max (- 2 ^ 63) (Z.min (2 ^ 63 - 1) (digits_value 0 (String c s))).
Proof. intros Hc. destruct c as [[] [] [] [] [] [] [] []]; try done. Qed.
Lemma atoi_fmt_d n : 0 ≤ n < 2 ^ 31 → atoi (fmt_d n) = n.
Proof.
  intros Hn. unfold fmt_d. rewrite (proj2 (Z.ltb_ge n 0)) by lia. unfold fmt_u, atoi.
  destruct (fmt_digits_first 64 n "") as (c & s & E & Hc); [lia|lia|].
  destruct (fmt_digits_value 64 n "") as (k & _ & Hv); [lia|]. specialize (Hv 0). rewrite E in *.
  rewrite strtol10_digits, Hv by done. cbn [digits_value]. rewrite Z.mul_0_l, Z.add_0_l, Z.min_r, Z.max_r by lia.
  unfold i32. rewrite Z.mod_small by lia. lia.
Qed.

Lemma decimal_length fuel n s k : 0 ≤ n < 10 ^ Z.of_nat k → (1 ≤ k ≤ fuel)%nat →
  (String.length (fmt_digits fuel 10 n s) ≤ k + String.length s)%nat.
Proof.
  revert n s k. induction fuel as [|f IH]; intros n s k Hn Hk; [lia|]. cbn [fmt_digits].
  destruct (Z.ltb_spec n 10); [cbn [String.length]; lia|].
  destruct k as [|[|k]]; [lia|cbn in Hn; lia|].
  etransitivity; [apply (IH _ _ (S k)); [|lia]|cbn [String.length]; lia].
  rewrite Nat2Z.inj_succ, Z.pow_succ_r in Hn by lia. split; [apply Z.div_pos; lia|]. apply Z.div_lt_upper_bound; lia.
Qed.
(** An argument that fits is not cut. *)
Lemma snprintf_fmt_d n : 0 ≤ n < 10 ^ 9 → snprintf 10 (fmt_d n) = fmt_d n.
Proof.
  intros Hn. unfold snprintf. apply str_take_all. unfold fmt_d. rewrite (proj2 (Z.ltb_ge n 0)) by lia.
  pose proof (decimal_length 64 n "" 9 ltac:(lia) ltac:(lia)) as H. unfold fmt_u. cbn [String.length] in H. lia.
Qed.

(** ** What the child shows *)

(** The answers to [open]. *)
Definition open1 (e : event) : list (string * Z * res Z) :=
  match e with
  | Event c a =>
      match c in sys A return A → list (string * Z * res Z) with
      | sys_open path oflag _ => λ r, [(path, oflag, r)]
      | _ => λ _, []
      end a
  end.
Definition errno_status (e : Z) : Z := if 0 <? e then e else 255.

(** The child ends by [exit]: with 0 when the file is open and its descriptor is in a message on
    [sockfd], with the error of [open] when it is not, with that of a later failure, or
    with 1 before [open]. *)
Definition child_ends (pathname : string) (mode sockfd : Z) (p : proc) (o : outcome Z) (p' : proc) : Prop :=
  ∃ st, o = Exit st ∧
  ((st = 1 ∧ seen open1 (p_trace p') = seen open1 (p_trace p)) ∨
   (∃ e, st = errno_status e ∧ seen open1 (p_trace p') = seen open1 (p_trace p) ++ [(pathname, mode, Err e)]) ∨
   ∃ fd, seen open1 (p_trace p') = seen open1 (p_trace p) ++ [(pathname, mode, Ok fd)] ∧
     ((∃ e, st = errno_status e) ∨
      st = 0 ∧ messages (p_trace p') = (sockfd, [0], CMsg CMSG_LEN_INT SOL_SOCKET SCM_RIGHTS fd []) :: messages (p_trace p))).

(** sendmsg(2): a byte at least is sent. *)
Class SendmsgOk (K : Kernel) : Prop := {
  sendmsg_some : ∀ t fd buf ctl n, buf ≠ [] → answer t (sys_sendmsg_ctl fd buf ctl) = Ok n → 0 < n ≤ Z.of_nat (List.length buf)
}.

Lemma quiet_no_open e : quiet e → unseen open1 e.
Proof. destruct e as [A c a]. by destruct c. Qed.

Section child.
Context {K : Kernel} {KS : SendmsgOk K}.

Lemma fails_before {A} msg pathname mode sockfd p p1 (k : A → proc → Prop) :
  seen open1 (p_trace p1) = seen open1 (p_trace p) → post (err_sys msg) p1 (through (child_ends pathname mode sockfd p) k).
Proof.
  intros Hs. eapply post_weaken; [exact (post_and _ _ _ _ (err_sys_exits msg p1) (framed_post _ _ p1 (framed_err_sys _ quiet_no_open msg)))|].
  intros o p' [[-> _] Hf%frame_seen]. cbn [through]. exists 1. split; [done|]. left. by rewrite Hf.
Qed.
Lemma exit_errno_post {A B} p (k : A → proc → Prop) (Q : outcome B → proc → Prop) :
  Q (Exit (errno_status (p_errno p))) p → post (exit_errno) p (through Q k).
Proof. done. Qed.

Lemma openfile_post name pathname mode sockfd p0 p (k : Z → proc → Prop) :
  0 ≤ sockfd < 10 ^ 9 → 0 ≤ mode < 10 ^ 9 →
  seen open1 (p_trace p) = seen open1 (p_trace p0) → messages (p_trace p) = messages (p_trace p0) →
  post (openfile [name; fmt_d sockfd; pathname; fmt_d mode]) p (through (child_ends pathname mode sockfd p0) k).
Proof.
  intros Hsock Hmode Ho Hm. unfold openfile. rewrite !atoi_fmt_d by lia.
  apply post_bind, post_syscall; [intros fd _|intros e _]; cbn [through].
  - unfold write_fd. apply post_bind, post_bind, post_syscall; [intros n Hn|intros e _]; cbn [through].
    + apply sendmsg_some in Hn; [|done]. apply post_ret. cbn [through]. rewrite (proj2 (Z.ltb_ge n 0)) by lia.
      apply post_stop. exists 0. split; [done|]. right. right. exists fd. cbn [add_event p_trace seen open1]. rewrite Ho, app_nil_r.
      split; [done|]. right. split; [done|]. unfold messages in *. cbn. rewrite Hm.
      cbn in Hn. assert (n = 1) as -> by lia. done.
    + apply post_ret. cbn [through Z.ltb Z.compare]. apply exit_errno_post. eexists. split; [reflexivity|]. right. right. exists fd.
      cbn [add_event with_errno p_trace seen open1]. rewrite Ho, app_nil_r. split; [done|]. left. by eexists.
  - apply exit_errno_post. eexists. split; [reflexivity|]. right. left. exists e.
    cbn [add_event with_errno p_trace p_errno seen open1]. by rewrite Ho.
Qed.

Lemma my_open_child pathname mode p a b :
  0 ≤ b < 10 ^ 9 → 0 ≤ mode < 10 ^ 9 →
  answer (p_trace p) (sys_socketpair AF_LOCAL SOCK_STREAM 0) = Ok (a, b) → (∀ t, answer t sys_fork = Ok 0) →
  post (my_open pathname mode) p (child_ends pathname mode b p).
Proof.
  intros Hb Hmode Hpair Hfork. unfold my_open.
  apply post_bind, post_bind, post_syscall; rewrite Hpair; [intros r [= <-]|done]. cbn [through]. apply post_ret. cbn [through].
  apply post_bind, post_bind, post_syscall; rewrite Hfork; [intros r [= <-]|done]. cbn [through]. apply post_ret. cbn [through Z.eqb].
  apply post_bind, post_bind, post_syscall; [intros [] _|intros e _]; cbn [through].
  2: { apply fails_before. cbn. by rewrite !app_nil_r. }
  apply post_ret. cbn [through]. rewrite !snprintf_fmt_d by done.
  apply post_bind. unfold exec_openfile. apply post_bind, post_syscall; [intros u _|intros e _]; cbn [through].
  - apply openfile_post; [done|done|cbn; by rewrite !app_nil_r|done].
  - apply post_ret. cbn [through].
    eapply post_weaken; [apply (fails_before "execl error" pathname mode b p _ (λ _ _, False)); cbn; by rewrite !app_nil_r|].
    by intros [] p'.
Qed.
End child.

(** ** The parent *)

(** The system of the parent, where [waitpid] gives the status [st] of the child and [recvmsg] the
    message that waits on the pipe, if there is one, with [newfd] for its descriptor. *)
Record parent_system (K : Kernel) (pid st newfd : Z) (sent : list (Z * list Z * cmsghdr)) : Prop := {
  ps_fork : ∀ t, answer t sys_fork = Ok pid;
  ps_close : ∀ t fd, answer t (sys_close fd) = Ok tt;
  ps_wait : ∀ t, answer t (sys_waitpid pid 0) = Ok (pid, st * 256);
  ps_recv : ∀ t fd m, head sent = Some m → answer t (sys_recvmsg_ctl fd 1) = Ok (delivered 1 newfd m)
}.

Section parent.
Context {K : Kernel}.

Lemma wait_status st : 0 ≤ st < 256 → WIFEXITED (st * 256) = true ∧ WEXITSTATUS (st * 256) = st.
Proof.
  intros Hst. assert (H : (λ st, WIFEXITED (st * 256) && (WEXITSTATUS (st * 256) =? st)) st = true).
  { apply (zrange_forall (λ st, WIFEXITED (st * 256) && (WEXITSTATUS (st * 256) =? st)) 256); [reflexivity|done]. }
  cbn beta in H. apply andb_true_iff in H as [H1 H2%Z.eqb_eq]. done.
Qed.

(** What the parent returns, its error and its descriptors. *)
Lemma my_open_parent pathname mode p a b pid st newfd sent :
  parent_system K pid st newfd sent → 0 < pid → 0 ≤ st < 256 →
  answer (p_trace p) (sys_socketpair AF_LOCAL SOCK_STREAM 0) = Ok (a, b) →
  (st = 0 → ∃ m, head sent = Some m ∧ m.1.2 = [0] ∧ ∃ fd, m.2 = CMsg CMSG_LEN_INT SOL_SOCKET SCM_RIGHTS fd []) →
  post (my_open pathname mode) p (λ o p',
    if st =? 0 then o = Ret newfd ∧ open_fds (p_trace p') = ({[newfd]} ∪ (({[a; b]} ∪ open_fds (p_trace p)) ∖ {[b]})) ∖ {[a]}
    else o = Ret (-1) ∧ p_errno p' = st ∧ open_fds (p_trace p') = (({[a; b]} ∪ open_fds (p_trace p)) ∖ {[b]}) ∖ {[a]}).
Proof.
  intros [Hfork Hclose Hwait Hrecv] Hpid Hst Hpair Hsent. unfold my_open.
  apply post_bind, post_bind, post_syscall; rewrite Hpair; [intros r [= <-]|done]. cbn [through]. apply post_ret. cbn [through].
  apply post_bind, post_bind, post_syscall; rewrite Hfork; [intros r [= <-]|done]. cbn [through]. apply post_ret. cbn [through].
  rewrite (proj2 (Z.eqb_neq pid 0)) by lia.
  apply post_bind, post_bind, post_syscall; rewrite Hclose; [intros r [= <-]|done]. cbn [through]. apply post_ret. cbn [through].
  apply post_bind, post_bind, post_syscall; rewrite Hwait; [intros r [= <-]|done]. cbn [through]. apply post_ret. cbn [through].
  destruct (wait_status st Hst) as [-> ->]. cbn [negb]. cbn zeta.
  destruct (Z.eqb_spec st 0) as [Hz|Hz].
  - destruct (Hsent Hz) as ([[fd1 bs] cm] & Hm & Hbs & fd & Hcm). cbn in Hbs, Hcm. subst bs cm.
    apply post_bind, post_bind. unfold Read_fd, read_fd. apply post_bind, post_bind, post_syscall; rewrite (Hrecv _ _ _ Hm); [intros r [= <-]|done].
    cbn. apply post_bind, post_bind, post_syscall; rewrite Hclose; [intros r [= <-]|done]. cbn [through]. apply post_ret. cbn [through].
    apply post_ret. split; [done|]. cbn [p_trace add_event open_fds open_after cmsg_fds andb Z.eqb]. set_solver.
  - apply post_bind, post_bind, post_set_errno. cbn [through]. apply post_ret. cbn [through].
    apply post_bind, post_bind, post_syscall; rewrite Hclose; [intros r [= <-]|done]. cbn [through]. apply post_ret. cbn [through].
    apply post_ret. done.
Qed.
End parent.

(** ** mycat *)

Section cat.
Context {K : Kernel} {KOk : ReadWriteOk K}.

(** From [p], what was read of [fd] has been written, in order; [Exit 0] at the end of the file. *)
Definition cat_post (fuel : nat) (fd : Z) (p : proc) (o : outcome unit) (p' : proc) : Prop :=
  ∃ new out, received fd (p_trace p') = received fd (p_trace p) ++ new ∧
    written STDOUT_FILENO (p_trace p') = written STDOUT_FILENO (p_trace p) ++ out ∧ out `prefix_of` new ∧
    match o with
    | Ret _ => out = new ∧ at_eof fd (p_trace p')
    | Exit st => st = 1
    | NoFuel => out = new ∧ (fuel ≤ List.length new)%nat
    | _ => False
    end.

Lemma cat_loop_post fuel fd : ∀ p, post (cat_loop fuel fd) p (cat_post fuel fd p).
Proof.
  assert (Hexit : ∀ A msg p p1 new out, received fd (p_trace p1) = received fd (p_trace p) ++ new →
    written STDOUT_FILENO (p_trace p1) = written STDOUT_FILENO (p_trace p) ++ out → out `prefix_of` new →
    ∀ fuel (k : A → proc → Prop), post (err_sys msg) p1 (through (cat_post fuel fd p) k)).
  { intros A msg p p1 new out Hr Hw Hp f k. eapply post_weaken; [apply err_sys_exits|]. intros o p2 [-> Hrep]. cbn [through].
    destruct (reported_streams _ _ fd Hrep) as (E1 & _). destruct (reported_streams _ _ STDOUT_FILENO Hrep) as (_ & E2 & _).
    exists new, out. rewrite E1, E2. done. }
  induction fuel as [|f IH]; intros p; cbn [cat_loop].
  { apply post_stop. exists [], []. rewrite !app_nil_r. split_and!; done. }
  apply post_bind. unfold Read. apply post_bind, post_syscall; [intros bs Hbs|intros e _]; cbn [through].
  2: { apply (Hexit _ _ p _ [] []); [cbn; by rewrite !app_nil_r|cbn; by rewrite !app_nil_r|done]. }
  apply post_ret. cbn [through]. set (p1 := add_event _ _ p).
  assert (Hr1 : received fd (p_trace p1) = received fd (p_trace p) ++ bs) by apply received_read.
  assert (Hw1 : written STDOUT_FILENO (p_trace p1) = written STDOUT_FILENO (p_trace p)) by (cbn; by rewrite app_nil_r).
  destruct (Z.ltb_spec 0 (Z.of_nat (List.length bs))) as [Hlen|Hlen].
  2: { destruct bs; [|cbn in Hlen; lia]. apply post_ret. exists [], []. rewrite Hr1, Hw1, !app_nil_r. split_and!; try done. by eexists _, _. }
  apply post_bind. unfold Write. apply post_bind, post_syscall; [intros n Hn|intros e _]; cbn [through].
  - apply write_at_most in Hn. destruct (Z.eqb_spec n (Z.of_nat (List.length bs))) as [->|Hne].
    + apply post_ret. cbn [through]. eapply post_weaken; [apply IH|]. intros o p' (new & out & Hr & Hw & Hp & Ho).
      cbn [add_event p_trace written written1 received received1] in Hr, Hw.
      rewrite Z.eqb_refl, Nat2Z.id, firstn_all, Hw1, <- app_assoc in Hw. rewrite app_nil_r, Hr1, <- app_assoc in Hr.
      exists (bs ++ new), (bs ++ out). split; [done|]. split; [done|]. split; [by apply prefix_app|].
      destruct o; try done; [destruct Ho as [-> ?]; done|]. destruct Ho as [-> Ho]. split; [done|]. rewrite length_app. lia.
    + apply (Hexit _ _ p _ bs (take (Z.to_nat n) bs)).
      * cbn [add_event p_trace received received1]. by rewrite app_nil_r.
      * cbn [add_event p_trace written written1]. by rewrite Z.eqb_refl, Hw1.
      * by apply prefix_take.
  - apply (Hexit _ _ p _ bs []).
    + cbn [add_event with_errno p_trace received received1]. by rewrite app_nil_r.
    + cbn [add_event with_errno p_trace written written1]. by rewrite !app_nil_r.
    + apply prefix_nil.
Qed.
End cat.

(** ** Properties *)

(** C24: a file opened by another program.  The child, run from the same state on a system of its own, ends by
    [exit]; when it exits with 0 it has opened the file that was named, in the mode that was given, and has sent
    that descriptor over its end of the pipe; when [open] failed it exits with the error.  On the
    system of the parent, where [waitpid] gives that status and [recvmsg] the message that the child sent,
    [my_open] returns the descriptor that the system made of it, and otherwise -1 with [errno] the
    child's error; both ends of the pipe are closed in every case. *)
Theorem my_open_passes (Kc Kp : Kernel) (KS : SendmsgOk Kc) pathname mode p a b pid newfd :
  0 ≤ b < 10 ^ 9 → 0 ≤ mode < 10 ^ 9 → 0 < pid → messages (p_trace p) = [] →
  answer (Kernel := Kc) (p_trace p) (sys_socketpair AF_LOCAL SOCK_STREAM 0) = Ok (a, b) →
  answer (Kernel := Kp) (p_trace p) (sys_socketpair AF_LOCAL SOCK_STREAM 0) = Ok (a, b) →
  (∀ t, answer (Kernel := Kc) t sys_fork = Ok 0) →
  post (my_open (K := Kc) pathname mode) p (λ oc pc, child_ends pathname mode b p oc pc ∧
    ∀ st, oc = Exit st → 0 ≤ st < 256 → parent_system Kp pid st newfd (messages (p_trace pc)) →
    post (my_open (K := Kp) pathname mode) p (λ o p',
      if st =? 0 then
        (∃ fd, seen open1 (p_trace pc) = seen open1 (p_trace p) ++ [(pathname, mode, Ok fd)] ∧
           messages (p_trace pc) = [(b, [0], CMsg CMSG_LEN_INT SOL_SOCKET SCM_RIGHTS fd [])]) ∧
        o = Ret newfd ∧ open_fds (p_trace p') = ({[newfd]} ∪ (({[a; b]} ∪ open_fds (p_trace p)) ∖ {[b]})) ∖ {[a]}
      else o = Ret (-1) ∧ p_errno p' = st ∧ open_fds (p_trace p') = (({[a; b]} ∪ open_fds (p_trace p)) ∖ {[b]}) ∖ {[a]})).
Proof.
  intros Hb Hmode Hpid Hm Hc Hp Hfork. eapply post_weaken; [by apply (my_open_child pathname mode p a b)|]. intros oc pc Hend. split; [done|].
  intros st -> Hst Hsys. destruct Hend as (st' & [= <-] & Hend).
  assert (Hzero : st = 0 → ∃ fd, seen open1 (p_trace pc) = seen open1 (p_trace p) ++ [(pathname, mode, Ok fd)] ∧
    messages (p_trace pc) = [(b, [0], CMsg CMSG_LEN_INT SOL_SOCKET SCM_RIGHTS fd [])]).
  { assert (Hpos : ∀ e, errno_status e ≠ 0) by (intros e; unfold errno_status; destruct (Z.ltb_spec 0 e); lia). intros Hz.
    destruct Hend as [[? _]|[(e & He & _)|(fd & Ho & [(e & He)|[_ Hs]])]]; subst; [done|by destruct (Hpos e)|by destruct (Hpos e)|].
    exists fd. by rewrite Hs, Hm. }
  eapply post_weaken; [apply (my_open_parent pathname mode p a b pid st newfd _ Hsys Hpid Hst Hp)|].
  - intros Hz. destruct (Hzero Hz) as (fd & _ & Hs). rewrite Hs. eexists. split; [done|]. split; [done|]. by exists fd.
  - intros o p'. destruct (Z.eqb_spec st 0) as [Hz|]; [|done]. intros Ho. split; [by apply Hzero|done].
Qed.

(** mycat writes what is in the file, in order and no more, and all of it when it reaches the end; it makes a turn for each
    piece that it reads, so that fuel beyond the length of the file is enough. *)
Theorem cat_loop_copies (K : Kernel) (KOk : ReadWriteOk K) fuel fd p : post (cat_loop fuel fd) p (cat_post fuel fd p).
Proof. apply cat_loop_post. Qed.

(** A child that opens descriptor 5, and its parent, who gets it as 9. *)
Definition opener : Kernel := λ A t c,
  (match c in sys A return A → A with
   | sys_socketpair _ _ _ => λ _, Ok (3, 4)
   | sys_fork => λ _, Ok 0
   | sys_open _ _ _ => λ _, Ok 5
   | _ => λ a, a
   end) (plain t c).
Lemma opener_ok : SendmsgOk opener.
Proof. split. intros t fd [|c buf] ctl n Hb [= <-]; [done|]. cbn [List.length]. lia. Qed.
Definition asker : Kernel := λ A t c,
  (match c in sys A return A → A with
   | sys_socketpair _ _ _ => λ _, Ok (3, 4)
   | sys_fork => λ _, Ok 77
   | sys_waitpid _ _ => λ _, Ok (77, 0)
   | sys_recvmsg_ctl _ n => λ _, Ok (delivered n 9 (4, [0], CMsg CMSG_LEN_INT SOL_SOCKET SCM_RIGHTS 5 []))
   | _ => λ a, a
   end) (plain t c).
Lemma my_open_passes_witness :
  (my_open (K := opener) "motd" 0 proc0).1 = Exit 0 ∧
  post (my_open (K := asker) "motd" 0) proc0 (λ o _, o = Ret 9).
Proof.
  assert (Hc : (my_open (K := opener) "motd" 0 proc0).1 = Exit 0) by (vm_compute; reflexivity). split; [exact Hc|].
  pose proof (my_open_passes opener asker opener_ok "motd" 0 proc0 3 4 77 9 ltac:(lia) ltac:(lia) ltac:(lia) eq_refl eq_refl eq_refl (λ _, eq_refl)) as H.
  unfold post in H at 1. destruct (my_open (K := opener) "motd" 0 proc0) as [oc pc] eqn:E. cbn in Hc. subst oc.
  destruct H as [_ H]. eapply post_weaken; [apply (H 0 eq_refl ltac:(lia))|].
  - split; try done. intros t fd m Hm. vm_compute in E. simplify_eq. vm_compute in Hm. by simplify_eq.
  - intros o p' (_ & Ho & _). exact Ho.
Defined.
Lemma cat_loop_copies_witness :
  post (cat_loop (K := tape_kernel [1; 2; 3] 2 []) 5 9) proc0 (cat_post 5 9 proc0) ∧
  (cat_loop (K := tape_kernel [1; 2; 3] 8192 []) 5 9 proc0).1 = Ret tt.
Proof. split; [apply (cat_loop_copies _ (tape_ok _ _ _))|vm_compute; reflexivity]. Defined.
